(* ===== verification/_CoqProject ===== *)
-Q . S2P
Prelude.v
RustPrim.v
ChronoFmt.v
Json.v
JsonText.v
Config.v
AtbDb.v
BotStore.v
BotSpec.v
BotAdmin.v
Cli.v
MarketApi.v
BotJson.v
GapAnalyzer.v
FetchOhlcv.v
FetchText.v
Reconcile.v
Processes.v
BotTyped.v
Tests.v
