(* ===== verification/Prelude.v ===== *)
(** * A verification development of at-boom (didy-kpn/at-boom, Rust)

    The repository is a small trading-bot back end.  Its parts:
    - [src/app/lib/atb-db/src/lib.rs]: [AtbDB], a pooled SQLite handle with
      the [ohlcv] table operations ([get_last_unixtime_from_ohlcv],
      [delete_ohlcv], [insert_ohlcv_list], [get_ohlcv_list]) and the [bot]
      table CRUD ([insert_bot], [update_bot], [delete_bot], [get_bot],
      [get_bot_for_api], [get_bot_list], the [Bot]/[BotForGet] structs);
    - [src/app/src/fetch-ohlcv-rs/src/main.rs]: the batch job that resolves
      the watermark ([get_ohlcv_setting]), fetches a page of candles from
      cryptowat ([fetch_ohlcv_from_cryptowat]), deletes the boundary row,
      inserts the batch and counts missing buckets
      ([store_ohlcv_to_database]);
    - [src/app/src/market-api-rs/src/main.rs]: the HTTP facade (index,
      OHLCV listing, [POST /bot], [GET /bot/<id>] with an API token);
    - [src/app/src/bot-admin/src/main.rs]: the bot administration CLI
      ([add], [update], [remove], [get], [list] on the [bot] table);
    - [src/app/lib/read-atb-config/src/lib.rs]: [AtbConf], the YAML
      configuration named by [PATH_ATB_CONFIG].

    The three binaries share [AtbDB]: each starts with [AtbDB::connect],
    which reads the configuration; fetch-ohlcv-rs writes the [ohlcv] table,
    market-api-rs reads it and writes/reads the [bot] table, and bot-admin
    writes/reads the [bot] table.  bot-admin and fetch-ohlcv-rs read their
    command line with clap, market-api-rs serves HTTP with actix-web.

    ** Files (in dependency order, one Module per component)
    - [Prelude] (this file): the Rust [result] type, the panic reasons, the
      state/error/panic monad [St] in which the stateful Rust code is written
      (notation [x <- c ;; k] in [rust_scope]), its monad laws, the proof
      tactics and the hint databases [atb]/[atb_rw].
    - [RustPrim]: Module [I64] ([i64] as [Z] with release-mode wrap-around,
      Rust's panicking [/], [str::parse::<i64>], [i64::to_string]), Module
      [F64] (the cast [n as f64]) and Module [Chrono] (the range check of
      [Utc.timestamp]).
    - [ChronoFmt]: chrono's [Display] of a [DateTime<Utc>]: the proleptic
      Gregorian date of a day number by 400-year eras ([date_of_ce]) and the
      text [YYYY-MM-DD hh:mm:ss UTC] ([display_utc]).
    - [Json]: serde_json's [Value] and the accessors the code calls.
    - [JsonText]: JSON as text: [std::str::from_utf8] (UTF-8 validity),
      serde_json's parser ([JsonText.from_str], with its recursion limit,
      number rules and [BTreeMap] objects) and its compact writer (string
      escaping, [itoa] integers, structs and sequences).
    - [Config]: read-atb-config ([Config.load_conf] and the getters) over
      yaml_rust's [Yaml] value, and [AtbDB::connect] ([Config.connect]); the
      process environment (variables, files, pool creation) is the state and
      the YAML scanner the interface [YamlLoader].
    - [AtbDb]: the [ohlcv] table as the list of its rows in rowid order, with
      the SQLite error type, and the four [ohlcv] operations of lib.rs.
    - [BotStore]: the [bot] table of lib.rs: its rows as stdpp [gmap]s from
      column names to SQLite values, the statement text the code renders
      ([render_insert], [render_update]), SQLite's preparation checks,
      parameter binding, column affinity and rowid choice, and the
      conversions [row_to_bot]/[row_to_bot_for_get] with their [unwrap]s.
      The Rust [HashMap] the code iterates is abstracted by the class
      [HashOrder]: any enumeration that is a permutation of the map.
    - [BotSpec]: the contract of the [bot] table as an abstract repository
      on [gmap Z row] (rows by id, no rowid order, no [HashMap] order), the
      record [BotRepo] of the six bot methods the clients call with its
      two instances ([table_repo], [spec_repo]), the requests a process
      serves ([serve_all]) and the refinement of the repository by the
      table.
    - [BotAdmin]: bot-admin's argument handling ([get_config], [_get_option])
      and its five commands against a [world] of the bot table and stdout.
    - [Cli]: clap 2's declarations and parser (Module [Clap]), bot-admin's
      command line ([AdminCli], main.rs 41-149) and fetch-ohlcv-rs's
      ([FetchCli], main.rs 50-75, with the argument [unwrap]s of
      [get_ohlcv_setting]).
    - [MarketApi]: market-api-rs's handlers over a [server] state holding the
      two tables; the HTTP status and JSON body of each response;
      [post_bot_handler] parses the request body as [post_bot] does.
    - [BotJson]: the text [#[derive(Serialize)]] writes for [Bot],
      [BotForGet] and [BotList], the lines bot-admin prints with [--json],
      and how market-api reads such a text back.
    - [GapAnalyzer]: the gap loop of [store_ohlcv_to_database] at [i64] width
      ([Gap.lack_loop]) and its unbounded reference ([Gap.gap_spec]).
    - [FetchOhlcv]: one run of fetch-ohlcv-rs, [main] to exit code, against
      a remote provider interface ([Provider]).
    - [FetchText]: the text of fetch-ohlcv-rs's [println!] lines, dates
      included, and the stdout of a whole run.
    - [Reconcile]: two runs of fetch-ohlcv-rs in sequence (idempotence).
    - [Processes]: market-api-rs's [main], [get_server_config], [run] and
      route table (Module [MarketMain]; a handler's panic drops its
      connection), and the three binaries from
      start-up to exit code (Module [Binaries]): connection, command line,
      run.
    - [BotTyped]: the column types of the [bot] table as an invariant of the
      two programs that write it: [app_step] is one run of bot-admin or one
      request to market-api, [preserves] a property a computation keeps.
    - [Tests]: the [it_works] test modules of read-atb-config and atb-db.

    ** Groups of theorems
    - Primitives: parsing yields in-range [i64]s, printing then parsing is the
      identity ([I64.parse_i64_to_string]), and the printer's digit loop ends
      within its fuel on every [i64] ([I64.i64_to_string_fuel]).
    - [ohlcv] table: the watermark is the maximum; the boundary delete removes
      exactly one row; the batch insert appends every record, or (under a
      unique index) exactly the new buckets, and keeps buckets unique.
    - Gap loop: refinement of [gap_spec] by [lack_loop] on sane input, and
      the count equals the number of missing buckets on a grid-aligned,
      strictly increasing series; a zero period panics.
    - fetch-ohlcv-rs: the boundary correction (the re-fetched candle replaces
      the stored one), the new watermark covers the batch, the no-data and
      fetch-failure exits leave the database unchanged, the epoch default,
      and idempotence of two runs under a unique index (with the duplicate
      rows a rerun leaves without one).
    - Start-up: a configuration fault exits 1 before any database or network
      activity in every binary; [connect(None)] equals [load_conf] then
      [connect(Some ..)]; [connect] panics only in [load_conf], which panics
      on an empty configuration file; market-api-rs binds the configured
      port (whose text parses back to it) and answers every request.
    - Command lines: every command line clap accepts gives the arguments the
      [unwrap]s of [get_config] and [get_ohlcv_setting] read, and
      [fetch-ohlcv-rs EXCHANGE PAIR PERIOD] is read back word for word.
    - [bot] table: the exact effect of [insert_bot]/[update_bot] whatever the
      [HashMap] order (the numbered placeholders make the binding
      order-independent), the well-formedness invariant (integer ids,
      strictly increasing) of every step of [bot_step], insert-then-get,
      delete, and the typing of rows read back: [get_bot_list] succeeds
      exactly when every column holds a value of its declared type.  The
      well-formedness invariant is SQLite's own ([INTEGER PRIMARY KEY]) and
      holds for any statement; the invariant that depends on the code is
      the typing: from a table whose rows and column defaults are typed,
      every table reachable by bot-admin runs and market-api requests stays
      typed, because bot-admin writes its flags as [1]/[0] and market-api
      takes only strings and booleans ([BotTyped.reachable_tables_typed]).
    - Refinement of the [bot] table: every sequence of bot requests on a
      well-formed table answers as the abstract repository and leaves a
      table whose rows by id are the repository's state
      ([BotSpec.serve_all_refines], through the generic simulation lemma
      [BotSpec.serve_all_sim] over [BotRepo]); a well-formed table is
      determined by its abstraction, so the [HashMap] iteration order
      changes neither the answers nor the table
      ([BotSpec.hash_order_irrelevant]).
    - bot-admin and market-api: which commands and requests the code rejects
      or answers with an error (every accepted [add --operation] fails), and
      what the successful ones store; [remove ID] then [get ID] reports
      [QueryReturnedNoRows], proved through the abstract repository; a
      [token] header that is not visible ASCII panics in [_get_token] and
      drops the connection ([MarketMain.get_bot_bad_token_dropped]);
      [GET /ohlcv/..] answers the series of the period's decimal text
      ([MarketMain.get_ohlcv_route]).
    - JSON text: what serde_json writes it reads back (strings with every
      escape, [i64]s, booleans, structs, sequences); every JSON line
      bot-admin prints parses to the [Value] of what it printed
      ([BotJson.printed_json_roundtrip]); the text of a bot posted to
      market-api stores its name, description and flags and drops the rest
      ([BotJson.printed_bot_posted_stores]); a body that is not UTF-8 JSON
      drops the connection and leaves the database as it was
      ([MarketMain.post_bot_malformed_dropped]); the parser never runs
      out of its fuel ([JsonText.from_str_fuel]).

    - Library facts the program relies on (not properties of its own code):
      the JSON parser's fuel, the [i64] parser's range, and the two below.
    - Dates: the calendar chrono prints inverts [Chrono.num_days_from_ce]
      and gives real dates ([ChronoFmt.date_of_ce_correct], checked over one
      era by evaluation and carried to every era by the 400-year period),
      and [Utc.timestamp(t, 0).to_string()] prints the date and time whose
      seconds since 1970 are [t] ([ChronoFmt.display_utc_fields]).
    - Tests: atb-db's test fails in every environment (its assertion is
      [2 + 2 = 3])
      ([Tests.atb_db_test_fails]); read-atb-config's passes exactly when
      [load_conf] does not panic ([Tests.config_test_passes]).

    ** Bounds and fuel
    - [Gap.BOUND = 2^41]: timestamps and periods up to 2^41 s (year 71700)
      keep every intermediate of the loop inside [i64] and inside chrono's
      range; at most 2^19 records keep the running sum [lack] below 2^62.
      Together these are far beyond any real OHLCV page (cryptowat answers
      at most a few thousand candles).
    - [I64.i64_to_string] uses 20 digits of fuel, enough for every [i64]
      (at most 19 digits): [I64.i64_to_string_fuel] proves that any larger
      fuel prints the same text, and [I64.print_parse] that the text parses
      back.
    - serde_json's parser ([JsonText.parse_value] and its list and object
      loops) has fuel twice the length of its input plus two: a value
      consumes at least one byte, a loop hands its input to the value
      parser before consuming, so each byte pays for at most two calls;
      [JsonText.from_str_fuel] proves the parser never runs out of it.
      [JsonText.parse_str] uses the same fuel, one unit per byte.
    - No other definition uses fuel: every other loop of the source is over
      a list.

    ** Modelling choices
    - Integers are kept at their width: every [i64] operation of the source
      is modelled with the wrap-around of a release build (overflow checks
      off); division panics on a zero divisor and on [i64::MIN / -1] as Rust
      does in every profile.
    - A Rust panic is the outcome [Abort] of the monad and keeps the state
      reached so far, because the SQLite writes done before a panic stay
      committed.
    - An [.unwrap()] on [None]/[Err] is a panic; a [?] is an early [Err].
      [HeaderValue::to_str] accepts visible ASCII and tab only
      ([MarketApi.header_str]).
    - [get_ohlcv_list] is written with its row loop ([AtbDb.push_ok]
      skipping the rows whose conversion fails); the rows of the modelled
      [ohlcv] table are numbers, so no row is skipped and [prepare] of the
      fixed [SELECT] succeeds.
    - SQLite's numeric conversion of a bound text in an [INTEGER] column
      follows its rules for numeric literals ([BotStore.sqlite_integer]):
      [' 1'], [1.0] and [1e0] are the integer 1, [1.5] and [abc] are not
      integers.
    - Properties of the SQLite build and of the schema that the repository
      does not fix (the [DELETE ... LIMIT] compile option, a unique index on
      the [ohlcv] bucket, the column defaults of [bot]) are explicit
      parameters of the table state, and theorems state which they need.

    ** What is not modelled
    - Network transport (reqwest, actix's HTTP parsing): the remote
      provider of fetch-ohlcv-rs is an interface answering a status and a
      parsed body ([FetchText.bytes_provider] builds one from the bytes a
      server sends, through [JsonText.from_slice]), and a market-api
      request is its method, path, [token] header and body bytes.
    - serde_json's float printing (ryu) and serde_yaml: the OHLCV response
      body and the [--yaml] output are structured values, not text.
    - The YAML scanner (yaml_rust's [YamlLoader]) and r2d2's pool: the first
      is an interface, the second is modelled only by whether it can be
      created on the database path; [pool.get().unwrap()] is assumed to
      succeed.
    - actix-web's workers: a started server answers its requests one after
      the other; clap's help and error texts and env_logger (they only
      print).
    - Printing is modelled as a list of structured lines; fetch-ohlcv-rs's
      stdout is also rendered as text ([FetchText]), bot-admin's JSON lines
      as the JSON text ([BotJson]), and the [Debug] lines of the tests and
      the [eprintln!] texts of rusqlite's and reqwest's errors are not.
    - The SQL text of the [ohlcv] queries is not parsed; each query is
      modelled by its effect.  The [bot] statements are rendered as text and
      checked, because their shape depends on the input.
    - SQLite's [REAL] storage class: a text that converts to a number that
      is not an integer is kept as the text, which no read of the code can
      tell apart (both fail as [InvalidColumnType], neither equals an
      integer id); and a literal of more than 15 significant digits, which
      SQLite rounds through a double, is compared by its exact value.
    *)

From Stdlib Require Import ZArith List String Lia.
Import ListNotations.

(** ** Rust's [Result] *)

Inductive result (T E : Type) : Type :=
| Ok (t : T)
| Err (e : E).
Arguments Ok {T E} t.
Arguments Err {T E} e.

(** ** Panics: the reasons a Rust program in this repository aborts *)

Inductive panic : Type :=
| PanicUnwrapNone      (* [Option::unwrap] on [None] *)
| PanicUnwrapErr       (* [Result::unwrap] on [Err] *)
| PanicDivByZero       (* [/] by zero *)
| PanicDivOverflow     (* [i64::MIN / -1] *)
| PanicChronoRange     (* [Utc.timestamp] outside chrono's range *)
| PanicIndex           (* slice index out of bounds *)
| PanicAssert.         (* [assert_eq!] with unequal sides *)

(** ** Outcomes and the state monad *)

Inductive run (E A : Type) : Type :=
| Ret (a : A)
| Throw (e : E)
| Abort (p : panic).
Arguments Ret {E A} a.
Arguments Throw {E A} e.
Arguments Abort {E A} p.

(** A computation over a state [S] that may return, return an [Err] through
    [?], or panic; the state is kept in every case. *)
Definition St (S E A : Type) : Type := S -> run E A * S.

Section Monad.
Context {S E : Type}.

Definition ret {A} (a : A) : St S E A := fun s => (Ret a, s).
Definition throw {A} (e : E) : St S E A := fun s => (Throw e, s).
Definition abort {A} (p : panic) : St S E A := fun s => (Abort p, s).
Definition get : St S E S := fun s => (Ret s, s).
Definition put (s' : S) : St S E unit := fun _ => (Ret tt, s').
Definition modify (f : S -> S) : St S E unit := fun s => (Ret tt, f s).

Definition bind {A B} (c : St S E A) (k : A -> St S E B) : St S E B :=
  fun s =>
    match c s with
    | (Ret a, s') => k a s'
    | (Throw e, s') => (Throw e, s')
    | (Abort p, s') => (Abort p, s')
    end.

(** [?] on a Rust [Result] whose error converts to [E]. *)
Definition try_result {A E'} (conv : E' -> E) (r : result A E') : St S E A :=
  match r with
  | Ok a => ret a
  | Err e => throw (conv e)
  end.

(** [.unwrap()] on an [Option] and on a [Result]. *)
Definition unwrap_option {A} (o : option A) : St S E A :=
  match o with
  | Some a => ret a
  | None => abort PanicUnwrapNone
  end.

Definition unwrap_result {A E'} (r : result A E') : St S E A :=
  match r with
  | Ok a => ret a
  | Err _ => abort PanicUnwrapErr
  end.
(** Run a computation that may [?]-return and hand its [Result] to the
    caller, as [if let Err(err) = f(...)] does; panics propagate. *)
Definition to_result {E' A} (c : St S E' A) : St S E (result A E') :=
  fun s =>
    match c s with
    | (Ret a, s') => (Ret (Ok a), s')
    | (Throw e, s') => (Ret (Err e), s')
    | (Abort p, s') => (Abort p, s')
    end.
End Monad.

Declare Scope rust_scope.
Delimit Scope rust_scope with rust.
Notation "x <- c ;; k" := (bind c (fun x => k))
  (at level 100, c at next level, k at level 200, right associativity) : rust_scope.
Notation "c ;; k" := (bind c (fun _ => k))
  (at level 100, k at level 200, right associativity) : rust_scope.

(** ** Monad laws and run lemmas *)

Create HintDb atb discriminated.
Create Rewrite HintDb atb_rw.

Section MonadLaws.
Context {S E : Type}.

Lemma bind_ret_l {A B} (a : A) (k : A -> St S E B) s :
  bind (ret a) k s = k a s.
Proof. reflexivity. Qed.

Lemma bind_ret_r {A} (c : St S E A) s : bind c ret s = c s.
Proof. unfold bind, ret. destruct (c s) as [[] ?]; reflexivity. Qed.

Lemma bind_assoc {A B C} (c : St S E A) (f : A -> St S E B) (g : B -> St S E C) s :
  bind (bind c f) g s = bind c (fun a => bind (f a) g) s.
Proof. unfold bind. destruct (c s) as [[] ?]; reflexivity. Qed.

Lemma bind_throw {A B} (e : E) (k : A -> St S E B) s :
  bind (throw e) k s = (Throw e, s).
Proof. reflexivity. Qed.

Lemma bind_abort {A B} (p : panic) (k : A -> St S E B) s :
  bind (abort p) k s = (Abort p, s).
Proof. reflexivity. Qed.

(** Running a bind whose first part returned. *)
Lemma bind_Ret {A B} (c : St S E A) (k : A -> St S E B) s a s' :
  c s = (Ret a, s') -> bind c k s = k a s'.
Proof. unfold bind. intros ->. reflexivity. Qed.
End MonadLaws.

#[export] Hint Rewrite @bind_ret_l @bind_assoc @bind_throw @bind_abort : atb_rw.

(** ** Tactics shared by the development *)

(** Inversion that cleans up. *)
Ltac inv H := inversion H; subst; clear H.

(** Unfold the monad's plumbing in the goal. *)
Ltac simpl_st :=
  repeat (unfold bind, ret, throw, abort, get, put, modify,
          try_result, unwrap_option, unwrap_result in *; simpl in *).

(** Case on the first [match] or [if] of the goal, keeping the equation. *)
Ltac case_goal :=
  match goal with
  | |- context [match ?x with _ => _ end] =>
      let E := fresh "E" in destruct x eqn:E
  end.

(** Turn the boolean comparisons on [Z] of the hypotheses and the goal into
    propositions. *)
Ltac zbool :=
  repeat match goal with
  | H : (_ =? _)%Z = true |- _ => apply Z.eqb_eq in H
  | H : (_ =? _)%Z = false |- _ => apply Z.eqb_neq in H
  | H : (_ <=? _)%Z = true |- _ => apply Z.leb_le in H
  | H : (_ <=? _)%Z = false |- _ => apply Z.leb_gt in H
  | H : (_ <? _)%Z = true |- _ => apply Z.ltb_lt in H
  | H : (_ <? _)%Z = false |- _ => apply Z.ltb_ge in H
  | H : (_ && _)%bool = true |- _ => apply andb_prop in H; destruct H
  | H : (_ || _)%bool = false |- _ => apply Bool.orb_false_elim in H; destruct H
  end.
