(* ===== verification/RustPrim.v ===== *)
(** * Rust primitives the code relies on

    - Module [I64]: release-mode arithmetic on [i64] ([wrapping_add],
      [wrapping_sub]), the truncating division that panics ([rust_div]),
      [str::parse::<i64>] ([parse_i64], core's [from_str_radix] loop for
      radix 10) and [Display] for integers ([i64_to_string]).  Theorems:
      wrap-around is the identity in range, parsing yields in-range values,
      the digit loop of the printer ends within its fuel, and printing then
      parsing returns the number.
    - Module [F64]: an [f64] as its IEEE-754 bit pattern and the cast
      [n as f64] of an integer (round to nearest, ties to even).
    - Module [Chrono]: the range check of chrono's [Utc.timestamp], which
      panics outside the dates chrono can represent. *)

From Stdlib Require Import ZArith List String Ascii Bool Lia.
From S2P Require Import Prelude.
Import ListNotations.
Open Scope Z_scope.
Open Scope bool_scope.

Module I64.

Definition MIN : Z := - 2 ^ 63.
Definition MAX : Z := 2 ^ 63 - 1.

Definition in_range (z : Z) : bool := (MIN <=? z) && (z <=? MAX).

(** Two's-complement wrap-around to 64 bits. *)
Definition wrap (z : Z) : Z := (z + 2 ^ 63) mod 2 ^ 64 - 2 ^ 63.

(** [a + b] and [a - b] on [i64] in a release build. *)
Definition wrapping_add (a b : Z) : Z := wrap (a + b).
Definition wrapping_sub (a b : Z) : Z := wrap (a - b).

Definition checked_mul (a b : Z) : option Z :=
  if in_range (a * b) then Some (a * b) else None.
Definition checked_add (a b : Z) : option Z :=
  if in_range (a + b) then Some (a + b) else None.
Definition checked_sub (a b : Z) : option Z :=
  if in_range (a - b) then Some (a - b) else None.

(** [a / b] on [i64]: truncation toward zero, a panic on a zero divisor
    and on the one overflowing quotient. *)
Definition rust_div (a b : Z) : result Z panic :=
  if b =? 0 then Err PanicDivByZero
  else if (a =? MIN) && (b =? -1) then Err PanicDivOverflow
  else Ok (Z.quot a b).

(** ** [str::parse::<i64>] *)

Inductive int_error_kind : Type :=
| Empty
| InvalidDigit
| PosOverflow
| NegOverflow.

(** [char::to_digit(10)] on one byte. *)
Definition to_digit (c : ascii) : option Z :=
  let n := nat_of_ascii c in
  if (48 <=? n)%nat && (n <=? 57)%nat then Some (Z.of_nat n - 48) else None.

(** The digit loop of [from_str_radix]: [result * 10] then [+ x] when the
    number is positive, [- x] when it is negative, each step checked. *)
Fixpoint parse_digits (is_positive : bool) (acc : Z) (s : string)
  : result Z int_error_kind :=
  match s with
  | EmptyString => Ok acc
  | String c rest =>
      match to_digit c with
      | None => Err InvalidDigit
      | Some x =>
          match checked_mul acc 10 with
          | None => Err (if is_positive then PosOverflow else NegOverflow)
          | Some m =>
              match (if is_positive then checked_add m x else checked_sub m x) with
              | None => Err (if is_positive then PosOverflow else NegOverflow)
              | Some r => parse_digits is_positive r rest
              end
          end
      end
  end.

(** [from_str_radix(src, 10)] for the signed type [i64]. *)
Definition parse_i64 (src : string) : result Z int_error_kind :=
  match src with
  | EmptyString => Err Empty
  | String c rest =>
      if ((c =? "+")%char || (c =? "-")%char) && (rest =? "")%string
      then Err InvalidDigit
      else if (c =? "+")%char then parse_digits true 0 rest
      else if (c =? "-")%char then parse_digits false 0 rest
      else parse_digits true 0 src
  end.

(** ** [Display] for integers *)

Definition digit_char (d : Z) : ascii := ascii_of_nat (Z.to_nat (48 + d)).

(** Decimal digits of [n >= 0], most significant first, prepended to
    [acc]; twenty digits cover [u64]. *)
Fixpoint to_dec (fuel : nat) (n : Z) (acc : string) : string :=
  match fuel with
  | O => acc
  | S f =>
      if n <? 10 then String (digit_char n) acc
      else to_dec f (n / 10) (String (digit_char (n mod 10)) acc)
  end.

Definition i64_to_string (z : Z) : string :=
  if z <? 0 then String "-" (to_dec 20 (- z) EmptyString)
  else to_dec 20 z EmptyString.

(** ** Width lemmas *)

Lemma in_range_iff z : in_range z = true <-> MIN <= z <= MAX.
Proof. unfold in_range. rewrite andb_true_iff, Z.leb_le, Z.leb_le. reflexivity. Qed.

(** Wrap-around does nothing to a value that fits. *)
Lemma wrap_small z : MIN <= z <= MAX -> wrap z = z.
Proof.
  unfold wrap, MIN, MAX. intros H.
  rewrite Z.mod_small by lia. lia.
Qed.

Lemma wrap_bounds z : MIN <= wrap z <= MAX.
Proof.
  unfold wrap, MIN, MAX.
  pose proof (Z.mod_pos_bound (z + 2 ^ 63) (2 ^ 64)). lia.
Qed.

Lemma wrapping_add_exact a b : MIN <= a + b <= MAX -> wrapping_add a b = a + b.
Proof. apply wrap_small. Qed.

Lemma wrapping_sub_exact a b : MIN <= a - b <= MAX -> wrapping_sub a b = a - b.
Proof. apply wrap_small. Qed.

(** Division that neither panics nor truncates in the wrong direction. *)
Lemma rust_div_pos a b : 0 < b -> rust_div a b = Ok (Z.quot a b).
Proof.
  intros Hb. unfold rust_div.
  destruct (Z.eqb_spec b 0); [lia|].
  destruct (Z.eqb_spec b (-1)); [lia|].
  rewrite andb_false_r. reflexivity.
Qed.

Lemma rust_div_zero a : rust_div a 0 = Err PanicDivByZero.
Proof. reflexivity. Qed.

(** ** Parsing *)

Lemma checked_mul_some a b r : checked_mul a b = Some r -> r = a * b /\ MIN <= r <= MAX.
Proof.
  unfold checked_mul. destruct (in_range (a * b)) eqn:H; intros E; inv E.
  apply in_range_iff in H. auto.
Qed.

Lemma parse_digits_bounds pos acc s r :
  parse_digits pos acc s = Ok r -> s = EmptyString /\ r = acc \/ MIN <= r <= MAX.
Proof.
  revert acc. induction s as [|c s IH]; simpl; intros acc H.
  - inv H. auto.
  - destruct (to_digit c) as [x|]; [|discriminate].
    destruct (checked_mul acc 10) as [m|]; [|discriminate].
    destruct (if pos then checked_add m x else checked_sub m x) as [r'|] eqn:Hc;
      [|discriminate].
    right. destruct (IH _ H) as [[-> <-]|]; auto.
    destruct pos; unfold checked_add, checked_sub in Hc;
      [destruct (in_range (m + x)) eqn:R | destruct (in_range (m - x)) eqn:R];
      inv Hc; apply in_range_iff in R; exact R.
Qed.

(** every number [str::parse::<i64>] accepts fits in [i64]: overflow is
    an error, never a wrapped value. *)
Lemma parse_i64_bounds s z : parse_i64 s = Ok z -> MIN <= z <= MAX.
Proof.
  unfold parse_i64. destruct s as [|c rest]; [discriminate|].
  destruct (((c =? "+")%char || (c =? "-")%char) && (rest =? "")%string) eqn:Hsign;
    [discriminate|].
  assert (Hmid : forall pos t, parse_digits pos 0 t = Ok z -> MIN <= z <= MAX).
  { intros pos t Ht. destruct (parse_digits_bounds _ _ _ _ Ht) as [[_ ->]|]; auto.
    unfold MIN, MAX; lia. }
  destruct (c =? "+")%char; [eauto|].
  destruct (c =? "-")%char; eauto.
Qed.

(** One digit of the loop, when the running value stays in range. *)
Lemma to_digit_char d : 0 <= d <= 9 -> to_digit (digit_char d) = Some d.
Proof.
  intros Hd.
  assert (d = 0 \/ d = 1 \/ d = 2 \/ d = 3 \/ d = 4 \/ d = 5 \/ d = 6 \/ d = 7
          \/ d = 8 \/ d = 9) as Hcases by lia.
  repeat destruct Hcases as [-> | Hcases]; try reflexivity; subst; reflexivity.
Qed.

Definition sgn (pos : bool) (n : Z) : Z := if pos then n else - n.

Lemma parse_digits_step (pos : bool) (acc d : Z) (s : string) :
  0 <= d <= 9 ->
  (if pos then 0 <= acc else acc <= 0) ->
  MIN <= acc * 10 + sgn pos d <= MAX ->
  parse_digits pos acc (String (digit_char d) s)
  = parse_digits pos (acc * 10 + sgn pos d) s.
Proof.
  unfold sgn. intros Hd Hacc Hr. simpl. rewrite to_digit_char by exact Hd.
  unfold checked_mul, checked_add, checked_sub.
  assert (Hm : in_range (acc * 10) = true)
    by (apply in_range_iff; destruct pos; unfold MIN, MAX in *; lia).
  rewrite Hm.
  destruct pos.
  - replace (in_range (acc * 10 + d)) with true by (symmetry; apply in_range_iff; lia).
    reflexivity.
  - replace (in_range (acc * 10 - d)) with true
      by (symmetry; apply in_range_iff; lia).
    replace (acc * 10 - d) with (acc * 10 + - d) by lia. reflexivity.
Qed.

(** Parsing the digits [to_dec] prints for [n] adds [n] (or [-n]) to the
    running value shifted by some power of ten. *)
Lemma parse_to_dec fuel n acc :
  0 <= n < 10 ^ Z.of_nat fuel ->
  exists k, 0 <= k /\
    forall (pos : bool) (a : Z), (if pos then 0 <= a else a <= 0) ->
      MIN <= a * 10 ^ k + sgn pos n <= MAX ->
      parse_digits pos a (to_dec fuel n acc)
      = parse_digits pos (a * 10 ^ k + sgn pos n) acc.
Proof.
  revert n acc. induction fuel as [|f IH]; intros n acc Hn.
  - simpl in Hn. exists 0. split; [lia|]. intros pos a _ _.
    assert (n = 0) as -> by lia. simpl. unfold sgn. destruct pos; f_equal; lia.
  - rewrite Nat2Z.inj_succ, Z.pow_succ_r in Hn by lia. simpl to_dec.
    destruct (Z.ltb_spec n 10).
    + exists 1. split; [lia|]. intros pos a Ha Hr.
      rewrite parse_digits_step by (unfold sgn, MIN, MAX in *; destruct pos; lia).
      unfold sgn. destruct pos; f_equal; lia.
    + destruct (IH (n / 10) (String (digit_char (n mod 10)) acc)) as [k [Hk IHk]].
      { split; [apply Z.div_pos; lia | apply Z.div_lt_upper_bound; lia]. }
      exists (k + 1). split; [lia|]. intros pos a Ha Hr.
      pose proof (Z.div_mod n 10 ltac:(lia)) as Hdm.
      pose proof (Z.mod_pos_bound n 10 ltac:(lia)) as Hmod.
      pose proof (Z.div_pos n 10 ltac:(lia) ltac:(lia)) as Hdiv.
      assert (Hp : 0 < 10 ^ k) by (apply Z.pow_pos_nonneg; lia).
      assert (E : a * 10 ^ (k + 1) = (a * 10 ^ k) * 10)
        by (rewrite Z.pow_add_r by lia; ring).
      rewrite E in Hr |- *.
      assert (Hsign : if pos then 0 <= a * 10 ^ k else a * 10 ^ k <= 0)
        by (destruct pos; nia).
      assert (HY : MIN <= a * 10 ^ k + sgn pos (n / 10) <= MAX)
        by (set (Y := a * 10 ^ k) in *; unfold sgn, MIN, MAX in *; destruct pos; lia).
      rewrite IHk by assumption.
      set (Y := a * 10 ^ k) in *. clearbody Y.
      rewrite parse_digits_step by (unfold sgn, MIN, MAX in *; destruct pos; lia).
      f_equal. unfold sgn. destruct pos; lia.
Qed.

(** The first byte [to_dec] prints is a digit. *)
Lemma to_dec_head fuel n d r :
  0 <= n -> 0 <= d <= 9 ->
  exists d' r', to_dec fuel n (String (digit_char d) r) = String (digit_char d') r'
                /\ 0 <= d' <= 9.
Proof.
  revert n d r. induction fuel as [|f IH]; intros n d r Hn Hd; simpl; [eauto|].
  destruct (Z.ltb_spec n 10); [exists n; eexists; split; [reflexivity | lia]|].
  apply IH; [apply Z.div_pos; lia | pose proof (Z.mod_pos_bound n 10); lia].
Qed.

Lemma to_dec_empty_head fuel n :
  0 <= n ->
  exists d' r', to_dec (S fuel) n EmptyString = String (digit_char d') r' /\ 0 <= d' <= 9.
Proof.
  intros Hn. simpl. destruct (Z.ltb_spec n 10); [exists n; eexists; split; [reflexivity | lia]|].
  apply to_dec_head; [apply Z.div_pos; lia | pose proof (Z.mod_pos_bound n 10); lia].
Qed.

Lemma digit_char_not_sign d :
  0 <= d <= 9 -> (digit_char d =? "+")%char = false /\ (digit_char d =? "-")%char = false.
Proof.
  intros Hd.
  assert (d = 0 \/ d = 1 \/ d = 2 \/ d = 3 \/ d = 4 \/ d = 5 \/ d = 6 \/ d = 7
          \/ d = 8 \/ d = 9) as Hcases by lia.
  repeat destruct Hcases as [-> | Hcases]; try (split; reflexivity); subst; split; reflexivity.
Qed.

(** Parsing the digits of [n] from zero gives [n] or [-n]. *)
Lemma parse_digits_to_dec (pos : bool) n :
  0 <= n < 10 ^ 20 -> MIN <= sgn pos n <= MAX ->
  parse_digits pos 0 (to_dec 20 n EmptyString) = Ok (sgn pos n).
Proof.
  intros Hn Hr. destruct (parse_to_dec 20 n EmptyString Hn) as [k [Hk Hp]].
  rewrite Hp by (destruct pos; lia). reflexivity.
Qed.

Lemma parse_i64_minus c r :
  parse_i64 (String "-" (String c r)) = parse_digits false 0 (String c r).
Proof. reflexivity. Qed.

Lemma parse_i64_digit d r :
  0 <= d <= 9 -> parse_i64 (String (digit_char d) r) = parse_digits true 0 (String (digit_char d) r).
Proof.
  intros Hd. unfold parse_i64. destruct (digit_char_not_sign d Hd) as [-> ->]. reflexivity.
Qed.

(** Printing then parsing an [i64] gives it back. *)
Lemma print_parse z :
  MIN <= z <= MAX -> parse_i64 (i64_to_string z) = Ok z.
Proof.
  intros Hz. assert (Hbig : 2 ^ 63 < 10 ^ 20) by reflexivity.
  unfold i64_to_string. destruct (Z.ltb_spec z 0).
  - destruct (to_dec_empty_head 19 (- z)) as [d [r [Hd Hdig]]]; [lia|].
    rewrite Hd, parse_i64_minus, <- Hd.
    replace (Ok z) with (@Ok Z int_error_kind (sgn false (- z))) by (unfold sgn; f_equal; lia).
    apply parse_digits_to_dec; unfold sgn, MIN, MAX in *; lia.
  - destruct (to_dec_empty_head 19 z) as [d [r [Hd Hdig]]]; [lia|].
    rewrite Hd, parse_i64_digit, <- Hd by exact Hdig.
    apply (parse_digits_to_dec true); unfold sgn, MIN, MAX in *; lia.
Qed.

(** [str::parse::<i64>] inverts [i64::to_string] on every [i64]. *)
Theorem parse_i64_to_string z :
  MIN <= z <= MAX -> parse_i64 (i64_to_string z) = Ok z.
Proof. exact (print_parse z). Qed.

(** The CLI's period ["60"] and the epoch watermark print and parse back. *)
Lemma parse_i64_to_string_witness :
  parse_i64 (i64_to_string 1514764800) = Ok 1514764800.
Proof. apply parse_i64_to_string. unfold MIN, MAX. lia. Defined.

Lemma parse_i64_bounds_witness : MIN <= -9223372036854775808 <= MAX.
Proof. apply (parse_i64_bounds "-9223372036854775808"%string). reflexivity. Defined.

(** [to_dec] stops on its own ([n < 10]) before the fuel runs out once
    [n < 10 ^ fuel]: any larger fuel prints the same digits. *)
Lemma to_dec_more_fuel fuel fuel' n acc :
  (1 <= fuel <= fuel')%nat -> 0 <= n < 10 ^ Z.of_nat fuel ->
  to_dec fuel' n acc = to_dec fuel n acc.
Proof.
  revert fuel' n acc. induction fuel as [|f IH]; intros fuel' n acc Hf Hn; [lia|].
  destruct fuel' as [|f']; [lia|]. rewrite Nat2Z.inj_succ, Z.pow_succ_r in Hn by lia.
  simpl. destruct (Z.ltb_spec n 10); [reflexivity|].
  destruct f as [|f]; [simpl in Hn; lia|].
  apply IH; [lia|]. split; [apply Z.div_pos; lia | apply Z.div_lt_upper_bound; lia].
Qed.

(** The fuel [i64_to_string] gives the digit loop is enough on every
    [i64], [i64::MIN] included: printing with any fuel of at least twenty
    digits gives the same text, so the loop has ended by dividing down to
    one digit and never by running out of fuel. *)
Theorem i64_to_string_fuel z fuel :
  MIN <= z <= MAX -> (20 <= fuel)%nat ->
  i64_to_string z
  = if z <? 0 then String "-" (to_dec fuel (- z) EmptyString)
    else to_dec fuel z EmptyString.
Proof.
  intros Hz Hf. unfold i64_to_string, MIN, MAX in *.
  assert (H20 : 10 ^ Z.of_nat 20 = 10 ^ 20) by reflexivity.
  destruct (Z.ltb_spec z 0); [f_equal|];
    symmetry; apply to_dec_more_fuel; rewrite ?H20; lia.
Qed.

Lemma i64_to_string_fuel_witness :
  i64_to_string MIN = String "-" (to_dec 25 (- MIN) EmptyString).
Proof.
  apply (i64_to_string_fuel MIN 25); [unfold MIN, MAX; lia | lia].
Defined.

(** Parsing is not injective: ["060"] and ["+60"] parse to 60, which prints
    as ["60"]. *)
Example parse_i64_leading_zero :
  parse_i64 "060" = Ok 60 /\ parse_i64 "+60" = Ok 60 /\ i64_to_string 60 = "60"%string.
Proof. repeat split; reflexivity. Qed.

End I64.

(** ** [f64] and the integer-to-float cast *)

Module F64.

(** An [f64] is its 64-bit IEEE-754 pattern. *)
Record f64 : Type := mk_f64 { bits : Z }.

Definition encode (sign expo mant : Z) : f64 :=
  mk_f64 (sign * 2 ^ 63 + (expo + 1023) * 2 ^ 52 + (mant - 2 ^ 52)).

(** [n as f64] for an [i64] or [u64] [n]: the nearest double, ties to the
    even significand; [0] casts to [+0.0]. *)
Definition of_int (n : Z) : f64 :=
  if n =? 0 then mk_f64 0
  else
    let sign := if n <? 0 then 1 else 0 in
    let m := Z.abs n in
    let e := Z.log2 m in
    if e <=? 52 then encode sign e (m * 2 ^ (52 - e))
    else
      let sh := e - 52 in
      let q := Z.shiftr m sh in
      let r := m mod 2 ^ sh in
      let half := 2 ^ (sh - 1) in
      let q' := if (half <? r) || ((r =? half) && Z.odd q) then q + 1 else q in
      if q' =? 2 ^ 53 then encode sign (e + 1) (2 ^ 52) else encode sign e q'.

End F64.

(** ** chrono's [Utc.timestamp] *)

Module Chrono.

(** Days since 0000-12-31 of a proleptic Gregorian date, chrono's
    [num_days_from_ce]. *)
Definition num_days_from_ce (y m d : Z) : Z :=
  let y' := if m <=? 2 then y - 1 else y in
  let era := y' / 400 in
  let yoe := y' - era * 400 in
  let mp := (m + 9) mod 12 in
  let doy := (153 * mp + 2) / 5 + d - 1 in
  let doe := yoe * 365 + yoe / 4 - yoe / 100 + doy in
  era * 146097 + doe - 719468 + 719163.

(** chrono's [NaiveDate::MIN] is -262144-01-01 and [NaiveDate::MAX] is
    +262143-12-31 ([MIN_YEAR = i32::MIN >> 13], [MAX_YEAR = i32::MAX >> 13]). *)
Definition MIN_DAYS : Z := num_days_from_ce (-262144) 1 1.
Definition MAX_DAYS : Z := num_days_from_ce 262143 12 31.

(** [Utc.timestamp(secs, 0)] succeeds iff [secs.div_euclid(86_400) + 719_163]
    is a day chrono represents; otherwise it panics. *)
Definition timestamp_ok (secs : Z) : bool :=
  let days := secs / 86400 + 719163 in
  (MIN_DAYS <=? days) && (days <=? MAX_DAYS).

End Chrono.
