(* ===== verification/ChronoFmt.v ===== *)
(** * chrono's [DateTime<Utc>] as text

    fetch-ohlcv-rs prints the first and last timestamps of a batch and the
    ends of every gap as [Utc.timestamp(t, 0)] through [Display]
    (src/app/src/fetch-ohlcv-rs/src/main.rs 154-176 and 218-224).  chrono
    writes a [DateTime<Utc>] as its naive date and time followed by the
    offset's name: [YYYY-MM-DD hh:mm:ss UTC], the year with four digits
    when it lies in 0..9999 and otherwise with a sign and at least four
    digits ([{:+05}]), every other field with two, and no fraction when
    the nanoseconds are zero.

    The date of a day number is the proleptic Gregorian calendar's:
    [date_of_ce] computes it by eras of 400 years (146097 days), the
    inverse of [Chrono.num_days_from_ce] that [Utc.timestamp]'s range
    check already uses.  [date_of_ce_correct] proves that every day number
    is [num_days_from_ce] of the date computed for it, and that the date
    is a real one (month 1 to 12, day within the month); the proof checks
    the one era by evaluation ([era_checked]) and carries it to all eras
    by the 400-year period.  [display_utc_fields] then states what the
    printed text holds.  This models chrono's documented output, not its
    code (the repository does not pin chrono; the format has been the same
    through chrono 0.4). *)

From Stdlib Require Import ZArith List String Ascii Bool Lia.
From S2P Require Import Prelude RustPrim.
Import ListNotations.
Open Scope Z_scope.

Module ChronoFmt.

(** ** The calendar *)

Definition is_leap (y : Z) : bool :=
  ((y mod 4 =? 0) && negb (y mod 100 =? 0)) || (y mod 400 =? 0).

Definition month_length (y m : Z) : Z :=
  if m =? 2 then (if is_leap y then 29 else 28)
  else if (m =? 4) || (m =? 6) || (m =? 9) || (m =? 11) then 30
  else 31.

(** Days since 1970-01-01 to year, month and day (the eras start on
    0000-03-01, so the leap day ends a year of the computation). *)
Definition civil_from_days (z : Z) : Z * Z * Z :=
  let z := z + 719468 in
  let era := z / 146097 in
  let doe := z - era * 146097 in
  let yoe := (doe - doe / 1460 + doe / 36524 - doe / 146096) / 365 in
  let y := yoe + era * 400 in
  let doy := doe - (365 * yoe + yoe / 4 - yoe / 100) in
  let mp := (5 * doy + 2) / 153 in
  let d := doy - (153 * mp + 2) / 5 + 1 in
  let m := if mp <? 10 then mp + 3 else mp - 9 in
  (if m <=? 2 then y + 1 else y, m, d).

(** [NaiveDate::from_num_days_from_ce_opt]: day 1 is 0001-01-01. *)
Definition date_of_ce (n : Z) : Z * Z * Z := civil_from_days (n - 719163).

(** ** The text *)

Fixpoint zeros (k : nat) : string :=
  match k with O => EmptyString | S k' => String "0" (zeros k') end.

(** [{:0w}] of [n >= 0]: its digits, zero-padded to [w]. *)
Definition pad (w : nat) (n : Z) : string :=
  let s := I64.to_dec 20 n EmptyString in
  zeros (w - String.length s) ++ s.

(** [NaiveDate]'s year: [{:04}] in 0..9999, [{:+05}] otherwise. *)
Definition fmt_year (y : Z) : string :=
  if (0 <=? y) && (y <=? 9999) then pad 4 y
  else String (if y <? 0 then "-" else "+") (pad 4 (Z.abs y)).

(** [Utc.timestamp(secs, 0).to_string()]: the day is [secs.div_euclid
    (86400)], the time of day [secs.rem_euclid(86400)]. *)
Definition display_utc (secs : Z) : string :=
  let days := secs / 86400 in
  let sod := secs mod 86400 in
  let '(y, m, d) := date_of_ce (days + 719163) in
  fmt_year y ++ "-" ++ pad 2 m ++ "-" ++ pad 2 d ++ " " ++
  pad 2 (sod / 3600) ++ ":" ++ pad 2 (sod mod 3600 / 60) ++ ":" ++ pad 2 (sod mod 60) ++
  " UTC".

(** ** Checking one era *)

(** The date computed for day [n] is a real date whose day number is
    [n]. *)
Definition date_ok (n : Z) : bool :=
  let '(y, m, d) := date_of_ce n in
  (Chrono.num_days_from_ce y m d =? n) && (1 <=? m) && (m <=? 12) && (1 <=? d)
  && (d <=? month_length y m).

Fixpoint check_range (k : nat) (start : Z) : bool :=
  match k with
  | O => true
  | S k' => date_ok start && check_range k' (start + 1)
  end.

(** ** Theorems *)

Lemma check_range_spec k s :
  check_range k s = true -> forall n, s <= n < s + Z.of_nat k -> date_ok n = true.
Proof.
  revert s. induction k as [|k IH]; intros s H n Hn; [lia|].
  simpl in H. apply andb_true_iff in H as [H0 H].
  destruct (Z.eq_dec n s) as [->|Hne]; [exact H0|].
  apply (IH (s + 1) H). lia.
Qed.

(** One era, day by day. *)
Lemma era_checked : check_range (Z.to_nat 146097) 0 = true.
Proof. vm_compute. reflexivity. Qed.

Lemma civil_shift z k :
  civil_from_days (z + k * 146097)
  = let '(y, m, d) := civil_from_days z in (y + k * 400, m, d).
Proof.
  unfold civil_from_days.
  replace (z + k * 146097 + 719468) with ((z + 719468) + k * 146097) by ring.
  rewrite Z.div_add by lia.
  set (Z0 := z + 719468). set (e := Z0 / 146097).
  replace (Z0 + k * 146097 - (e + k) * 146097) with (Z0 - e * 146097) by ring.
  set (doe := Z0 - e * 146097).
  set (yoe := (doe - doe / 1460 + doe / 36524 - doe / 146096) / 365).
  set (mp := (5 * (doe - (365 * yoe + yoe / 4 - yoe / 100)) + 2) / 153).
  destruct (mp <? 10); destruct (_ <=? 2); f_equal; f_equal; ring.
Qed.

Lemma num_days_shift y m d k :
  Chrono.num_days_from_ce (y + k * 400) m d = Chrono.num_days_from_ce y m d + k * 146097.
Proof.
  unfold Chrono.num_days_from_ce.
  set (y' := if m <=? 2 then y - 1 else y).
  replace (if m <=? 2 then y + k * 400 - 1 else y + k * 400) with (y' + k * 400)
    by (unfold y'; destruct (m <=? 2); ring).
  rewrite Z.div_add by lia. set (q := y' / 400).
  replace (y' + k * 400 - (q + k) * 400) with (y' - q * 400) by ring. ring.
Qed.

Lemma is_leap_shift y k : is_leap (y + k * 400) = is_leap y.
Proof.
  unfold is_leap.
  replace (y + k * 400) with (y + (k * 100) * 4) by ring. rewrite Z.mod_add by lia.
  replace (y + k * 100 * 4) with (y + (k * 4) * 100) by ring. rewrite Z.mod_add by lia.
  replace (y + k * 4 * 100) with (y + k * 400) by ring. rewrite Z.mod_add by lia.
  reflexivity.
Qed.

Lemma date_ok_shift n k : date_ok (n + k * 146097) = date_ok n.
Proof.
  unfold date_ok, date_of_ce.
  replace (n + k * 146097 - 719163) with ((n - 719163) + k * 146097) by ring.
  rewrite civil_shift. destruct (civil_from_days (n - 719163)) as [[y m] d].
  rewrite num_days_shift. unfold month_length. rewrite is_leap_shift.
  replace (Chrono.num_days_from_ce y m d + k * 146097 =? n + k * 146097)
    with (Chrono.num_days_from_ce y m d =? n)
    by (destruct (Z.eqb_spec (Chrono.num_days_from_ce y m d) n);
        symmetry; [apply Z.eqb_eq | apply Z.eqb_neq]; lia).
  reflexivity.
Qed.

Lemma date_ok_all n : date_ok n = true.
Proof.
  rewrite (Z.div_mod n 146097) by lia.
  replace (146097 * (n / 146097) + n mod 146097) with (n mod 146097 + (n / 146097) * 146097)
    by ring.
  rewrite date_ok_shift. apply (check_range_spec _ _ era_checked).
  rewrite Z2Nat.id by lia. pose proof (Z.mod_pos_bound n 146097). lia.
Qed.

Lemma date_of_ce_spec n y m d :
  date_of_ce n = (y, m, d) ->
  Chrono.num_days_from_ce y m d = n /\ 1 <= m <= 12 /\ 1 <= d <= month_length y m.
Proof.
  intros E. pose proof (date_ok_all n) as H. unfold date_ok in H. rewrite E in H.
  repeat rewrite andb_true_iff in H. rewrite !Z.leb_le, Z.eqb_eq in H. lia.
Qed.

(** chrono's calendar inverts [num_days_from_ce]: for every day
    number [n], the date [date_of_ce] gives is a real date (month 1 to
    12, day within the month, leap years by the Gregorian rule) whose day
    number is [n]. *)
Theorem date_of_ce_correct n :
  let '(y, m, d) := date_of_ce n in
  Chrono.num_days_from_ce y m d = n /\ 1 <= m <= 12 /\ 1 <= d <= month_length y m.
Proof. destruct (date_of_ce n) as [[y m] d] eqn:E. exact (date_of_ce_spec n y m d E). Qed.

(** [Utc.timestamp(secs, 0).to_string()] is the calendar date and the
    time of day of [secs]: the printed fields, read as a date and a time,
    are a real date and a time of day whose seconds since 1970 are [secs]. *)
Theorem display_utc_fields secs :
  exists y m d hh mi ss,
    display_utc secs =
      (fmt_year y ++ "-" ++ pad 2 m ++ "-" ++ pad 2 d ++ " " ++
       pad 2 hh ++ ":" ++ pad 2 mi ++ ":" ++ pad 2 ss ++ " UTC")%string /\
    (Chrono.num_days_from_ce y m d - 719163) * 86400 + hh * 3600 + mi * 60 + ss = secs /\
    1 <= m <= 12 /\ 1 <= d <= month_length y m /\
    0 <= hh < 24 /\ 0 <= mi < 60 /\ 0 <= ss < 60.
Proof.
  unfold display_utc.
  destruct (date_of_ce (secs / 86400 + 719163)) as [[y m] d] eqn:E.
  apply date_of_ce_spec in E as (Hn & Hm & Hd).
  exists y, m, d, (secs mod 86400 / 3600), (secs mod 86400 mod 3600 / 60), (secs mod 86400 mod 60).
  split; [reflexivity|]. rewrite Hn.
  pose proof (Z.div_mod secs 86400 ltac:(lia)). pose proof (Z.mod_pos_bound secs 86400 ltac:(lia)).
  set (r := secs mod 86400) in *.
  pose proof (Z.div_mod r 3600 ltac:(lia)). pose proof (Z.mod_pos_bound r 3600 ltac:(lia)).
  pose proof (Z.div_mod (r mod 3600) 60 ltac:(lia)).
  pose proof (Z.mod_pos_bound (r mod 3600) 60 ltac:(lia)).
  replace (r mod 60) with (r mod 3600 mod 60)
    by (apply Z.mod_mod_divide; exists 60; lia).
  repeat split; try lia; apply Z.div_pos || apply Z.div_lt_upper_bound; lia.
Qed.

End ChronoFmt.
