(* ===== verification/Json.v ===== *)
(** * serde_json's [Value] and the accessors the code uses

    [Value] with serde_json's [Number] ([PosInt] for non-negative integers,
    [NegInt] for negative ones, [Float] otherwise) and [Map<String, Value>]
    as an association list with unique keys (serde_json's default map is a
    [BTreeMap]).  The accessors are the ones [store_ohlcv_to_database] and
    the HTTP facade call: [get], the panic-free indexing [v["k"]] and
    [v[i]] (which return [Null] when the key or position is missing),
    [is_array], [as_array], [as_i64], [as_f64], [as_str], [is_boolean],
    [as_bool]. *)

From Stdlib Require Import ZArith List String Bool Lia.
From S2P Require Import Prelude RustPrim.
Import ListNotations.
Open Scope Z_scope.
Local Set Warnings "-register-all".

Module Json.

Inductive number : Type :=
| PosInt (u : Z)
| NegInt (i : Z)
| Float (f : F64.f64).

Inductive value : Type :=
| Null
| Bool (b : bool)
| Number (n : number)
| Str (s : string)
| Array (l : list value)
| Object (m : list (string * value)).

(** Map lookup by key. *)
Fixpoint assoc (k : string) (m : list (string * value)) : option value :=
  match m with
  | [] => None
  | (k', v) :: m' => if String.eqb k k' then Some v else assoc k m'
  end.

(** [Value::get(key)]: [None] unless the value is an object with the key. *)
Definition get (v : value) (k : string) : option value :=
  match v with
  | Object m => assoc k m
  | _ => None
  end.

(** [v[key]] ([Index<&str>]): the member, or [Null]. *)
Definition index_key (v : value) (k : string) : value :=
  match get v k with
  | Some x => x
  | None => Null
  end.

(** [v[i]] ([Index<usize>]): the element, or [Null]. *)
Definition index_nth (v : value) (i : nat) : value :=
  match v with
  | Array l => nth i l Null
  | _ => Null
  end.

Definition is_array (v : value) : bool :=
  match v with Array _ => true | _ => false end.

Definition as_array (v : value) : option (list value) :=
  match v with Array l => Some l | _ => None end.

Definition is_string (v : value) : bool :=
  match v with Str _ => true | _ => false end.

Definition as_str (v : value) : option string :=
  match v with Str s => Some s | _ => None end.

Definition is_boolean (v : value) : bool :=
  match v with Bool _ => true | _ => false end.

Definition as_bool (v : value) : option bool :=
  match v with Bool b => Some b | _ => None end.

(** [as_i64]: integers that fit in [i64]; floats give [None]. *)
Definition as_i64 (v : value) : option Z :=
  match v with
  | Number (PosInt u) => if u <=? I64.MAX then Some u else None
  | Number (NegInt i) => Some i
  | _ => None
  end.

(** [as_f64]: every number, integers through [as f64]. *)
Definition as_f64 (v : value) : option F64.f64 :=
  match v with
  | Number (PosInt u) => Some (F64.of_int u)
  | Number (NegInt i) => Some (F64.of_int i)
  | Number (Float f) => Some f
  | _ => None
  end.

(** serde_json's representation invariant: [PosInt] holds a [u64],
    [NegInt] a negative [i64], and object keys are unique. *)
Fixpoint wf (v : value) : Prop :=
  match v with
  | Number (PosInt u) => 0 <= u < 2 ^ 64
  | Number (NegInt i) => I64.MIN <= i < 0
  | Array l => (fix wfl (l : list value) : Prop :=
                  match l with [] => True | x :: l' => wf x /\ wfl l' end) l
  | Object m => NoDup (map fst m) /\
                (fix wfm (m : list (string * value)) : Prop :=
                   match m with [] => True | (_, x) :: m' => wf x /\ wfm m' end) m
  | _ => True
  end.

(** An integer as serde_json stores it. *)
Definition of_i64 (z : Z) : value :=
  if z <? 0 then Number (NegInt z) else Number (PosInt z).

Lemma as_i64_of_i64 z : I64.MIN <= z <= I64.MAX -> as_i64 (of_i64 z) = Some z.
Proof.
  intros Hz. unfold of_i64, as_i64. destruct (Z.ltb_spec z 0); [reflexivity|].
  destruct (Z.leb_spec z I64.MAX); [reflexivity | lia].
Qed.

End Json.
