(* ===== verification/JsonText.v ===== *)
(** * JSON as text: serde_json's parser and writer, and UTF-8

    The code turns JSON text into [serde_json::Value] in two places: the
    HTTP client of fetch-ohlcv-rs ([reqwest]'s [.json()], which is
    [serde_json::from_slice] of the body) and market-api-rs's [post_bot]
    ([std::str::from_utf8] of the body, then [serde_json::from_str]).  It
    turns values into text when bot-admin prints a bot or the bot list with
    [--json] and when market-api-rs answers with [HttpResponse::json]:
    [serde_json::to_string] of the [#[derive(Serialize)]] structs of
    atb-db.

    Modelled here, from serde_json's documented behaviour (the repository
    does not pin its version):
    - [from_utf8]: well-formed UTF-8 (no overlong forms, no surrogates,
      nothing above U+10FFFF);
    - [from_str]: the recursive-descent parser with its whitespace, literal,
      number, string (escapes, [\u] surrogate pairs, raw control characters
      refused) and container rules, the recursion limit of 128 nested
      containers, trailing characters refused, and objects built as a
      [BTreeMap] (keys in byte order, the last duplicate wins);
    - numbers: an integer that fits [u64] is [PosInt], a negative one that
      fits [i64] is [NegInt], [-0] and anything else is a [Float]: the exact
      decimal value rounded to the nearest double, ties to even, and an
      error when that overflows.  This is serde_json with its
      [float_roundtrip] feature (and Rust's [f64::from_str]); without the
      feature serde_json may round a long decimal one unit in the last place
      differently.  No theorem depends on the bits of a parsed float;
    - the compact writer: strings escaped as serde_json escapes them (a
      backslash before the quote and the backslash, the short escapes b, f,
      n, r, t, and u00XX with lowercase hex for the other control bytes,
      every other byte copied), integers as [itoa] prints them, fields in
      declaration order.

    Errors are serde_json's error codes; the code only ever [unwrap]s or
    maps them, so the theorems distinguish only success from failure.
    Theorems: the parser reads back what the writer writes ([reads_back]
    of strings, [i64]s, booleans, objects and arrays, composed field by
    field, and [from_str_reads_back] at the top level); escaping keeps a
    text UTF-8 exactly when it was ([utf8_escape_str]), so the written
    text of UTF-8 strings passes [from_utf8]; and every parser that
    succeeds consumes input ([parse_rest]).  The parser takes its fuel from
    the length of the input, twice the length plus two, and that fuel is
    enough: [from_str] never runs out of it ([from_str_fuel]). *)

From Stdlib Require Import ZArith List String Ascii Bool Lia Wf_nat.
From S2P Require Import Prelude RustPrim Json.
Import ListNotations.
Open Scope Z_scope.

Module JsonText.

(** ** Bytes *)

Definition byte (c : ascii) : Z := Z.of_N (N_of_ascii c).

Definition chr (z : Z) : ascii := ascii_of_N (Z.to_N z).

(** ** IEEE-754 binary64 on exact rationals *)

Definition infinity (neg : bool) : F64.f64 :=
  F64.mk_f64 ((if neg then 2 ^ 63 else 0) + 2047 * 2 ^ 52).

Definition is_infinite (f : F64.f64) : bool :=
  (Z.land (F64.bits f) (2 ^ 63 - 1) =? 2047 * 2 ^ 52).

(** [n / d] rounded to an integer, ties to even. *)
Definition div_round (n d : Z) : Z :=
  let q := n / d in
  let r := n mod d in
  if (d <? 2 * r) || ((2 * r =? d) && Z.odd q) then q + 1 else q.

(** The double nearest to [num / den] ([num >= 0], [den > 0]), ties to
    the even significand, with the sign [neg]; too large is infinity. *)
Definition round (neg : bool) (num den : Z) : F64.f64 :=
  let sign := if neg then 2 ^ 63 else 0 in
  if num =? 0 then F64.mk_f64 sign
  else
    let e0 := Z.log2 num - Z.log2 den in
    let e := if num <? den * 2 ^ e0 then e0 - 1 else e0 in
    let e := if e0 <? 0 then (if num * 2 ^ (- e0) <? den then e0 - 1 else e0) else e in
    let q := Z.max (e - 52) (-1074) in
    let m := div_round (num * 2 ^ Z.max 0 (- q)) (den * 2 ^ Z.max 0 q) in
    let '(m, q) := if m =? 2 ^ 53 then (2 ^ 52, q + 1) else (m, q) in
    if 971 <? q then infinity neg
    else F64.mk_f64 (sign + (q + 1074) * 2 ^ 52 + m).

(** A decimal [D * 10^E] read as a double: the nearest one, ties to even;
    an error ([NumberOutOfRange]) when it overflows.  The guards avoid
    computing powers of ten far beyond the range of doubles: [10^E >= 2^E],
    so [D * 10^E] with [E > 309] and [D > 0] overflows, and with
    [-E > log2 D + 1076] it is below half the least subnormal. *)
Definition of_decimal (neg : bool) (d e : Z) : option F64.f64 :=
  let f :=
    if d =? 0 then round neg 0 1
    else if 309 <? e then infinity neg
    else if Z.log2 d + 1076 <? - e then round neg 0 1
    else if 0 <=? e then round neg (d * 10 ^ e) 1
    else round neg d (10 ^ (- e)) in
  if is_infinite f then None else Some f.

(** ** serde_json's error codes *)

Inductive json_error : Type :=
| EofWhileParsingList
| EofWhileParsingObject
| EofWhileParsingString
| EofWhileParsingValue
| ExpectedColon
| ExpectedListCommaOrEnd
| ExpectedObjectCommaOrEnd
| ExpectedSomeIdent
| ExpectedSomeValue
| InvalidEscape
| InvalidNumber
| NumberOutOfRange
| InvalidUnicodeCodePoint
| ControlCharacterWhileParsingString
| KeyMustBeAString
| LoneLeadingSurrogateInHexEscape
| TrailingComma
| TrailingCharacters
| UnexpectedEndOfHexEscape
| RecursionLimitExceeded
| OutOfFuel.  (* the model's: never returned, see [from_str_fuel] *)

(** ** UTF-8 *)

Definition in_range (lo hi : Z) (c : ascii) : bool := (lo <=? byte c) && (byte c <=? hi).

Definition cont (c : ascii) : bool := in_range 128 191 c.

(** [std::str::from_utf8]: the well-formed byte sequences of Unicode's
    table 3-7. *)
Fixpoint utf8_valid (s : string) : bool :=
  match s with
  | EmptyString => true
  | String c1 r1 =>
      if byte c1 <? 128 then utf8_valid r1
      else match r1 with
      | EmptyString => false
      | String c2 r2 =>
          if in_range 194 223 c1 then cont c2 && utf8_valid r2
          else match r2 with
          | EmptyString => false
          | String c3 r3 =>
              if in_range 224 239 c1 then
                (if byte c1 =? 224 then in_range 160 191 c2
                 else if byte c1 =? 237 then in_range 128 159 c2
                 else cont c2) && cont c3 && utf8_valid r3
              else match r3 with
              | EmptyString => false
              | String c4 r4 =>
                  in_range 240 244 c1 &&
                  (if byte c1 =? 240 then in_range 144 191 c2
                   else if byte c1 =? 244 then in_range 128 143 c2
                   else cont c2) && cont c3 && cont c4 && utf8_valid r4
              end
          end
      end
  end.

(** [char::encode_utf8] of a scalar value. *)
Definition encode_utf8 (cp : Z) : string :=
  if cp <? 128 then String (chr cp) EmptyString
  else if cp <? 2048 then
    String (chr (192 + cp / 64)) (String (chr (128 + cp mod 64)) EmptyString)
  else if cp <? 65536 then
    String (chr (224 + cp / 4096))
      (String (chr (128 + (cp / 64) mod 64)) (String (chr (128 + cp mod 64)) EmptyString))
  else
    String (chr (240 + cp / 262144))
      (String (chr (128 + (cp / 4096) mod 64))
        (String (chr (128 + (cp / 64) mod 64)) (String (chr (128 + cp mod 64)) EmptyString))).

(** ** Objects: a [BTreeMap<String, Value>] *)

(** [BTreeMap::insert]: keys in byte order, an existing key's value
    replaced. *)
Fixpoint map_insert (k : string) (v : Json.value) (m : list (string * Json.value))
  : list (string * Json.value) :=
  match m with
  | [] => [(k, v)]
  | (k', v') :: m' =>
      match String.compare k k' with
      | Lt => (k, v) :: m
      | Eq => (k, v) :: m'
      | Gt => (k', v') :: map_insert k v m'
      end
  end.

(** ** Lexical classes *)

Definition is_ws (c : ascii) : bool :=
  (byte c =? 32) || (byte c =? 10) || (byte c =? 9) || (byte c =? 13).

Fixpoint skip_ws (s : string) : string :=
  match s with
  | String c r => if is_ws c then skip_ws r else s
  | EmptyString => s
  end.

Definition is_digit (c : ascii) : bool := in_range 48 57 c.

Definition digit (c : ascii) : Z := byte c - 48.

(** ** Numbers *)

(** The digits of [s] from its start: their value, their count and the
    rest of [s]. *)
Fixpoint digits (acc : Z) (n : Z) (s : string) : Z * Z * string :=
  match s with
  | String c r => if is_digit c then digits (acc * 10 + digit c) (n + 1) r else (acc, n, s)
  | EmptyString => (acc, n, s)
  end.

Definition eof_or (e : json_error) (s : string) : json_error :=
  match s with EmptyString => EofWhileParsingValue | _ => e end.

Definition U64_MAX : Z := 2 ^ 64 - 1.

(** [ParserNumber] to [Number]: an integer literal. *)
Definition integer_value (neg : bool) (d : Z) : option Json.value :=
  if negb neg then
    if d <=? U64_MAX then Some (Json.Number (Json.PosInt d))
    else option_map (fun f => Json.Number (Json.Float f)) (of_decimal false d 0)
  else if (1 <=? d) && (d <=? 2 ^ 63) then Some (Json.Number (Json.NegInt (- d)))
  else option_map (fun f => Json.Number (Json.Float f)) (of_decimal true d 0).

(** The exponent part after [e]/[E]: an optional sign and at least one
    digit. *)
Definition parse_exponent (neg : bool) (d e : Z) (s : string)
  : result (Json.value * string) json_error :=
  let '(sgn, s) := match s with
                   | String c r => if byte c =? 43 then (1, r)
                                   else if byte c =? 45 then (-1, r) else (1, s)
                   | EmptyString => (1, s)
                   end in
  match s with
  | String c _ =>
      if is_digit c then
        let '(x, _, rest) := digits 0 0 s in
        match of_decimal neg d (e + sgn * x) with
        | Some f => Ok (Json.Number (Json.Float f), rest)
        | None => Err NumberOutOfRange
        end
      else Err InvalidNumber
  | EmptyString => Err EofWhileParsingValue
  end.

(** After the integer part [d]: a fraction, an exponent, or the end of the
    number. *)
Definition parse_number_tail (neg : bool) (d : Z) (s : string)
  : result (Json.value * string) json_error :=
  match s with
  | String c r =>
      if byte c =? 46 then
        let '(f, n, rest) := digits d 0 r in
        if n =? 0 then Err (eof_or InvalidNumber rest)
        else match rest with
             | String c' r' =>
                 if (byte c' =? 101) || (byte c' =? 69) then parse_exponent neg f (- n) r'
                 else match of_decimal neg f (- n) with
                      | Some x => Ok (Json.Number (Json.Float x), rest)
                      | None => Err NumberOutOfRange
                      end
             | EmptyString =>
                 match of_decimal neg f (- n) with
                 | Some x => Ok (Json.Number (Json.Float x), rest)
                 | None => Err NumberOutOfRange
                 end
             end
      else if (byte c =? 101) || (byte c =? 69) then parse_exponent neg d 0 r
      else match integer_value neg d with
           | Some v => Ok (v, s)
           | None => Err NumberOutOfRange
           end
  | EmptyString =>
      match integer_value neg d with
      | Some v => Ok (v, s)
      | None => Err NumberOutOfRange
      end
  end.

(** [parse_integer]: one [0], or a non-zero digit and more digits. *)
Definition parse_integer (neg : bool) (s : string) : result (Json.value * string) json_error :=
  match s with
  | EmptyString => Err EofWhileParsingValue
  | String c r =>
      if byte c =? 48 then
        match r with
        | String c' _ => if is_digit c' then Err InvalidNumber else parse_number_tail neg 0 r
        | EmptyString => parse_number_tail neg 0 r
        end
      else if is_digit c then
        let '(d, _, rest) := digits (digit c) 1 r in parse_number_tail neg d rest
      else Err InvalidNumber
  end.

(** ** Strings *)

Definition hex_val (c : ascii) : option Z :=
  if is_digit c then Some (digit c)
  else if in_range 97 102 c then Some (byte c - 87)
  else if in_range 65 70 c then Some (byte c - 55)
  else None.

(** [decode_hex_escape]: four hex digits. *)
Fixpoint hex_n (n : nat) (acc : Z) (s : string) : result (Z * string) json_error :=
  match n with
  | O => Ok (acc, s)
  | S n' =>
      match s with
      | EmptyString => Err EofWhileParsingString
      | String c r =>
          match hex_val c with
          | Some v => hex_n n' (acc * 16 + v) r
          | None => Err InvalidEscape
          end
      end
  end.

Definition surrogate_lo (n : Z) : bool := (56320 <=? n) && (n <=? 57343).
Definition surrogate_hi (n : Z) : bool := (55296 <=? n) && (n <=? 56319).

(** The escape after backslash-u: a scalar value, or a surrogate pair. *)
Definition unicode_escape (s : string) : result (string * string) json_error :=
  match hex_n 4 0 s with
  | Err e => Err e
  | Ok (n1, r1) =>
      if surrogate_lo n1 then Err LoneLeadingSurrogateInHexEscape
      else if surrogate_hi n1 then
        match r1 with
        | EmptyString => Err EofWhileParsingString
        | String b1 r2 =>
            if negb (byte b1 =? 92) then Err UnexpectedEndOfHexEscape
            else match r2 with
                 | EmptyString => Err EofWhileParsingString
                 | String u r3 =>
                     if negb (byte u =? 117) then Err UnexpectedEndOfHexEscape
                     else match hex_n 4 0 r3 with
                          | Err e => Err e
                          | Ok (n2, r4) =>
                              if surrogate_lo n2 then
                                Ok (encode_utf8 ((n1 - 55296) * 1024 + (n2 - 56320) + 65536), r4)
                              else Err LoneLeadingSurrogateInHexEscape
                          end
                 end
        end
      else Ok (encode_utf8 n1, r1)
  end.

(** The one-byte escapes: quote, backslash, slash, b, f, n, r, t. *)
Definition short_escape (c : ascii) : option ascii :=
  let b := byte c in
  if (b =? 34) || (b =? 92) || (b =? 47) then Some c
  else if b =? 98 then Some (chr 8)
  else if b =? 102 then Some (chr 12)
  else if b =? 110 then Some (chr 10)
  else if b =? 114 then Some (chr 13)
  else if b =? 116 then Some (chr 9)
  else None.

(** [parse_str] after the opening quote: the string up to the closing
    quote, and the rest. *)
Fixpoint parse_str (fuel : nat) (acc : string) (s : string) : result (string * string) json_error :=
  match fuel with
  | O => Err OutOfFuel
  | S f =>
      match s with
      | EmptyString => Err EofWhileParsingString
      | String c r =>
          if byte c =? 34 then Ok (acc, r)
          else if byte c =? 92 then
            match r with
            | EmptyString => Err EofWhileParsingString
            | String e r' =>
                if byte e =? 117 then
                  match unicode_escape r' with
                  | Err x => Err x
                  | Ok (u, r'') => parse_str f (acc ++ u) r''
                  end
                else match short_escape e with
                     | Some x => parse_str f (acc ++ String x EmptyString) r'
                     | None => Err InvalidEscape
                     end
            end
          else if byte c <? 32 then Err ControlCharacterWhileParsingString
          else parse_str f (acc ++ String c EmptyString) r
      end
  end.

(** ** Values *)

(** [parse_ident]: the rest of [null], [true] or [false]. *)
Fixpoint ident (expected : string) (v : Json.value) (s : string)
  : result (Json.value * string) json_error :=
  match expected with
  | EmptyString => Ok (v, s)
  | String e er =>
      match s with
      | EmptyString => Err EofWhileParsingValue
      | String c r => if Ascii.eqb c e then ident er v r else Err ExpectedSomeIdent
      end
  end.

(** [deserialize_any] into a [Value], with [remaining_depth] [depth]; the
    sequence and map visitors read elements until the closing bracket. *)
Fixpoint parse_value (fuel : nat) (depth : Z) (s : string)
  : result (Json.value * string) json_error :=
  match fuel with
  | O => Err OutOfFuel
  | S f =>
      match skip_ws s with
      | EmptyString => Err EofWhileParsingValue
      | String c r =>
          let b := byte c in
          if b =? 110 then ident "ull" Json.Null r
          else if b =? 116 then ident "rue" (Json.Bool true) r
          else if b =? 102 then ident "alse" (Json.Bool false) r
          else if b =? 45 then parse_integer true r
          else if is_digit c then parse_integer false (String c r)
          else if b =? 34 then
            match parse_str f EmptyString r with
            | Ok (x, rest) => Ok (Json.Str x, rest)
            | Err e => Err e
            end
          else if b =? 91 then
            if depth =? 1 then Err RecursionLimitExceeded
            else match parse_array f (depth - 1) true [] r with
                 | Ok (l, rest) => Ok (Json.Array l, rest)
                 | Err e => Err e
                 end
          else if b =? 123 then
            if depth =? 1 then Err RecursionLimitExceeded
            else match parse_object f (depth - 1) true [] r with
                 | Ok (m, rest) => Ok (Json.Object m, rest)
                 | Err e => Err e
                 end
          else Err ExpectedSomeValue
      end
  end
with parse_array (fuel : nat) (depth : Z) (first : bool) (acc : list Json.value) (s : string)
  : result (list Json.value * string) json_error :=
  match fuel with
  | O => Err OutOfFuel
  | S f =>
      match skip_ws s with
      | EmptyString => Err EofWhileParsingList
      | String c r =>
          if byte c =? 93 then Ok (rev acc, r)
          else
            let t := if first then Ok (String c r)
                     else if byte c =? 44 then
                       match skip_ws r with
                       | EmptyString => Err EofWhileParsingValue
                       | String c' r' =>
                           if byte c' =? 93 then Err TrailingComma else Ok (String c' r')
                       end
                     else Err ExpectedListCommaOrEnd in
            match t with
            | Err e => Err e
            | Ok t =>
                match parse_value f depth t with
                | Ok (v, rest) => parse_array f depth false (v :: acc) rest
                | Err e => Err e
                end
            end
      end
  end
with parse_object (fuel : nat) (depth : Z) (first : bool) (acc : list (string * Json.value))
    (s : string) : result (list (string * Json.value) * string) json_error :=
  match fuel with
  | O => Err OutOfFuel
  | S f =>
      match skip_ws s with
      | EmptyString => Err EofWhileParsingObject
      | String c r =>
          if byte c =? 125 then Ok (acc, r)
          else
            let t := if first then Ok (String c r)
                     else if byte c =? 44 then
                       match skip_ws r with
                       | EmptyString => Err EofWhileParsingValue
                       | String c' r' =>
                           if byte c' =? 125 then Err TrailingComma else Ok (String c' r')
                       end
                     else Err ExpectedObjectCommaOrEnd in
            match t with
            | Err e => Err e
            | Ok EmptyString => Err EofWhileParsingValue
            | Ok (String q rq) =>
                if negb (byte q =? 34) then Err KeyMustBeAString
                else match parse_str f EmptyString rq with
                     | Err e => Err e
                     | Ok (k, r1) =>
                         match skip_ws r1 with
                         | EmptyString => Err EofWhileParsingObject
                         | String colon r2 =>
                             if negb (byte colon =? 58) then Err ExpectedColon
                             else match parse_value f depth r2 with
                                  | Ok (v, r3) => parse_object f depth false (map_insert k v acc) r3
                                  | Err e => Err e
                                  end
                         end
                     end
            end
      end
  end.

(** The fuel [from_str] gives the parser: twice the input's length, plus
    two (a container loop hands its input to the value parser before
    consuming anything). *)
Definition fuel_of (s : string) : nat := 2 * String.length s + 2.

(** [serde_json::from_str::<Value>]: one value, then only whitespace. *)
Definition from_str (s : string) : result Json.value json_error :=
  match parse_value (fuel_of s) 128 s with
  | Err e => Err e
  | Ok (v, rest) =>
      match skip_ws rest with
      | EmptyString => Ok v
      | _ => Err TrailingCharacters
      end
  end.

(** [serde_json::from_slice::<Value>] on bytes: the same as [from_str]
    once the bytes are UTF-8.  (serde_json checks UTF-8 inside strings;
    outside strings a byte above 127 is already a syntax error, so the two
    accept the same inputs and give the same values.) *)
Definition from_slice (s : string) : result Json.value json_error :=
  if utf8_valid s then from_str s else Err InvalidUnicodeCodePoint.

(** ** The compact writer *)

Definition quote : ascii := chr 34.
Definition backslash : ascii := chr 92.

Definition hex_digit (n : Z) : ascii := if n <? 10 then chr (48 + n) else chr (87 + n).

(** [format_escaped_str_contents] on one byte. *)
Definition escape (c : ascii) : string :=
  let b := byte c in
  if b =? 34 then String backslash (String quote EmptyString)
  else if b =? 92 then String backslash (String backslash EmptyString)
  else if b =? 8 then String backslash (String (chr 98) EmptyString)
  else if b =? 12 then String backslash (String (chr 102) EmptyString)
  else if b =? 10 then String backslash (String (chr 110) EmptyString)
  else if b =? 13 then String backslash (String (chr 114) EmptyString)
  else if b =? 9 then String backslash (String (chr 116) EmptyString)
  else if b <? 32 then
    String backslash (String (chr 117) (String (chr 48) (String (chr 48)
      (String (hex_digit (b / 16)) (String (hex_digit (b mod 16)) EmptyString)))))
  else String c EmptyString.

Fixpoint escape_str (s : string) : string :=
  match s with
  | EmptyString => EmptyString
  | String c r => escape c ++ escape_str r
  end.

(** [serialize_str]: the escaped bytes between quotes. *)
Definition write_str (s : string) : string :=
  String quote (escape_str s ++ String quote EmptyString).

Definition write_bool (b : bool) : string := if b then "true" else "false".

(** [serialize_i64]: [itoa], the same digits as [Display]. *)
Definition write_i64 (z : Z) : string := I64.i64_to_string z.

(** A field of a struct: a comma before all but the first, the key, a
    colon and the value. *)
Definition write_field (first : bool) (k v : string) : string :=
  (if first then EmptyString else String (chr 44) EmptyString)
  ++ write_str k ++ String (chr 58) EmptyString ++ v.

(** [SerializeStruct]: [{], the fields, [}]. *)
Fixpoint write_fields (first : bool) (fs : list (string * string)) : string :=
  match fs with
  | [] => EmptyString
  | (k, v) :: fs' => write_field first k v ++ write_fields false fs'
  end.

Definition write_object (fs : list (string * string)) : string :=
  String (chr 123) (write_fields true fs ++ String (chr 125) EmptyString).

(** [SerializeSeq]: [[], the elements separated by commas, []]. *)
Fixpoint write_elems (first : bool) (vs : list string) : string :=
  match vs with
  | [] => EmptyString
  | v :: vs' => (if first then EmptyString else String (chr 44) EmptyString) ++ v
                ++ write_elems false vs'
  end.

Definition write_array (vs : list string) : string :=
  String (chr 91) (write_elems true vs ++ String (chr 93) EmptyString).

(** What may follow a value inside a container or at the end of the text. *)
Definition ends_value (t : string) : bool :=
  match t with
  | String c _ => (byte c =? 44) || (byte c =? 93) || (byte c =? 125)
  | EmptyString => true
  end.

(** What can start the text of a value in a list: not whitespace, not a
    closing bracket. *)
Definition starts_value (w : string) : bool :=
  match w with
  | String c _ => negb (is_ws c) && negb (byte c =? 93)
  | EmptyString => false
  end.

(** [w] is the text of [v]: followed by a separator, the parser reads it
    back with as much fuel as [w] is long. *)
Definition reads_back (depth : Z) (w : string) (v : Json.value) : Prop :=
  forall f t, (String.length w <= f)%nat -> ends_value t = true ->
  parse_value f depth (w ++ t)%string = Ok (v, t).

(** ** Theory: the parser reads back what the writer writes *)

Lemma parse_str_escape f acc c t :
  parse_str (S f) acc (escape c ++ t) = parse_str f (acc ++ String c EmptyString) t.
Proof.
  destruct c as [[] [] [] [] [] [] [] []]; reflexivity.
Qed.

Lemma str_app_assoc (a b c : string) : ((a ++ b) ++ c)%string = (a ++ (b ++ c))%string.
Proof. induction a as [|x a IH]; simpl; [reflexivity | now rewrite IH]. Qed.

Lemma str_app_nil (a : string) : (a ++ EmptyString)%string = a.
Proof. induction a as [|x a IH]; simpl; [reflexivity | now rewrite IH]. Qed.

(** The escaped bytes of [s] and a closing quote read back as [s]. *)
Lemma parse_str_write f acc s t :
  (String.length s < f)%nat ->
  parse_str f acc (escape_str s ++ String quote t)%string = Ok ((acc ++ s)%string, t).
Proof.
  revert f acc. induction s as [|c s IH]; intros [|f] acc Hf; simpl in Hf; try lia.
  - rewrite str_app_nil. reflexivity.
  - cbn [escape_str]. rewrite str_app_assoc, parse_str_escape, IH by lia.
    rewrite str_app_assoc. reflexivity.
Qed.

Lemma ends_value_cases t :
  ends_value t = true ->
  t = EmptyString \/
  exists c r, t = String c r /\ is_digit c = false /\ (byte c =? 46) = false
              /\ (byte c =? 101) = false /\ (byte c =? 69) = false.
Proof.
  destruct t as [|c r]; [now left|]. intros H. right. exists c, r.
  unfold is_digit, in_range. simpl in H.
  repeat rewrite orb_true_iff in H. repeat rewrite Z.eqb_eq in H.
  destruct H as [[H|H]|H]; rewrite H; repeat split; reflexivity.
Qed.

Lemma digits_end a n t : ends_value t = true -> digits a n t = (a, n, t).
Proof.
  intros H. destruct (ends_value_cases t H) as [->|(c & r & -> & Hd & _)]; [reflexivity|].
  simpl. rewrite Hd. reflexivity.
Qed.

Lemma number_tail_end neg d t :
  ends_value t = true ->
  parse_number_tail neg d t
  = match integer_value neg d with Some v => Ok (v, t) | None => Err NumberOutOfRange end.
Proof.
  intros H. destruct (ends_value_cases t H) as [->|(c & r & -> & _ & H1 & H2 & H3)];
    [reflexivity|].
  unfold parse_number_tail. rewrite H1, H2, H3. reflexivity.
Qed.

Lemma digit_char_digit d :
  0 <= d <= 9 -> is_digit (I64.digit_char d) = true /\ digit (I64.digit_char d) = d.
Proof.
  intros Hd.
  assert (d = 0 \/ d = 1 \/ d = 2 \/ d = 3 \/ d = 4 \/ d = 5 \/ d = 6 \/ d = 7
          \/ d = 8 \/ d = 9) as Hc by lia.
  repeat destruct Hc as [-> | Hc]; try (split; reflexivity); subst; split; reflexivity.
Qed.

Lemma to_dec_app fuel m acc t :
  (I64.to_dec fuel m acc ++ t)%string = I64.to_dec fuel m (acc ++ t)%string.
Proof.
  revert m acc. induction fuel as [|f IH]; intros m acc; cbn [I64.to_dec]; [reflexivity|].
  destruct (m <? 10); [reflexivity | apply IH].
Qed.

(** The digits [Display] prints for [m] read back as [m]. *)
Lemma digits_to_dec fuel m acc :
  0 <= m < 10 ^ Z.of_nat fuel ->
  exists k, 0 <= k /\
    forall a n, digits a n (I64.to_dec fuel m acc) = digits (a * 10 ^ k + m) (n + k) acc.
Proof.
  revert m acc. induction fuel as [|f IH]; intros m acc Hm.
  - simpl in Hm. exists 0. split; [lia|]. intros a n. assert (m = 0) as -> by lia.
    replace (a * 10 ^ 0 + 0) with a by (simpl; lia). now rewrite Z.add_0_r.
  - rewrite Nat2Z.inj_succ, Z.pow_succ_r in Hm by lia. cbn [I64.to_dec].
    destruct (Z.ltb_spec m 10).
    + exists 1. split; [lia|]. intros a n. cbn [digits].
      destruct (digit_char_digit m ltac:(lia)) as [-> ->]. now rewrite Z.pow_1_r.
    + destruct (IH (m / 10) (String (I64.digit_char (m mod 10)) acc)) as [k [Hk IHk]].
      { split; [apply Z.div_pos; lia | apply Z.div_lt_upper_bound; lia]. }
      exists (k + 1). split; [lia|]. intros a n. rewrite IHk. cbn [digits].
      pose proof (Z.mod_pos_bound m 10 ltac:(lia)).
      destruct (digit_char_digit (m mod 10) ltac:(lia)) as [-> ->].
      pose proof (Z.div_mod m 10 ltac:(lia)).
      rewrite Z.pow_add_r, Z.pow_1_r by lia.
      set (q := m / 10) in *. set (r := m mod 10) in *. set (P := 10 ^ k) in *.
      f_equal; [rewrite Z.mul_add_distr_r, <- Z.mul_assoc; lia | lia].
Qed.

(** A positive number's first digit is not zero. *)
Lemma to_dec_lead fuel m acc :
  1 <= m < 10 ^ Z.of_nat fuel ->
  exists d r, I64.to_dec fuel m acc = String (I64.digit_char d) r /\ 1 <= d <= 9.
Proof.
  revert m acc. induction fuel as [|f IH]; intros m acc Hm; [simpl in Hm; lia|].
  rewrite Nat2Z.inj_succ, Z.pow_succ_r in Hm by lia. cbn [I64.to_dec].
  destruct (Z.ltb_spec m 10); [exists m; eexists; split; [reflexivity | lia]|].
  apply IH. split; [apply Z.div_le_lower_bound | apply Z.div_lt_upper_bound]; lia.
Qed.

Lemma parse_integer_lead neg d r :
  1 <= d <= 9 ->
  parse_integer neg (String (I64.digit_char d) r)
  = let '(x, _, rest) := digits 0 0 (String (I64.digit_char d) r) in
    parse_number_tail neg x rest.
Proof.
  intros Hd.
  assert (d = 1 \/ d = 2 \/ d = 3 \/ d = 4 \/ d = 5 \/ d = 6 \/ d = 7
          \/ d = 8 \/ d = 9) as Hc by lia.
  repeat destruct Hc as [-> | Hc]; try reflexivity; subst; reflexivity.
Qed.

(** [parse_integer] on the digits of a positive [m] and a separator. *)
Lemma parse_integer_to_dec neg m t :
  1 <= m < 10 ^ 20 -> ends_value t = true ->
  parse_integer neg (I64.to_dec 20 m t)
  = match integer_value neg m with Some v => Ok (v, t) | None => Err NumberOutOfRange end.
Proof.
  intros Hm Ht. destruct (to_dec_lead 20 m t Hm) as (d & r & E & Hd).
  rewrite E, parse_integer_lead by exact Hd. rewrite <- E.
  destruct (digits_to_dec 20 m t ltac:(lia)) as [k [_ ->]].
  rewrite digits_end by exact Ht. rewrite Z.mul_0_l, Z.add_0_l.
  apply number_tail_end, Ht.
Qed.

Lemma parse_value_digit f depth d r :
  0 <= d <= 9 ->
  parse_value (S f) depth (String (I64.digit_char d) r)
  = parse_integer false (String (I64.digit_char d) r).
Proof.
  intros Hd.
  assert (d = 0 \/ d = 1 \/ d = 2 \/ d = 3 \/ d = 4 \/ d = 5 \/ d = 6 \/ d = 7
          \/ d = 8 \/ d = 9) as Hc by lia.
  repeat destruct Hc as [-> | Hc]; try reflexivity; subst; reflexivity.
Qed.

Lemma pow63_lt_pow20 : 2 ^ 63 < 10 ^ 20.
Proof. reflexivity. Qed.

(** An [i64] written by [itoa] reads back as the same integer. *)
Lemma parse_write_i64 f depth z t :
  I64.MIN <= z <= I64.MAX -> ends_value t = true ->
  parse_value (S f) depth (write_i64 z ++ t)%string = Ok (Json.of_i64 z, t).
Proof.
  unfold write_i64, I64.i64_to_string, Json.of_i64, I64.MIN, I64.MAX.
  intros Hz Ht. pose proof pow63_lt_pow20.
  destruct (Z.ltb_spec z 0).
  - cbn [String.append]. rewrite to_dec_app.
    change (parse_value (S f) depth (String "-" (I64.to_dec 20 (- z) (EmptyString ++ t))))
      with (parse_integer true (I64.to_dec 20 (- z) t)).
    rewrite parse_integer_to_dec by (exact Ht || lia).
    unfold integer_value. simpl negb.
    replace ((1 <=? - z) && (- z <=? 2 ^ 63)) with true
      by (symmetry; apply andb_true_iff; split; apply Z.leb_le; lia).
    now rewrite Z.opp_involutive.
  - destruct (Z.eq_dec z 0) as [->|Hnz].
    + destruct (ends_value_cases t Ht) as [->|(c & r & -> & Hd & _)]; [reflexivity|].
      change (I64.to_dec 20 0 EmptyString) with (String "0" EmptyString).
      cbn -[parse_number_tail]. rewrite Hd. apply number_tail_end, Ht.
    + rewrite to_dec_app. destruct (to_dec_lead 20 z (EmptyString ++ t)) as (d & r & E & Hd);
        [lia|].
      rewrite E, parse_value_digit, <- E by lia. simpl (EmptyString ++ t)%string.
      rewrite parse_integer_to_dec by (exact Ht || lia).
      unfold integer_value, U64_MAX. simpl negb.
      replace (z <=? 2 ^ 64 - 1) with true by (symmetry; apply Z.leb_le; lia). reflexivity.
Qed.

Lemma parse_write_bool f depth b t :
  parse_value (S f) depth (write_bool b ++ t)%string = Ok (Json.Bool b, t).
Proof. destruct b; reflexivity. Qed.

Lemma parse_write_str f depth s t :
  (String.length s < f)%nat ->
  parse_value (S f) depth (write_str s ++ t)%string = Ok (Json.Str s, t).
Proof.
  intros Hf. unfold write_str. cbn [String.append]. rewrite str_app_assoc.
  change (parse_value (S f) depth (String quote (escape_str s ++ (String quote EmptyString ++ t))))
    with (match parse_str f EmptyString (escape_str s ++ String quote t) with
          | Ok (x, rest) => Ok (Json.Str x, rest)
          | Err e => Err e
          end).
  rewrite parse_str_write by exact Hf. reflexivity.
Qed.

(** *** Lengths *)

Lemma str_length_app (a b : string) :
  String.length (a ++ b) = (String.length a + String.length b)%nat.
Proof. induction a as [|x a IH]; simpl; [reflexivity | now rewrite IH]. Qed.

Lemma escape_str_length s : (String.length s <= String.length (escape_str s))%nat.
Proof.
  induction s as [|c s IH]; simpl; [lia|]. rewrite str_length_app.
  assert (1 <= String.length (escape c))%nat
    by (destruct c as [[] [] [] [] [] [] [] []]; simpl; lia).
  lia.
Qed.

Lemma to_dec_length fuel m acc :
  (String.length acc <= String.length (I64.to_dec fuel m acc))%nat.
Proof.
  revert m acc. induction fuel as [|f IH]; intros m acc; cbn [I64.to_dec]; [lia|].
  destruct (m <? 10); simpl; [lia|]. specialize (IH (m / 10) (String (I64.digit_char (m mod 10)) acc)).
  simpl in IH. lia.
Qed.

Lemma write_i64_length z : (1 <= String.length (write_i64 z))%nat.
Proof.
  unfold write_i64, I64.i64_to_string. destruct (z <? 0); simpl; [lia|].
  destruct (z <? 10); simpl; [lia|].
  pose proof (to_dec_length 19 (z / 10) (String (I64.digit_char (z mod 10)) EmptyString)).
  simpl in *. lia.
Qed.

Lemma write_field_length first k w :
  String.length (write_field first k w)
  = ((if first then 0 else 1) + String.length (escape_str k) + 3 + String.length w)%nat.
Proof.
  unfold write_field, write_str. rewrite !str_length_app. destruct first; simpl;
    rewrite str_length_app; simpl; lia.
Qed.

(** *** Scalars *)

Lemma reads_back_i64 depth z :
  I64.MIN <= z <= I64.MAX -> reads_back depth (write_i64 z) (Json.of_i64 z).
Proof.
  intros Hz [|f] t Hf Ht; [pose proof (write_i64_length z); lia|].
  apply parse_write_i64; assumption.
Qed.

Lemma reads_back_bool depth b : reads_back depth (write_bool b) (Json.Bool b).
Proof. intros [|f] t Hf _; [destruct b; simpl in Hf; lia | apply parse_write_bool]. Qed.

Lemma reads_back_str depth s : reads_back depth (write_str s) (Json.Str s).
Proof.
  intros [|f] t Hf _; unfold write_str in Hf; simpl in Hf; rewrite str_length_app in Hf;
    simpl in Hf; pose proof (escape_str_length s); [lia|].
  apply parse_write_str. lia.
Qed.

(** *** Objects *)

Lemma write_field_app first k w X :
  (write_field first k w ++ X)%string
  = ((if first then EmptyString else String (chr 44) EmptyString)
     ++ String quote (escape_str k ++ String quote (String (chr 58) (w ++ X))))%string.
Proof.
  unfold write_field, write_str. destruct first; simpl; rewrite !str_app_assoc; reflexivity.
Qed.

Lemma parse_object_field f depth first acc k w X :
  (String.length k < f)%nat ->
  parse_object (S f) depth first acc (write_field first k w ++ X)%string
  = match parse_value f depth (w ++ X)%string with
    | Ok (v, r) => parse_object f depth false (map_insert k v acc) r
    | Err e => Err e
    end.
Proof.
  intros Hk. rewrite write_field_app.
  destruct first; cbn -[parse_str parse_value map_insert]; rewrite parse_str_write by lia;
    reflexivity.
Qed.

Lemma ends_value_fields fs t :
  ends_value (write_fields false fs ++ String (chr 125) t)%string = true.
Proof. destruct fs as [|[k w] fs]; reflexivity. Qed.

Lemma parse_fields depth first acc (fs : list (string * string * Json.value)) fuel t :
  Forall (fun '(_, w, v) => reads_back depth w v) fs ->
  (String.length (write_fields first (map (fun '(k, w, _) => (k, w)) fs)) < fuel)%nat ->
  parse_object fuel depth first acc
    (write_fields first (map (fun '(k, w, _) => (k, w)) fs) ++ String (chr 125) t)%string
  = Ok (fold_left (fun m '(k, _, v) => map_insert k v m) fs acc, t).
Proof.
  revert first acc fuel. induction fs as [|[[k w] v] fs IH]; intros first acc [|f] Hall Hf;
    simpl in Hf; try lia; [reflexivity|].
  inversion Hall as [|? ? Hw Hall']; subst. cbn [map write_fields fold_left].
  rewrite str_length_app, write_field_length in Hf.
  pose proof (escape_str_length k).
  rewrite str_app_assoc, parse_object_field by lia.
  rewrite Hw by (apply ends_value_fields || lia).
  apply IH; [exact Hall' | lia].
Qed.

Lemma parse_value_object f depth r :
  parse_value (S f) depth (String (chr 123) r)
  = if depth =? 1 then Err RecursionLimitExceeded
    else match parse_object f (depth - 1) true [] r with
         | Ok (m, rest) => Ok (Json.Object m, rest)
         | Err e => Err e
         end.
Proof. reflexivity. Qed.

(** A struct written by [SerializeStruct] reads back as the object of its
    fields, in key order. *)
Lemma reads_back_object depth (fs : list (string * string * Json.value)) :
  1 < depth ->
  Forall (fun '(_, w, v) => reads_back (depth - 1) w v) fs ->
  reads_back depth (write_object (map (fun '(k, w, _) => (k, w)) fs))
    (Json.Object (fold_left (fun m '(k, _, v) => map_insert k v m) fs [])).
Proof.
  intros Hd Hall [|f] t Hf Ht; unfold write_object in *; simpl in Hf;
    rewrite str_length_app in Hf; simpl in Hf; [lia|].
  cbn [String.append]. rewrite str_app_assoc, parse_value_object. cbn [String.append].
  replace (depth =? 1) with false by (symmetry; apply Z.eqb_neq; lia).
  rewrite parse_fields by (exact Hall || lia). reflexivity.
Qed.

(** *** Arrays *)

Lemma parse_array_elem f depth first acc w X :
  starts_value w = true ->
  parse_array (S f) depth first acc
    ((if first then EmptyString else String (chr 44) EmptyString) ++ w ++ X)%string
  = match parse_value f depth (w ++ X)%string with
    | Ok (v, r) => parse_array f depth false (v :: acc) r
    | Err e => Err e
    end.
Proof.
  destruct w as [|c w]; [discriminate|]. simpl. intros H.
  apply andb_true_iff in H as [Hws Hb]. apply negb_true_iff in Hws, Hb.
  assert (Hs : skip_ws (String c (w ++ X)) = String c (w ++ X)) by (simpl; now rewrite Hws).
  destruct first; cbn [String.append].
  - change (parse_array (S f) depth true acc (String c (w ++ X)))
      with (match skip_ws (String c (w ++ X)) with
            | EmptyString => Err EofWhileParsingList
            | String c r =>
                if byte c =? 93 then Ok (rev acc, r)
                else match parse_value f depth (String c r) with
                     | Ok (v, rest) => parse_array f depth false (v :: acc) rest
                     | Err e => Err e
                     end
            end).
    now rewrite Hs, Hb.
  - remember (String c (w ++ X)) as Y eqn:HY. cbn -[parse_value skip_ws].
    assert (Hc : skip_ws (String ","%char Y) = String ","%char Y) by reflexivity.
    rewrite Hc. cbn -[parse_value skip_ws]. subst Y. rewrite Hs. cbn -[parse_value byte].
    now rewrite Hb.
Qed.

Lemma ends_value_elems ws t :
  ends_value (write_elems false ws ++ String (chr 93) t)%string = true.
Proof. destruct ws; reflexivity. Qed.

Lemma write_elems_length first w ws :
  String.length (write_elems first (w :: ws))
  = ((if first then 0 else 1) + String.length w + String.length (write_elems false ws))%nat.
Proof. cbn [write_elems]. rewrite !str_length_app. destruct first; reflexivity. Qed.

Lemma parse_elems depth first acc (es : list (string * Json.value)) fuel t :
  Forall (fun '(w, v) => reads_back depth w v /\ starts_value w = true) es ->
  (String.length (write_elems first (map fst es)) < fuel)%nat ->
  parse_array fuel depth first acc (write_elems first (map fst es) ++ String (chr 93) t)%string
  = Ok (rev acc ++ map snd es, t).
Proof.
  revert first acc fuel. induction es as [|[w v] es IH]; intros first acc [|n] Hall Hf;
    cbn [map fst snd] in *.
  - simpl in Hf. lia.
  - rewrite app_nil_r. reflexivity.
  - rewrite write_elems_length in Hf. lia.
  - inversion Hall as [|? ? Hwv Hall']; subst. destruct Hwv as [Hw Hs].
    rewrite write_elems_length in Hf. cbn [write_elems].
    rewrite !str_app_assoc, parse_array_elem by exact Hs.
    rewrite Hw by (apply ends_value_elems || lia).
    assert (1 <= String.length w)%nat by (destruct w; [discriminate | simpl; lia]).
    rewrite IH by (exact Hall' || lia). cbn [rev]. now rewrite <- app_assoc.
Qed.

Lemma parse_value_array f depth r :
  parse_value (S f) depth (String (chr 91) r)
  = if depth =? 1 then Err RecursionLimitExceeded
    else match parse_array f (depth - 1) true [] r with
         | Ok (l, rest) => Ok (Json.Array l, rest)
         | Err e => Err e
         end.
Proof. reflexivity. Qed.

(** A sequence written by [SerializeSeq] reads back as the array of its
    elements. *)
Lemma reads_back_array depth (es : list (string * Json.value)) :
  1 < depth ->
  Forall (fun '(w, v) => reads_back (depth - 1) w v /\ starts_value w = true) es ->
  reads_back depth (write_array (map fst es)) (Json.Array (map snd es)).
Proof.
  intros Hd Hall [|f] t Hf Ht; unfold write_array in *; simpl in Hf;
    rewrite str_length_app in Hf; simpl in Hf; [lia|].
  cbn [String.append]. rewrite str_app_assoc, parse_value_array. cbn [String.append].
  replace (depth =? 1) with false by (symmetry; apply Z.eqb_neq; lia).
  rewrite parse_elems by (exact Hall || lia). reflexivity.
Qed.

Lemma starts_value_object fs : starts_value (write_object fs) = true.
Proof. reflexivity. Qed.

(** Read back at the top level: [from_str] on the text of [v] is [v]. *)
Lemma from_str_reads_back w v : reads_back 128 w v -> from_str w = Ok v.
Proof.
  intros H. unfold from_str.
  rewrite <- (str_app_nil w) at 2. rewrite H by (reflexivity || (unfold fuel_of; lia)).
  reflexivity.
Qed.

(** *** UTF-8 of the written text *)

Lemma in_range_ascii lo hi d : 128 <= lo -> (byte d <? 128) = true -> in_range lo hi d = false.
Proof.
  intros Hlo Hd. apply Z.ltb_lt in Hd. unfold in_range.
  replace (lo <=? byte d) with false by (symmetry; apply Z.leb_gt; lia). reflexivity.
Qed.

(** A lead byte followed by an ASCII byte where a continuation byte is
    due. *)
Lemma utf8_ascii_cont2 c1 d y :
  (byte c1 <? 128) = false -> (byte d <? 128) = true -> utf8_valid (String c1 (String d y)) = false.
Proof.
  intros H1 Hd. simpl. rewrite H1. unfold cont. rewrite !(in_range_ascii _ _ d) by (lia || exact Hd).
  destruct (in_range 194 223 c1); [reflexivity|]. destruct y as [|c3 [|c4 y]]; [reflexivity| |];
    destruct (in_range 224 239 c1), (byte c1 =? 224), (byte c1 =? 237), (byte c1 =? 240),
      (byte c1 =? 244); rewrite ?andb_false_r; reflexivity.
Qed.

Lemma utf8_ascii_cont3 c1 c2 d y :
  (byte c1 <? 128) = false -> (byte d <? 128) = true ->
  utf8_valid (String c1 (String c2 (String d y)))
  = if in_range 194 223 c1 then cont c2 && utf8_valid (String d y) else false.
Proof.
  intros H1 Hd. cbn [utf8_valid]. rewrite H1. unfold cont.
  rewrite !(in_range_ascii _ _ d) by (lia || exact Hd).
  destruct (in_range 194 223 c1); [reflexivity|]. destruct y as [|c4 y];
    destruct (in_range 224 239 c1); rewrite ?andb_false_r, ?andb_false_l; reflexivity.
Qed.

Lemma utf8_ascii_cont4 c1 c2 c3 d y :
  (byte c1 <? 128) = false -> (byte d <? 128) = true ->
  utf8_valid (String c1 (String c2 (String c3 (String d y))))
  = if in_range 194 223 c1 then cont c2 && utf8_valid (String c3 (String d y))
    else if in_range 224 239 c1 then
      (if byte c1 =? 224 then in_range 160 191 c2
       else if byte c1 =? 237 then in_range 128 159 c2 else cont c2) && cont c3
      && utf8_valid (String d y)
    else false.
Proof.
  intros H1 Hd. cbn [utf8_valid]. rewrite H1. unfold cont.
  rewrite !(in_range_ascii _ _ d) by (lia || exact Hd). rewrite ?andb_false_r, ?andb_false_l.
  reflexivity.
Qed.

Lemma utf8_valid_app a b : utf8_valid a = true -> utf8_valid (a ++ b)%string = utf8_valid b.
Proof.
  induction a as [a IH] using (well_founded_induction (well_founded_ltof _ String.length)).
  unfold ltof in IH.
  destruct a as [|c1 r1]; [reflexivity|]. cbn [utf8_valid String.append].
  destruct (byte c1 <? 128); [apply IH; simpl; lia|].
  destruct r1 as [|c2 r2]; [discriminate|]. cbn [String.append].
  destruct (in_range 194 223 c1).
  { intros [H2 H]%andb_true_iff. rewrite H2. apply IH; [simpl; lia | exact H]. }
  destruct r2 as [|c3 r3]; [discriminate|]. cbn [String.append].
  destruct (in_range 224 239 c1).
  { intros [H2 H]%andb_true_iff. rewrite H2. apply IH; [simpl; lia | exact H]. }
  destruct r3 as [|c4 r4]; [discriminate|]. cbn [String.append].
  intros [H2 H]%andb_true_iff. rewrite H2. apply IH; [simpl; lia | exact H].
Qed.

Lemma escape_ascii c X :
  (byte c <? 128) = true -> utf8_valid (escape c ++ X)%string = utf8_valid X.
Proof.
  destruct c as [[] [] [] [] [] [] [] []]; intros H; try discriminate H;
    apply utf8_valid_app; reflexivity.
Qed.

Lemma escape_high c : (byte c <? 128) = false -> escape c = String c EmptyString.
Proof. destruct c as [[] [] [] [] [] [] [] []]; intros H; try discriminate H; reflexivity. Qed.

Lemma escape_head c :
  (byte c <? 128) = true -> exists d x, escape c = String d x /\ (byte d <? 128) = true.
Proof.
  destruct c as [[] [] [] [] [] [] [] []]; intros H; try discriminate H;
    (eexists; eexists; split; [reflexivity | reflexivity]).
Qed.

Lemma escape_str_high c r :
  (byte c <? 128) = false -> escape_str (String c r) = String c (escape_str r).
Proof. intros H. cbn [escape_str]. now rewrite escape_high. Qed.

Lemma escape_str_ascii c r :
  (byte c <? 128) = true ->
  exists d x, escape_str (String c r) = String d (x ++ escape_str r) /\ (byte d <? 128) = true.
Proof.
  intros H. destruct (escape_head c H) as (d & x & E & Hd). exists d, x.
  cbn [escape_str]. now rewrite E.
Qed.

Lemma utf8_cons4 c1 c2 c3 c4 y :
  (byte c1 <? 128) = false ->
  utf8_valid (String c1 (String c2 (String c3 (String c4 y))))
  = if in_range 194 223 c1 then cont c2 && utf8_valid (String c3 (String c4 y))
    else if in_range 224 239 c1 then
      (if byte c1 =? 224 then in_range 160 191 c2
       else if byte c1 =? 237 then in_range 128 159 c2 else cont c2) && cont c3
      && utf8_valid (String c4 y)
    else in_range 240 244 c1 &&
      (if byte c1 =? 240 then in_range 144 191 c2
       else if byte c1 =? 244 then in_range 128 143 c2 else cont c2) && cont c3 && cont c4
      && utf8_valid y.
Proof. intros H1. simpl. rewrite H1. reflexivity. Qed.

(** Escaping keeps the bytes above 127 and writes ASCII for the others,
    so the escaped text is UTF-8 exactly when the string is. *)
Lemma utf8_escape_str s : utf8_valid (escape_str s) = utf8_valid s.
Proof.
  induction s as [s IH] using (well_founded_induction (well_founded_ltof _ String.length)).
  unfold ltof in IH. destruct s as [|c1 r1]; [reflexivity|].
  destruct (byte c1 <? 128) eqn:H1.
  { cbn [escape_str]. rewrite escape_ascii by exact H1. cbn [utf8_valid]. rewrite H1.
    apply IH. simpl. lia. }
  rewrite escape_str_high by exact H1. destruct r1 as [|c2 r2]; [reflexivity|].
  destruct (byte c2 <? 128) eqn:H2.
  { destruct (escape_str_ascii c2 r2 H2) as (d & x & -> & Hd). now rewrite !utf8_ascii_cont2. }
  rewrite escape_str_high by exact H2. destruct r2 as [|c3 r3]; [reflexivity|].
  destruct (byte c3 <? 128) eqn:H3.
  { destruct (escape_str_ascii c3 r3 H3) as (d & x & E & Hd).
    rewrite E, !utf8_ascii_cont3 by assumption. rewrite <- E, (IH (String c3 r3)) by (simpl; lia).
    reflexivity. }
  rewrite escape_str_high by exact H3. destruct r3 as [|c4 r4]; [reflexivity|].
  destruct (byte c4 <? 128) eqn:H4.
  { destruct (escape_str_ascii c4 r4 H4) as (d & x & E & Hd).
    rewrite E, !utf8_ascii_cont4 by assumption.
    rewrite <- E, <- (escape_str_high c3 (String c4 r4)) by exact H3.
    rewrite (IH (String c3 (String c4 r4))), (IH (String c4 r4)) by (simpl; lia). reflexivity. }
  rewrite escape_str_high by exact H4. rewrite !utf8_cons4 by exact H1.
  rewrite <- (escape_str_high c4 r4 H4), <- (escape_str_high c3 _ H3).
  rewrite (IH (String c3 (String c4 r4))), (IH (String c4 r4)), (IH r4) by (simpl; lia).
  reflexivity.
Qed.

Lemma utf8_write_str s X :
  utf8_valid s = true -> utf8_valid (write_str s ++ X)%string = utf8_valid X.
Proof.
  intros H. unfold write_str. cbn [String.append]. rewrite str_app_assoc.
  change (utf8_valid (String quote (escape_str s ++ (String quote EmptyString ++ X))))
    with (utf8_valid (escape_str s ++ (String quote EmptyString ++ X))).
  rewrite utf8_valid_app by (rewrite utf8_escape_str; exact H). reflexivity.
Qed.

Lemma utf8_app_true a b :
  utf8_valid a = true -> utf8_valid b = true -> utf8_valid (a ++ b)%string = true.
Proof. intros Ha Hb. now rewrite utf8_valid_app. Qed.

Lemma utf8_digit_cons d r :
  0 <= d <= 9 -> utf8_valid (String (I64.digit_char d) r) = utf8_valid r.
Proof.
  intros Hd. destruct (digit_char_digit d Hd) as [Hdig _].
  unfold is_digit, in_range in Hdig. apply andb_true_iff in Hdig as [_ Hle].
  apply Z.leb_le in Hle. cbn [utf8_valid].
  replace (byte (I64.digit_char d) <? 128) with true by (symmetry; apply Z.ltb_lt; lia).
  reflexivity.
Qed.

Lemma utf8_to_dec fuel m acc :
  0 <= m -> utf8_valid (I64.to_dec fuel m acc) = utf8_valid acc.
Proof.
  revert m acc. induction fuel as [|f IH]; intros m acc Hm; cbn [I64.to_dec]; [reflexivity|].
  destruct (Z.ltb_spec m 10); [apply utf8_digit_cons; lia|].
  rewrite IH by (apply Z.div_pos; lia). apply utf8_digit_cons.
  pose proof (Z.mod_pos_bound m 10). lia.
Qed.

Lemma utf8_write_i64 z : utf8_valid (write_i64 z) = true.
Proof.
  unfold write_i64, I64.i64_to_string. destruct (Z.ltb_spec z 0).
  - cbn [utf8_valid]. rewrite utf8_to_dec by lia. reflexivity.
  - rewrite utf8_to_dec by lia. reflexivity.
Qed.

Lemma utf8_write_bool b : utf8_valid (write_bool b) = true.
Proof. destruct b; reflexivity. Qed.

Lemma utf8_write_fields first fs :
  Forall (fun '(k, v) => utf8_valid k = true /\ utf8_valid v = true) fs ->
  utf8_valid (write_fields first fs) = true.
Proof.
  revert first. induction fs as [|[k v] fs IH]; intros first Hall; [reflexivity|].
  inversion Hall as [|? ? Hkv Hall']; subst. destruct Hkv as [Hk Hv]. cbn [write_fields].
  apply utf8_app_true; [|apply IH, Hall'].
  unfold write_field. destruct first; cbn [String.append utf8_valid];
    rewrite utf8_write_str by exact Hk; exact Hv.
Qed.

Lemma utf8_write_object fs :
  Forall (fun '(k, v) => utf8_valid k = true /\ utf8_valid v = true) fs ->
  utf8_valid (write_object fs) = true.
Proof.
  intros H. unfold write_object. cbn [utf8_valid].
  apply utf8_app_true; [apply utf8_write_fields, H | reflexivity].
Qed.

Lemma utf8_write_str_valid s : utf8_valid s = true -> utf8_valid (write_str s) = true.
Proof. intros H. rewrite <- (str_app_nil (write_str s)), utf8_write_str by exact H. reflexivity. Qed.

(** *** Fuel: [from_str] never runs out *)

Ltac inv_ok :=
  repeat match goal with
  | H : Ok _ = Ok _ |- _ => injection H as; subst
  | H : (_, _) = (_, _) |- _ => injection H as; subst
  | H : EmptyString = String _ _ |- _ => discriminate H
  | H : String _ _ = EmptyString |- _ => discriminate H
  | H : Err _ = Ok _ |- _ => discriminate H
  | H : Ok _ = Err _ |- _ => discriminate H
  | H : context [match ?x with _ => _ end] |- _ => let E := fresh "E" in destruct x eqn:E
  | H : context [if ?b then _ else _] |- _ => let E := fresh "E" in destruct b eqn:E
  end.

Lemma skip_ws_length s : (String.length (skip_ws s) <= String.length s)%nat.
Proof. induction s as [|c s IH]; simpl; [lia|]. destruct (is_ws c); simpl; lia. Qed.

Lemma digits_rest a n s x k r :
  digits a n s = (x, k, r) -> (String.length r <= String.length s)%nat.
Proof.
  revert a n. induction s as [|c s IH]; intros a n H; simpl in H.
  - injection H as <- <- <-. lia.
  - destruct (is_digit c); [apply IH in H; simpl; lia | injection H as <- <- <-; lia].
Qed.

Ltac len_fin :=
  repeat match goal with H : digits _ _ _ = (_, _, _) |- _ => apply digits_rest in H end;
  subst; simpl in *; lia.

Lemma ident_rest e v s v' r : ident e v s = Ok (v', r) -> (String.length r <= String.length s)%nat.
Proof.
  revert s. induction e as [|c e IH]; intros s H; simpl in H; [injection H as <- <-; lia|].
  destruct s as [|c' s]; [discriminate|]. destruct (Ascii.eqb c' c); [|discriminate].
  apply IH in H. simpl. lia.
Qed.

Lemma parse_exponent_rest neg d e s v r :
  parse_exponent neg d e s = Ok (v, r) -> (String.length r <= String.length s)%nat.
Proof.
  unfold parse_exponent. intros H. inv_ok; len_fin.
Qed.

Lemma parse_number_tail_rest neg d s v r :
  parse_number_tail neg d s = Ok (v, r) -> (String.length r <= String.length s)%nat.
Proof.
  unfold parse_number_tail. intros H. inv_ok;
    repeat match goal with H : parse_exponent _ _ _ _ = Ok _ |- _ => apply parse_exponent_rest in H end;
    len_fin.
Qed.

Lemma parse_integer_rest neg s v r :
  parse_integer neg s = Ok (v, r) -> (String.length r < String.length s)%nat.
Proof.
  unfold parse_integer. intros H. inv_ok;
    repeat match goal with H : parse_number_tail _ _ _ = Ok _ |- _ => apply parse_number_tail_rest in H end;
    len_fin.
Qed.

Lemma hex_n_rest n acc s x r : hex_n n acc s = Ok (x, r) -> (String.length r <= String.length s)%nat.
Proof.
  revert acc s. induction n as [|n IH]; intros acc s H; simpl in H; [injection H as <- <-; lia|].
  destruct s as [|c s]; [discriminate|]. destruct (hex_val c); [|discriminate].
  apply IH in H. simpl. lia.
Qed.

Lemma unicode_escape_rest s u r : unicode_escape s = Ok (u, r) -> (String.length r <= String.length s)%nat.
Proof.
  unfold unicode_escape. intros H. inv_ok;
    repeat match goal with H : hex_n _ _ _ = Ok _ |- _ => apply hex_n_rest in H end; len_fin.
Qed.

Lemma parse_str_rest f acc s x r : parse_str f acc s = Ok (x, r) -> (String.length r < String.length s)%nat.
Proof.
  revert acc s. induction f as [|f IH]; intros acc s H; simpl in H; [discriminate|].
  destruct s as [|c s]; [discriminate|].
  destruct (byte c =? 34); [injection H as <- <-; simpl; lia|].
  destruct (byte c =? 92).
  - destruct s as [|e s]; [discriminate|]. destruct (byte e =? 117).
    + destruct (unicode_escape s) as [[u r'']|] eqn:Hu; [|discriminate].
      apply unicode_escape_rest in Hu. apply IH in H. simpl. lia.
    + destruct (short_escape e); [|discriminate]. apply IH in H. simpl. lia.
  - destruct (byte c <? 32); [discriminate|]. apply IH in H. simpl. lia.
Qed.

Ltac rest_facts IHv IHa IHo :=
  repeat match goal with
  | H : skip_ws ?x = _ |- _ =>
      let L := fresh "L" in pose proof (skip_ws_length x) as L; rewrite H in L; clear H
  | H : ident _ _ _ = Ok _ |- _ => apply ident_rest in H
  | H : parse_integer _ _ = Ok _ |- _ => apply parse_integer_rest in H
  | H : parse_str _ _ _ = Ok _ |- _ => apply parse_str_rest in H
  | H : parse_value _ _ _ = Ok _ |- _ => apply IHv in H
  | H : parse_array _ _ _ _ _ = Ok _ |- _ => apply IHa in H
  | H : parse_object _ _ _ _ _ = Ok _ |- _ => apply IHo in H
  end.

(** Each parser that succeeds consumes input. *)
Lemma parse_rest n :
  (forall d s v r, parse_value n d s = Ok (v, r) -> (String.length r < String.length s)%nat) /\
  (forall d first acc s l r, parse_array n d first acc s = Ok (l, r) ->
     (String.length r < String.length s)%nat) /\
  (forall d first acc s m r, parse_object n d first acc s = Ok (m, r) ->
     (String.length r < String.length s)%nat).
Proof.
  induction n as [|f [IHv [IHa IHo]]]; [repeat split; intros; discriminate|].
  split; [|split]; intros until r; cbn [parse_value parse_array parse_object]; intros H;
    inv_ok; rest_facts IHv IHa IHo; simpl in *; lia.
Qed.

Ltac inv_err :=
  repeat match goal with
  | H : Ok _ = Ok _ |- _ => injection H as; subst
  | H : (_, _) = (_, _) |- _ => injection H as; subst
  | H : Err _ = Err _ |- _ => injection H as; subst
  | H : Err _ = Ok _ |- _ => discriminate H
  | H : Ok _ = Err _ |- _ => discriminate H
  | H : ?e = OutOfFuel |- _ => is_constructor e; discriminate H
  | H : EmptyString = String _ _ |- _ => discriminate H
  | H : String _ _ = EmptyString |- _ => discriminate H
  | H : context [match ?x with _ => _ end] |- _ => let E := fresh "E" in destruct x eqn:E
  | H : context [if ?b then _ else _] |- _ => let E := fresh "E" in destruct b eqn:E
  end.

Lemma hex_n_fuel n acc s : hex_n n acc s <> Err OutOfFuel.
Proof.
  revert acc s. induction n as [|n IH]; intros acc s H; simpl in H; [discriminate|].
  destruct s as [|c s]; [discriminate|]. destruct (hex_val c); [exact (IH _ _ H) | discriminate].
Qed.

Ltac no_fuel_facts :=
  repeat match goal with
  | H : hex_n _ _ _ = Err OutOfFuel |- _ => destruct (hex_n_fuel _ _ _ H)
  end.

Lemma unicode_escape_fuel s : unicode_escape s <> Err OutOfFuel.
Proof. unfold unicode_escape. intros H. inv_err; no_fuel_facts. Qed.

Lemma parse_str_fuel f acc s :
  (String.length s < f)%nat -> parse_str f acc s <> Err OutOfFuel.
Proof.
  revert acc s. induction f as [|f IH]; intros acc s Hf H; [lia|]. simpl in H.
  destruct s as [|c s]; [discriminate|]. simpl in Hf.
  destruct (byte c =? 34); [discriminate|].
  destruct (byte c =? 92).
  - destruct s as [|e s]; [discriminate|]. simpl in Hf. destruct (byte e =? 117).
    + destruct (unicode_escape s) as [[u r'']|x] eqn:Hu.
      * apply unicode_escape_rest in Hu. revert H. apply IH. lia.
      * injection H as ->. exact (unicode_escape_fuel s Hu).
    + destruct (short_escape e); [|discriminate]. revert H. apply IH. lia.
  - destruct (byte c <? 32); [discriminate|]. revert H. apply IH. lia.
Qed.

Lemma ident_fuel e v s : ident e v s <> Err OutOfFuel.
Proof.
  revert s. induction e as [|c e IH]; intros s H; simpl in H; [discriminate|].
  destruct s as [|c' s]; [discriminate|]. destruct (Ascii.eqb c' c); [exact (IH _ H) | discriminate].
Qed.

Lemma parse_integer_fuel neg s : parse_integer neg s <> Err OutOfFuel.
Proof.
  unfold parse_integer, parse_number_tail, parse_exponent, eof_or. intros H. inv_err.
Qed.

Ltac fuel_facts IHv IHa IHo :=
  repeat match goal with
  | H : ident _ _ _ = Err OutOfFuel |- _ => destruct (ident_fuel _ _ _ H)
  | H : parse_integer _ _ = Err OutOfFuel |- _ => destruct (parse_integer_fuel _ _ H)
  | H : parse_str _ _ ?s = Err OutOfFuel |- _ => revert H; apply parse_str_fuel
  | H : parse_value _ _ _ = Err OutOfFuel |- _ => revert H; apply IHv
  | H : parse_array _ _ _ _ _ = Err OutOfFuel |- _ => revert H; apply IHa
  | H : parse_object _ _ _ _ _ = Err OutOfFuel |- _ => revert H; apply IHo
  end.

(** The fuel [from_str] gives is enough: a value needs one more unit of
    fuel than twice its text's length, a list or object loop two more. *)
Lemma parse_fuel n :
  (forall d s, (2 * String.length s + 1 <= n)%nat -> parse_value n d s <> Err OutOfFuel) /\
  (forall d first acc s, (2 * String.length s + 2 <= n)%nat ->
     parse_array n d first acc s <> Err OutOfFuel) /\
  (forall d first acc s, (2 * String.length s + 2 <= n)%nat ->
     parse_object n d first acc s <> Err OutOfFuel).
Proof.
  induction n as [|f [IHv [IHa IHo]]]; [repeat split; intros; lia|].
  destruct (parse_rest f) as (Rv & Ra & Ro).
  split; [|split]; intros until s; intros Hn; cbn [parse_value parse_array parse_object]; intros H;
    inv_err; rest_facts Rv Ra Ro; fuel_facts IHv IHa IHo; simpl in *; lia.
Qed.

(** the fuel [from_str] gives the parser is enough on every input:
    [from_str] returns a value or one of serde_json's errors, never the
    model's [OutOfFuel], so the fuel bound does not change any result. *)
Theorem from_str_fuel s : from_str s <> Err OutOfFuel.
Proof.
  unfold from_str. destruct (parse_value (fuel_of s) 128 s) as [[v r]|e] eqn:E.
  - destruct (skip_ws r); discriminate.
  - intros H. injection H as ->. revert E. apply (proj1 (parse_fuel (fuel_of s))).
    unfold fuel_of. lia.
Qed.

End JsonText.
