(* ===== verification/Config.v ===== *)
(** * The configuration file and the database connection

    [read-atb-config] (src/app/lib/read-atb-config/src/lib.rs) reads the YAML
    file named by the environment variable [PATH_ATB_CONFIG] into an
    [AtbConf]; [AtbDB::connect] (src/app/lib/atb-db/src/lib.rs 47-81) takes
    the database file from it and opens the connection pool.  Every binary
    starts with these two steps.

    The process environment ([env]) is the state: the environment variables,
    what opening and reading a file gives, and whether r2d2 can open a pool
    on a path.  The YAML text parser (yaml_rust's [YamlLoader]) is the
    interface [YamlLoader]; its one law is that it produces [i64] integers.
    [Yaml] is yaml_rust's value type with its [Index<&str>], [as_str] and
    [as_i64]. *)

From Stdlib Require Import ZArith List String Lia.
From S2P Require Import Prelude RustPrim.
Import ListNotations.
Open Scope Z_scope.
Open Scope string_scope.

Module Config.

Local Set Warnings "-register-all".

(** [yaml_rust::Yaml].  [Hash] is a [LinkedHashMap<Yaml, Yaml>], kept as
    the list of its entries in insertion order. *)
Inductive Yaml : Type :=
| Real (s : string)
| Integer (i : Z)
| YString (s : string)
| Boolean (b : bool)
| YArray (a : list Yaml)
| Hash (h : list (Yaml * Yaml))
| Alias (n : nat)
| Null
| BadValue.

(** [Yaml::String(idx.to_owned()) == k]. *)
Definition key_is (idx : string) (k : Yaml) : bool :=
  match k with YString s => String.eqb s idx | _ => false end.

(** [impl Index<&str> for Yaml]: the entry of a hash whose key is the
    string [idx], or [BAD_VALUE]. *)
Definition index (y : Yaml) (idx : string) : Yaml :=
  match y with
  | Hash h =>
      match find (fun kv => key_is idx (fst kv)) h with
      | Some (_, v) => v
      | None => BadValue
      end
  | _ => BadValue
  end.

Definition as_str (y : Yaml) : option string :=
  match y with YString s => Some s | _ => None end.

Definition as_i64 (y : Yaml) : option Z :=
  match y with Integer i => Some i | _ => None end.

(** yaml_rust stores every integer scalar as an [i64]. *)
Fixpoint yaml_wf (y : Yaml) : Prop :=
  match y with
  | Integer i => I64.MIN <= i <= I64.MAX
  | YArray a => fold_right (fun v P => yaml_wf v /\ P) True a
  | Hash h => fold_right (fun kv P => yaml_wf (fst kv) /\ yaml_wf (snd kv) /\ P) True h
  | _ => True
  end.

(** [YamlLoader::load_from_str]: the documents of the text, or a scan
    error. *)
Class YamlLoader := {
  load_from_str : string -> result (list Yaml) string;
  load_from_str_wf s docs : load_from_str s = Ok docs -> Forall yaml_wf docs
}.

(** [pub struct AtbConf { yaml: Yaml }] (lib.rs 7-9). *)
Record AtbConf : Type := mk_conf { yaml : Yaml }.

(** The process environment: [std::env::var], [File::open] then
    [read_to_string] ([None] when the open fails, [Some None] when the read
    fails), and [r2d2::Pool::new] on a SQLite file. *)
Record env : Type := mk_env {
  var : string -> option string;
  read_file : string -> option (option string);
  pool_new : string -> result unit string
}.

(** [AtbConf::load_conf] (lib.rs 14-43).  [&result.unwrap()[0]] indexes
    the documents: a file with no document panics. *)
Definition load_conf {YL : YamlLoader} {E} : St env E (option AtbConf) :=
  (e <- get ;;
   match var e "PATH_ATB_CONFIG" with
   | None => ret None
   | Some path =>
       match read_file e path with
       | None | Some None => ret None
       | Some (Some contents) =>
           match load_from_str contents with
           | Err _ => ret None
           | Ok docs =>
               match nth_error docs 0 with
               | Some y => ret (Some (mk_conf y))
               | None => abort PanicIndex
               end
           end
       end
   end)%rust.

(** [get_sqlite3_file] (lib.rs 46-52). *)
Definition get_sqlite3_file (c : AtbConf) : option string :=
  as_str (index (index (index (yaml c) "database") "sqlite3") "db_file").

(** [has_api_host], [has_api_port], [get_api_host], [get_api_port]
    (lib.rs 55-72). *)
Definition get_api_host (c : AtbConf) : option string :=
  as_str (index (index (yaml c) "api") "host").

Definition get_api_port (c : AtbConf) : option Z :=
  as_i64 (index (index (yaml c) "api") "port").

Definition has_api_host (c : AtbConf) : bool :=
  match get_api_host c with Some _ => true | None => false end.

Definition has_api_port (c : AtbConf) : bool :=
  match get_api_port c with Some _ => true | None => false end.

(** The messages of [connect]. *)
Definition msg_check_env : string := "環境変数`PATH_ATB_CONFIG`を確認ください".
Definition msg_check_file : string :=
  "環境変数`PATH_ATB_CONFIG`に指定したファイルを確認してください".

(** [AtbDB::connect] (lib.rs 47-81): the configuration given, or the one
    [load_conf] reads; the database file; the pool.  An early
    [return Err(..)] is a [throw]. *)
Definition connect {YL : YamlLoader} (option_atbconf : option AtbConf)
  : St env string unit :=
  (atbconf <- match option_atbconf with
              | None =>
                  atbconf <- load_conf ;;
                  match atbconf with
                  | None => throw msg_check_env
                  | Some _ => ret atbconf
                  end
              | Some _ => ret option_atbconf
              end ;;
   conf <- unwrap_option atbconf ;;
   match get_sqlite3_file conf with
   | None => throw msg_check_file
   | Some path =>
       e <- get ;;
       match pool_new e path with
       | Err err => throw err
       | Ok _ => ret tt
       end
   end)%rust.

(** ** Theorems *)

Section Theory.
Context {YL : YamlLoader}.

(** The three outcomes of [load_conf]; the environment is only read. *)
Lemma load_conf_cases {E} e :
  load_conf (E := E) e = (Ret None, e) \/
  (exists path contents docs y, var e "PATH_ATB_CONFIG" = Some path /\
     read_file e path = Some (Some contents) /\ load_from_str contents = Ok docs /\
     nth_error docs 0 = Some y /\ load_conf (E := E) e = (Ret (Some (mk_conf y)), e)) \/
  (exists path contents, var e "PATH_ATB_CONFIG" = Some path /\
     read_file e path = Some (Some contents) /\ load_from_str contents = Ok [] /\
     load_conf (E := E) e = (Abort PanicIndex, e)).
Proof.
  unfold load_conf; simpl_st.
  destruct (var e _) as [path|] eqn:Hv; [|now left].
  destruct (read_file e path) as [[contents|]|] eqn:Hr; try now left.
  destruct (load_from_str contents) as [docs|] eqn:Hl; [|now left].
  destruct docs as [|y docs]; simpl.
  - right; right. exists path, contents; repeat split; auto.
  - right; left. exists path, contents, (y :: docs), y; repeat split; auto.
Qed.

Lemma load_conf_wf {E} e c e' :
  load_conf (E := E) e = (Ret (Some c), e') -> yaml_wf (yaml c).
Proof.
  destruct (load_conf_cases (E := E) e) as [H|[(p & t & docs & y & _ & _ & Hl & Hy & H)|(p & t & _ & _ & _ & H)]];
    rewrite H; intros [=]; subst c; simpl.
  apply load_from_str_wf in Hl. destruct docs; [discriminate|]. inversion Hy; subst.
  now inversion Hl.
Qed.

(** Indexing a well-formed value gives a well-formed value. *)
Lemma index_wf y k : yaml_wf y -> yaml_wf (index y k).
Proof.
  destruct y as [| | | | |h| | |]; simpl; try tauto. intros Hh.
  destruct (find _ h) as [[k' v]|] eqn:Hf; [|exact I].
  induction h as [|[k0 v0] h IH]; simpl in *; [discriminate|].
  destruct Hh as (_ & Hv0 & Hh). destruct (key_is k k0); [congruence|auto].
Qed.

Lemma get_api_port_range c p :
  yaml_wf (yaml c) -> get_api_port c = Some p -> I64.MIN <= p <= I64.MAX.
Proof.
  unfold get_api_port. intros Hwf. pose proof (index_wf _ "port" (index_wf _ "api" Hwf)) as H.
  destruct (index (index (yaml c) "api") "port"); simpl; try discriminate.
  intros [= <-]. exact H.
Qed.

(** The configuration faults [load_conf] reports as [None]: no
    [PATH_ATB_CONFIG], a file that cannot be opened or read, a text that
    does not scan. *)
Definition config_missing (e : env) : Prop :=
  match var e "PATH_ATB_CONFIG" with
  | None => True
  | Some path =>
      match read_file e path with
      | None | Some None => True
      | Some (Some contents) => exists err, load_from_str contents = Err err
      end
  end.

Lemma config_missing_load {E} e : config_missing e -> load_conf (E := E) e = (Ret None, e).
Proof.
  unfold config_missing, load_conf. simpl_st.
  destruct (var e _); [|reflexivity]. destruct (read_file e _) as [[]|]; try reflexivity.
  intros [err ->]. reflexivity.
Qed.

(** [connect] on a configuration it is given: its [unwrap] cannot panic. *)
Lemma connect_some c e :
  connect (Some c) e =
    (match get_sqlite3_file c with
     | None => Throw msg_check_file
     | Some path => match pool_new e path with Err err => Throw err | Ok _ => Ret tt end
     end, e).
Proof.
  unfold connect; simpl_st.
  destruct (get_sqlite3_file c); [|reflexivity]. simpl. now destruct (pool_new e s).
Qed.

(** C20: an empty configuration file crashes: [load_conf] panics (index out
    of bounds on the document list) exactly when [PATH_ATB_CONFIG] names a
    readable file whose text has no YAML document. *)
Theorem load_conf_panics {E} e :
  fst (load_conf (E := E) e) = Abort PanicIndex <->
  exists path contents, var e "PATH_ATB_CONFIG" = Some path /\
    read_file e path = Some (Some contents) /\ load_from_str contents = Ok [].
Proof.
  split.
  - destruct (load_conf_cases (E := E) e) as [H|[(p & t & docs & y & _ & _ & _ & _ & H)|(p & t & Hv & Hr & Hl & H)]];
      rewrite H; simpl; try discriminate. eauto.
  - intros (path & contents & Hv & Hr & Hl).
    unfold load_conf; simpl_st. now rewrite Hv, Hr, Hl.
Qed.

(** [AtbDB::connect(None)], as bot-admin and fetch-ohlcv-rs call it, is
    [load_conf] followed by [AtbDB::connect(Some conf)], as market-api-rs
    calls it: a missing configuration gives the [PATH_ATB_CONFIG] message. *)
Theorem connect_none_load e :
  connect None e =
    (c <- load_conf ;;
     match c with
     | None => throw msg_check_env
     | Some conf => connect (Some conf)
     end)%rust e.
Proof.
  destruct (load_conf_cases (E := string) e) as [H|[(p & t & docs & y & _ & _ & _ & _ & H)|(p & t & _ & _ & _ & H)]];
    unfold connect, bind; rewrite H; simpl_st; reflexivity.
Qed.

(** [connect] panics only inside [load_conf], never at its own
    [atbconf.unwrap()]. *)
Theorem connect_panic_in_load oc e p :
  fst (connect oc e) = Abort p -> oc = None /\ fst (load_conf (E := string) e) = Abort p.
Proof.
  destruct oc as [c|].
  - rewrite connect_some. destruct (get_sqlite3_file c); [|discriminate].
    simpl. now destruct (pool_new e s).
  - unfold connect, bind.
    destruct (load_conf_cases (E := string) e) as [H|[(q & t & docs & y & _ & _ & _ & _ & H)|(q & t & _ & _ & _ & H)]];
      rewrite H; simpl_st; [discriminate| |intros Hp; split; [reflexivity|congruence]].
    destruct (get_sqlite3_file _); [|discriminate]. simpl. now destruct (pool_new e s).
Qed.

End Theory.

(** ** Witnesses *)

(** The configuration of the repository's README: a database file and the
    API address. *)
Definition sample_yaml : Yaml :=
  Hash [(YString "database",
           Hash [(YString "sqlite3", Hash [(YString "db_file", YString "/var/atb/atb.db")])]);
        (YString "api", Hash [(YString "host", YString "127.0.0.1"); (YString "port", Integer 8080)])].

Lemma sample_yaml_wf : yaml_wf sample_yaml.
Proof. vm_compute. repeat split; discriminate. Qed.

(** A loader that knows two texts: the empty file (no document) and the
    sample file. *)
Definition sample_load (s : string) : result (list Yaml) string :=
  if String.eqb s "" then Ok [] else Ok [sample_yaml].

Lemma sample_load_wf s docs : sample_load s = Ok docs -> Forall yaml_wf docs.
Proof.
  unfold sample_load. destruct (String.eqb s ""); intros [= <-]; constructor.
  - exact sample_yaml_wf.
  - constructor.
Qed.

Definition sample_loader : YamlLoader :=
  {| load_from_str := sample_load; load_from_str_wf := sample_load_wf |}.

Definition config_path : string := "/etc/atb/config.yaml".

(** A process whose [PATH_ATB_CONFIG] names a file with the text [text]. *)
Definition env_with (text : string) : env :=
  mk_env (fun k => if String.eqb k "PATH_ATB_CONFIG" then Some config_path else None)
         (fun p => if String.eqb p config_path then Some (Some text) else None)
         (fun _ => Ok tt).

Lemma load_conf_panics_witness :
  fst (load_conf (YL := sample_loader) (E := Empty_set) (env_with "")) = Abort PanicIndex.
Proof.
  apply (proj2 (load_conf_panics (YL := sample_loader) (env_with ""))).
  exists config_path, "". split; [reflexivity|]. split; reflexivity.
Defined.

Lemma connect_panic_in_load_witness :
  fst (connect (YL := sample_loader) None (env_with "")) = Abort PanicIndex /\
  None = @None AtbConf /\
  fst (load_conf (YL := sample_loader) (E := string) (env_with "")) = Abort PanicIndex.
Proof.
  assert (H : fst (connect (YL := sample_loader) None (env_with "")) = Abort PanicIndex)
    by reflexivity.
  split; [exact H|]. exact (connect_panic_in_load (YL := sample_loader) None (env_with "") _ H).
Defined.

End Config.
