(* ===== verification/AtbDb.v ===== *)
(** * The [ohlcv] table of [AtbDB] (src/app/lib/atb-db/src/lib.rs)

    The table is the list of its rows in rowid order.  Two properties of the
    SQLite build and schema, which the repository does not fix, are explicit
    capabilities: whether [DELETE ... LIMIT 1] is accepted (SQLite compiled
    with [SQLITE_ENABLE_UPDATE_DELETE_LIMIT]) and whether the table has a
    unique index on [(exchange, pair, period, unixtime)].

    Operations: [get_last_unixtime_from_ohlcv] ([select max(unixtime)]),
    [delete_ohlcv] (deletes the first matching row), [insert_ohlcv_list]
    (one insert per record inside a transaction, every row error discarded
    by [let _ =], then commit) and [get_ohlcv_list].

    Theorems: the watermark is the maximum of the series; the delete removes
    exactly the first row of the bucket; the batch insert appends every
    record (no unique index) or exactly the records whose bucket is new
    (unique index); the uniqueness of buckets is an invariant of every
    operation under a unique index. *)

From Stdlib Require Import ZArith List String Bool Lia.
From S2P Require Import Prelude RustPrim.
Import ListNotations.
Open Scope Z_scope.
Open Scope bool_scope.

Module AtbDb.

(** A row: [exchange, pair, period, open, high, low, close, volume, unixtime]. *)
Record ohlcv_row : Type := mk_row {
  exchange : string;
  pair : string;
  period : string;
  open : F64.f64;
  high : F64.f64;
  low : F64.f64;
  close : F64.f64;
  volume : F64.f64;
  unixtime : Z
}.

(** The record tuple [(f64, f64, f64, f64, f64, i64)]. *)
Record candle : Type := mk_candle {
  c_open : F64.f64;
  c_high : F64.f64;
  c_low : F64.f64;
  c_close : F64.f64;
  c_volume : F64.f64;
  c_unixtime : Z
}.

Record sqlite_caps : Type := mk_caps {
  delete_limit : bool;
  ohlcv_unique : bool
}.

Record AtbDB : Type := mk_db {
  caps : sqlite_caps;
  ohlcv : list ohlcv_row
}.

(** The [rusqlite::Error]s the modelled calls can return. *)
Inductive sqlite_error : Type :=
| InvalidColumnType      (* NULL read as [i64] *)
| SqlInputError          (* statement rejected by [prepare] *)
| ConstraintViolation    (* unique index violated *)
| QueryReturnedNoRows
| InvalidQuery
| ExecuteReturnedResults
| InvalidParameterCount  (* number of bound values differs from the statement's *)
| DatatypeMismatch.      (* SQLITE_MISMATCH: a non-integer stored in the rowid *)

(** [where exchange = ?1 and pair = ?2 and period = ?3] *)
Definition in_series (ex pa pe : string) (r : ohlcv_row) : bool :=
  String.eqb (exchange r) ex && String.eqb (pair r) pa && String.eqb (period r) pe.

(** [... and unixtime = ?4] *)
Definition in_bucket (ex pa pe : string) (t : Z) (r : ohlcv_row) : bool :=
  in_series ex pa pe r && (unixtime r =? t).

Definition series (db : AtbDB) (ex pa pe : string) : list ohlcv_row :=
  filter (in_series ex pa pe) (ohlcv db).

(** [select max(unixtime) from ohlcv where ...], read as [i64]: the
    aggregate is [NULL] on an empty series and reading it fails. *)
Definition get_last_unixtime_from_ohlcv (db : AtbDB) (ex pa pe : string)
  : result Z sqlite_error :=
  match map unixtime (series db ex pa pe) with
  | [] => Err InvalidColumnType
  | t :: ts => Ok (fold_left Z.max ts t)
  end.

(** Remove the first row satisfying [p]; the count of removed rows. *)
Fixpoint delete_first (p : ohlcv_row -> bool) (rows : list ohlcv_row)
  : list ohlcv_row * nat :=
  match rows with
  | [] => ([], 0%nat)
  | r :: rs =>
      if p r then (rs, 1%nat)
      else let '(rs', n) := delete_first p rs in (r :: rs', n)
  end.

(** [delete from ohlcv where ... and unixtime = ?4 limit 1]. *)
Definition delete_ohlcv (db : AtbDB) (ex pa pe : string) (t : Z)
  : result nat sqlite_error * AtbDB :=
  if delete_limit (caps db) then
    let '(rows, n) := delete_first (in_bucket ex pa pe t) (ohlcv db) in
    (Ok n, mk_db (caps db) rows)
  else (Err SqlInputError, db).

Definition row_of (ex pa pe : string) (c : candle) : ohlcv_row :=
  mk_row ex pa pe (c_open c) (c_high c) (c_low c) (c_close c) (c_volume c) (c_unixtime c).

(** One [INSERT INTO ohlcv (...) VALUES (?1, ..., ?9)]. *)
Definition insert_row (db : AtbDB) (ex pa pe : string) (c : candle)
  : result nat sqlite_error * AtbDB :=
  if ohlcv_unique (caps db) && existsb (in_bucket ex pa pe (c_unixtime c)) (ohlcv db)
  then (Err ConstraintViolation, db)
  else (Ok 1%nat, mk_db (caps db) (ohlcv db ++ [row_of ex pa pe c])).

(** The transaction: every insert's result is dropped, then commit. *)
Definition insert_ohlcv_list (db : AtbDB) (ex pa pe : string) (records : list candle)
  : AtbDB :=
  fold_left (fun db c => snd (insert_row db ex pa pe c)) records db.

Definition candle_of (r : ohlcv_row) : candle :=
  mk_candle (open r) (high r) (low r) (close r) (volume r) (unixtime r).

(** The closure of [query_map]: [row.get::<_, f64>(0)?, ...,
    row.get::<_, i64>(5)?].  A row of this table holds numbers in every
    column ([insert_ohlcv_list] binds [f64]s and an [i64]; [FromSql for
    f64] also reads an integer), so no conversion fails. *)
Definition row_to_candle (r : ohlcv_row) : result candle sqlite_error := Ok (candle_of r).

(** [for row in rows { if row.is_ok() { ohlcv.push(row.unwrap()) } }]: a
    row whose conversion fails is skipped. *)
Fixpoint push_ok {A E} (rows : list (result A E)) : list A :=
  match rows with
  | [] => []
  | Ok a :: rows' => a :: push_ok rows'
  | Err _ :: rows' => push_ok rows'
  end.

(** [get_ohlcv_list] (lib.rs 146-185): [prepare] of the fixed [SELECT open,
    high, low, close, volume, unixtime FROM ohlcv WHERE exchange = ?1 and
    pair = ?2 and period = ?3] and [query_map] with its three parameters
    succeed on this table (their errors, [InvalidQuery] and
    [QueryReturnedNoRows], need another schema), then the rows of the
    series in rowid order. *)
Definition get_ohlcv_list (db : AtbDB) (ex pa pe : string) : result (list candle) sqlite_error :=
  Ok (push_ok (map row_to_candle (series db ex pa pe))).

(** ** The watermark query *)

Lemma fold_max_init (ts : list Z) t0 : t0 <= fold_left Z.max ts t0.
Proof.
  revert t0. induction ts as [|t ts IH]; simpl; intros t0; [lia|].
  specialize (IH (Z.max t0 t)). lia.
Qed.

Lemma fold_max_ge (ts : list Z) t0 x : In x (t0 :: ts) -> x <= fold_left Z.max ts t0.
Proof.
  revert t0. induction ts as [|t ts IH]; simpl; intros t0 H.
  - destruct H as [->|[]]. lia.
  - pose proof (fold_max_init ts (Z.max t0 t)).
    destruct H as [->|[->|H]]; [lia | lia | apply IH; right; exact H].
Qed.

Lemma fold_max_in (ts : list Z) t0 : In (fold_left Z.max ts t0) (t0 :: ts).
Proof.
  revert t0. induction ts as [|t ts IH]; simpl; intros t0; [auto|].
  destruct (IH (Z.max t0 t)) as [E|E]; [rewrite <- E | auto].
  destruct (Z.max_spec t0 t) as [[_ ->]|[_ ->]]; auto.
Qed.

Lemma get_last_unixtime_max db ex pa pe t :
  get_last_unixtime_from_ohlcv db ex pa pe = Ok t ->
  In t (map unixtime (series db ex pa pe)) /\
  forall t', In t' (map unixtime (series db ex pa pe)) -> t' <= t.
Proof.
  unfold get_last_unixtime_from_ohlcv.
  destruct (map unixtime (series db ex pa pe)) as [|t0 ts]; [discriminate|].
  intros E. inv E. split; [apply fold_max_in | intros; apply fold_max_ge; auto].
Qed.

Lemma get_last_unixtime_intro db ex pa pe t :
  In t (map unixtime (series db ex pa pe)) ->
  (forall t', In t' (map unixtime (series db ex pa pe)) -> t' <= t) ->
  get_last_unixtime_from_ohlcv db ex pa pe = Ok t.
Proof.
  unfold get_last_unixtime_from_ohlcv.
  destruct (map unixtime (series db ex pa pe)) as [|t0 ts]; [intros []|].
  intros Hin Hmax. f_equal. apply Z.le_antisymm; [apply Hmax, fold_max_in | apply fold_max_ge, Hin].
Qed.

(** C34: the watermark query returns [t] exactly when [t] is the largest
    [unixtime] of the series. *)
Lemma get_last_unixtime_spec db ex pa pe t :
  get_last_unixtime_from_ohlcv db ex pa pe = Ok t <->
  In t (map unixtime (series db ex pa pe)) /\
  forall t', In t' (map unixtime (series db ex pa pe)) -> t' <= t.
Proof.
  split; [apply get_last_unixtime_max|].
  intros [Hin Hmax]. apply get_last_unixtime_intro; assumption.
Qed.

Lemma get_last_unixtime_empty db ex pa pe :
  get_last_unixtime_from_ohlcv db ex pa pe = Err InvalidColumnType <->
  series db ex pa pe = [].
Proof.
  unfold get_last_unixtime_from_ohlcv.
  destruct (series db ex pa pe); simpl; split; congruence.
Qed.

(** ** Delete with [limit 1] *)

Lemma delete_first_spec p rows rows' n :
  delete_first p rows = (rows', n) ->
  (n = 0%nat /\ rows' = rows /\ forallb (fun r => negb (p r)) rows = true) \/
  (n = 1%nat /\ exists pre r post,
      rows = pre ++ r :: post /\ forallb (fun r => negb (p r)) pre = true /\
      p r = true /\ rows' = pre ++ post).
Proof.
  revert rows' n. induction rows as [|r rs IH]; simpl; intros rows' n H.
  - inv H. left. auto.
  - destruct (p r) eqn:Hp.
    + inv H. right. split; [reflexivity|]. exists [], r, rows'. auto.
    + destruct (delete_first p rs) as [rs' m] eqn:Hd. inv H.
      destruct (IH _ _ eq_refl) as [[-> [-> Hall]]|[-> [pre [x [post [-> [Hpre [Hx ->]]]]]]]].
      * left. auto.
      * right. split; [reflexivity|]. exists (r :: pre), x, post.
        simpl. rewrite Hp, Hpre. auto.
Qed.

(** ** Batch insert *)

Lemma insert_ohlcv_list_caps db ex pa pe recs :
  caps (insert_ohlcv_list db ex pa pe recs) = caps db.
Proof.
  unfold insert_ohlcv_list. revert db. induction recs as [|c recs IH]; simpl; intros db;
    [reflexivity|]. rewrite IH. unfold insert_row. destruct (_ && _); reflexivity.
Qed.

(** Without a unique index every record becomes a row, in order. *)
Lemma insert_ohlcv_list_append db ex pa pe recs :
  ohlcv_unique (caps db) = false ->
  ohlcv (insert_ohlcv_list db ex pa pe recs) = ohlcv db ++ map (row_of ex pa pe) recs.
Proof.
  unfold insert_ohlcv_list. revert db. induction recs as [|c recs IH]; simpl; intros db Hc.
  - rewrite app_nil_r. reflexivity.
  - unfold insert_row at 2. rewrite Hc. simpl. rewrite IH by exact Hc. simpl.
    rewrite <- app_assoc. reflexivity.
Qed.

(** Whatever the index, the existing rows are kept, in order, and the rows
    added after them are rows of records of the batch. *)
Lemma insert_ohlcv_list_prefix db ex pa pe recs :
  exists added, ohlcv (insert_ohlcv_list db ex pa pe recs) = ohlcv db ++ added
                /\ incl added (map (row_of ex pa pe) recs).
Proof.
  unfold insert_ohlcv_list. revert db. induction recs as [|c recs IH]; simpl; intros db.
  - exists []. rewrite app_nil_r. split; [reflexivity | intros ? []].
  - destruct (IH (snd (insert_row db ex pa pe c))) as [added [Hadd Hf]].
    rewrite Hadd. unfold insert_row. destruct (_ && _); simpl.
    + exists added. split; [reflexivity|]. intros r Hr. right. apply Hf, Hr.
    + exists (row_of ex pa pe c :: added). rewrite <- app_assoc. split; [reflexivity|].
      intros r [<-|Hr]; [left; reflexivity | right; apply Hf, Hr].
Qed.

(** After the batch every record's bucket has a row, whatever the index. *)
Lemma insert_ohlcv_list_present db ex pa pe recs c :
  In c recs ->
  existsb (in_bucket ex pa pe (c_unixtime c)) (ohlcv (insert_ohlcv_list db ex pa pe recs)) = true.
Proof.
  unfold insert_ohlcv_list. revert db. induction recs as [|c' recs IH]; simpl; intros db Hin;
    [contradiction|].
  destruct Hin as [->|Hin]; [|apply IH, Hin].
  fold (insert_ohlcv_list (snd (insert_row db ex pa pe c)) ex pa pe recs).
  destruct (insert_ohlcv_list_prefix (snd (insert_row db ex pa pe c)) ex pa pe recs)
    as [added [-> _]].
  rewrite existsb_app, orb_true_iff. left.
  unfold insert_row. destruct (ohlcv_unique (caps db) && _) eqn:E; simpl.
  - apply andb_prop in E. apply E.
  - rewrite existsb_app, orb_true_iff. right. simpl.
    unfold in_bucket, in_series, row_of; simpl. rewrite !String.eqb_refl, Z.eqb_refl. reflexivity.
Qed.

(** ** Uniqueness of buckets *)

Definition bucket (r : ohlcv_row) : string * string * string * Z :=
  (exchange r, pair r, period r, unixtime r).

Definition buckets_unique (rows : list ohlcv_row) : Prop := NoDup (map bucket rows).

Lemma in_bucket_iff ex pa pe t r : in_bucket ex pa pe t r = true <-> bucket r = (ex, pa, pe, t).
Proof.
  unfold in_bucket, in_series, bucket. rewrite !andb_true_iff, !String.eqb_eq, Z.eqb_eq.
  split; [intros [[[-> ->] ->] ->]; reflexivity | intros E; inv E; auto].
Qed.

Lemma existsb_bucket_false ex pa pe t rows :
  existsb (in_bucket ex pa pe t) rows = false -> ~ In (ex, pa, pe, t) (map bucket rows).
Proof.
  intros H Hin. apply in_map_iff in Hin as [r [Hr Hin]].
  assert (existsb (in_bucket ex pa pe t) rows = true) by
    (apply existsb_exists; exists r; split; [exact Hin | apply in_bucket_iff, Hr]).
  congruence.
Qed.

Lemma NoDup_snoc {A} (l : list A) x : NoDup l -> ~ In x l -> NoDup (l ++ [x]).
Proof.
  intros Hl Hx. apply NoDup_app; [exact Hl | constructor; [intros []|constructor] |].
  intros y Hy [<-|[]]. contradiction.
Qed.

Lemma insert_row_unique db ex pa pe c :
  ohlcv_unique (caps db) = true -> buckets_unique (ohlcv db) ->
  buckets_unique (ohlcv (snd (insert_row db ex pa pe c))).
Proof.
  intros Hu Hnd. unfold insert_row. rewrite Hu. simpl.
  destruct (existsb _ _) eqn:E; simpl; [exact Hnd|].
  unfold buckets_unique. rewrite map_app. apply NoDup_snoc; [exact Hnd|].
  apply existsb_bucket_false. exact E.
Qed.

(** Under a unique index, the batch insert keeps the buckets of the
    table unique, whatever the batch holds. *)
Lemma insert_ohlcv_list_unique db ex pa pe recs :
  ohlcv_unique (caps db) = true -> buckets_unique (ohlcv db) ->
  buckets_unique (ohlcv (insert_ohlcv_list db ex pa pe recs)).
Proof.
  unfold insert_ohlcv_list. revert db. induction recs as [|c recs IH]; simpl; intros db Hu Hnd;
    [exact Hnd|].
  apply IH; [|apply insert_row_unique; assumption].
  unfold insert_row. destruct (_ && _); exact Hu.
Qed.

(** The delete keeps buckets unique. *)
Lemma delete_ohlcv_unique db ex pa pe t :
  buckets_unique (ohlcv db) -> buckets_unique (ohlcv (snd (delete_ohlcv db ex pa pe t))).
Proof.
  unfold delete_ohlcv, buckets_unique. intros Hnd.
  destruct (delete_limit (caps db)); [|exact Hnd].
  destruct (delete_first _ _) as [rows n] eqn:Hd. simpl.
  destruct (delete_first_spec _ _ _ _ Hd) as [[_ [-> _]]|[_ [pre [r [post [Erows [_ [_ ->]]]]]]]];
    [exact Hnd|].
  rewrite Erows, map_app in Hnd. rewrite map_app. simpl in Hnd.
  apply NoDup_remove_1 in Hnd. exact Hnd.
Qed.

(** A batch whose buckets are distinct and absent from the table is appended
    whole, whatever the index. *)
Lemma insert_ohlcv_list_fresh db ex pa pe recs :
  NoDup (map c_unixtime recs) ->
  Forall (fun c => existsb (in_bucket ex pa pe (c_unixtime c)) (ohlcv db) = false) recs ->
  ohlcv (insert_ohlcv_list db ex pa pe recs) = ohlcv db ++ map (row_of ex pa pe) recs.
Proof.
  unfold insert_ohlcv_list. revert db.
  induction recs as [|c recs IH]; simpl; intros db Hnd Hf.
  - rewrite app_nil_r. reflexivity.
  - inversion Hf as [|? ? Hc Hf']; subst. inversion Hnd as [|? ? Hnin Hnd']; subst.
    unfold insert_row at 2. rewrite Hc, andb_false_r. simpl.
    rewrite IH; [simpl; rewrite <- app_assoc; reflexivity | exact Hnd' |].
    rewrite Forall_forall in Hf' |- *. intros c' Hin. simpl.
    rewrite existsb_app, (Hf' c' Hin). simpl.
    unfold in_bucket, in_series, row_of. simpl. rewrite !String.eqb_refl. simpl.
    destruct (Z.eqb_spec (c_unixtime c) (c_unixtime c')) as [E|]; [|reflexivity].
    exfalso. apply Hnin. rewrite E. apply in_map, Hin.
Qed.

Lemma existsb_in_bucket_series db ex pa pe t :
  existsb (in_bucket ex pa pe t) (ohlcv db) = true -> In t (map unixtime (series db ex pa pe)).
Proof.
  intros H. apply existsb_exists in H as [r [Hr Hb]].
  unfold in_bucket in Hb. apply andb_prop in Hb as [Hs Ht]. apply Z.eqb_eq in Ht. subst t.
  apply in_map, filter_In. auto.
Qed.

(** After a non-empty batch the watermark exists and is at least every
    inserted timestamp, with or without a unique index. *)
Lemma insert_watermark_covers db ex pa pe recs :
  recs <> [] ->
  exists m, get_last_unixtime_from_ohlcv (insert_ohlcv_list db ex pa pe recs) ex pa pe = Ok m
            /\ Forall (fun c => c_unixtime c <= m) recs.
Proof.
  intros Hne. destruct recs as [|c0 recs0] eqn:Erecs; [contradiction|]. rewrite <- Erecs.
  assert (Hin : forall c, In c recs ->
            In (c_unixtime c) (map unixtime (series (insert_ohlcv_list db ex pa pe recs) ex pa pe)))
    by (intros c Hc; apply existsb_in_bucket_series, insert_ohlcv_list_present, Hc).
  destruct (get_last_unixtime_from_ohlcv (insert_ohlcv_list db ex pa pe recs) ex pa pe) as [m|e] eqn:Hm.
  - exists m. split; [reflexivity|]. apply Forall_forall. intros c Hc.
    apply (get_last_unixtime_max _ _ _ _ _ Hm), Hin, Hc.
  - exfalso. specialize (Hin c0 ltac:(rewrite Erecs; left; reflexivity)).
    unfold get_last_unixtime_from_ohlcv in Hm.
    destruct (map unixtime _); [contradiction | discriminate].
Qed.

(** ** Re-inserting a batch under a unique index *)

(** Records whose buckets all have a row are all rejected. *)
Lemma insert_all_present db ex pa pe recs :
  ohlcv_unique (caps db) = true ->
  Forall (fun c => existsb (in_bucket ex pa pe (c_unixtime c)) (ohlcv db) = true) recs ->
  insert_ohlcv_list db ex pa pe recs = db.
Proof.
  unfold insert_ohlcv_list. induction recs as [|c recs IH]; simpl; intros Hu Hall; [reflexivity|].
  inv Hall. unfold insert_row at 2. rewrite Hu, H1. apply IH; assumption.
Qed.

(** Of a batch whose buckets have rows but one, only that one's row is
    added. *)
Lemma insert_one_missing db ex pa pe pre c post :
  ohlcv_unique (caps db) = true ->
  existsb (in_bucket ex pa pe (c_unixtime c)) (ohlcv db) = false ->
  Forall (fun c' => existsb (in_bucket ex pa pe (c_unixtime c')) (ohlcv db) = true) (pre ++ post) ->
  ohlcv (insert_ohlcv_list db ex pa pe (pre ++ c :: post)) = ohlcv db ++ [row_of ex pa pe c].
Proof.
  intros Hu Hc Hall. apply Forall_app in Hall as [Hpre Hpost].
  unfold insert_ohlcv_list. rewrite fold_left_app. fold (insert_ohlcv_list db ex pa pe pre).
  rewrite insert_all_present by assumption. cbn [fold_left].
  unfold insert_row at 2. rewrite Hu, Hc. cbn [andb snd].
  fold (insert_ohlcv_list (mk_db (caps db) (ohlcv db ++ [row_of ex pa pe c])) ex pa pe post).
  rewrite insert_all_present; [reflexivity|exact Hu|].
  eapply Forall_impl; [|exact Hpost]. intros c' H. simpl. rewrite existsb_app, H. reflexivity.
Qed.

(** A record whose bucket has no row, and whose timestamp no earlier record
    of the batch has, gets its row, whatever the index. *)
Lemma insert_fresh_member db ex pa pe pre c post :
  existsb (in_bucket ex pa pe (c_unixtime c)) (ohlcv db) = false ->
  ~ In (c_unixtime c) (map c_unixtime pre) ->
  In (row_of ex pa pe c) (ohlcv (insert_ohlcv_list db ex pa pe (pre ++ c :: post))).
Proof.
  intros Hc Hpre. unfold insert_ohlcv_list. rewrite fold_left_app. cbn [fold_left].
  fold (insert_ohlcv_list db ex pa pe pre).
  assert (H1 : existsb (in_bucket ex pa pe (c_unixtime c)) (ohlcv (insert_ohlcv_list db ex pa pe pre)) = false).
  { destruct (insert_ohlcv_list_prefix db ex pa pe pre) as [added [-> Hinc]].
    rewrite existsb_app, Hc. apply Bool.not_true_iff_false. intros Hex.
    apply existsb_exists in Hex as [r [Hr Hb]].
    apply Hinc, in_map_iff in Hr as [c' [<- Hc']]. apply in_bucket_iff in Hb.
    unfold row_of, bucket in Hb; simpl in Hb. injection Hb as Ht.
    apply Hpre. rewrite <- Ht. apply in_map, Hc'. }
  fold (insert_ohlcv_list (snd (insert_row (insert_ohlcv_list db ex pa pe pre) ex pa pe c)) ex pa pe post).
  destruct (insert_ohlcv_list_prefix (snd (insert_row (insert_ohlcv_list db ex pa pe pre) ex pa pe c))
              ex pa pe post) as [added [-> _]].
  unfold insert_row. rewrite H1, andb_false_r. simpl.
  apply in_or_app. left. apply in_or_app. right. left. reflexivity.
Qed.

(** Under unique buckets, deleting the first row of a bucket empties it. *)
Lemma delete_first_clears rows ex pa pe t :
  buckets_unique rows ->
  existsb (in_bucket ex pa pe t) (fst (delete_first (in_bucket ex pa pe t) rows)) = false.
Proof.
  intros Hnd. destruct (delete_first _ rows) as [rows' n] eqn:Hd. simpl.
  destruct (delete_first_spec _ _ _ _ Hd)
    as [[_ [-> Hall]]|[_ [pre [r [post [-> [Hpre [Hr ->]]]]]]]].
  - apply Bool.not_true_iff_false. intros Hex. apply existsb_exists in Hex as [r [Hr Hb]].
    apply forallb_forall with (x := r) in Hall; [|exact Hr]. rewrite Hb in Hall. discriminate.
  - apply Bool.not_true_iff_false. intros Hex. apply existsb_exists in Hex as [r' [Hr' Hb]].
    unfold buckets_unique in Hnd. rewrite map_app in Hnd. simpl in Hnd.
    apply NoDup_remove_2 in Hnd. apply Hnd. rewrite <- map_app.
    apply in_bucket_iff in Hb, Hr. rewrite Hr, <- Hb. apply in_map, Hr'.
Qed.

(** ** Witnesses *)

Local Open Scope string_scope.

Definition one : F64.f64 := F64.of_int 1.

Lemma insert_ohlcv_list_unique_witness :
  buckets_unique (ohlcv (insert_ohlcv_list
                           (mk_db (mk_caps true true) [mk_row "bitflyer" "btcjpy" "20" one one one one one 500])
                           "bitflyer" "btcjpy" "20"
                           [mk_candle one one one one one 500; mk_candle one one one one one 520;
                            mk_candle one one one one one 520])).
Proof.
  apply insert_ohlcv_list_unique; [reflexivity|].
  unfold buckets_unique. simpl. constructor; [intros []|constructor].
Defined.

End AtbDb.
