(* ===== verification/BotStore.v ===== *)
(** * The [bot] table of [AtbDB] (src/app/lib/atb-db/src/lib.rs)

    The repository does not ship the table's schema; the model takes it from
    the code that reads it: the nine columns the [select]s of [get_bot] name,
    in the order [SELECT *] of [get_bot_list] reads them by position, each
    with the type affinity of the [Bot] field read from it ([INTEGER] for
    [i64] and [bool], [TEXT] for [String]), [id] an [INTEGER PRIMARY KEY]
    (the rowid), and the [DEFAULT] clause of each column a field of the
    state ([bdefaults]; a column without one defaults to [NULL]).

    A row is a finite map from column name to SQLite value; the table is
    the list of its rows in rowid order.  Every value the code binds is a
    Rust [String]; storing it applies the column's affinity: in an
    [INTEGER] column a text SQLite reads as an integer (an integer literal,
    or a decimal or exponent form of an integer, spaces around it allowed)
    becomes that integer ([sqlite_integer]).  The
    statements are the ones [insert_bot], [update_bot], [delete_bot],
    [get_bot], [get_bot_for_api] and [get_bot_list] build, with their
    numbered parameters: [INSERT ... VALUES (?,...,?)] numbers its anonymous
    parameters [1..n], [UPDATE ... SET k = ?(j+2) ... where id = ?1].

    [HashMap] iteration order is unspecified; [HashOrder] is any order that
    enumerates each entry of the map once, and every definition that
    iterates an option map takes it as an instance, so the theorems hold
    for every iteration order.  [keys()] and [values()] of one unmodified
    map iterate in the same order, which is what [hash_iter] being a
    function of the map expresses. *)

From stdpp Require Import base gmap strings list.
From Stdlib Require Import ZArith Lia Sorted Ascii ssreflect.
From S2P Require Import Prelude RustPrim AtbDb.
Open Scope Z_scope.
Local Set Warnings "-rewrite-rw".


Module BotStore.

(** The iteration order of a [HashMap<String, String>]. *)
Class HashOrder : Type := {
  hash_iter : gmap string string -> list (string * string);
  hash_iter_perm m : hash_iter m ≡ₚ map_to_list m
}.

(** One iteration order [HashOrder] allows: the order of [map_to_list]. *)
Definition key_order : HashOrder :=
  {| hash_iter := map_to_list; hash_iter_perm m := reflexivity (map_to_list m) |}.

(** [struct Bot] (lib.rs 14-25). *)
Record Bot : Type := mk_bot {
  id : Z;
  name : string;
  description : string;
  enable : bool;
  registered : Z;
  token : string;
  long_order : bool;
  short_order : bool;
  operate_type : string
}.

(** [struct BotForGet] (lib.rs 27-36): [Bot] without [id] and [token]. *)
Module BotForGet.
Record BotForGet : Type := mk_bot_for_get {
  name : string;
  description : string;
  enable : bool;
  registered : Z;
  long_order : bool;
  short_order : bool;
  operate_type : string
}.
End BotForGet.

(** [struct BotList] (lib.rs 38-41) and [get_list_len] (lib.rs 339-341). *)
Record BotList : Type := mk_bot_list { bot : list Bot }.

Definition get_list_len (l : BotList) : nat := List.length (bot l).

(** [Bot::get_id] (lib.rs 332-334). *)
Definition get_id (b : Bot) : Z := id b.

(** ** SQLite values, affinity and rows *)

Inductive sql_value : Type :=
| SqlNull
| SqlInt (z : Z)
| SqlText (s : string).

#[global] Instance sql_value_eq_dec : EqDecision sql_value.
Proof. solve_decision. Defined.

Inductive affinity : Type := AInteger | AText.

Definition bot_columns : list (string * affinity) :=
  [("id", AInteger); ("name", AText); ("description", AText);
   ("enable", AInteger); ("registered", AInteger); ("token", AText);
   ("long_order", AInteger); ("short_order", AInteger);
   ("operate_type", AText)].

Definition column_affinity (c : string) : option affinity :=
  (list_to_map bot_columns : gmap string affinity) !! c.

Definition known_column (c : string) : bool :=
  bool_decide (is_Some (column_affinity c)).

(** *** SQLite's numeric conversion of a text

    A text stored in (or compared with) an [INTEGER] column is converted
    when it is a well-formed numeric literal, spaces around it allowed: an
    optional sign, digits with an optional fraction (at least one digit in
    all), an optional exponent.  An integer literal that fits [i64] becomes
    that integer; a literal with a fraction or an exponent becomes an
    integer when its value is one and its magnitude is at most [2^53] (so
    that the double SQLite computes on the way is that integer); anything
    else keeps a non-integer storage class. *)

Definition sql_space (c : ascii) : bool :=
  let n := nat_of_ascii c in (n =? 32)%nat || ((9 <=? n)%nat && (n <=? 13)%nat).

Fixpoint trim_left (s : string) : string :=
  match s with
  | String c r => if sql_space c then trim_left r else s
  | EmptyString => s
  end.

Fixpoint trim_right (s : string) : string :=
  match s with
  | String c r =>
      let r' := trim_right r in
      match r' with
      | EmptyString => if sql_space c then EmptyString else String c EmptyString
      | _ => String c r'
      end
  | EmptyString => s
  end.

Definition trim (s : string) : string := trim_right (trim_left s).

(** Digits from the start of a text: their value after [acc], their count
    and the rest. *)
Fixpoint scan_digits (acc : Z) (n : nat) (s : string) : Z * nat * string :=
  match s with
  | String c r =>
      let k := nat_of_ascii c in
      if (48 <=? k)%nat && (k <=? 57)%nat then scan_digits (acc * 10 + Z.of_nat (k - 48)) (S n) r
      else (acc, n, s)
  | EmptyString => (acc, n, s)
  end.

Definition scan_sign (s : string) : bool * string :=
  match s with
  | String "-" r => (true, r)
  | String "+" r => (false, r)
  | _ => (false, s)
  end.

(** A numeric literal as [m * 10^e], with nothing after it. *)
Definition numeric_literal (s : string) : option (Z * Z) :=
  let '(neg, s1) := scan_sign s in
  let '(ip, ni, s2) := scan_digits 0 0 s1 in
  let '(m, nf, s3) := match s2 with
                      | String "." r => scan_digits ip 0 r
                      | _ => (ip, 0%nat, s2)
                      end in
  if (ni + nf =? 0)%nat then None
  else
    let m := if neg then - m else m in
    match s3 with
    | EmptyString => Some (m, - Z.of_nat nf)
    | String e r =>
        if (e =? "e")%char || (e =? "E")%char then
          let '(eneg, r1) := scan_sign r in
          let '(x, nx, r2) := scan_digits 0 0 r1 in
          match r2 with
          | EmptyString =>
              if (nx =? 0)%nat then None
              else Some (m, (if eneg then - x else x) - Z.of_nat nf)
          | _ => None
          end
        else None
    end.

(** The integer SQLite stores for a text under [INTEGER] affinity, if
    any.  A text Rust's [i64] parser accepts is an integer literal of that
    value, so it is tried first. *)
Definition sqlite_integer (s : string) : option Z :=
  match I64.parse_i64 s with
  | Ok z => Some z
  | Err _ =>
      let t := trim s in
      match I64.parse_i64 t with
      | Ok z => Some z
      | Err _ =>
          match numeric_literal t with
          | None => None
          | Some (m, e) =>
              if m =? 0 then Some 0
              else if 0 <=? e then
                (if 16 <? e then None
                 else if Z.abs (m * 10 ^ e) <=? 2 ^ 53 then Some (m * 10 ^ e) else None)
              else if Z.log2 (Z.abs m) <? - e then None
              else if (m mod 10 ^ (- e) =? 0) && (Z.abs (m / 10 ^ (- e)) <=? 2 ^ 53)
              then Some (m / 10 ^ (- e))
              else None
          end
      end
  end.

(** Storing a text in a column of the given affinity: an [INTEGER] column
    keeps the integer of a text that converts to one.  A text that converts
    to a non-integral number would be stored as a [REAL]; the model keeps it
    as the text, which the code cannot tell apart: every read of an
    [INTEGER] column fails on both ([InvalidColumnType]) and neither equals
    an integer id. *)
Definition apply_affinity (a : affinity) (s : string) : sql_value :=
  match a with
  | AInteger => match sqlite_integer s with Some z => SqlInt z | None => SqlText s end
  | AText => SqlText s
  end.

Definition row : Type := gmap string sql_value.

Record bot_table : Type := mk_bot_table {
  bcaps : AtbDb.sqlite_caps;
  bdefaults : gmap string sql_value;
  bots : list row
}.

Definition row_id (r : row) : option Z :=
  match r !! "id" with Some (SqlInt z) => Some z | _ => None end.

(** [where id = ?1]: the integer column compared with the bound text,
    which the comparison converts with the column's affinity; [NULL]
    equals nothing. *)
Definition id_matches (p : sql_value) (r : row) : bool :=
  match r !! "id", p with
  | _, SqlNull => false
  | Some v, _ => bool_decide (v = p)
  | None, _ => false
  end.

(** A text stored in column [c]: converted with the column's affinity; a
    column of no table stores nothing ([prepare] rejects it first). *)
Definition stored_value (c s : string) : sql_value :=
  match column_affinity c with Some a => apply_affinity a s | None => SqlNull end.

(** The value the statement reads for the parameter [?h] of column [c]:
    the [h]-th bound text as stored there; an unbound parameter is [NULL]. *)
Definition bound_value (params : list string) (c : string) (h : nat) : sql_value :=
  match params !! pred h with Some s => stored_value c s | None => SqlNull end.

Definition assignments (cols : list string) (holes : list nat) (params : list string)
  : list (string * sql_value) :=
  zip_with (fun c h => (c, bound_value params c h)) cols holes.

(** Assignments in order; for a column named twice the last one wins. *)
Definition set_columns (r : row) (asg : list (string * sql_value)) : row :=
  foldl (fun r cv => <[fst cv := snd cv]> r) r asg.

(** A fresh row: each column's [DEFAULT], or [NULL]; the rowid is [NULL]
    until it is assigned. *)
Definition default_row (t : bot_table) : row :=
  list_to_map (map (fun ca => (fst ca,
    if String.eqb (fst ca) "id" then SqlNull
    else default SqlNull (bdefaults t !! fst ca))) bot_columns).

(** The number of values a statement expects: its largest parameter. *)
Definition param_count (holes : list nat) : nat := foldr Nat.max 0%nat holes.

(** The rowid SQLite picks: one more than the largest in use, 1 in an
    empty table. *)
Definition next_rowid (rows : list row) : Z :=
  match omap row_id rows with
  | [] => 1
  | z :: zs => fold_left Z.max zs z + 1
  end.

(** Insertion of a row at its rowid position. *)
Fixpoint place (z : Z) (r : row) (rows : list row) : list row :=
  match rows with
  | [] => [r]
  | r' :: rest =>
      match row_id r' with
      | Some z' => if z <? z' then r :: rows else r' :: place z r rest
      | None => r' :: place z r rest
      end
  end.

Definition id_in_use (z : Z) (rows : list row) : bool :=
  existsb (fun r => bool_decide (row_id r = Some z)) rows.

Definition with_bots (t : bot_table) (rows : list row) : bot_table :=
  mk_bot_table (bcaps t) (bdefaults t) rows.

(** The first row [where id = ?1] selects. *)
Definition find_id (key : sql_value) (rows : list row) : option (nat * row) :=
  list_find (fun r => id_matches key r = true) rows.

(** [Vec::join]. *)
Fixpoint join (sep : string) (l : list string) : string :=
  match l with
  | [] => ""
  | [x] => x
  | x :: l' => x +:+ sep +:+ join sep l'
  end.

(** ** Statements *)

(** [INSERT INTO bot (c1,...,cn) VALUES (?,...,?)]: its columns and the
    numbers SQLite gives its parameters. *)
Record insert_stmt : Type := mk_insert {
  ins_cols : list string;
  ins_holes : list nat
}.

Definition render_insert (s : insert_stmt) : string :=
  "INSERT INTO bot (" +:+ join "," (ins_cols s) +:+ ") VALUES ("
  +:+ join "," (map (fun _ => "?") (ins_holes s)) +:+ ")".

(** [UPDATE bot SET c1 = ?h1, ... where id = ?1 limit 1]. *)
Record update_stmt : Type := mk_update { upd_set : list (string * nat) }.

Definition render_update (s : update_stmt) : string :=
  "UPDATE bot SET "
  +:+ join ", " (map (fun ch => fst ch +:+ " = ?" +:+ I64.i64_to_string (Z.of_nat (snd ch)))
                     (upd_set s))
  +:+ " where id = ?1 limit 1".

(** [Statement::execute] of an insert: [prepare] rejects an empty column
    list (a syntax error) and unknown columns, binding checks the number of
    values, then the row is stored with its defaults; a [NULL] rowid is
    chosen by SQLite, an integer one must be free. *)
Definition execute_insert (s : insert_stmt) (params : list string)
  : St bot_table AtbDb.sqlite_error nat :=
  (t <- get ;;
   if bool_decide (ins_cols s = []) then throw AtbDb.SqlInputError
   else if negb (forallb known_column (ins_cols s)) then throw AtbDb.SqlInputError
   else if negb (Nat.eqb (param_count (ins_holes s)) (length params))
   then throw AtbDb.InvalidParameterCount
   else
     let r := set_columns (default_row t) (assignments (ins_cols s) (ins_holes s) params) in
     match r !! "id" with
     | Some (SqlInt z) =>
         if id_in_use z (bots t) then throw AtbDb.ConstraintViolation
         else put (with_bots t (place z r (bots t))) ;; ret 1%nat
     | Some (SqlText _) => throw AtbDb.DatatypeMismatch
     | _ =>
         let z := next_rowid (bots t) in
         put (with_bots t (place z (<["id" := SqlInt z]> r) (bots t))) ;; ret 1%nat
     end)%rust.

(** [Statement::execute] of the update: [LIMIT] on an [UPDATE] needs
    [SQLITE_ENABLE_UPDATE_DELETE_LIMIT]; an empty [SET] list is a syntax
    error; the first row whose id equals [?1] gets the assignments. *)
Definition execute_update (s : update_stmt) (params : list string)
  : St bot_table AtbDb.sqlite_error nat :=
  (t <- get ;;
   if negb (AtbDb.delete_limit (bcaps t)) then throw AtbDb.SqlInputError
   else if bool_decide (upd_set s = []) then throw AtbDb.SqlInputError
   else if negb (forallb known_column (upd_set s).*1) then throw AtbDb.SqlInputError
   else if negb (Nat.eqb (param_count (1%nat :: (upd_set s).*2)) (length params))
   then throw AtbDb.InvalidParameterCount
   else
     let key := bound_value params "id" 1 in
     match find_id key (bots t) with
     | None => ret 0%nat
     | Some (i, r) =>
         let r' := set_columns r (assignments (upd_set s).*1 (upd_set s).*2 params) in
         let rest := delete i (bots t) in
         match r' !! "id" with
         | Some (SqlInt z) =>
             if id_in_use z rest then throw AtbDb.ConstraintViolation
             else put (with_bots t (place z r' rest)) ;; ret 1%nat
         | _ => throw AtbDb.DatatypeMismatch
         end
     end)%rust.

(** ** The operations of [AtbDB] on the table *)

(** [AtbDB::insert_bot] (lib.rs 187-207): columns from [option.keys()], one
    [?] per key, values from [option.values()]; [execute]'s error leaves
    nothing to commit, success commits. *)
Definition insert_bot {HO : HashOrder} (opt : gmap string string)
  : St bot_table AtbDb.sqlite_error nat :=
  let sql_key := (hash_iter opt).*1 in
  execute_insert (mk_insert sql_key (seq 1 (length sql_key))) (hash_iter opt).*2.

(** [AtbDB::update_bot] (lib.rs 210-237): [key = ?(j+2)] for the [j]-th key,
    the values [id :: option.values()]. *)
Definition update_bot {HO : HashOrder} (idv : string) (opt : gmap string string)
  : St bot_table AtbDb.sqlite_error nat :=
  let sql_set := imap (fun j k => (k, j + 2)%nat) (hash_iter opt).*1 in
  let sql_value := idv :: (hash_iter opt).*2 in
  execute_update (mk_update sql_set) sql_value.

(** [AtbDB::delete_bot] (lib.rs 240-252): [delete from bot where id = ?1
    limit 1]. *)
Definition delete_bot (idv : string) : St bot_table AtbDb.sqlite_error nat :=
  (t <- get ;;
   if negb (AtbDb.delete_limit (bcaps t)) then throw AtbDb.SqlInputError
   else
     match find_id (bound_value [idv] "id" 1) (bots t) with
     | None => ret 0%nat
     | Some (i, _) => put (with_bots t (delete i (bots t))) ;; ret 1%nat
     end)%rust.

(** ** Reading rows back: [row.get(i)] and [FromSql] *)

Definition column (r : row) (c : string) : sql_value := default SqlNull (r !! c).

(** [FromSql for i64]: an integer; anything else is [InvalidColumnType]. *)
Definition get_i64 (v : sql_value) : result Z AtbDb.sqlite_error :=
  match v with SqlInt z => Ok z | _ => Err AtbDb.InvalidColumnType end.

(** [FromSql for bool]: an integer, non-zero is [true]. *)
Definition get_bool (v : sql_value) : result bool AtbDb.sqlite_error :=
  match v with SqlInt z => Ok (negb (z =? 0)) | _ => Err AtbDb.InvalidColumnType end.

(** [FromSql for String]: a text. *)
Definition get_string (v : sql_value) : result string AtbDb.sqlite_error :=
  match v with SqlText s => Ok s | _ => Err AtbDb.InvalidColumnType end.

(** The closure of [get_bot] and [get_bot_list]: [Bot { id:
    row.get(0).unwrap(), ... }], the fields in source order, each
    [unwrap] a panic when the column does not convert. *)
Definition row_to_bot {S} (r : row) : St S AtbDb.sqlite_error Bot :=
  (i <- unwrap_result (get_i64 (column r "id")) ;;
   n <- unwrap_result (get_string (column r "name")) ;;
   d <- unwrap_result (get_string (column r "description")) ;;
   e <- unwrap_result (get_bool (column r "enable")) ;;
   g <- unwrap_result (get_i64 (column r "registered")) ;;
   k <- unwrap_result (get_string (column r "token")) ;;
   l <- unwrap_result (get_bool (column r "long_order")) ;;
   o <- unwrap_result (get_bool (column r "short_order")) ;;
   p <- unwrap_result (get_string (column r "operate_type")) ;;
   ret (mk_bot i n d e g k l o p))%rust.

(** The closure of [get_bot_for_api]. *)
Definition row_to_bot_for_get {S} (r : row) : St S AtbDb.sqlite_error BotForGet.BotForGet :=
  (n <- unwrap_result (get_string (column r "name")) ;;
   d <- unwrap_result (get_string (column r "description")) ;;
   e <- unwrap_result (get_bool (column r "enable")) ;;
   g <- unwrap_result (get_i64 (column r "registered")) ;;
   l <- unwrap_result (get_bool (column r "long_order")) ;;
   o <- unwrap_result (get_bool (column r "short_order")) ;;
   p <- unwrap_result (get_string (column r "operate_type")) ;;
   ret (BotForGet.mk_bot_for_get n d e g l o p))%rust.

(** [AtbDB::get_bot] (lib.rs 255-275): [query_row] with [where id = ?1
    limit 1]; no row is [QueryReturnedNoRows]. *)
Definition get_bot (idv : string) : St bot_table AtbDb.sqlite_error Bot :=
  (t <- get ;;
   match find_id (bound_value [idv] "id" 1) (bots t) with
   | None => throw AtbDb.QueryReturnedNoRows
   | Some (_, r) => row_to_bot r
   end)%rust.

(** [where ... and token = ?2]: the text column equals the bound text; a
    [NULL] token equals nothing. *)
Definition token_matches (tok : string) (r : row) : bool :=
  bool_decide (r !! "token" = Some (SqlText tok)).

(** [AtbDB::get_bot_for_api] (lib.rs 278-295). *)
Definition get_bot_for_api (idv tok : string)
  : St bot_table AtbDb.sqlite_error BotForGet.BotForGet :=
  (t <- get ;;
   let key := bound_value [idv; tok] "id" 1 in
   match list_find (fun r => id_matches key r && token_matches tok r = true) (bots t) with
   | None => throw AtbDb.QueryReturnedNoRows
   | Some (_, r) => row_to_bot_for_get r
   end)%rust.

Fixpoint map_st {S E A B} (f : A -> St S E B) (l : list A) : St S E (list B) :=
  match l with
  | [] => ret []
  | x :: l' => (y <- f x ;; ys <- map_st f l' ;; ret (y :: ys))%rust
  end.

(** [AtbDB::get_bot_list] (lib.rs 298-327): [SELECT * FROM bot] in rowid
    order, each row through the closure, [bot.unwrap()] collected. *)
Definition get_bot_list : St bot_table AtbDb.sqlite_error BotList :=
  (t <- get ;;
   bs <- map_st row_to_bot (bots t) ;;
   ret (mk_bot_list bs))%rust.

(** ** Specification *)

(** What a row holds for an option map: each entry stored in its column. *)
Definition stored (opt : gmap string string) : row :=
  map_imap (fun c s => Some (stored_value c s)) opt.

(** *** Column types: the SQLite type each field of [Bot] is read as, which
    is the type of the column's declared affinity ([INTEGER] for [id],
    [enable], [registered] and the order flags, [TEXT] for the others). *)
Definition value_has_type (a : affinity) (v : sql_value) : bool :=
  match a, v with
  | AInteger, SqlInt _ | AText, SqlText _ => true
  | _, _ => false
  end.

Definition row_typed (r : row) : bool :=
  forallb (fun ca => value_has_type ca.2 (column r ca.1)) bot_columns.

(** *** The table invariant: every row has an integer id, and ids strictly
    increase in rowid order (so they are unique). *)

Definition has_id (r : row) : Prop := is_Some (row_id r).

Definition ids (rows : list row) : list Z := omap row_id rows.

Definition table_wf (rows : list row) : Prop :=
  Forall has_id rows /\ StronglySorted Z.lt (ids rows).

(** The table's transitions: the statements the code runs on it.  The
    reads ([get_bot], [get_bot_for_api], [get_bot_list]) leave it as it is. *)
Inductive bot_step {HO : HashOrder} : bot_table -> bot_table -> Prop :=
| step_insert opt t : bot_step t (snd (insert_bot opt t))
| step_update idv opt t : bot_step t (snd (update_bot idv opt t))
| step_delete idv t : bot_step t (snd (delete_bot idv t)).

(** ** Theory *)

(** Evaluate [bool_decide P] for the closed propositions [P] of the goal
    (column names, key lists). *)
Ltac bool_decide_closed :=
  repeat match goal with
  | |- context [bool_decide ?P] =>
      let b := eval vm_compute in (bool_decide P) in
      lazymatch b with
      | true => replace (bool_decide P) with true by reflexivity
      | false => replace (bool_decide P) with false by reflexivity
      end
  end.

Lemma stored_lookup opt c : stored opt !! c = stored_value c <$> opt !! c.
Proof. rewrite /stored map_lookup_imap. by destruct (opt !! c). Qed.

Lemma stored_insert opt k s :
  stored (<[k:=s]> opt) = <[k:=stored_value k s]> (stored opt).
Proof.
  apply map_eq => c. rewrite stored_lookup.
  destruct (decide (k = c)) as [<-|Hne].
  - by rewrite !lookup_insert_eq.
  - by rewrite !lookup_insert_ne // stored_lookup.
Qed.

Lemma param_count_seq s n : Nat.max s (param_count (seq (S s) n)) = (s + n)%nat.
Proof.
  revert s. induction n as [|n IH]; intros s; simpl; [lia|].
  specialize (IH (S s)). lia.
Qed.

Lemma set_columns_cons r c v asg :
  set_columns r ((c, v) :: asg) = set_columns (<[c:=v]> r) asg.
Proof. reflexivity. Qed.

Lemma assignments_cons c cs h hs params :
  assignments (c :: cs) (h :: hs) params = (c, bound_value params c h) :: assignments cs hs params.
Proof. reflexivity. Qed.

(** Numbered parameters bind the [j]-th column to the [j]-th value after
    the [pre] values already bound: the assignments store the map. *)
Lemma set_columns_bind kvs pre r :
  NoDup kvs.*1 ->
  set_columns r (assignments kvs.*1 (seq (S (length pre)) (length kvs)) (pre ++ kvs.*2))
  = stored (list_to_map kvs) ∪ r.
Proof.
  revert pre r. induction kvs as [|[k s] kvs IH]; intros pre r Hnd.
  - by rewrite /stored map_imap_empty map_empty_union.
  - rewrite fmap_cons in Hnd. apply NoDup_cons in Hnd as [Hk Hnd].
    rewrite !fmap_cons length_cons. cbn [seq fst snd] in *.
    rewrite assignments_cons set_columns_cons.
    assert (Hb : bound_value (pre ++ s :: kvs.*2) k (S (length pre)) = stored_value k s)
      by (by rewrite /bound_value /= list_lookup_middle).
    rewrite Hb cons_middle app_assoc.
    replace (S (S (length pre))) with (S (length (pre ++ [s])))
      by (rewrite length_app /=; lia).
    rewrite IH // list_to_map_cons stored_insert.
    rewrite -insert_union_r ?insert_union_l //.
    by rewrite stored_lookup not_elem_of_list_to_map_1.
Qed.

(** The [SET] list of [update_bot]: the [j]-th key with parameter [j+2]. *)
Lemma imap_offset (keys : list string) n :
  imap (fun j k => (k, j + n)%nat) keys = zip keys (seq n (length keys)).
Proof.
  revert n. induction keys as [|k keys IH]; intros n; [done|].
  rewrite /= -(IH (S n)). f_equal. apply imap_ext => j x _ /=. f_equal. lia.
Qed.

Lemma imap_offset_fst (keys : list string) n : (imap (fun j k => (k, j + n)%nat) keys).*1 = keys.
Proof. rewrite imap_offset fst_zip // length_seq. lia. Qed.

Lemma imap_offset_snd (keys : list string) n :
  (imap (fun j k => (k, j + n)%nat) keys).*2 = seq n (length keys).
Proof. rewrite imap_offset snd_zip // length_seq. lia. Qed.

Lemma id_in_use_spec z rows : id_in_use z rows = true <-> z ∈ ids rows.
Proof.
  rewrite /id_in_use existsb_exists /ids list_elem_of_omap. split.
  - intros [r [Hin Hr]]. apply bool_decide_eq_true in Hr. exists r.
    split; [by apply list_elem_of_In|done].
  - intros [r [Hin Hr]]. exists r. split; [by apply list_elem_of_In|].
    by apply bool_decide_eq_true.
Qed.

Lemma next_rowid_gt rows z : z ∈ ids rows -> z < next_rowid rows.
Proof.
  rewrite /next_rowid -/(ids rows). destruct (ids rows) as [|z0 zs]; [by inversion 1|].
  intros Hin. apply list_elem_of_In in Hin.
  pose proof (AtbDb.fold_max_ge zs z0 z Hin). lia.
Qed.

Lemma next_rowid_fresh rows : id_in_use (next_rowid rows) rows = false.
Proof.
  apply not_true_iff_false. rewrite id_in_use_spec => Hin.
  apply next_rowid_gt in Hin. lia.
Qed.

Lemma ids_cons r rows :
  ids (r :: rows) = match row_id r with Some z => z :: ids rows | None => ids rows end.
Proof. reflexivity. Qed.

Lemma place_cons z r r' rest :
  place z r (r' :: rest) =
  match row_id r' with
  | Some z' => if z <? z' then r :: r' :: rest else r' :: place z r rest
  | None => r' :: place z r rest
  end.
Proof. reflexivity. Qed.

Lemma place_ids z r rows : row_id r = Some z -> ids (place z r rows) ≡ₚ z :: ids rows.
Proof.
  intros Hr. induction rows as [|r' rest IH].
  { cbn [place]. by rewrite ids_cons Hr. }
  rewrite place_cons (ids_cons r' rest).
  destruct (row_id r') as [z'|] eqn:Hr'; [destruct (z <? z')|].
  - by rewrite ids_cons Hr ids_cons Hr'.
  - rewrite ids_cons Hr' IH. apply perm_swap.
  - by rewrite ids_cons Hr' IH.
Qed.

Lemma place_sorted z r rows :
  row_id r = Some z -> z ∉ ids rows ->
  StronglySorted Z.lt (ids rows) -> StronglySorted Z.lt (ids (place z r rows)).
Proof.
  intros Hr. induction rows as [|r' rest IH]; intros Hz Hs.
  { cbn [place]. rewrite ids_cons Hr. repeat constructor. }
  rewrite place_cons. rewrite ids_cons in Hz Hs.
  destruct (row_id r') as [z'|] eqn:Hr'.
  - apply StronglySorted_inv in Hs as [Hs Hall].
    destruct (Z.ltb_spec z z').
    + rewrite ids_cons Hr ids_cons Hr'. constructor; [by constructor|].
      constructor; [done|]. eapply Forall_impl; [exact Hall|]. simpl; lia.
    + rewrite ids_cons Hr'. constructor.
      * apply IH; [set_solver|done].
      * rewrite (place_ids _ _ _ Hr). constructor; [|done].
        assert (z <> z') by set_solver. lia.
  - rewrite ids_cons Hr'. by apply IH.
Qed.

Lemma place_last z r rows :
  Forall (fun z' => z' < z) (ids rows) -> place z r rows = rows ++ [r].
Proof.
  induction rows as [|r' rest IH]; intros Hall; [done|].
  rewrite place_cons. rewrite ids_cons in Hall.
  destruct (row_id r') as [z'|]; [apply Forall_cons in Hall as [Hz Hall]|].
  - destruct (Z.ltb_spec z z'); [lia|]. by rewrite IH.
  - by rewrite IH.
Qed.

(** SQLite's rowid choice puts the new row last. *)
Lemma place_next_rowid r rows : place (next_rowid rows) r rows = rows ++ [r].
Proof. apply place_last, Forall_forall => z Hin. by apply next_rowid_gt. Qed.

Lemma place_perm z r rows : place z r rows ≡ₚ r :: rows.
Proof.
  induction rows as [|r' rest IH]; [done|]. rewrite place_cons.
  destruct (row_id r') as [z'|]; [destruct (z <? z')|]; try done;
    rewrite IH; apply perm_swap.
Qed.

Lemma place_wf z r rows :
  table_wf rows -> row_id r = Some z -> id_in_use z rows = false ->
  table_wf (place z r rows).
Proof.
  intros [Hid Hs] Hr Hfree. split.
  - rewrite place_perm. constructor; [by exists z|done].
  - apply place_sorted; [done| |done].
    by rewrite -id_in_use_spec Hfree.
Qed.

Lemma ids_sublist l1 l2 : l1 `sublist_of` l2 -> ids l1 `sublist_of` ids l2.
Proof.
  induction 1 as [|r l1 l2 _ IH|r l1 l2 _ IH]; [done| |];
    rewrite ?(ids_cons r l1) ids_cons; destruct (row_id r); try done.
  - by apply sublist_skip.
  - by apply sublist_cons.
Qed.

Lemma sorted_sublist (l1 l2 : list Z) :
  l1 `sublist_of` l2 -> StronglySorted Z.lt l2 -> StronglySorted Z.lt l1.
Proof.
  induction 1 as [|z l1 l2 Hsub IH|z l1 l2 Hsub IH]; intros Hs; [done| |];
    apply StronglySorted_inv in Hs as [Hs Hall].
  - constructor; [by apply IH|].
    apply Forall_forall => x Hx. eapply Forall_forall; [exact Hall|].
    by apply (sublist_subseteq l1 l2 Hsub).
  - by apply IH.
Qed.

Lemma delete_wf i rows : table_wf rows -> table_wf (delete i rows).
Proof.
  intros [Hid Hs]. split.
  - apply Forall_forall => r Hr. apply list_elem_of_delete_inv in Hr.
    rewrite Forall_forall in Hid. by apply Hid.
  - eapply sorted_sublist; [apply ids_sublist, sublist_delete|done].
Qed.

Lemma table_wf_cons r rows :
  table_wf (r :: rows) <->
  (exists z, row_id r = Some z /\ Forall (Z.lt z) (ids rows)) /\ table_wf rows.
Proof.
  rewrite /table_wf Forall_cons ids_cons. split.
  - intros [[[z Hz] Hid] Hs]. rewrite Hz in Hs.
    apply StronglySorted_inv in Hs as [Hs Hall]. eauto.
  - intros [[z [Hz Hall]] [Hid Hs]]. rewrite Hz. split; [split; [by exists z|done]|].
    by constructor.
Qed.

Lemma ids_lookup rows i r z :
  rows !! i = Some r -> row_id r = Some z -> z ∈ ids rows.
Proof.
  intros Hi Hr. apply list_elem_of_omap. exists r. split; [|done].
  exact (list_elem_of_lookup_2 _ _ _ Hi).
Qed.

(** Putting back a row with its own id puts it where it was. *)
Lemma place_delete rows i r r' z :
  table_wf rows -> rows !! i = Some r -> row_id r = Some z -> row_id r' = Some z ->
  place z r' (delete i rows) = <[i:=r']> rows.
Proof.
  revert i. induction rows as [|r0 rest IH]; intros i Hwf Hi Hr Hr'; [done|].
  apply table_wf_cons in Hwf as [[z0 [Hz0 Hall]] Hwf]. destruct i as [|i].
  - injection Hi as ->. rewrite Hr in Hz0. injection Hz0 as <-. cbn [delete].
    destruct rest as [|r1 rest]; [done|].
    apply table_wf_cons in Hwf as [[z1 [Hz1 _]] _]. rewrite ids_cons Hz1 in Hall.
    apply Forall_cons in Hall as [Hlt _].
    rewrite place_cons Hz1. by destruct (Z.ltb_spec z z1); [|lia].
  - cbn [delete]. rewrite place_cons Hz0.
    pose proof (ids_lookup rest i r z Hi Hr) as Hz. rewrite Forall_forall in Hall.
    specialize (Hall z Hz). destruct (Z.ltb_spec z z0); [lia|].
    rewrite (IH i) //.
Qed.

Lemma sorted_nodup (l : list Z) : StronglySorted Z.lt l -> NoDup l.
Proof.
  induction 1 as [|z l _ IH Hall]; constructor; [|done].
  rewrite Forall_forall in Hall. intros Hin. specialize (Hall z Hin). lia.
Qed.

Lemma id_free_after_delete rows i r z :
  table_wf rows -> rows !! i = Some r -> row_id r = Some z ->
  id_in_use z (delete i rows) = false.
Proof.
  intros [_ Hs] Hi Hr. apply not_true_iff_false. rewrite id_in_use_spec => Hin.
  pose proof (delete_Permutation _ _ _ Hi) as Hp.
  apply sorted_nodup in Hs. rewrite /ids Hp /= Hr in Hs.
  apply NoDup_cons in Hs as [Hn _]. by apply Hn.
Qed.

Lemma row_id_lookup r z : row_id r = Some z -> r !! "id" = Some (SqlInt z).
Proof. rewrite /row_id. by repeat case_match; intros; simplify_eq. Qed.

Lemma column_affinity_id : column_affinity "id" = Some AInteger.
Proof. reflexivity. Qed.

Lemma bound_id params idv : bound_value (idv :: params) "id" 1 = apply_affinity AInteger idv.
Proof. by rewrite /bound_value /= /stored_value column_affinity_id. Qed.

Lemma default_row_id t : default_row t !! "id" = Some SqlNull.
Proof.
  rewrite /default_row. cbn [bot_columns map fst].
  by rewrite list_to_map_cons lookup_insert_eq.
Qed.

Lemma execute_insert_wf s params t :
  table_wf (bots t) -> table_wf (bots (snd (execute_insert s params t))).
Proof.
  intros Hwf. rewrite /execute_insert /bind /get /throw /put /ret. cbn beta iota zeta.
  repeat case_match; simplify_eq/=; try done;
    (apply place_wf; [done| |by try apply next_rowid_fresh]);
    rewrite /row_id ?lookup_insert_eq //; by simplify_option_eq.
Qed.

Lemma execute_update_wf s params t :
  table_wf (bots t) -> table_wf (bots (snd (execute_update s params t))).
Proof.
  intros Hwf. rewrite /execute_update /bind /get /throw /put /ret. cbn beta iota zeta.
  repeat case_match; simplify_eq/=; try done.
  apply place_wf; [by apply delete_wf| |done].
  rewrite /row_id. by simplify_option_eq.
Qed.

Lemma delete_bot_wf idv t :
  table_wf (bots t) -> table_wf (bots (snd (delete_bot idv t))).
Proof.
  intros Hwf. rewrite /delete_bot /bind /get /throw /put /ret. cbn beta iota zeta.
  repeat case_match; simplify_eq/=; try done. by apply delete_wf.
Qed.

Lemma id_matches_int z r : id_matches (SqlInt z) r = true <-> row_id r = Some z.
Proof.
  rewrite /id_matches /row_id. destruct (r !! "id") as [[]|]; simpl;
    rewrite ?bool_decide_eq_true; split; intros; simplify_eq; done.
Qed.

Lemma find_id_last rows r z :
  id_in_use z rows = false -> row_id r = Some z ->
  find_id (SqlInt z) (rows ++ [r]) = Some (length rows, r).
Proof.
  intros Hfree Hr. rewrite /find_id list_find_app_r.
  - apply list_find_None, Forall_forall => r' Hin /id_matches_int Hr'.
    apply not_true_iff_false in Hfree. apply Hfree, id_in_use_spec.
    apply list_elem_of_omap. by exists r'.
  - by rewrite /= (proj2 (id_matches_int z r) Hr) /=.
Qed.

Lemma bound_single idv : bound_value [idv] "id" 1 = apply_affinity AInteger idv.
Proof. apply bound_id. Qed.

Lemma parse_int_affinity idv z :
  I64.parse_i64 idv = Ok z -> apply_affinity AInteger idv = SqlInt z.
Proof. rewrite /apply_affinity /sqlite_integer. by intros ->. Qed.

Lemma find_id_cons key r rows :
  find_id key (r :: rows) =
  match decide (id_matches key r = true) with
  | left _ => Some (0%nat, r)
  | right _ => prod_map S Datatypes.id <$> find_id key rows
  end.
Proof. reflexivity. Qed.

Lemma filter_keep (P : row -> Prop) `{!forall x, Decision (P x)} rows :
  Forall P rows -> filter P rows = rows.
Proof.
  induction 1 as [|r rows Hr _ IH]; [done|]. by rewrite filter_cons_True // IH.
Qed.

(** Under the invariant the first row with an id is the only one. *)
Lemma find_id_delete rows z i r :
  table_wf rows -> find_id (SqlInt z) rows = Some (i, r) ->
  delete i rows = filter (fun r => row_id r <> Some z) rows.
Proof.
  revert i. induction rows as [|r0 rest IH]; intros i Hwf Hf; [done|].
  apply table_wf_cons in Hwf as [[z0 [Hz0 Hall]] Hwf].
  rewrite find_id_cons in Hf. rewrite filter_cons.
  destruct (decide (id_matches (SqlInt z) r0 = true)) as [Hm|Hm].
  - apply id_matches_int in Hm. rewrite Hz0 in Hm. injection Hm as <-.
    injection Hf as <- _. rewrite decide_False; [by intros []|]. cbn [delete].
    symmetry. apply filter_keep, Forall_forall => r' Hin Hr'.
    rewrite Forall_forall in Hall.
    assert (z0 ∈ ids rest) as Hin' by (apply list_elem_of_omap; by exists r').
    specialize (Hall z0 Hin'). lia.
  - destruct (find_id (SqlInt z) rest) as [[j r']|] eqn:Hf'; [|done].
    injection Hf as <- <-.
    rewrite decide_True; [intros Hr0; apply Hm, id_matches_int; congruence|].
    change (delete (S j) (r0 :: rest)) with (r0 :: delete j rest). f_equal. by apply IH.
Qed.

Lemma find_id_none_filter rows z :
  find_id (SqlInt z) rows = None -> filter (fun r => row_id r <> Some z) rows = rows.
Proof.
  intros Hn. apply filter_keep. apply list_find_None in Hn.
  eapply Forall_impl; [exact Hn|]. intros r Hr Hz. by apply Hr, id_matches_int.
Qed.

Lemma find_id_none_free rows z :
  find_id (SqlInt z) rows = None -> id_in_use z rows = false.
Proof.
  intros Hn. apply not_true_iff_false. rewrite id_in_use_spec list_elem_of_omap.
  intros [r [Hin Hr]]. apply list_find_None in Hn. rewrite Forall_forall in Hn.
  by apply (Hn r Hin), id_matches_int.
Qed.

Lemma find_id_some_used rows z i r :
  find_id (SqlInt z) rows = Some (i, r) -> id_in_use z rows = true.
Proof.
  intros Hf. apply list_find_Some in Hf as [Hi [Hm _]].
  apply id_in_use_spec, list_elem_of_omap. exists r.
  split; [exact (list_elem_of_lookup_2 _ _ _ Hi)|by apply id_matches_int].
Qed.

Lemma row_to_bot_for_get_state {S} (r : row) (s : S) :
  snd (row_to_bot_for_get r s) = s.
Proof.
  unfold row_to_bot_for_get, bind, ret, unwrap_result, abort.
  repeat case_match; unfold ret, abort in *; simplify_eq/=; done.
Qed.

Lemma execute_insert_ret s params t n t' :
  execute_insert s params t = (Ret n, t') -> n = 1%nat.
Proof.
  rewrite /execute_insert /bind /get /throw /put /ret. cbn beta iota zeta.
  by repeat case_match; intros; simplify_eq.
Qed.

Lemma row_to_bot_state {S} (r : row) (s : S) : snd (row_to_bot r s) = s.
Proof.
  unfold row_to_bot, bind, ret, unwrap_result, abort.
  repeat case_match; unfold ret, abort in *; simplify_eq/=; done.
Qed.

Lemma row_to_bot_id {S} (r : row) (s s' : S) b :
  row_to_bot r s = (Ret b, s') -> r !! "id" = Some (SqlInt (id b)).
Proof.
  unfold row_to_bot, bind, ret, unwrap_result, abort, column, get_i64.
  repeat case_match; unfold ret, abort in *; simplify_eq/=; try done.
  all: match goal with H : default _ _ = SqlInt _ |- _ => revert H end.
  all: by destruct (r !! "id"); intros; simplify_eq/=.
Qed.

Lemma get_bot_found idv t b t' :
  get_bot idv t = (Ret b, t') ->
  exists i r, find_id (apply_affinity AInteger idv) (bots t) = Some (i, r) /\
    row_to_bot r t = (Ret b, t').
Proof.
  rewrite /get_bot /bind /get /throw /= bound_single.
  destruct (find_id _ (bots t)) as [[i r]|]; [|done]. intros H. by exists i, r.
Qed.

Lemma get_bot_state idv t : snd (get_bot idv t) = t.
Proof.
  rewrite /get_bot /bind /get /throw /=.
  destruct (find_id _ (bots t)) as [[i r]|]; [apply row_to_bot_state|done].
Qed.

Section Order.
Context {HO : HashOrder}.

Lemma hash_iter_nodup opt : NoDup (hash_iter opt).*1.
Proof. rewrite (hash_iter_perm opt). apply NoDup_fst_map_to_list. Qed.

Lemma hash_iter_to_map opt : list_to_map (hash_iter opt) = opt.
Proof.
  transitivity (list_to_map (M:=gmap string string) (map_to_list opt)).
  - apply list_to_map_proper; [apply hash_iter_nodup | apply hash_iter_perm].
  - apply list_to_map_to_list.
Qed.

Lemma hash_iter_keys opt k : k ∈ (hash_iter opt).*1 <-> is_Some (opt !! k).
Proof.
  rewrite (hash_iter_perm opt) list_elem_of_fmap. split.
  - intros [[k' v] [-> Hin]]. apply elem_of_map_to_list in Hin. by exists v.
  - intros [v Hv]. exists (k, v). split; [done|]. by apply elem_of_map_to_list.
Qed.

Lemma hash_iter_nil opt : hash_iter opt = [] <-> opt = ∅.
Proof.
  split.
  - intros Hnil. by rewrite -(hash_iter_to_map opt) Hnil.
  - intros ->. apply Permutation_nil_r. by rewrite hash_iter_perm map_to_list_empty.
Qed.

Lemma insert_bot_ret opt t n t' : insert_bot opt t = (Ret n, t') -> n = 1%nat.
Proof. rewrite /insert_bot. apply execute_insert_ret. Qed.

(** The columns and values [insert_bot] binds store the option map. *)
Lemma insert_bind opt r :
  set_columns r (assignments (hash_iter opt).*1 (seq 1 (length (hash_iter opt).*1))
                             (hash_iter opt).*2)
  = stored opt ∪ r.
Proof.
  pose proof (set_columns_bind (hash_iter opt) [] r (hash_iter_nodup opt)) as Hb.
  rewrite hash_iter_to_map in Hb. cbn [length app] in Hb. by rewrite length_fmap.
Qed.

Lemma insert_guards opt :
  opt <> ∅ -> map_Forall (fun k _ => known_column k = true) opt ->
  bool_decide ((hash_iter opt).*1 = []) = false /\
  forallb known_column (hash_iter opt).*1 = true /\
  (param_count (seq 1 (length (hash_iter opt).*1)) =? length (hash_iter opt).*2)%nat = true.
Proof.
  intros Hne Hknown. split_and!.
  - apply bool_decide_eq_false => Hn. apply fmap_nil_inv in Hn.
    by apply Hne, hash_iter_nil.
  - apply forallb_forall => k /list_elem_of_In /hash_iter_keys [v Hv].
    exact (Hknown k v Hv).
  - apply Nat.eqb_eq. pose proof (param_count_seq 0 (length (hash_iter opt).*1)) as Hc.
    rewrite !length_fmap in Hc |- *. lia.
Qed.

(** [insert_bot] with fields that are columns of the table (not [id]): for
    every iteration order the new row holds the map's entries, each column's
    default otherwise, under the next rowid, appended last. *)
Theorem insert_bot_spec t opt :
  opt <> ∅ ->
  map_Forall (fun k _ => known_column k = true) opt ->
  opt !! "id" = None ->
  insert_bot opt t =
    (Ret 1%nat, with_bots t (bots t ++
       [<["id" := SqlInt (next_rowid (bots t))]> (stored opt ∪ default_row t)])).
Proof.
  intros Hne Hknown Hid. destruct (insert_guards opt Hne Hknown) as (H1 & H2 & H3).
  assert (H4 : (stored opt ∪ default_row t) !! "id" = Some SqlNull).
  { by rewrite lookup_union_r ?stored_lookup ?Hid ?default_row_id. }
  rewrite /insert_bot /execute_insert /bind /get. cbn [ins_cols ins_holes].
  rewrite H1 H2 H3. cbn beta iota zeta. rewrite insert_bind H4 place_next_rowid.
  reflexivity.
Qed.

(** The columns and values [update_bot] binds after [?1] store the map. *)
Lemma update_bind opt idv r :
  set_columns r (assignments (imap (fun j k => (k, j + 2)%nat) (hash_iter opt).*1).*1
                             (imap (fun j k => (k, j + 2)%nat) (hash_iter opt).*1).*2
                             (idv :: (hash_iter opt).*2))
  = stored opt ∪ r.
Proof.
  rewrite imap_offset_fst imap_offset_snd.
  pose proof (set_columns_bind (hash_iter opt) [idv] r (hash_iter_nodup opt)) as Hb.
  rewrite hash_iter_to_map in Hb. cbn [length app] in Hb. by rewrite length_fmap.
Qed.

Lemma update_guards opt idv :
  opt <> ∅ -> map_Forall (fun k _ => known_column k = true) opt ->
  bool_decide (imap (fun j k => (k, j + 2)%nat) (hash_iter opt).*1 = []) = false /\
  forallb known_column (imap (fun j k => (k, j + 2)%nat) (hash_iter opt).*1).*1 = true /\
  (param_count (1 :: (imap (fun j k => (k, j + 2)%nat) (hash_iter opt).*1).*2)
     =? length (idv :: (hash_iter opt).*2))%nat = true.
Proof.
  intros Hne Hknown. destruct (insert_guards opt Hne Hknown) as (H1 & H2 & _).
  rewrite imap_offset_fst imap_offset_snd. split_and!; [|done|].
  - apply bool_decide_eq_false => Hn. apply (f_equal length) in Hn.
    rewrite length_imap in Hn. apply bool_decide_eq_false in H1. apply H1.
    by destruct (hash_iter opt).*1.
  - apply Nat.eqb_eq. pose proof (param_count_seq 1 (length (hash_iter opt).*1)) as Hc.
    rewrite /= !length_fmap in Hc |- *. lia.
Qed.

(** C8: [update_bot] with fields that are columns of the table (not [id]),
    when a row has the id: for every [HashMap] iteration order, the numbered
    parameters [?j+2] give each column its own value, the row keeps its place
    and its other columns, and one row is reported changed. *)
Theorem update_bot_spec t idv opt i r :
  AtbDb.delete_limit (bcaps t) = true ->
  opt <> ∅ -> map_Forall (fun k _ => known_column k = true) opt -> opt !! "id" = None ->
  table_wf (bots t) ->
  find_id (apply_affinity AInteger idv) (bots t) = Some (i, r) ->
  update_bot idv opt t = (Ret 1%nat, with_bots t (<[i := stored opt ∪ r]> (bots t))).
Proof.
  intros Hlim Hne Hknown Hid Hwf Hf.
  destruct (update_guards opt idv Hne Hknown) as (H1 & H2 & H3).
  pose proof Hf as Hi. apply list_find_Some in Hi as [Hi _].
  destruct (proj1 (Forall_forall _ _) (proj1 Hwf) r (list_elem_of_lookup_2 _ _ _ Hi))
    as [z Hz].
  assert (Hr' : (stored opt ∪ r) !! "id" = Some (SqlInt z)).
  { rewrite lookup_union_r ?stored_lookup ?Hid //. by apply row_id_lookup. }
  assert (Hz' : row_id (stored opt ∪ r) = Some z) by (by rewrite /row_id Hr').
  rewrite /update_bot /execute_update /bind /get. cbn [upd_set].
  rewrite Hlim H1 H2 H3. cbn beta iota zeta. rewrite bound_id Hf update_bind Hr'.
  rewrite (id_free_after_delete _ _ _ _ Hwf Hi Hz) (place_delete _ _ _ _ _ Hwf Hi Hz Hz').
  reflexivity.
Qed.

(** every table the statements reach from a table whose rows have
    integer ids strictly increasing in rowid order still has them: ids stay
    unique whatever inserts, updates and deletes run. *)
Theorem bot_table_invariant t t' :
  rtc bot_step t t' -> table_wf (bots t) -> table_wf (bots t').
Proof.
  induction 1 as [|t1 t2 t3 Hs _ IH]; intros Hwf; [done|]. apply IH.
  destruct Hs; [apply execute_insert_wf|apply execute_update_wf|apply delete_bot_wf]; done.
Qed.

(** C22: after [insert_bot] succeeds, [get_bot] with any text that parses to
    the new rowid reads back exactly the inserted row. *)
Theorem insert_get_bot t opt idv :
  opt <> ∅ -> map_Forall (fun k _ => known_column k = true) opt -> opt !! "id" = None ->
  I64.parse_i64 idv = Ok (next_rowid (bots t)) ->
  get_bot idv (snd (insert_bot opt t))
  = row_to_bot (<["id" := SqlInt (next_rowid (bots t))]> (stored opt ∪ default_row t))
               (snd (insert_bot opt t)).
Proof.
  intros Hne Hknown Hid Hp. rewrite (insert_bot_spec t opt Hne Hknown Hid) /=.
  rewrite /get_bot /bind /get /=. rewrite bound_single (parse_int_affinity _ _ Hp).
  rewrite find_id_last //; [apply next_rowid_fresh|]. by rewrite /row_id lookup_insert_eq.
Qed.

(** C27: [delete_bot] (with [DELETE ... LIMIT] support) on a table with
    unique ids removes exactly the row with that id and reports whether there
    was one. *)
Theorem delete_bot_removes t idv z :
  AtbDb.delete_limit (bcaps t) = true -> table_wf (bots t) ->
  I64.parse_i64 idv = Ok z ->
  delete_bot idv t = (Ret (if id_in_use z (bots t) then 1 else 0)%nat,
                      with_bots t (filter (fun r => row_id r <> Some z) (bots t))).
Proof.
  intros Hlim Hwf Hp. rewrite /delete_bot /bind /get Hlim /=.
  rewrite bound_single (parse_int_affinity _ _ Hp).
  destruct (find_id (SqlInt z) (bots t)) as [[i r]|] eqn:Hf.
  - by rewrite (find_id_some_used _ _ _ _ Hf) (find_id_delete _ _ _ _ Hwf Hf).
  - rewrite (find_id_none_free _ _ Hf) (find_id_none_filter _ _ Hf).
    by destruct t.
Qed.

(** [get_bot_for_api] returns a bot only from a row with that id and that
    token, and changes nothing. *)
Theorem get_bot_for_api_token t idv tok b t' :
  get_bot_for_api idv tok t = (Ret b, t') ->
  t' = t /\ exists r, r ∈ bots t /\ r !! "token" = Some (SqlText tok) /\
    id_matches (apply_affinity AInteger idv) r = true /\
    row_to_bot_for_get r t = (Ret b, t).
Proof.
  rewrite /get_bot_for_api /bind /get /throw /=. rewrite bound_id.
  destruct (list_find _ (bots t)) as [[i r]|] eqn:Hf; [|done]. intros Hrun.
  apply list_find_Some in Hf as [Hi [Hm _]]. apply andb_prop in Hm as [Hid Htok].
  pose proof (row_to_bot_for_get_state r t) as Hs. rewrite Hrun /= in Hs. subst t'.
  split; [done|]. exists r. split_and!; [exact (list_elem_of_lookup_2 _ _ _ Hi)| |done|done].
  by apply bool_decide_eq_true in Htok.
Qed.

(** A key that is no column of the table: [prepare] rejects the insert. *)
Theorem insert_bot_unknown_column t opt k v :
  opt !! k = Some v -> known_column k = false ->
  insert_bot opt t = (Throw AtbDb.SqlInputError, t).
Proof.
  intros Hk Hunk.
  assert (Hf : forallb known_column (hash_iter opt).*1 = false).
  { apply not_true_iff_false => /forallb_forall Hall.
    assert (Hin : In k (hash_iter opt).*1)
      by (apply list_elem_of_In, hash_iter_keys; by exists v).
    by rewrite Hall in Hunk. }
  rewrite /insert_bot /execute_insert /bind /get. cbn [ins_cols ins_holes].
  case_bool_decide; [done|]. by rewrite Hf.
Qed.

(** An update with no field builds [UPDATE bot SET  where id = ?1 limit 1],
    a syntax error. *)
Theorem update_bot_no_field t idv :
  update_bot idv ∅ t = (Throw AtbDb.SqlInputError, t).
Proof.
  assert (Hnil : hash_iter (∅ : gmap string string) = []) by (by apply hash_iter_nil).
  rewrite /update_bot /execute_update /bind /get Hnil. cbn [upd_set].
  by destruct (AtbDb.delete_limit (bcaps t)).
Qed.

End Order.

(** *** Reading rows back: the [row.get(i).unwrap()] calls of [get_bot] and
    [get_bot_list] succeed exactly on rows whose every column holds a value
    of its declared type. *)

Lemma row_to_bot_cases {S} r (s : S) :
  (row_typed r = true /\ exists b, row_id r = Some (get_id b) /\ row_to_bot r s = (Ret b, s))
  \/ (row_typed r = false /\ row_to_bot r s = (Abort PanicUnwrapErr, s)).
Proof.
  rewrite /row_typed /row_to_bot /row_id /column /=.
  destruct (r !! "id") as [[]|]; cbn; eauto.
  all: repeat (case_match; cbn); eauto.
  left. split; [done|]. eexists. split; [|reflexivity]. reflexivity.
Qed.

Lemma map_st_row_to_bot {S} rows (s : S) :
  (forallb row_typed rows = true /\ exists bs, omap row_id rows = map get_id bs
     /\ map_st row_to_bot rows s = (Ret bs, s))
  \/ (forallb row_typed rows = false /\ map_st row_to_bot rows s = (Abort PanicUnwrapErr, s)).
Proof.
  induction rows as [|r rows IH]; [left; split; [done|by exists []]|].
  rewrite /= /bind.
  destruct (row_to_bot_cases r s) as [[Hr [b [Hid ->]]]|[Hr ->]]; rewrite Hr /=; [|by right].
  destruct IH as [[Hl [bs [Hids ->]]]|[Hl ->]]; [left|by right].
  split; [done|]. exists (b :: bs). split; [|done].
  cbn. rewrite Hid. f_equal. exact Hids.
Qed.

(** C28: [get_bot_list] (bot-admin [list]) is well typed exactly on tables
    whose rows all hold, in every column, a value of the column's declared
    type: it then lists one [Bot] per row with the rows' ids in order, and
    otherwise panics in an [unwrap] without touching the table. *)
Theorem get_bot_list_typed t :
  (forallb row_typed (bots t) = true ->
     exists bl, get_bot_list t = (Ret bl, t) /\ map get_id (bot bl) = ids (bots t))
  /\ (forallb row_typed (bots t) = false -> get_bot_list t = (Abort PanicUnwrapErr, t)).
Proof.
  rewrite /get_bot_list /bind /get /ids.
  destruct (map_st_row_to_bot (bots t) t) as [[Hl [bs [Hids ->]]]|[Hl ->]];
    rewrite Hl; split; try done.
  intros _. by exists (mk_bot_list bs).
Qed.

(** ** Witnesses *)

Definition witness_defaults : gmap string sql_value :=
  list_to_map [("registered", SqlInt 0); ("token", SqlText "t"); ("long_order", SqlInt 0);
               ("short_order", SqlInt 0); ("operate_type", SqlText "backtest")].

Definition witness_table : bot_table :=
  mk_bot_table (AtbDb.mk_caps true false) witness_defaults [].

Definition witness_opt : gmap string string :=
  <["name" := "b"]> (<["description" := "d"]> (<["enable" := "1"]> ∅)).

Definition witness_row : row :=
  <["id" := SqlInt 1]> (stored witness_opt ∪ default_row witness_table).

Definition witness_table1 : bot_table := with_bots witness_table [witness_row].

Lemma witness_table1_wf : table_wf (bots witness_table1).
Proof.
  split; [repeat constructor; by exists 1|].
  vm_compute. repeat constructor.
Qed.

Lemma bot_table_invariant_witness :
  rtc (bot_step (HO := key_order)) witness_table
      (snd (insert_bot (HO := key_order) witness_opt witness_table)) /\
  table_wf (bots (snd (insert_bot (HO := key_order) witness_opt witness_table))).
Proof.
  split; [apply rtc_once, step_insert|].
  apply (bot_table_invariant (HO := key_order) witness_table);
    [apply rtc_once, step_insert|split; constructor].
Defined.

Lemma witness_opt_known : map_Forall (fun k _ => known_column k = true) witness_opt.
Proof. apply (bool_decide_unpack _). by vm_compute. Qed.

Lemma insert_get_bot_witness :
  get_bot "1" (snd (insert_bot (HO := key_order) witness_opt witness_table))
  = row_to_bot witness_row (snd (insert_bot (HO := key_order) witness_opt witness_table)).
Proof.
  apply (insert_get_bot (HO := key_order) witness_table witness_opt "1").
  - apply insert_non_empty.
  - apply witness_opt_known.
  - reflexivity.
  - vm_compute. reflexivity.
Defined.

Lemma update_bot_spec_witness :
  update_bot (HO := key_order) "1" {["name" := "c"]} witness_table1
  = (Ret 1%nat, with_bots witness_table1
                  (<[0%nat := stored {["name" := "c"]} ∪ witness_row]> (bots witness_table1))).
Proof.
  apply (update_bot_spec (HO := key_order)).
  - reflexivity.
  - apply map_non_empty_singleton.
  - apply (bool_decide_unpack _). by vm_compute.
  - reflexivity.
  - apply witness_table1_wf.
  - vm_compute. reflexivity.
Defined.

Lemma delete_bot_removes_witness :
  delete_bot "1" witness_table1 =
    (Ret 1%nat, with_bots witness_table1
                  (filter (fun r => row_id r <> Some 1) (bots witness_table1))).
Proof.
  apply (delete_bot_removes witness_table1 "1" 1).
  - reflexivity.
  - apply witness_table1_wf.
  - vm_compute. reflexivity.
Defined.

Lemma get_bot_list_typed_witness :
  forallb row_typed (bots witness_table1) = true /\
  exists bl, get_bot_list witness_table1 = (Ret bl, witness_table1)
             /\ map get_id (bot bl) = [1].
Proof.
  assert (H : forallb row_typed (bots witness_table1) = true) by (vm_compute; reflexivity).
  split; [exact H|].
  destruct (proj1 (get_bot_list_typed witness_table1) H) as [bl [E Hm]].
  exists bl. split; [exact E|]. rewrite Hm. vm_compute. reflexivity.
Defined.

(** A bot added with only [--name], on a schema without a default for
    [description], leaves a [NULL] there: listing the bots then panics. *)
Example list_panics_after_partial_add :
  fst (get_bot_list (snd (insert_bot (HO := key_order) {["name" := "b"]} witness_table)))
  = Abort PanicUnwrapErr.
Proof. vm_compute. reflexivity. Qed.

End BotStore.
