(* ===== verification/BotSpec.v ===== *)
(** * The [bot] table as an abstract repository, and its refinement

    [BotStore] models the [bot] table as SQLite keeps it: a list of rows in
    rowid order, filled through statements whose columns and parameters
    come from a [HashMap] in an unspecified order.  The clients of [AtbDB]
    (bot-admin and market-api-rs) rely on less: a finite map from id to row,
    where an insert picks a fresh id (or takes the one given), an update
    rewrites the row of one id, a delete removes it, a read returns it and
    a listing returns the rows in id order.

    This file states that contract as an executable specification on
    [gmap Z row] ([spec_repo]), packs the operations the clients call into a
    record ([BotRepo]) with one instance per model ([table_repo] for the
    table, [spec_repo] for the map), and proves that the table refines the
    map: on a well-formed table each operation, and therefore any sequence
    of requests a process serves, returns what the specification returns
    and leaves a table whose abstraction is the specification's state
    ([serve_all_refines]).  The specification does not mention the
    iteration order, so neither does anything the clients can observe. *)

From stdpp Require Import base gmap strings list sorting.
From Stdlib Require Import ZArith Lia Sorted ssreflect.
From S2P Require Import Prelude RustPrim AtbDb BotStore.
Open Scope Z_scope.
Local Set Warnings "-rewrite-rw".

Module BotSpec.
Import BotStore.

(** ** The abstraction: the rows of a table by their id *)

Definition keyed (rows : list row) : list (Z * row) :=
  omap (fun r => (fun z => (z, r)) <$> row_id r) rows.

Definition abs_rows (rows : list row) : gmap Z row := list_to_map (keyed rows).

(** The rowid SQLite picks, on a list of ids: one more than the largest, 1
    when there is none ([next_rowid] is [next_key] of the table's ids). *)
Definition next_key (l : list Z) : Z :=
  match l with [] => 1 | z :: zs => fold_left Z.max zs z + 1 end.

Definition fresh_key (m : gmap Z row) : Z := next_key (map_to_list m).*1.

(** The abstract table: the table's settings and its rows by id. *)
Record abs_table : Type := mk_abs {
  acaps : AtbDb.sqlite_caps;
  adefaults : gmap string sql_value;
  arows : gmap Z row
}.

Definition with_rows (a : abs_table) (m : gmap Z row) : abs_table :=
  mk_abs (acaps a) (adefaults a) m.

Definition abs_of (t : bot_table) : abs_table :=
  mk_abs (bcaps t) (bdefaults t) (abs_rows (bots t)).

Definition spec_default (a : abs_table) : row :=
  default_row (mk_bot_table (acaps a) (adefaults a) []).

(** The id a bound text selects: [where id = ?1] compares the integer
    column with the text converted by the column's affinity. *)
Definition key_of (idv : string) : option Z :=
  match apply_affinity AInteger idv with SqlInt z => Some z | _ => None end.

Definition known_keys (opt : gmap string string) : bool :=
  bool_decide (map_Forall (fun k _ => known_column k = true) opt).

(** ** The specification: the repository as a map from id to row *)

(** An insert: every key must name a column; the row holds the stored
    values over the column defaults; an integer id must be free, and a
    [NULL] one becomes the next fresh id. *)
Definition spec_insert (opt : gmap string string) : St abs_table AtbDb.sqlite_error nat :=
  (a <- get ;;
   if bool_decide (opt = ∅) then throw AtbDb.SqlInputError
   else if negb (known_keys opt) then throw AtbDb.SqlInputError
   else
     let r := stored opt ∪ spec_default a in
     match r !! "id" with
     | Some (SqlInt z) =>
         if bool_decide (is_Some (arows a !! z)) then throw AtbDb.ConstraintViolation
         else put (with_rows a (<[z := r]> (arows a))) ;; ret 1%nat
     | Some (SqlText _) => throw AtbDb.DatatypeMismatch
     | _ =>
         let z := fresh_key (arows a) in
         put (with_rows a (<[z := <["id" := SqlInt z]> r]> (arows a))) ;; ret 1%nat
     end)%rust.

(** An update of the row of one id: the stored values over the row; the
    row moves to its new id, which no other row may hold. *)
Definition spec_update (idv : string) (opt : gmap string string)
  : St abs_table AtbDb.sqlite_error nat :=
  (a <- get ;;
   if negb (AtbDb.delete_limit (acaps a)) then throw AtbDb.SqlInputError
   else if bool_decide (opt = ∅) then throw AtbDb.SqlInputError
   else if negb (known_keys opt) then throw AtbDb.SqlInputError
   else
     match key_of idv with
     | None => ret 0%nat
     | Some z =>
         match arows a !! z with
         | None => ret 0%nat
         | Some r =>
             let r' := stored opt ∪ r in
             match r' !! "id" with
             | Some (SqlInt z') =>
                 if bool_decide (is_Some (delete z (arows a) !! z'))
                 then throw AtbDb.ConstraintViolation
                 else put (with_rows a (<[z' := r']> (delete z (arows a)))) ;; ret 1%nat
             | _ => throw AtbDb.DatatypeMismatch
             end
         end
     end)%rust.

Definition spec_delete (idv : string) : St abs_table AtbDb.sqlite_error nat :=
  (a <- get ;;
   if negb (AtbDb.delete_limit (acaps a)) then throw AtbDb.SqlInputError
   else
     match key_of idv with
     | Some z =>
         if bool_decide (is_Some (arows a !! z))
         then put (with_rows a (delete z (arows a))) ;; ret 1%nat
         else ret 0%nat
     | None => ret 0%nat
     end)%rust.

Definition spec_get (idv : string) : St abs_table AtbDb.sqlite_error Bot :=
  (a <- get ;;
   match key_of idv with
   | Some z =>
       match arows a !! z with
       | Some r => row_to_bot r
       | None => throw AtbDb.QueryReturnedNoRows
       end
   | None => throw AtbDb.QueryReturnedNoRows
   end)%rust.

Definition spec_get_for_api (idv tok : string)
  : St abs_table AtbDb.sqlite_error BotForGet.BotForGet :=
  (a <- get ;;
   match key_of idv with
   | Some z =>
       match arows a !! z with
       | Some r => if token_matches tok r then row_to_bot_for_get r
                   else throw AtbDb.QueryReturnedNoRows
       | None => throw AtbDb.QueryReturnedNoRows
       end
   | None => throw AtbDb.QueryReturnedNoRows
   end)%rust.

(** The rows of the repository in increasing id order: [SELECT *]
    without [ORDER BY] on a rowid table scans it in rowid order. *)
Definition key_le (p q : Z * row) : Prop := p.1 <= q.1.

#[global] Instance key_le_dec : RelDecision key_le := fun p q => decide (p.1 <= q.1).

Definition rows_in_order (m : gmap Z row) : list row :=
  (merge_sort key_le (map_to_list m)).*2.

Definition spec_get_list : St abs_table AtbDb.sqlite_error BotList :=
  (a <- get ;;
   bs <- map_st row_to_bot (rows_in_order (arows a)) ;;
   ret (mk_bot_list bs))%rust.

(** ** The operations the clients call, as a record *)

Record BotRepo (S : Type) : Type := mk_repo {
  repo_insert : gmap string string -> St S AtbDb.sqlite_error nat;
  repo_update : string -> gmap string string -> St S AtbDb.sqlite_error nat;
  repo_delete : string -> St S AtbDb.sqlite_error nat;
  repo_get : string -> St S AtbDb.sqlite_error Bot;
  repo_get_for_api : string -> string -> St S AtbDb.sqlite_error BotForGet.BotForGet;
  repo_get_list : St S AtbDb.sqlite_error BotList
}.
Arguments repo_insert {S}. Arguments repo_update {S}. Arguments repo_delete {S}.
Arguments repo_get {S}. Arguments repo_get_for_api {S}. Arguments repo_get_list {S}.

(** The bot methods of [impl AtbDB], on the table. *)
Definition table_repo {HO : HashOrder} : BotRepo bot_table :=
  mk_repo _ insert_bot update_bot delete_bot get_bot get_bot_for_api get_bot_list.

Definition spec_repo : BotRepo abs_table :=
  mk_repo _ spec_insert spec_update spec_delete spec_get spec_get_for_api spec_get_list.

(** A request of bot-admin ([add], [update], [delete], [get], [list]) or of
    market-api-rs ([POST /bot], [GET /bot/{id}]), and its answer. *)
Inductive request : Type :=
| ReqInsert (opt : gmap string string)
| ReqUpdate (idv : string) (opt : gmap string string)
| ReqDelete (idv : string)
| ReqGet (idv : string)
| ReqGetForApi (idv tok : string)
| ReqList.

Inductive answer : Type :=
| Count (n : nat)
| Found (b : Bot)
| FoundForGet (b : BotForGet.BotForGet)
| Listed (l : BotList).

Definition exec_request {S} (R : BotRepo S) (q : request) : St S AtbDb.sqlite_error answer :=
  match q with
  | ReqInsert opt => (n <- repo_insert R opt ;; ret (Count n))%rust
  | ReqUpdate idv opt => (n <- repo_update R idv opt ;; ret (Count n))%rust
  | ReqDelete idv => (n <- repo_delete R idv ;; ret (Count n))%rust
  | ReqGet idv => (b <- repo_get R idv ;; ret (Found b))%rust
  | ReqGetForApi idv tok => (b <- repo_get_for_api R idv tok ;; ret (FoundForGet b))%rust
  | ReqList => (l <- repo_get_list R ;; ret (Listed l))%rust
  end.

(** Requests served one after the other on one database, each answered
    on its own: an error or a panic of one does not stop the next. *)
Fixpoint serve_all {S} (R : BotRepo S) (qs : list request) (s : S)
  : list (run AtbDb.sqlite_error answer) * S :=
  match qs with
  | [] => ([], s)
  | q :: qs' =>
      let '(o, s1) := exec_request R q s in
      let '(os, s2) := serve_all R qs' s1 in
      (o :: os, s2)
  end.

(** [impl] refines [spec] through [abs] on the states where [inv] holds:
    each request answers the same and the states stay related. *)
Definition refines {S1 S2} (abs : S1 -> S2) (inv : S1 -> Prop)
    (impl : BotRepo S1) (spec : BotRepo S2) : Prop :=
  forall q s, inv s ->
    exec_request spec q (abs s) = (fst (exec_request impl q s), abs (snd (exec_request impl q s)))
    /\ inv (snd (exec_request impl q s)).

(** Rowid order: both rows have an integer id and the first is smaller. *)
Definition id_lt (r1 r2 : row) : Prop :=
  exists z1 z2, row_id r1 = Some z1 /\ row_id r2 = Some z2 /\ z1 < z2.

(** ** Theory of the abstraction *)

Lemma keyed_fst rows : (keyed rows).*1 = ids rows.
Proof.
  induction rows as [|r rows IH]; [done|].
  rewrite /keyed /ids /=. destruct (row_id r); cbn; [f_equal|]; exact IH.
Qed.

Lemma keyed_elem rows z r : (z, r) ∈ keyed rows <-> r ∈ rows /\ row_id r = Some z.
Proof.
  rewrite /keyed list_elem_of_omap. split.
  - intros [x [Hx Hf]]. destruct (row_id x) eqn:E; simplify_eq/=. done.
  - intros [Hin Hr]. exists r. by rewrite Hr.
Qed.

Lemma wf_nodup rows : table_wf rows -> NoDup (ids rows).
Proof. intros [_ Hs]. by apply sorted_nodup. Qed.

Lemma abs_lookup rows z r :
  NoDup (ids rows) -> abs_rows rows !! z = Some r <-> r ∈ rows /\ row_id r = Some z.
Proof. intros Hnd. rewrite /abs_rows -elem_of_list_to_map ?keyed_fst //. apply keyed_elem. Qed.

Lemma abs_is_some rows z :
  NoDup (ids rows) -> is_Some (abs_rows rows !! z) <-> z ∈ ids rows.
Proof.
  intros Hnd. rewrite /ids list_elem_of_omap. split.
  - intros [r Hr]. apply abs_lookup in Hr as [Hin Hid]; eauto.
  - intros [r [Hin Hid]]. exists r. by apply abs_lookup.
Qed.

Lemma id_in_use_abs rows z :
  NoDup (ids rows) -> id_in_use z rows = bool_decide (is_Some (abs_rows rows !! z)).
Proof.
  intros Hnd. rewrite (bool_decide_ext _ _ (abs_is_some rows z Hnd)).
  destruct (id_in_use z rows) eqn:E; symmetry;
    [apply bool_decide_eq_true | apply bool_decide_eq_false];
    rewrite -id_in_use_spec; [done | by rewrite E].
Qed.

Lemma abs_perm rows rows' :
  NoDup (ids rows) -> rows ≡ₚ rows' -> abs_rows rows = abs_rows rows'.
Proof.
  intros Hnd Hp. apply list_to_map_proper; [by rewrite keyed_fst|].
  rewrite /keyed. by rewrite Hp.
Qed.

Lemma abs_cons r z rows :
  row_id r = Some z -> abs_rows (r :: rows) = <[z:=r]> (abs_rows rows).
Proof. intros H. rewrite /abs_rows /keyed /= H. reflexivity. Qed.

Lemma abs_place z r rows :
  table_wf rows -> row_id r = Some z -> id_in_use z rows = false ->
  abs_rows (place z r rows) = <[z:=r]> (abs_rows rows).
Proof.
  intros Hwf Hr Hu. rewrite (abs_perm _ (r :: rows)); [|apply place_perm|].
  - by apply wf_nodup, place_wf.
  - by apply abs_cons.
Qed.

Lemma abs_delete rows i r z :
  table_wf rows -> rows !! i = Some r -> row_id r = Some z ->
  abs_rows (delete i rows) = delete z (abs_rows rows).
Proof.
  intros Hwf Hi Hr.
  rewrite (abs_perm rows (r :: delete i rows)); [by apply wf_nodup|by apply delete_Permutation|].
  rewrite (abs_cons r z) // delete_insert_eq delete_id //.
  apply eq_None_not_Some. rewrite abs_is_some; [by apply wf_nodup, delete_wf|].
  rewrite -id_in_use_spec (id_free_after_delete _ _ _ _ Hwf Hi Hr). done.
Qed.

(** The id [next_rowid] picks depends only on the set of ids in use. *)
Lemma fold_max_spec zs acc :
  fold_left Z.max zs acc ∈ acc :: zs /\ Forall (fun x => x <= fold_left Z.max zs acc) (acc :: zs).
Proof.
  revert acc. induction zs as [|z zs IH]; intros acc; simpl.
  - split; [left|repeat constructor; lia].
  - destruct (IH (Z.max acc z)) as [Hin Hle]. split.
    + apply elem_of_cons in Hin as [->|Hin]; [|by right; right].
      destruct (Z.max_spec acc z) as [[_ ->]|[_ ->]]; [by right; left|by left].
    + apply Forall_cons in Hle as [Hm Hle]. repeat constructor; try lia. done.
Qed.

Lemma next_key_perm l l' : l ≡ₚ l' -> next_key l = next_key l'.
Proof.
  intros Hp. destruct l as [|z zs], l' as [|z' zs'];
    try (apply Permutation_length in Hp; discriminate); [done|].
  destruct (fold_max_spec zs z) as [Hin Hle], (fold_max_spec zs' z') as [Hin' Hle'].
  rewrite ->Forall_forall in Hle, Hle'.
  assert (fold_left Z.max zs z <= fold_left Z.max zs' z') by (apply Hle'; by rewrite -Hp).
  assert (fold_left Z.max zs' z' <= fold_left Z.max zs z) by (apply Hle; by rewrite Hp).
  simpl. lia.
Qed.

Lemma next_rowid_fresh_key rows :
  NoDup (ids rows) -> next_rowid rows = fresh_key (abs_rows rows).
Proof.
  intros Hnd. transitivity (next_key (ids rows)); [reflexivity|].
  apply next_key_perm. rewrite /abs_rows map_to_list_to_map ?keyed_fst //.
Qed.

(** [list_find] of a predicate that selects one id finds that id's row. *)
Lemma find_abs rows z (P : row -> bool) :
  table_wf rows -> (forall r, P r = true -> row_id r = Some z) ->
  match list_find (fun r => P r = true) rows with
  | Some (i, r) => rows !! i = Some r /\ abs_rows rows !! z = Some r /\ P r = true
  | None => forall r, abs_rows rows !! z = Some r -> P r = false
  end.
Proof.
  intros Hwf HP. destruct (list_find _ rows) as [[i r]|] eqn:E.
  - apply list_find_Some in E as [Hi [Hr _]]. split_and!; [done| |done].
    apply (abs_lookup rows z r (wf_nodup _ Hwf)).
    split; [exact (list_elem_of_lookup_2 _ _ _ Hi)|by apply HP].
  - apply list_find_None in E. intros r Hr.
    apply abs_lookup in Hr as [Hin _]; [|by apply wf_nodup].
    rewrite ->Forall_forall in E. specialize (E r Hin). by destruct (P r).
Qed.

Lemma key_of_int idv z : key_of idv = Some z -> apply_affinity AInteger idv = SqlInt z.
Proof. rewrite /key_of. destruct (apply_affinity AInteger idv); congruence. Qed.

Lemma key_of_none idv : key_of idv = None -> apply_affinity AInteger idv = SqlText idv.
Proof. rewrite /key_of /apply_affinity. by destruct (sqlite_integer idv). Qed.

(** [where id = ?1] on a well-formed table: the row of the id the text
    converts to, and no row at all for a text that is not an integer. *)
Lemma find_id_key rows idv :
  table_wf rows ->
  match find_id (apply_affinity AInteger idv) rows with
  | Some (i, r) => exists z, key_of idv = Some z /\ rows !! i = Some r /\ abs_rows rows !! z = Some r
  | None => forall z, key_of idv = Some z -> abs_rows rows !! z = None
  end.
Proof.
  intros Hwf. rewrite /find_id. destruct (key_of idv) as [z|] eqn:Hk.
  - rewrite (key_of_int _ _ Hk).
    have := find_abs rows z (id_matches (SqlInt z)) Hwf (fun r => proj1 (id_matches_int z r)).
    destruct (list_find _ rows) as [[i r]|]; [intros (?&?&_); eauto|].
    intros Hn z' [= <-]. apply eq_None_not_Some => -[r Hr]. move: (Hn r Hr).
    apply abs_lookup in Hr as [_ Hid]; [|by apply wf_nodup].
    by rewrite (proj2 (id_matches_int z r) Hid).
  - rewrite (key_of_none _ Hk) (proj2 (list_find_None _ _)); last by intros.
    destruct Hwf as [Hid _]. eapply Forall_impl; [exact Hid|]. intros r [z Hz].
    rewrite /id_matches (row_id_lookup _ _ Hz). case_bool_decide; congruence.
Qed.

(** Reads leave the state alone and do not depend on it. *)
Lemma row_to_bot_pure {S1 S2} r (s1 : S1) (s2 : S2) :
  row_to_bot r s1 = (fst (row_to_bot r s2), s1).
Proof.
  rewrite /row_to_bot.
  repeat match goal with |- context [unwrap_result ?x] => destruct x; cbn; try done end.
Qed.

Lemma row_to_bot_for_get_pure {S1 S2} r (s1 : S1) (s2 : S2) :
  row_to_bot_for_get r s1 = (fst (row_to_bot_for_get r s2), s1).
Proof.
  rewrite /row_to_bot_for_get.
  repeat match goal with |- context [unwrap_result ?x] => destruct x; cbn; try done end.
Qed.

Lemma map_st_state {S} rows (s : S) :
  map_st row_to_bot rows s = (fst (map_st row_to_bot rows s), s).
Proof.
  induction rows as [|r rows IH]; [done|].
  rewrite /= /bind (row_to_bot_pure r s s). destruct (fst (row_to_bot r s)); [|done|done].
  rewrite IH. by destruct (fst (map_st row_to_bot rows s)).
Qed.

Lemma map_st_pure {S1 S2} rows (s1 : S1) (s2 : S2) :
  map_st row_to_bot rows s1 = (fst (map_st row_to_bot rows s2), s1).
Proof.
  revert s1 s2. induction rows as [|r rows IH]; intros s1 s2; [done|].
  rewrite /= /bind (row_to_bot_pure r s1 s2) (row_to_bot_pure r s2 s2).
  destruct (fst (row_to_bot r s2)); [|done|done].
  rewrite (IH s1 s2) (map_st_state rows s2). by destruct (fst (map_st row_to_bot rows s2)).
Qed.

Lemma id_matches_text rows s :
  table_wf rows -> Forall (fun r => id_matches (SqlText s) r = false) rows.
Proof.
  intros [Hid _]. eapply Forall_impl; [exact Hid|]. intros r [z Hz].
  rewrite /id_matches (row_id_lookup _ _ Hz). case_bool_decide; congruence.
Qed.

Lemma get_bot_for_api_state idv tok t : snd (get_bot_for_api idv tok t) = t.
Proof.
  rewrite /get_bot_for_api /bind /get.
  destruct (list_find _ (bots t)) as [[? r]|]; [apply row_to_bot_for_get_state|done].
Qed.

(** A request answered through [bind]/[ret] keeps the simulation. *)
Lemma bind_ret_sim {S1 S2 E A B} (f : A -> B) (c1 : St S1 E A) (c2 : St S2 E A)
    (abs : S1 -> S2) s :
  c2 (abs s) = (fst (c1 s), abs (snd (c1 s))) ->
  bind c2 (fun a => ret (f a)) (abs s)
  = (fst (bind c1 (fun a => ret (f a)) s), abs (snd (bind c1 (fun a => ret (f a)) s))).
Proof. intros H. rewrite /bind H. by destruct (c1 s) as [[] ?]. Qed.

Lemma bind_ret_state {S E A B} (f : A -> B) (c : St S E A) s :
  snd (bind c (fun a => ret (f a)) s) = snd (c s).
Proof. rewrite /bind. by destruct (c s) as [[] ?]. Qed.

(** A well-formed table is determined by its abstraction: its rows are
    the map's rows in id order. *)
Lemma wf_sorted rows : table_wf rows -> StronglySorted id_lt rows.
Proof.
  induction rows as [|r rows IH]; intros Hwf; [constructor|].
  apply table_wf_cons in Hwf as [[z [Hz Hlt]] Hwf']. constructor; [by apply IH|].
  destruct Hwf' as [Hid _]. apply Forall_forall => r' Hr'.
  destruct (proj1 (Forall_forall _ _) Hid r' Hr') as [z' Hz']. exists z, z'.
  split_and!; [done|done|]. apply (proj1 (Forall_forall _ _) Hlt), list_elem_of_omap. eauto.
Qed.

Lemma wf_rows_nodup rows : table_wf rows -> NoDup rows.
Proof.
  intros Hwf. induction (wf_sorted rows Hwf) as [|r rows _ IH Hlt]; constructor.
  - intros Hin. rewrite ->Forall_forall in Hlt. destruct (Hlt r Hin) as (?&?&?&?&?). simplify_eq. lia.
  - by apply IH, (table_wf_cons r rows).
Qed.

Lemma elem_of_abs rows r :
  table_wf rows -> r ∈ rows <-> exists z, abs_rows rows !! z = Some r.
Proof.
  intros Hwf. split.
  - intros Hin. destruct Hwf as [Hid Hs]. rewrite ->Forall_forall in Hid.
    destruct (Hid r Hin) as [z Hz]. exists z. apply abs_lookup; [by apply sorted_nodup|done].
  - intros [z Hz]. by apply abs_lookup in Hz as [? _]; [|apply wf_nodup].
Qed.

Lemma abs_rows_inj l1 l2 :
  table_wf l1 -> table_wf l2 -> abs_rows l1 = abs_rows l2 -> l1 = l2.
Proof.
  intros H1 H2 Habs. apply (StronglySorted_unique_strong id_lt); [|by apply wf_sorted..|].
  - intros x1 x2 _ _ (?&?&?&?&?) (?&?&?&?&?). simplify_eq. lia.
  - apply NoDup_Permutation; [by apply wf_rows_nodup..|]. intros r.
    by rewrite (elem_of_abs l1) // (elem_of_abs l2) // Habs.
Qed.

Lemma abs_of_inj t1 t2 :
  table_wf (bots t1) -> table_wf (bots t2) -> abs_of t1 = abs_of t2 -> t1 = t2.
Proof.
  destruct t1, t2. rewrite /abs_of /=. intros H1 H2 [= -> -> Habs].
  by rewrite (abs_rows_inj _ _ H1 H2 Habs).
Qed.

(** The map's rows in key order are the table's rows. *)
Lemma sorted_keys_strict (l : list (Z * row)) :
  StronglySorted key_le l -> NoDup l.*1 -> Forall (fun p => row_id p.2 = Some p.1) l ->
  StronglySorted id_lt l.*2.
Proof.
  induction 1 as [|p l _ IH Hle]; intros Hnd Hid; [constructor|].
  apply NoDup_cons in Hnd as [Hp Hnd]. apply Forall_cons in Hid as [Hpid Hid].
  constructor; [by apply IH|]. apply Forall_fmap, Forall_forall => q Hq.
  rewrite ->Forall_forall in Hle, Hid. exists p.1, q.1. split_and!; [done|by apply Hid|].
  have := Hle q Hq. rewrite /key_le. have : p.1 <> q.1; [|lia].
  intros Heq. apply Hp. rewrite Heq. by apply list_elem_of_fmap_2.
Qed.

Lemma sorted_id_nodup l : StronglySorted id_lt l -> NoDup l.
Proof.
  induction 1 as [|r l _ IH Hlt]; constructor; [|done].
  intros Hin. rewrite ->Forall_forall in Hlt. destruct (Hlt r Hin) as (?&?&?&?&?). simplify_eq. lia.
Qed.

Lemma rows_in_order_sorted rows :
  table_wf rows -> StronglySorted id_lt (rows_in_order (abs_rows rows)).
Proof.
  intros Hwf. have Hp := merge_sort_Permutation key_le (map_to_list (abs_rows rows)).
  apply sorted_keys_strict.
  - apply StronglySorted_merge_sort; [intros ???; rewrite /key_le; lia|intros ??; rewrite /key_le; lia].
  - rewrite Hp. apply NoDup_fst_map_to_list.
  - apply Forall_forall => -[k r] /= Hin. rewrite ->Hp in Hin.
    apply elem_of_map_to_list, (abs_lookup _ _ _ (wf_nodup _ Hwf)) in Hin as [_ ?]. done.
Qed.

Lemma rows_in_order_abs rows : table_wf rows -> rows_in_order (abs_rows rows) = rows.
Proof.
  intros Hwf. have Hs := rows_in_order_sorted rows Hwf.
  apply (StronglySorted_unique_strong id_lt); [|done|by apply wf_sorted|].
  - intros x1 x2 _ _ (?&?&?&?&?) (?&?&?&?&?). simplify_eq. lia.
  - apply NoDup_Permutation; [by apply sorted_id_nodup|by apply wf_rows_nodup|]. intros r.
    have Hp := merge_sort_Permutation key_le (map_to_list (abs_rows rows)).
    rewrite (elem_of_abs rows) // /rows_in_order list_elem_of_fmap. split.
    + intros [[k r'] [-> Hin]]. exists k. apply elem_of_map_to_list. rewrite ->Hp in Hin. done.
    + intros [k Hk]. exists (k, r). split; [done|]. rewrite Hp.
      by apply elem_of_map_to_list.
Qed.

Section Refinement.
Context {HO : HashOrder}.

Lemma cols_empty opt : bool_decide ((hash_iter opt).*1 = []) = bool_decide (opt = ∅).
Proof. apply bool_decide_ext. rewrite -hash_iter_nil. split; [apply fmap_nil_inv|by intros ->]. Qed.

Lemma cols_known opt : forallb known_column (hash_iter opt).*1 = known_keys opt.
Proof.
  rewrite /known_keys. case_bool_decide as Hk.
  - apply forallb_forall => k /list_elem_of_In /hash_iter_keys [v Hv]. exact (Hk k v Hv).
  - apply not_true_iff_false => /forallb_forall Hall. apply Hk => k v Hv.
    apply Hall, list_elem_of_In, hash_iter_keys. by exists v.
Qed.

Lemma cols_count opt :
  (param_count (seq 1 (length (hash_iter opt).*1)) =? length (hash_iter opt).*2)%nat = true.
Proof.
  apply Nat.eqb_eq. pose proof (param_count_seq 0 (length (hash_iter opt).*1)) as Hc.
  rewrite !length_fmap in Hc |- *. lia.
Qed.

Lemma set_empty opt :
  bool_decide (imap (fun j k => (k, j + 2)%nat) (hash_iter opt).*1 = []) = bool_decide (opt = ∅).
Proof.
  rewrite -cols_empty. apply bool_decide_ext. by rewrite -!length_zero_iff_nil length_imap.
Qed.

Lemma set_known opt :
  forallb known_column (imap (fun j k => (k, j + 2)%nat) (hash_iter opt).*1).*1 = known_keys opt.
Proof. rewrite imap_offset_fst. apply cols_known. Qed.

Lemma set_count opt idv :
  (param_count (1 :: (imap (fun j k => (k, j + 2)%nat) (hash_iter opt).*1).*2)
     =? length (idv :: (hash_iter opt).*2))%nat = true.
Proof.
  apply Nat.eqb_eq. rewrite imap_offset_snd.
  pose proof (param_count_seq 1 (length (hash_iter opt).*1)) as Hc.
  rewrite !length_fmap in Hc. rewrite /= !length_fmap. exact Hc.
Qed.

Lemma insert_refines t opt :
  table_wf (bots t) ->
  spec_insert opt (abs_of t) = (fst (insert_bot opt t), abs_of (snd (insert_bot opt t))).
Proof.
  intros Hwf. have Hnd := wf_nodup _ Hwf.
  rewrite /insert_bot /execute_insert /spec_insert /bind /get. cbn [ins_cols ins_holes].
  rewrite cols_empty cols_known cols_count insert_bind.
  destruct (bool_decide (opt = ∅)); [done|]. destruct (known_keys opt); [|done].
  change (spec_default (abs_of t)) with (default_row t). cbn -[apply_affinity abs_rows default_row stored].
  destruct ((stored opt ∪ default_row t) !! "id") as [[|z|s]|] eqn:Hid; try done;
    [| |rewrite /abs_of /= -(next_rowid_fresh_key _ Hnd) abs_place //;
        [by rewrite /row_id lookup_insert_eq|apply next_rowid_fresh]].
  - rewrite /abs_of /= -(next_rowid_fresh_key _ Hnd) abs_place //;
      [by rewrite /row_id lookup_insert_eq|apply next_rowid_fresh].
  - rewrite (id_in_use_abs _ _ Hnd). case_bool_decide as Hu; [done|].
    rewrite /abs_of /= abs_place //; [by rewrite /row_id Hid|].
    rewrite id_in_use_abs //. by apply bool_decide_eq_false_2.
Qed.

Lemma update_refines t idv opt :
  table_wf (bots t) ->
  spec_update idv opt (abs_of t)
  = (fst (update_bot idv opt t), abs_of (snd (update_bot idv opt t))).
Proof.
  intros Hwf. rewrite /update_bot /execute_update /spec_update /bind /get. cbn [upd_set acaps abs_of].
  destruct (AtbDb.delete_limit (bcaps t)); [|done]. cbn -[apply_affinity abs_rows stored imap bound_value find_id set_columns assignments].
  rewrite bound_id set_empty set_known (set_count opt idv).
  destruct (bool_decide (opt = ∅)); [done|]. destruct (known_keys opt); [|done].
  cbn -[apply_affinity abs_rows stored imap bound_value find_id set_columns assignments]. have := find_id_key (bots t) idv Hwf.
  destruct (find_id (apply_affinity AInteger idv) (bots t)) as [[i r]|].
  - intros (z & Hk & Hi & Hz). rewrite Hk Hz update_bind.
    have Hrz : row_id r = Some z by apply (abs_lookup _ _ _ (wf_nodup _ Hwf)) in Hz as [_ ?].
    have Hwf' := delete_wf i _ Hwf.
    destruct ((stored opt ∪ r) !! "id") as [[|z'|s]|] eqn:Hid; try done.
    rewrite (id_in_use_abs _ _ (wf_nodup _ Hwf')) (abs_delete _ _ _ _ Hwf Hi Hrz).
    case_bool_decide as Hu; [done|].
    have Hfree : id_in_use z' (delete i (bots t)) = false.
    { rewrite id_in_use_abs; [by apply wf_nodup|]. rewrite (abs_delete _ _ _ _ Hwf Hi Hrz).
      by apply bool_decide_eq_false_2. }
    have Hr' : row_id (stored opt ∪ r) = Some z' by rewrite /row_id Hid.
    cbn -[apply_affinity abs_rows stored find_id]. rewrite /abs_of /with_rows /=.
    by rewrite (abs_place _ _ _ Hwf' Hr' Hfree) (abs_delete _ _ _ _ Hwf Hi Hrz).
  - intros Hn. destruct (key_of idv) as [z|]; [by rewrite (Hn z eq_refl)|done].
Qed.

Lemma delete_refines t idv :
  table_wf (bots t) ->
  spec_delete idv (abs_of t) = (fst (delete_bot idv t), abs_of (snd (delete_bot idv t))).
Proof.
  intros Hwf. rewrite /delete_bot /spec_delete /bind /get. cbn [acaps abs_of].
  destruct (AtbDb.delete_limit (bcaps t)); [|done]. cbn -[apply_affinity abs_rows bound_value find_id list_find].
  rewrite bound_single. have := find_id_key (bots t) idv Hwf.
  destruct (find_id (apply_affinity AInteger idv) (bots t)) as [[i r]|].
  - intros (z & Hk & Hi & Hz). rewrite Hk Hz bool_decide_eq_true_2 //.
    have Hrz : row_id r = Some z by apply (abs_lookup _ _ _ (wf_nodup _ Hwf)) in Hz as [_ ?].
    by rewrite /abs_of /= (abs_delete _ _ _ _ Hwf Hi Hrz).
  - intros Hn. destruct (key_of idv) as [z|]; [|done].
    by rewrite (Hn z eq_refl) bool_decide_eq_false_2.
Qed.

Lemma get_refines t idv :
  table_wf (bots t) ->
  spec_get idv (abs_of t) = (fst (get_bot idv t), abs_of (snd (get_bot idv t))).
Proof.
  intros Hwf. rewrite /get_bot /spec_get /bind /get bound_single. cbn -[apply_affinity abs_rows bound_value find_id list_find].
  have := find_id_key (bots t) idv Hwf.
  destruct (find_id (apply_affinity AInteger idv) (bots t)) as [[i r]|].
  - intros (z & Hk & _ & Hz). rewrite Hk Hz (row_to_bot_pure r (abs_of t) t).
    by rewrite (row_to_bot_pure r t t).
  - intros Hn. destruct (key_of idv) as [z|]; [by rewrite (Hn z eq_refl)|done].
Qed.

Lemma get_for_api_refines t idv tok :
  table_wf (bots t) ->
  spec_get_for_api idv tok (abs_of t)
  = (fst (get_bot_for_api idv tok t), abs_of (snd (get_bot_for_api idv tok t))).
Proof.
  intros Hwf. rewrite /get_bot_for_api /spec_get_for_api /bind /get bound_id. cbn -[apply_affinity abs_rows bound_value find_id list_find].
  destruct (key_of idv) as [z|] eqn:Hk.
  - rewrite (key_of_int _ _ Hk).
    have HPz : forall r, id_matches (SqlInt z) r && token_matches tok r = true -> row_id r = Some z
      by move=> r /andb_true_iff [/id_matches_int ? _].
    have H := find_abs (bots t) z (fun r => id_matches (SqlInt z) r && token_matches tok r) Hwf HPz.
    cbv beta in H. destruct (list_find _ (bots t)) as [[i r]|].
    + destruct H as (_ & Hz & HP).
      apply andb_true_iff in HP as [_ Htok]. rewrite Hz Htok.
      rewrite (row_to_bot_for_get_pure r (abs_of t) t). by rewrite (row_to_bot_for_get_pure r t t).
    + destruct (abs_rows (bots t) !! z) as [r|] eqn:Hz; [|done].
      have Hrz : row_id r = Some z by apply (abs_lookup _ _ _ (wf_nodup _ Hwf)) in Hz as [_ ?].
      have := H r eq_refl.
      by rewrite (proj2 (id_matches_int z r) Hrz) /= => ->.
  - rewrite (key_of_none _ Hk) (proj2 (list_find_None _ _)); [|done].
    eapply Forall_impl; [exact (id_matches_text _ idv Hwf)|]. intros r ->. done.
Qed.

Lemma get_list_refines t :
  table_wf (bots t) ->
  spec_get_list (abs_of t) = (fst (get_bot_list t), abs_of (snd (get_bot_list t))).
Proof.
  intros Hwf. rewrite /get_bot_list /spec_get_list /bind /get. cbn [arows abs_of].
  rewrite rows_in_order_abs // (map_st_pure (bots t) (abs_of t) t) (map_st_state (bots t) t).
  by destruct (fst (map_st row_to_bot (bots t) t)).
Qed.

Lemma table_refines : refines abs_of (fun t => table_wf (bots t)) table_repo spec_repo.
Proof.
  intros q t Hwf. destruct q; cbn [exec_request table_repo spec_repo repo_insert repo_update
    repo_delete repo_get repo_get_for_api repo_get_list]; (split; [apply bind_ret_sim|rewrite bind_ret_state]).
  - by apply insert_refines.
  - by apply execute_insert_wf.
  - by apply update_refines.
  - by apply execute_update_wf.
  - by apply delete_refines.
  - by apply delete_bot_wf.
  - by apply get_refines.
  - by rewrite get_bot_state.
  - by apply get_for_api_refines.
  - by rewrite get_bot_for_api_state.
  - by apply get_list_refines.
  - rewrite /get_bot_list /bind /get (map_st_state (bots t) t).
    by destruct (fst (map_st row_to_bot (bots t) t)).
Qed.

End Refinement.

(** ** Simulation: a refinement of each request lifts to every sequence *)

Section Simulation.
Context {S1 S2 : Type} (abs : S1 -> S2) (inv : S1 -> Prop).
Context (impl : BotRepo S1) (spec : BotRepo S2).
Hypothesis Href : refines abs inv impl spec.

Lemma serve_all_sim qs s :
  inv s ->
  serve_all spec qs (abs s) = (fst (serve_all impl qs s), abs (snd (serve_all impl qs s)))
  /\ inv (snd (serve_all impl qs s)).
Proof.
  revert s. induction qs as [|q qs IH]; intros s Hs; [done|]. simpl.
  destruct (Href q s Hs) as [H1 H2]. rewrite H1.
  destruct (exec_request impl q s) as [o s1]. simpl in *.
  destruct (IH s1 H2) as [-> Hinv]. by destruct (serve_all impl qs s1).
Qed.

End Simulation.

(** ** Reasoning through the specification *)

Lemma key_of_parse idv z : I64.parse_i64 idv = Ok z -> key_of idv = Some z.
Proof. intros Hp. by rewrite /key_of (parse_int_affinity _ _ Hp). Qed.

(** After [delete_bot] of an id on a table that allows [DELETE ... LIMIT],
    [get_bot] of that id finds nothing: on the repository the id is no
    longer a key, whichever row held it. *)
Lemma delete_then_get t idv z :
  table_wf (bots t) -> AtbDb.delete_limit (bcaps t) = true -> key_of idv = Some z ->
  (exists n, fst (delete_bot idv t) = Ret n) /\
  get_bot idv (snd (delete_bot idv t)) = (Throw AtbDb.QueryReturnedNoRows, snd (delete_bot idv t)).
Proof.
  intros Hwf Hl Hk. have H1 := delete_refines t idv Hwf.
  have H2 := get_refines _ idv (delete_bot_wf idv t Hwf).
  rewrite /spec_delete /bind /get /= Hl Hk in H1. rewrite /spec_get /bind /get /= Hk in H2.
  have Hs := get_bot_state idv (snd (delete_bot idv t)).
  have Hnone : arows (abs_of (snd (delete_bot idv t))) !! z = None.
  { case_bool_decide as Hz; apply pair_equal_spec in H1 as [_ <-];
      [by rewrite /= lookup_delete_eq|by apply eq_None_not_Some]. }
  split; [case_bool_decide; apply pair_equal_spec in H1 as [<- _]; eauto|].
  rewrite Hnone in H2. destruct (get_bot idv _) as [r t']. simpl in *.
  rewrite /throw in H2. congruence.
Qed.

(** ** The bot table refines the abstract repository *)

(** C10: on a well-formed [bot] table, any sequence of requests served
    through the [AtbDB] bot methods (insert, update, delete, get, get for
    the API, list) gives exactly the answers, errors and panics of the abstract
    repository on [gmap Z row], and leaves a well-formed table whose rows by
    id are the repository's state: the rowid-ordered list, the numbered
    placeholders and the [HashMap] order are invisible to the clients. *)
Theorem serve_all_refines {HO : HashOrder} qs t :
  table_wf (bots t) ->
  serve_all spec_repo qs (abs_of t)
  = (fst (serve_all table_repo qs t), abs_of (snd (serve_all table_repo qs t)))
  /\ table_wf (bots (snd (serve_all table_repo qs t))).
Proof. exact (serve_all_sim abs_of (fun t => table_wf (bots t)) _ _ table_refines qs t). Qed.

(** C11: the iteration order of the option [HashMap] does not matter: two
    processes that serve the same requests on the same well-formed table,
    whatever order each one's [keys()]/[values()] enumerate, give the same
    answers and leave the very same table. *)
Theorem hash_order_irrelevant (HO1 HO2 : HashOrder) qs t :
  table_wf (bots t) ->
  serve_all (@table_repo HO1) qs t = serve_all (@table_repo HO2) qs t.
Proof.
  intros Hwf.
  destruct (serve_all_sim _ _ _ _ (@table_refines HO1) qs t Hwf) as [E1 W1].
  destruct (serve_all_sim _ _ _ _ (@table_refines HO2) qs t Hwf) as [E2 W2].
  rewrite E2 in E1. destruct (serve_all (@table_repo HO1) qs t) as [o1 t1].
  destruct (serve_all (@table_repo HO2) qs t) as [o2 t2]. simpl in *.
  apply pair_equal_spec in E1 as [Ho Ht]. f_equal; [congruence|].
  apply abs_of_inj; [done|done|congruence].
Qed.

(** ** Witnesses *)

Definition witness_requests : list request :=
  [ReqInsert witness_opt; ReqGet "1"; ReqUpdate "1" {["name" := "c"]};
   ReqGetForApi "1" "t"; ReqList; ReqDelete "1"; ReqGet "1"; ReqList].

Lemma witness_table_wf : table_wf (bots witness_table).
Proof. split; constructor. Qed.

Lemma serve_all_refines_witness :
  table_wf (bots witness_table) /\
  serve_all spec_repo witness_requests (abs_of witness_table)
  = (fst (serve_all (@table_repo key_order) witness_requests witness_table),
     abs_of (snd (serve_all (@table_repo key_order) witness_requests witness_table))).
Proof.
  split; [exact witness_table_wf|].
  apply (proj1 (serve_all_refines (HO := key_order) witness_requests witness_table
                 witness_table_wf)).
Defined.

(** The reverse order of [map_to_list] is another order [HashOrder] allows. *)
Definition reverse_order : HashOrder :=
  {| hash_iter m := reverse (map_to_list m);
     hash_iter_perm m := reverse_Permutation (map_to_list m) |}.

Lemma hash_order_irrelevant_witness :
  table_wf (bots witness_table) /\
  serve_all (@table_repo key_order) witness_requests witness_table
  = serve_all (@table_repo reverse_order) witness_requests witness_table.
Proof.
  split; [exact witness_table_wf|].
  apply (hash_order_irrelevant key_order reverse_order witness_requests witness_table
           witness_table_wf).
Defined.

(** The sample session on the abstract repository: the bot is stored
    under id 1 and read back, renamed, read by the API with the token its
    column default holds, listed, deleted, and then neither found nor
    listed. *)
Example spec_session :
  map (fun o => match o with
                | Ret (Count n) => inl n
                | Ret (Found b) => inr (name b)
                | Ret (FoundForGet b) => inr (BotForGet.name b)
                | Ret (Listed l) => inl (get_list_len l)
                | _ => inr "error"%string
                end)
      (fst (serve_all spec_repo witness_requests (abs_of witness_table)))
  = [inl 1%nat; inr "b"%string; inl 1%nat; inr "c"%string; inl 1%nat; inl 1%nat;
     inr "error"%string; inl 0%nat].
Proof. vm_compute. reflexivity. Qed.

End BotSpec.
