(* ===== verification/BotAdmin.v ===== *)
(** * The bot administration command (src/app/src/bot-admin/src/main.rs)

    [bot-admin add|update|remove|get|list] edits the [bot] table through
    [AtbDB].  The result of clap's parsing (modelled in [Cli]), the
    subcommand and the [ArgMatches] of its arguments, is the input ([value_of] a finite map,
    [is_present] a list of flags).  The state is the [bot] table and the
    lines the process prints; [main] returns the exit code of
    [std::process::exit], and a panic exits with 101.  The [HashMap]s of
    options iterate in any [HashOrder]. *)

From stdpp Require Import base gmap strings list.
From Stdlib Require Import ZArith Lia ssreflect.
From S2P Require Import Prelude RustPrim AtbDb BotStore BotSpec.
Open Scope Z_scope.
Local Set Warnings "-rewrite-rw".

Module BotAdmin.
Import BotStore.

(** [enum Command] (main.rs 5-12). *)
Inductive Command : Type := Add | Update | Remove | Get | List | NoCommand.

(** [struct Config] (main.rs 15-18); its field [option] is [opts] here,
    [option] being the type. *)
Record Config : Type := mk_config {
  command : Command;
  opts : gmap string string
}.

(** clap's [ArgMatches] of one subcommand. *)
Record arg_matches : Type := mk_matches {
  values : gmap string string;
  flags : list string
}.

Definition value_of (m : arg_matches) (k : string) : option string := values m !! k.

Definition is_present (m : arg_matches) (k : string) : bool :=
  bool_decide (k ∈ flags m) || bool_decide (is_Some (values m !! k)).

(** [args_matches.subcommand_matches(..)]: at most one subcommand. *)
Inductive subcommand : Type :=
| SubAdd (m : arg_matches)
| SubUpdate (m : arg_matches)
| SubRemove (m : arg_matches)
| SubGet (m : arg_matches)
| SubList (m : arg_matches)
| SubNone.

(** What the process prints. *)
Inductive line : Type :=
| PrintBotJson (b : Bot)         (* serde_json::to_string(&bot) *)
| PrintBotYaml (b : Bot)
| PrintListJson (l : BotList)
| PrintListYaml (l : BotList)
| EPrintSqlite (e : AtbDb.sqlite_error)
| EPrintConnect (msg : string).

Record world : Type := mk_world {
  table : bot_table;
  out : list line
}.

Definition println {E} (l : line) : St world E unit :=
  modify (fun w => mk_world (table w) (out w ++ [l])).

(** A call on the [AtbDB] handle. *)
Definition db {A} (c : St bot_table AtbDb.sqlite_error A) : St world AtbDb.sqlite_error A :=
  fun w => let '(r, t) := c (table w) in (r, mk_world t (out w)).

(** [_get_option] (main.rs 150-180): the required keys ([unwrap] on a
    missing value panics), the optional keys that have a value, then
    ["1"] for each of [--json] and [--yaml] given. *)
Fixpoint insert_must {S E} (m : arg_matches) (keys : list string) (o : gmap string string)
  : St S E (gmap string string) :=
  match keys with
  | [] => ret o
  | k :: ks => (v <- unwrap_option (value_of m k) ;; insert_must m ks (<[k:=v]> o))%rust
  end.

Definition insert_optional (m : arg_matches) (o : gmap string string) (k : string)
  : gmap string string :=
  match value_of m k with Some v => <[k:=v]> o | None => o end.

Definition insert_flag (m : arg_matches) (o : gmap string string) (k : string)
  : gmap string string :=
  if is_present m k then <[k:="1"]> o else o.

Definition _get_option {S E} (m : arg_matches) (must_keys optional_keys : list string)
  : St S E (gmap string string) :=
  (o <- insert_must m must_keys ∅ ;;
   let o := foldl (insert_optional m) o optional_keys in
   ret (foldl (insert_flag m) o ["json"; "yaml"]))%rust.

(** [get_config] (main.rs 183-272). *)
Definition get_config {S E} (sc : subcommand) : St S E Config :=
  match sc with
  | SubAdd m =>
      (o <- _get_option m ["name"; "description"]
                        ["enable"; "long_order"; "short_order"; "operation"] ;;
       ret (mk_config Add o))%rust
  | SubUpdate m =>
      (o <- _get_option m ["id"]
              ["id"; "name"; "description"; "enable"; "long_order"; "short_order"; "operation"] ;;
       ret (mk_config Update o))%rust
  | SubRemove m => (o <- _get_option m ["id"] [] ;; ret (mk_config Remove o))%rust
  | SubGet m => (o <- _get_option m ["id"] [] ;; ret (mk_config Get o))%rust
  | SubList m => (o <- _get_option m [] [] ;; ret (mk_config List o))%rust
  | SubNone => ret (mk_config NoCommand ∅)
  end.

(** [if let Some(v) = option.get(k) { option.insert(k, if v == "true"
    {"1"} else {"0"}) }]. *)
Definition to_flag (o : gmap string string) (k : string) : gmap string string :=
  match o !! k with
  | Some v => <[k := if String.eqb v "true" then "1" else "0"]> o
  | None => o
  end.

Definition flag_values (o : gmap string string) : gmap string string :=
  to_flag (to_flag (to_flag o "enable") "long_order") "short_order".

(** ** Building the option map *)

Lemma insert_must_spec {S E} m keys o (s : S) :
  Forall (fun k => is_Some (value_of m k)) keys ->
  exists o', insert_must (E := E) m keys o s = (Ret o', s) /\
    forall k, o' !! k = if bool_decide (k ∈ keys) then value_of m k else o !! k.
Proof.
  revert o. induction keys as [|k0 ks IH]; intros o Hall.
  - exists o. split; [done|]. intros k. by rewrite bool_decide_false; [apply not_elem_of_nil|].
  - apply Forall_cons in Hall as [[v Hv] Hall].
    destruct (IH (<[k0:=v]> o) Hall) as [o' [Hrun Hlk]]. exists o'.
    split; [by rewrite /= /bind /unwrap_option Hv|].
    intros k. rewrite Hlk. destruct (decide (k = k0)) as [->|Hne].
    + rewrite lookup_insert_eq (bool_decide_true (k0 ∈ k0 :: ks)); [set_solver|].
      case_bool_decide; congruence.
    + rewrite lookup_insert_ne; [congruence|].
      rewrite (bool_decide_ext (k ∈ k0 :: ks) (k ∈ ks)) //. set_solver.
Qed.

Lemma foldl_optional_lookup m keys o k :
  foldl (insert_optional m) o keys !! k =
  if bool_decide (k ∈ keys)
  then match value_of m k with Some v => Some v | None => o !! k end
  else o !! k.
Proof.
  revert o. induction keys as [|k0 ks IH]; intros o; cbn [foldl].
  - by rewrite bool_decide_false; [apply not_elem_of_nil|].
  - rewrite IH /insert_optional.
    destruct (decide (k = k0)) as [->|Hne].
    + rewrite (bool_decide_true (k0 ∈ k0 :: ks)); [set_solver|].
      destruct (value_of m k0) eqn:Hv; [rewrite lookup_insert_eq|]; by case_bool_decide.
    + assert (Hl : (match value_of m k0 with Some v => <[k0:=v]> o | None => o end) !! k
                   = o !! k)
      by (destruct (value_of m k0); [rewrite lookup_insert_ne; [congruence|done]|done]).
      rewrite Hl (bool_decide_ext (k ∈ k0 :: ks) (k ∈ ks)) //. set_solver.
Qed.

Lemma foldl_flag_lookup m keys o k :
  foldl (insert_flag m) o keys !! k =
  if bool_decide (k ∈ keys) && is_present m k then Some "1" else o !! k.
Proof.
  revert o. induction keys as [|k0 ks IH]; intros o; cbn [foldl].
  - by rewrite bool_decide_false; [apply not_elem_of_nil|].
  - rewrite IH /insert_flag.
    destruct (decide (k = k0)) as [->|Hne].
    + rewrite (bool_decide_true (k0 ∈ k0 :: ks)); [set_solver|].
      destruct (is_present m k0); [rewrite lookup_insert_eq|]; by case_bool_decide.
    + assert (Hl : (if is_present m k0 then <[k0:="1"]> o else o) !! k = o !! k)
        by (destruct (is_present m k0); [rewrite lookup_insert_ne; [congruence|done]|done]).
      rewrite Hl (bool_decide_ext (k ∈ k0 :: ks) (k ∈ ks)) //. set_solver.
Qed.

(** [_get_option] when every required key has a value: each key of the
    two lists holds its value, [json]/[yaml] hold ["1"] when given. *)
Lemma get_option_spec {S E} m must optional (s : S) :
  Forall (fun k => is_Some (value_of m k)) must ->
  exists o, _get_option (E := E) m must optional s = (Ret o, s) /\
    forall k, o !! k =
      if bool_decide (k ∈ ["json"; "yaml"]) && is_present m k then Some "1"
      else if bool_decide (k ∈ must ++ optional) then value_of m k else None.
Proof.
  intros Hmust. destruct (insert_must_spec (E := E) m must ∅ s Hmust) as [o [Hrun Hlk]].
  eexists. split; [by rewrite /_get_option /bind Hrun|].
  intros k. rewrite foldl_flag_lookup foldl_optional_lookup Hlk lookup_empty.
  destruct (_ && _); [done|].
  repeat case_bool_decide; try set_solver; by destruct (value_of m k).
Qed.

Lemma to_flag_lookup o k k' :
  to_flag o k !! k' =
  if bool_decide (k' = k) then (fun v => if String.eqb v "true" then "1" else "0") <$> o !! k
  else o !! k'.
Proof.
  rewrite /to_flag. case_bool_decide as Hk; [subst k'|].
  - destruct (o !! k) eqn:E; [by rewrite lookup_insert_eq|by rewrite E].
  - destruct (o !! k); [rewrite lookup_insert_ne; [congruence|done]|done].
Qed.

Lemma flag_values_other o k :
  k ∉ ["enable"; "long_order"; "short_order"] -> flag_values o !! k = o !! k.
Proof.
  intros Hk. rewrite /flag_values !to_flag_lookup.
  repeat (rewrite bool_decide_false; [set_solver|]). done.
Qed.

Lemma flag_values_flag o k :
  k ∈ ["enable"; "long_order"; "short_order"] ->
  flag_values o !! k = (fun v => if String.eqb v "true" then "1" else "0") <$> o !! k.
Proof.
  rewrite /flag_values !to_flag_lookup !elem_of_cons elem_of_nil.
  by intros [->|[->|[->|[]]]]; bool_decide_closed.
Qed.

Lemma flag_values_dom o k : is_Some (flag_values o !! k) <-> is_Some (o !! k).
Proof.
  destruct (decide (k ∈ ["enable"; "long_order"; "short_order"])) as [Hk|Hk].
  - rewrite flag_values_flag //. by rewrite fmap_is_Some.
  - by rewrite flag_values_other.
Qed.

Lemma is_present_none m k : flags m = [] -> value_of m k = None -> is_present m k = false.
Proof.
  rewrite /is_present /value_of => -> Hv. rewrite Hv.
  rewrite (bool_decide_false (k ∈ [])); [apply not_elem_of_nil|].
  rewrite bool_decide_false; [by intros []|]. done.
Qed.

Section Commands.
Context {HO : HashOrder}.

(** [_add] (main.rs 294-320). *)
Definition _add (o : gmap string string) : St world AtbDb.sqlite_error nat :=
  db (insert_bot (flag_values o)).

(** [_update] (main.rs 323-352): [id] is removed from the map, then
    [update_bot(&id_value.unwrap(), &option)]. *)
Definition _update (o : gmap string string) : St world AtbDb.sqlite_error nat :=
  let id_value := o !! "id" in
  let o := flag_values (delete "id" o) in
  (idv <- unwrap_option id_value ;; db (update_bot idv o))%rust.

(** [_remove] (main.rs 355-364). *)
Definition _remove (o : gmap string string) : St world AtbDb.sqlite_error nat :=
  (idv <- unwrap_option (o !! "id") ;; db (delete_bot idv))%rust.

(** [bot.get_id() as usize]: the [i64] taken modulo [2^64]. *)
Definition usize_of_i64 (z : Z) : nat := Z.to_nat (z mod 2 ^ 64).

(** [_get] (main.rs 367-396). *)
Definition _get (o : gmap string string) : St world AtbDb.sqlite_error nat :=
  (idv <- unwrap_option (o !! "id") ;;
   bot <- db (get_bot idv) ;;
   let bot_id := usize_of_i64 (get_id bot) in
   if bool_decide (is_Some (o !! "json")) then println (PrintBotJson bot) ;; ret bot_id
   else if bool_decide (is_Some (o !! "yaml")) then println (PrintBotYaml bot) ;; ret bot_id
   else ret bot_id)%rust.

(** [_list] (main.rs 399-425). *)
Definition _list (o : gmap string string) : St world AtbDb.sqlite_error nat :=
  (l <- db get_bot_list ;;
   let n := get_list_len l in
   if bool_decide (is_Some (o !! "json")) then println (PrintListJson l) ;; ret n
   else if bool_decide (is_Some (o !! "yaml")) then println (PrintListYaml l) ;; ret n
   else ret n)%rust.

(** [actual_main] (main.rs 275-291): an [Err] is printed and exits 1. *)
Definition actual_main {E} (cfg : Config) : St world E Z :=
  (r <- to_result (match command cfg with
                   | Add => _add (opts cfg)
                   | Update => _update (opts cfg)
                   | Remove => _remove (opts cfg)
                   | Get => _get (opts cfg)
                   | List => _list (opts cfg)
                   | NoCommand => throw AtbDb.ExecuteReturnedResults
                   end) ;;
   match r with
   | Err e => println (EPrintSqlite e) ;; ret 1
   | Ok _ => ret 0
   end)%rust.

(** [main] (main.rs 20-40). *)
Definition main (connect : result unit string) (sc : subcommand) : St world Empty_set Z :=
  match connect with
  | Err msg => (println (EPrintConnect msg) ;; ret 1)%rust
  | Ok _ => (cfg <- get_config sc ;; actual_main cfg)%rust
  end.

Definition run_admin (connect : result unit string) (sc : subcommand) (w : world) : Z * world :=
  match main connect sc w with
  | (Ret c, w') => (c, w')
  | (Throw e, _) => match e with end
  | (Abort _, w') => (101, w')
  end.

(** ** Theorems *)

Lemma add_option m :
  is_Some (value_of m "name") -> is_Some (value_of m "description") ->
  exists o, forall (w : world),
    get_config (E := Empty_set) (SubAdd m) w = (Ret (mk_config Add o), w) /\
    forall k, o !! k =
      if bool_decide (k ∈ ["json"; "yaml"]) && is_present m k then Some "1"
      else if bool_decide (k ∈ ["name"; "description"; "enable"; "long_order";
                                "short_order"; "operation"]) then value_of m k else None.
Proof.
  intros Hn Hd.
  destruct (get_option_spec (E := Empty_set) m ["name"; "description"]
              ["enable"; "long_order"; "short_order"; "operation"] tt) as [o [_ Hlk]];
    [by repeat constructor|].
  exists o. intros w. split; [|done].
  destruct (get_option_spec (E := Empty_set) m ["name"; "description"]
              ["enable"; "long_order"; "short_order"; "operation"] w) as [o' [Hrun Hlk']];
    [by repeat constructor|].
  assert (o' = o) as -> by (apply map_eq => k; by rewrite Hlk Hlk').
  by rewrite /get_config /bind Hrun.
Qed.

(** [bot-admin add ... --operation X] always fails with exit code 1 and
    leaves the table as it was: the key [operation] is no column of [bot]
    (the column is [operate_type]). *)
Theorem admin_add_operation_rejected w m v :
  is_Some (value_of m "name") -> is_Some (value_of m "description") ->
  value_of m "operation" = Some v ->
  run_admin (Ok tt) (SubAdd m) w =
    (1, mk_world (table w) (out w ++ [EPrintSqlite AtbDb.SqlInputError])).
Proof.
  intros Hn Hd Hop. destruct (add_option m Hn Hd) as [o Ho].
  destruct (Ho w) as [Hcfg Hlk].
  assert (Hins : insert_bot (flag_values o) (table w) = (Throw AtbDb.SqlInputError, table w)).
  { apply (insert_bot_unknown_column _ _ "operation" v); [|reflexivity].
    rewrite flag_values_other; [set_solver|]. rewrite Hlk. by bool_decide_closed. }
  rewrite /run_admin /main /bind Hcfg /actual_main /to_result /_add /db /bind /=.
  rewrite Hins. by destruct w.
Qed.

(** C24: [bot-admin update ID] with no field to change always fails with exit
    code 1: it runs [UPDATE bot SET  where id = ?1 limit 1], a syntax error. *)
Theorem admin_update_without_field_rejected w m idv :
  value_of m "id" = Some idv -> (forall k, k <> "id" -> value_of m k = None) ->
  flags m = [] ->
  run_admin (Ok tt) (SubUpdate m) w =
    (1, mk_world (table w) (out w ++ [EPrintSqlite AtbDb.SqlInputError])).
Proof.
  intros Hid Hnone Hfl.
  destruct (get_option_spec (E := Empty_set) m ["id"]
              ["id"; "name"; "description"; "enable"; "long_order"; "short_order"; "operation"]
              w) as [o [Hrun Hlk]]; [by repeat constructor; rewrite Hid|].
  assert (Ho : o = {["id" := idv]}).
  { apply map_eq => k. rewrite Hlk. destruct (decide (k = "id")) as [->|Hk].
    - rewrite lookup_singleton_eq. bool_decide_closed. by rewrite Hid.
    - rewrite lookup_singleton_ne; [congruence|].
      rewrite (is_present_none m k Hfl (Hnone k Hk)) andb_false_r Hnone //.
      by case_bool_decide. }
  assert (Hflag : flag_values (delete "id" o) = ∅).
  { rewrite Ho delete_singleton. apply map_eq => k.
    destruct (decide (k ∈ ["enable"; "long_order"; "short_order"])).
    - by rewrite flag_values_flag // lookup_empty.
    - by rewrite flag_values_other. }
  rewrite /run_admin /main /bind /get_config /bind Hrun /actual_main /to_result /_update.
  rewrite {1}/ret. cbn beta iota. rewrite /bind Hflag Ho lookup_singleton_eq.
  rewrite /unwrap_option /ret /db /=.
  rewrite update_bot_no_field. by destruct w.
Qed.

(** C25: [bot-admin add] with a name, a description and no operation exits 0
    and appends one row under the next rowid holding the name, the
    description and each given boolean flag as 1 or 0. *)
Theorem admin_add_stores w m n d :
  value_of m "name" = Some n -> value_of m "description" = Some d ->
  value_of m "operation" = None ->
  is_present m "json" = false -> is_present m "yaml" = false ->
  exists r,
    run_admin (Ok tt) (SubAdd m) w =
      (0, mk_world (with_bots (table w) (bots (table w) ++ [r])) (out w)) /\
    r !! "id" = Some (SqlInt (next_rowid (bots (table w)))) /\
    r !! "name" = Some (SqlText n) /\ r !! "description" = Some (SqlText d) /\
    forall k e, k ∈ ["enable"; "long_order"; "short_order"] -> value_of m k = Some e ->
      r !! k = Some (SqlInt (if String.eqb e "true" then 1 else 0)).
Proof.
  intros Hn Hd Hop Hj Hy. destruct (add_option m) as [o Ho]; [by exists n|by exists d|].
  destruct (Ho w) as [Hcfg Hlk].
  assert (Hname : flag_values o !! "name" = Some n).
  { rewrite flag_values_other; [set_solver|]. rewrite Hlk. by bool_decide_closed. }
  assert (Hdesc : flag_values o !! "description" = Some d).
  { rewrite flag_values_other; [set_solver|]. rewrite Hlk. by bool_decide_closed. }
  assert (Hnid : flag_values o !! "id" = None).
  { rewrite flag_values_other; [set_solver|]. rewrite Hlk. by bool_decide_closed. }
  assert (Hknown : map_Forall (fun k _ => known_column k = true) (flag_values o)).
  { intros k x Hx. assert (Hs : is_Some (o !! k)) by (apply flag_values_dom; by exists x).
    rewrite Hlk in Hs.
    destruct (bool_decide (k ∈ ["json"; "yaml"])) eqn:Hjy; simpl in Hs.
    - apply bool_decide_eq_true in Hjy. rewrite !elem_of_cons elem_of_nil in Hjy.
      destruct Hjy as [->|[->|[]]]; [rewrite Hj in Hs|rewrite Hy in Hs];
        revert Hs; bool_decide_closed; by intros [? ?].
    - case_bool_decide as Hk; [|by destruct Hs].
      rewrite !elem_of_cons elem_of_nil in Hk.
      destruct Hk as [->|[->|[->|[->|[->|[->|[]]]]]]]; try reflexivity.
      rewrite Hop in Hs. by destruct Hs. }
  assert (Hne : flag_values o <> ∅) by (intros He; by rewrite He lookup_empty in Hname).
  pose proof (insert_bot_spec (table w) (flag_values o) Hne Hknown Hnid) as Hins.
  eexists. split_and!.
  - rewrite /run_admin /main /bind Hcfg /actual_main /to_result /_add /db /bind /=.
    rewrite Hins. by destruct w.
  - by rewrite lookup_insert_eq.
  - rewrite lookup_insert_ne; [done|]. apply lookup_union_Some_l.
    by rewrite stored_lookup Hname.
  - rewrite lookup_insert_ne; [done|]. apply lookup_union_Some_l.
    by rewrite stored_lookup Hdesc.
  - intros k e Hk He. rewrite lookup_insert_ne; [set_solver|].
    apply lookup_union_Some_l. rewrite stored_lookup flag_values_flag // Hlk.
    rewrite !elem_of_cons elem_of_nil in Hk.
    destruct Hk as [->|[->|[->|[]]]]; bool_decide_closed; rewrite He /=;
      by destruct (String.eqb e "true").
Qed.

End Commands.

(** The option map of [remove] and [get] holds the id clap matched. *)
Lemma id_option {S E} m idv (s : S) :
  value_of m "id" = Some idv ->
  exists o, _get_option (E := E) m ["id"] [] s = (Ret o, s) /\ o !! "id" = Some idv.
Proof.
  intros Hid. destruct (get_option_spec (E := E) m ["id"] [] s) as [o [Ho Hlk]].
  { repeat constructor. rewrite Hid. eauto. }
  exists o. split; [done|]. rewrite Hlk. by bool_decide_closed.
Qed.

(** C26: [bot-admin remove ID] followed by [bot-admin get ID], on a table
    with unique integer ids and [DELETE ... LIMIT] support, where [ID] is an
    integer: the removal exits 0 without printing, and the read then exits 1
    printing [QueryReturnedNoRows], whether or not a bot had that id. *)
Theorem admin_remove_then_get {HO : HashOrder} w m idv z :
  value_of m "id" = Some idv -> I64.parse_i64 idv = Ok z ->
  AtbDb.delete_limit (bcaps (table w)) = true -> table_wf (bots (table w)) ->
  let w1 := snd (run_admin (Ok tt) (SubRemove m) w) in
  fst (run_admin (Ok tt) (SubRemove m) w) = 0 /\ out w1 = out w /\
  run_admin (Ok tt) (SubGet m) w1
  = (1, mk_world (table w1) (out w ++ [EPrintSqlite AtbDb.QueryReturnedNoRows])).
Proof.
  intros Hid Hp Hl Hwf.
  destruct (BotSpec.delete_then_get (table w) idv z Hwf Hl (BotSpec.key_of_parse _ _ Hp))
    as [[n Hn] Hget].
  assert (Hrm : run_admin (Ok tt) (SubRemove m) w
                = (0, mk_world (snd (delete_bot idv (table w))) (out w))).
  { destruct (id_option (E := Empty_set) m idv w Hid) as [o [Ho Hoid]].
    rewrite /run_admin /main /get_config /bind Ho /= /actual_main /to_result /_remove /bind.
    rewrite /unwrap_option Hoid /db /=. destruct (delete_bot idv (table w)) as [r t1].
    simpl in Hn. by subst r. }
  rewrite Hrm /=. split_and!; [done|done|].
  destruct (id_option (E := Empty_set) m idv (mk_world (snd (delete_bot idv (table w))) (out w)) Hid)
    as [o [Ho Hoid]].
  rewrite /run_admin /main /get_config /bind Ho /= /actual_main /to_result /_get /bind.
  by rewrite /unwrap_option Hoid /db /= Hget.
Qed.

(** ** Witnesses *)

Definition witness_world : world := mk_world witness_table [].

Definition add_matches (extra : list (string * string)) : arg_matches :=
  mk_matches (list_to_map ([("name", "b"); ("description", "d")] ++ extra)) [].

Lemma admin_add_operation_rejected_witness :
  run_admin (HO := key_order) (Ok tt) (SubAdd (add_matches [("operation", "product")]))
            witness_world
  = (1, mk_world witness_table [EPrintSqlite AtbDb.SqlInputError]).
Proof.
  apply (admin_add_operation_rejected (HO := key_order) witness_world _ "product").
  - exists "b". reflexivity.
  - exists "d". reflexivity.
  - reflexivity.
Defined.

Lemma admin_update_without_field_rejected_witness :
  run_admin (HO := key_order) (Ok tt) (SubUpdate (mk_matches {["id" := "1"]} []))
            (mk_world witness_table1 [])
  = (1, mk_world witness_table1 [EPrintSqlite AtbDb.SqlInputError]).
Proof.
  apply (admin_update_without_field_rejected (HO := key_order)
           (mk_world witness_table1 []) (mk_matches {["id" := "1"]} []) "1").
  - reflexivity.
  - intros k Hk. apply lookup_singleton_ne. congruence.
  - reflexivity.
Defined.

Lemma admin_add_stores_witness :
  exists r,
    run_admin (HO := key_order) (Ok tt) (SubAdd (add_matches [("enable", "true")])) witness_world =
      (0, mk_world (with_bots witness_table (bots witness_table ++ [r])) []) /\
    r !! "id" = Some (SqlInt (next_rowid (bots witness_table))) /\
    r !! "name" = Some (SqlText "b") /\ r !! "description" = Some (SqlText "d") /\
    forall k e, k ∈ ["enable"; "long_order"; "short_order"] ->
      value_of (add_matches [("enable", "true")]) k = Some e ->
      r !! k = Some (SqlInt (if String.eqb e "true" then 1 else 0)).
Proof.
  apply (admin_add_stores (HO := key_order) witness_world _ "b" "d");
    vm_compute; reflexivity.
Defined.

Definition id_matches_1 : arg_matches := mk_matches {["id" := "1"]} [].

Definition world_one : world := mk_world witness_table1 [].

Lemma admin_remove_then_get_witness :
  let w1 := snd (run_admin (HO := key_order) (Ok tt) (SubRemove id_matches_1) world_one) in
  fst (run_admin (HO := key_order) (Ok tt) (SubRemove id_matches_1) world_one) = 0 /\
  out w1 = out world_one /\
  run_admin (HO := key_order) (Ok tt) (SubGet id_matches_1) w1
  = (1, mk_world (table w1) (out world_one ++ [EPrintSqlite AtbDb.QueryReturnedNoRows])).
Proof.
  exact (admin_remove_then_get (HO := key_order) world_one id_matches_1 "1" 1
           eq_refl eq_refl eq_refl witness_table1_wf).
Defined.

End BotAdmin.
