(* ===== verification/Cli.v ===== *)
(** * Command lines: clap's parser and the two command-line interfaces

    bot-admin (src/app/src/bot-admin/src/main.rs 41-149) and fetch-ohlcv-rs
    (src/app/src/fetch-ohlcv-rs/src/main.rs 50-75) declare their arguments
    with clap 2's builder.  The declarations are translated as they are
    written, as values of clap's [Arg], [ArgGroup] and [App] (the builder's
    methods are functions chained with [|>]).  [get_matches] is clap 2's
    parser restricted to what the two declarations use: long options with
    a value ([--k v] or [--k=v]), short and long flags, positional
    arguments, [possible_values], [required], argument groups, subcommands,
    the [help] subcommand, [-h]/[--help], [-V]/[--version] and
    [ArgRequiredElseHelp].  Help texts, [about], [author] and the display
    order only change what clap prints; they are kept as written and not
    interpreted.  A parse error makes clap print and exit: 0 for help and
    version, 1 otherwise. *)

From stdpp Require Import base gmap strings list.
From Stdlib Require Import ZArith Lia Ascii ssreflect.
From S2P Require Import Prelude BotStore BotAdmin.
Local Set Warnings "-rewrite-rw".

Module Clap.
Import BotAdmin.

(** Method chaining: [x |> f] is [x.f]. *)
Notation "x |> f" := (f x) (at level 41, left associativity, only parsing).

(** ** clap's declarations *)

Record Arg : Type := mk_arg {
  a_name : string;
  a_help : string;
  a_long : option string;
  a_short : option Ascii.ascii;
  a_takes_value : bool;
  a_required : bool;
  a_possible_values : list string
}.

(** [Arg::with_name]: a positional argument until [long] or [short] is
    given. *)
Definition with_name (n : string) : Arg := mk_arg n "" None None false false [].

Definition help (h : string) (a : Arg) : Arg :=
  mk_arg (a_name a) h (a_long a) (a_short a) (a_takes_value a) (a_required a) (a_possible_values a).
Definition long (l : string) (a : Arg) : Arg :=
  mk_arg (a_name a) (a_help a) (Some l) (a_short a) (a_takes_value a) (a_required a) (a_possible_values a).
Definition short (s : Ascii.ascii) (a : Arg) : Arg :=
  mk_arg (a_name a) (a_help a) (a_long a) (Some s) (a_takes_value a) (a_required a) (a_possible_values a).
Definition takes_value (b : bool) (a : Arg) : Arg :=
  mk_arg (a_name a) (a_help a) (a_long a) (a_short a) b (a_required a) (a_possible_values a).
Definition required (b : bool) (a : Arg) : Arg :=
  mk_arg (a_name a) (a_help a) (a_long a) (a_short a) (a_takes_value a) b (a_possible_values a).
(** [possible_values] also makes the argument take a value. *)
Definition possible_values (vs : list string) (a : Arg) : Arg :=
  mk_arg (a_name a) (a_help a) (a_long a) (a_short a) true (a_required a) vs.

Definition is_positional (a : Arg) : bool :=
  match a_long a, a_short a with None, None => true | _, _ => false end.

Record ArgGroup : Type := mk_group {
  g_name : string;
  g_args : list string;
  g_required : bool
}.

Definition group_with_name (n : string) : ArgGroup := mk_group n [] false.
Definition args (l : list string) (g : ArgGroup) : ArgGroup := mk_group (g_name g) l (g_required g).
Definition group_required (b : bool) (g : ArgGroup) : ArgGroup := mk_group (g_name g) (g_args g) b.

Inductive AppSettings : Type := ArgRequiredElseHelp | DeriveDisplayOrder.

#[global] Instance app_settings_eq_dec : EqDecision AppSettings.
Proof. solve_decision. Defined.

(** A subcommand is an [App] without subcommands of its own. *)
Record SubCommand : Type := mk_sub {
  s_name : string;
  s_about : string;
  s_settings : list AppSettings;
  s_args : list Arg;
  s_groups : list ArgGroup
}.

Record App : Type := mk_app {
  app_name : string;
  app_version : string;
  app_author : string;
  app_about : string;
  app_settings : list AppSettings;
  app_args : list Arg;
  app_subcommands : list SubCommand
}.

Definition sub_with_name (n : string) : SubCommand := mk_sub n "" [] [] [].
Definition sub_about (t : string) (s : SubCommand) : SubCommand :=
  mk_sub (s_name s) t (s_settings s) (s_args s) (s_groups s).
Definition sub_setting (x : AppSettings) (s : SubCommand) : SubCommand :=
  mk_sub (s_name s) (s_about s) (s_settings s ++ [x]) (s_args s) (s_groups s).
Definition arg (a : Arg) (s : SubCommand) : SubCommand :=
  mk_sub (s_name s) (s_about s) (s_settings s) (s_args s ++ [a]) (s_groups s).
Definition group (g : ArgGroup) (s : SubCommand) : SubCommand :=
  mk_sub (s_name s) (s_about s) (s_settings s) (s_args s) (s_groups s ++ [g]).
(** [args_from_usage("-j, --json '...'")]: a flag with a short and a long
    name per usage line. *)
Definition args_from_usage (l : list (Ascii.ascii * string * string)) (s : SubCommand) : SubCommand :=
  foldl (fun s '(c, n, h) => arg (with_name n |> short c |> long n |> help h) s) s l.

Definition app_new (n : string) : App := mk_app n "" "" "" [] [] [].
Definition version (v : string) (a : App) : App :=
  mk_app (app_name a) v (app_author a) (app_about a) (app_settings a) (app_args a) (app_subcommands a).
Definition author (v : string) (a : App) : App :=
  mk_app (app_name a) (app_version a) v (app_about a) (app_settings a) (app_args a) (app_subcommands a).
Definition about (v : string) (a : App) : App :=
  mk_app (app_name a) (app_version a) (app_author a) v (app_settings a) (app_args a) (app_subcommands a).
Definition setting (x : AppSettings) (a : App) : App :=
  mk_app (app_name a) (app_version a) (app_author a) (app_about a) (app_settings a ++ [x])
         (app_args a) (app_subcommands a).
Definition app_arg (x : Arg) (a : App) : App :=
  mk_app (app_name a) (app_version a) (app_author a) (app_about a) (app_settings a)
         (app_args a ++ [x]) (app_subcommands a).
Definition subcommand (s : SubCommand) (a : App) : App :=
  mk_app (app_name a) (app_version a) (app_author a) (app_about a) (app_settings a)
         (app_args a) (app_subcommands a ++ [s]).

(** ** clap's parser *)

Inductive ErrorKind : Type :=
| MissingArgumentOrSubcommand
| UnknownArgument
| EmptyValue
| InvalidValue
| UnexpectedMultipleUsage
| MissingRequiredArgument
| ArgumentConflict
| HelpDisplayed
| VersionDisplayed.

Record Error : Type := mk_error { kind : ErrorKind; info : string }.

(** [Error::exit]: help and version go to stdout and exit with 0. *)
Definition exit_code (e : Error) : Z :=
  match kind e with HelpDisplayed | VersionDisplayed => 0 | _ => 1 end.

(** The top-level matches and those of the subcommand used, if any. *)
Record Matches : Type := mk_top {
  top : arg_matches;
  sub : option (string * arg_matches)
}.

Definition empty_matches : arg_matches := mk_matches ∅ [].

Definition find_long (l : list Arg) (n : string) : option Arg :=
  List.find (fun a => bool_decide (a_long a = Some n)) l.

Definition find_short (l : list Arg) (c : Ascii.ascii) : option Arg :=
  List.find (fun a => bool_decide (a_short a = Some c)) l.

Definition positionals (l : list Arg) : list Arg := filter (fun a => is_positional a = true) l.

(** [--k=v]: the name before the first [=] and the value after it. *)
Fixpoint split_eq (s : string) : string * option string :=
  match s with
  | EmptyString => (EmptyString, None)
  | String c r =>
      if Ascii.eqb c "="%char then (EmptyString, Some r)
      else let '(n, v) := split_eq r in (String c n, v)
  end.

(** A token clap reads as an argument rather than as a value. *)
Definition is_new_arg (t : string) : bool :=
  match t with String "-"%char (String _ _) => true | _ => false end.

Definition is_help (t : string) : bool := String.eqb t "-h" || String.eqb t "--help".
Definition is_version (t : string) : bool := String.eqb t "-V" || String.eqb t "--version".

(** One occurrence of an argument with a value: a second occurrence, or a
    value outside [possible_values], is an error. *)
Definition add_value (a : Arg) (v : string) (m : arg_matches) : result arg_matches Error :=
  if is_present m (a_name a) then Err (mk_error UnexpectedMultipleUsage (a_name a))
  else if bool_decide (a_possible_values a <> []) && negb (bool_decide (v ∈ a_possible_values a))
  then Err (mk_error InvalidValue v)
  else Ok (mk_matches (<[a_name a := v]> (values m)) (flags m)).

Definition add_flag (a : Arg) (m : arg_matches) : result arg_matches Error :=
  if is_present m (a_name a) then Err (mk_error UnexpectedMultipleUsage (a_name a))
  else Ok (mk_matches (values m) (flags m ++ [a_name a])).

(** [-n=v]: the value after an optional [=]. *)
Definition strip_eq (r : string) : string :=
  match r with String "="%char v => v | _ => r end.

(** How clap reads a token that is not a value. *)
Inductive token : Type :=
| TDashDash                               (* [--] *)
| THelp                                   (* [-h], [--help] *)
| TVersion                                (* [-V], [--version] *)
| TLong (n : string) (v : option string)  (* [--n], [--n=v] *)
| TShorts (cs : string)                   (* [-cs] *)
| TPlain.                                 (* anything else, [-] included *)

Definition classify (t : string) : token :=
  if String.eqb t "--" then TDashDash
  else if is_help t then THelp
  else if is_version t then TVersion
  else match t with
  | String "-"%char (String "-"%char ln) => let '(n, ov) := split_eq ln in TLong n ov
  | String "-"%char (String c cs) => TShorts (String c cs)
  | _ => TPlain
  end.

(** A cluster of short flags [-jy]; a short that takes a value takes the
    rest of the cluster (without a leading [=]), or the next token. *)
Fixpoint parse_shorts (l : list Arg) (cs : string) (m : arg_matches)
  : result (arg_matches * option Arg) Error :=
  match cs with
  | EmptyString => Ok (m, None)
  | String c r =>
      match find_short l c with
      | None => Err (mk_error UnknownArgument (String "-"%char (String c EmptyString)))
      | Some a =>
          if a_takes_value a then
            match r with
            | EmptyString => Ok (m, Some a)
            | String _ _ =>
                match add_value a (strip_eq r) m with Ok m' => Ok (m', None) | Err e => Err e end
            end
          else match add_flag a m with Ok m' => parse_shorts l r m' | Err e => Err e end
      end
  end.

(** The tokens of one command: [trailing] after [--], [pos] positional
    arguments filled so far. *)
Fixpoint parse_args (l : list Arg) (trailing : bool) (pos : nat) (toks : list string)
  (m : arg_matches) : result arg_matches Error :=
  match toks with
  | [] => Ok m
  | t :: rest =>
      let positional :=
        match nth_error (positionals l) pos with
        | None => Err (mk_error UnknownArgument t)
        | Some a => match add_value a t m with
                    | Ok m' => parse_args l trailing (S pos) rest m'
                    | Err e => Err e
                    end
        end in
      let with_next (a : Arg) (m' : arg_matches) :=
        match rest with
        | [] => Err (mk_error EmptyValue (a_name a))
        | v :: rest' =>
            if is_new_arg v then Err (mk_error EmptyValue (a_name a))
            else match add_value a v m' with
                 | Ok m'' => parse_args l trailing pos rest' m''
                 | Err e => Err e
                 end
        end in
      if trailing then positional
      else match classify t with
      | TDashDash => parse_args l true pos rest m
      | THelp => Err (mk_error HelpDisplayed "")
      | TVersion => Err (mk_error VersionDisplayed "")
      | TLong n ov =>
          match find_long l n with
          | None => Err (mk_error UnknownArgument t)
          | Some a =>
              match a_takes_value a, ov with
              | true, Some v =>
                  match add_value a v m with
                  | Ok m' => parse_args l trailing pos rest m'
                  | Err e => Err e
                  end
              | true, None => with_next a m
              | false, None =>
                  match add_flag a m with
                  | Ok m' => parse_args l trailing pos rest m'
                  | Err e => Err e
                  end
              | false, Some _ => Err (mk_error UnknownArgument t)
              end
          end
      | TShorts cs =>
          match parse_shorts l cs m with
          | Ok (m', None) => parse_args l trailing pos rest m'
          | Ok (m', Some a) => with_next a m'
          | Err e => Err e
          end
      | TPlain => positional
      end
  end.

Definition count_present (m : arg_matches) (ns : list string) : nat :=
  length (filter (fun n => is_present m n = true) ns).

(** The checks after the tokens: group conflicts, required arguments,
    required groups. *)
Definition validate (l : list Arg) (gs : list ArgGroup) (m : arg_matches)
  : result arg_matches Error :=
  match List.find (fun g => bool_decide (1 < count_present m (g_args g))%nat) gs with
  | Some g => Err (mk_error ArgumentConflict (g_name g))
  | None =>
  match List.find (fun a => a_required a && negb (is_present m (a_name a))) l with
  | Some a => Err (mk_error MissingRequiredArgument (a_name a))
  | None =>
  match List.find (fun g => g_required g && bool_decide (count_present m (g_args g) = 0%nat)) gs with
  | Some g => Err (mk_error MissingRequiredArgument (g_name g))
  | None => Ok m
  end
  end
  end.

Definition parse_command (l : list Arg) (gs : list ArgGroup) (toks : list string)
  : result arg_matches Error :=
  match parse_args l false 0 toks empty_matches with
  | Ok m => validate l gs m
  | Err e => Err e
  end.

(** [App::get_matches] on the arguments after the program name.  An app
    with subcommands (bot-admin) has no arguments of its own; clap adds the
    [help] subcommand. *)
Definition get_matches (app : App) (argv : list string) : result Matches Error :=
  if bool_decide (argv = []) && bool_decide (ArgRequiredElseHelp ∈ app_settings app)
  then Err (mk_error MissingArgumentOrSubcommand "")
  else match app_subcommands app with
  | [] =>
      match parse_command (app_args app) [] argv with
      | Ok m => Ok (mk_top m None)
      | Err e => Err e
      end
  | subs =>
      match argv with
      | [] => Ok (mk_top empty_matches None)
      | t :: rest =>
          if is_help t || String.eqb t "help" then Err (mk_error HelpDisplayed "")
          else if is_version t then Err (mk_error VersionDisplayed "")
          else match List.find (fun s => String.eqb (s_name s) t) subs with
          | Some s =>
              match parse_command (s_args s) (s_groups s) rest with
              | Ok m => Ok (mk_top empty_matches (Some (t, m)))
              | Err e => Err e
              end
          | None => Err (mk_error UnknownArgument t)
          end
      end
  end.

(** A token clap reads as a value fills the next positional argument. *)
Lemma parse_args_plain l pos t rest m a m' :
  classify t = TPlain -> nth_error (positionals l) pos = Some a -> add_value a t m = Ok m' ->
  parse_args l false pos (t :: rest) m = parse_args l false (S pos) rest m'.
Proof. intros Hc Ha Hadd. cbn [parse_args]. by rewrite Hc Ha Hadd. Qed.

(** ** What a successful parse guarantees *)

(** Every value was given to an argument of the list, within its possible
    values; every flag is an argument of the list that takes no value. *)
Definition matches_ok (l : list Arg) (m : arg_matches) : Prop :=
  (forall k v, values m !! k = Some v ->
     exists a, a ∈ l /\ a_name a = k /\ (a_possible_values a = [] \/ v ∈ a_possible_values a)) /\
  (forall k, k ∈ flags m ->
     exists a, a ∈ l /\ a_name a = k /\ a_takes_value a = false /\ is_positional a = false).

Lemma empty_matches_ok l : matches_ok l empty_matches.
Proof.
  split; [intros k v; by rewrite lookup_empty | intros k Hk; by apply elem_of_nil in Hk].
Qed.

Lemma add_value_ok l a v m m' :
  a ∈ l -> matches_ok l m -> add_value a v m = Ok m' -> matches_ok l m'.
Proof.
  intros Ha [Hv Hf]. rewrite /add_value.
  case_match; [done|]. destruct (_ && _) eqn:Hp; [done|]. intros [= <-].
  split; [|exact Hf]. intros k v'. cbn. destruct (decide (k = a_name a)) as [->|Hne].
  - rewrite lookup_insert_eq. intros [= <-]. exists a. split_and!; [done|done|].
    apply andb_false_iff in Hp as [Hp|Hp].
    + left. apply bool_decide_eq_false_1 in Hp.
      destruct (a_possible_values a); [done | exfalso; by apply Hp].
    + right. apply negb_false_iff, bool_decide_eq_true_1 in Hp. exact Hp.
  - rewrite lookup_insert_ne; [congruence|]. apply Hv.
Qed.

Lemma add_flag_ok l a m m' :
  a ∈ l -> a_takes_value a = false -> is_positional a = false ->
  matches_ok l m -> add_flag a m = Ok m' -> matches_ok l m'.
Proof.
  intros Ha Ht Hpos [Hv Hf]. rewrite /add_flag. case_match; [done|]. intros [= <-].
  split; [exact Hv|]. intros k Hk. cbn in Hk. apply elem_of_app in Hk as [Hk|Hk]; [by apply Hf|].
  apply list_elem_of_singleton in Hk as ->. by exists a.
Qed.

Lemma find_in {A} (f : A -> bool) l a : List.find f l = Some a -> a ∈ l.
Proof. intros H. apply list_elem_of_In. by apply find_some in H as [? _]. Qed.

Lemma find_long_named l n a : find_long l n = Some a -> a ∈ l /\ is_positional a = false.
Proof.
  intros H. split; [by apply find_in in H|]. apply find_some in H as [_ H].
  apply bool_decide_eq_true_1 in H. by rewrite /is_positional H.
Qed.

Lemma find_short_named l c a : find_short l c = Some a -> a ∈ l /\ is_positional a = false.
Proof.
  intros H. split; [by apply find_in in H|]. apply find_some in H as [_ H].
  apply bool_decide_eq_true_1 in H. rewrite /is_positional H. by destruct (a_long a).
Qed.

Lemma positional_in l pos a : nth_error (positionals l) pos = Some a -> a ∈ l.
Proof.
  intros H. apply nth_error_In, list_elem_of_In in H. rewrite /positionals in H.
  by apply list_elem_of_filter in H as [_ ?].
Qed.

Lemma parse_shorts_ok l cs m m' oa :
  matches_ok l m -> parse_shorts l cs m = Ok (m', oa) ->
  matches_ok l m' /\ (forall a, oa = Some a -> a ∈ l /\ a_takes_value a = true).
Proof.
  revert m. induction cs as [|c r IH]; intros m Hm; cbn; [intros [= <- <-]; by split|].
  destruct (find_short l c) as [a|] eqn:Hfa; [|done]. apply find_short_named in Hfa as [Hfa Hnp].
  destruct (a_takes_value a) eqn:Ht.
  - destruct r as [|c' r'].
    + intros [= <- <-]. split; [done|]. by intros ? [= <-].
    + destruct (add_value a _ m) as [m1|] eqn:Hadd; [|done]. intros [= <- <-].
      split; [by apply (add_value_ok l a (strip_eq (String c' r')) m) | done].
  - destruct (add_flag a m) as [m1|] eqn:Hadd; [|done].
    apply IH. by apply (add_flag_ok l a m).
Qed.

Lemma with_next_ok l tr pos rest a m m'
  (IH : forall toks, (length toks < S (length rest))%nat -> forall tr pos m m',
          matches_ok l m -> parse_args l tr pos toks m = Ok m' -> matches_ok l m') :
  a ∈ l -> matches_ok l m ->
  match rest with
  | [] => Err (mk_error EmptyValue (a_name a))
  | v :: rest' =>
      if is_new_arg v then Err (mk_error EmptyValue (a_name a))
      else match add_value a v m with
           | Ok m'' => parse_args l tr pos rest' m''
           | Err e => Err e
           end
  end = Ok m' -> matches_ok l m'.
Proof.
  intros Ha Hm. destruct rest as [|v rest']; [done|]. case_match; [done|].
  destruct (add_value a v m) as [m1|] eqn:Hadd; [|done].
  apply (IH rest'); [cbn; lia|]. by apply (add_value_ok l a v m).
Qed.

(** Parsing keeps [matches_ok]. *)
Lemma parse_args_ok l toks : forall tr pos m m',
  matches_ok l m -> parse_args l tr pos toks m = Ok m' -> matches_ok l m'.
Proof.
  induction toks as [toks IH] using (induction_ltof1 _ (@length string)); unfold ltof in IH.
  intros tr pos m m' Hm. destruct toks as [|t rest]; cbn [parse_args]; [by intros [= <-]|].
  assert (Hpos : match nth_error (positionals l) pos with
                 | None => Err (mk_error UnknownArgument t)
                 | Some a => match add_value a t m with
                             | Ok m1 => parse_args l tr (S pos) rest m1
                             | Err e => Err e
                             end
                 end = Ok m' -> matches_ok l m').
  { destruct (nth_error _ pos) as [a|] eqn:Ha; [|done].
    destruct (add_value a t m) as [m1|] eqn:Hadd; [|done].
    apply (IH rest); [cbn; lia|]. apply (add_value_ok l a t m); [exact (positional_in l pos a Ha)|done|done]. }
  destruct tr; [exact Hpos|].
  destruct (classify t) as [| | |n [v|]|cs|]; try done; [apply (IH rest); [cbn; lia|done] | | |].
  - destruct (find_long l n) as [a|] eqn:Ha; [|done]. apply find_long_named in Ha as [Ha Hnp].
    destruct (a_takes_value a); [|done].
    destruct (add_value a v m) as [m1|] eqn:Hadd; [|done].
    apply (IH rest); [cbn; lia|]. by apply (add_value_ok l a v m).
  - destruct (find_long l n) as [a|] eqn:Ha; [|done]. apply find_long_named in Ha as [Ha Hnp].
    destruct (a_takes_value a) eqn:Ht.
    + apply (with_next_ok l false pos rest a m); [|done|done]. intros toks' Hlt. apply IH. cbn. lia.
    + destruct (add_flag a m) as [m1|] eqn:Hadd; [|done].
      apply (IH rest); [cbn; lia|]. by apply (add_flag_ok l a m).
  - destruct (parse_shorts l cs m) as [[m1 [a|]]|] eqn:Hs; [| |done];
      destruct (parse_shorts_ok l cs m m1 _ Hm Hs) as [Hm1 Ha].
    + apply (with_next_ok l false pos rest a m1); [|by apply Ha|done]. intros toks' Hlt. apply IH. cbn. lia.
    + apply (IH rest); [cbn; lia|done].
Qed.

(** After [validate]: every required argument is present, no group has two
    of its arguments, every required group has one. *)
Definition validated (l : list Arg) (gs : list ArgGroup) (m : arg_matches) : Prop :=
  (forall a, a ∈ l -> a_required a = true -> is_present m (a_name a) = true) /\
  (forall g, g ∈ gs -> (count_present m (g_args g) <= 1)%nat /\
                       (g_required g = true -> count_present m (g_args g) <> 0%nat)).

Lemma find_none_elem {A} (f : A -> bool) l x : List.find f l = None -> x ∈ l -> f x = false.
Proof. intros H Hx. apply list_elem_of_In in Hx. by apply (find_none f l). Qed.

Lemma validate_ok l gs m m' : validate l gs m = Ok m' -> m' = m /\ validated l gs m.
Proof.
  rewrite /validate.
  destruct (List.find (fun g => bool_decide (1 < _)%nat) gs) eqn:H1; [done|].
  destruct (List.find _ l) eqn:H2; [done|].
  destruct (List.find (fun g => g_required g && _) gs) eqn:H3; [done|]. intros Heq. injection Heq as Heq. subst m'. split; [done|split].
  - intros a Ha Hr. pose proof (find_none_elem _ _ a H2 Ha) as E. cbn in E.
    rewrite Hr in E. by destruct (is_present m (a_name a)).
  - intros g Hg. pose proof (find_none_elem _ _ g H1 Hg) as E1.
    pose proof (find_none_elem _ _ g H3 Hg) as E3. cbn in E1, E3.
    apply bool_decide_eq_false_1 in E1. split; [lia|]. intros Hr.
    rewrite Hr in E3. by apply bool_decide_eq_false_1 in E3.
Qed.

(** What a parsed command satisfies. *)
Lemma parse_command_ok l gs toks m :
  parse_command l gs toks = Ok m -> matches_ok l m /\ validated l gs m.
Proof.
  rewrite /parse_command. destruct (parse_args _ _ _ _ _) as [m1|] eqn:Hp; [|done].
  intros Hv. apply validate_ok in Hv as [-> Hv]. split; [|done].
  apply (parse_args_ok l toks false 0 empty_matches); [apply empty_matches_ok|done].
Qed.

(** A required argument that takes a value, and that is the only argument
    of its name, has a value. *)
Lemma required_value l gs m a :
  matches_ok l m -> validated l gs m -> a ∈ l -> a_required a = true ->
  a_takes_value a = true \/ is_positional a = true ->
  (forall b, b ∈ l -> a_name b = a_name a -> b = a) ->
  is_Some (value_of m (a_name a)).
Proof.
  intros [_ Hf] [Hreq _] Ha Hr Ht Huniq. pose proof (Hreq a Ha Hr) as Hp.
  rewrite /is_present in Hp. apply orb_true_iff in Hp as [Hp|Hp].
  - apply bool_decide_eq_true_1, Hf in Hp as (b & Hb & Hn & Htb & Hpb).
    rewrite (Huniq b Hb Hn) in Htb, Hpb. destruct Ht; congruence.
  - by apply bool_decide_eq_true_1 in Hp.
Qed.

(** A subcommand in the matches was parsed by its declaration. *)
Lemma get_matches_sub app argv mt n m :
  get_matches app argv = Ok mt -> sub mt = Some (n, m) ->
  exists s rest, s ∈ app_subcommands app /\ s_name s = n /\ argv = n :: rest /\
    parse_command (s_args s) (s_groups s) rest = Ok m.
Proof.
  rewrite /get_matches. case_match; [done|].
  destruct (app_subcommands app) as [|s0 subs] eqn:Hsubs.
  - destruct (parse_command _ _ _); [|done]. by intros [= <-].
  - destruct argv as [|t rest]; [by intros [= <-]|].
    case_match; [done|]. case_match; [done|].
    destruct (List.find _ _) as [s|] eqn:Hf; [|done].
    destruct (parse_command _ _ rest) as [m1|] eqn:Hp; [|done]. intros [= <-] [= <- <-].
    exists s, rest. pose proof (find_in _ _ _ Hf). apply find_some in Hf as [_ Hn].
    apply String.eqb_eq in Hn. by subst t.
Qed.

(** The argument [a] of the declaration [l] is required, takes a value and
    is the only one of its name: a parsed command gives it a value. *)
Ltac required_has a :=
  match goal with
  | Hok : matches_ok _ ?m, Hval : validated _ _ ?m |- is_Some (value_of ?m _) =>
      apply (required_value _ _ m a Hok Hval);
      [ apply list_elem_of_In; cbn; tauto
      | reflexivity | cbn; tauto
      | let b := fresh "b" in let Hb := fresh "Hb" in let Hn := fresh "Hn" in
        intros b Hb Hn; apply list_elem_of_In in Hb; cbn in Hb;
        repeat destruct Hb as [<-|Hb]; try discriminate; try reflexivity; contradiction ]
  end.

End Clap.

(** ** bot-admin's command line (src/app/src/bot-admin/src/main.rs 41-149) *)

Module AdminCli.
Import BotAdmin Clap.

Definition _clap_name : Arg :=
  with_name "name" |> help "bot名" |> long "name" |> takes_value true.

Definition _clap_description : Arg :=
  with_name "description" |> help "botの説明" |> long "description" |> takes_value true.

Definition _clap_enable : Arg :=
  with_name "enable" |> help "有効かどうか" |> long "enable"
  |> possible_values ["true"; "false"] |> takes_value true.

Definition _clap_long_order : Arg :=
  with_name "long_order" |> help "ロング注文可能かどうか" |> long "long_order"
  |> possible_values ["true"; "false"] |> takes_value true.

Definition _clap_short_order : Arg :=
  with_name "short_order" |> help "ショート注文可能かどうか" |> long "short_order"
  |> possible_values ["true"; "false"] |> takes_value true.

Definition _clap_operation : Arg :=
  with_name "operation" |> help "運用" |> long "operation"
  |> possible_values ["backtest"; "forwardtest"; "product"] |> takes_value true.

Definition _clap_output : ArgGroup := group_with_name "output" |> args ["json"; "yaml"].

Definition id_arg : Arg := with_name "id" |> help "対象bot id" |> required true.

(** The usage lines ["-j, --json 'json mode: output group'"] and
    ["-y, --yaml 'yaml mode: output group'"]. *)
Definition output_usage : list (Ascii.ascii * string * string) :=
  [("j"%char, "json", "json mode: output group"); ("y"%char, "yaml", "yaml mode: output group")].

(** [get_args_matches]'s [App]. *)
Definition app : App :=
  app_new "bot-admin" |> version "0.0.1" |> author "Didy KUPANHY" |> about "bot管理コマンド"
  |> setting ArgRequiredElseHelp |> setting DeriveDisplayOrder
  |> subcommand
       (sub_with_name "add" |> sub_about "管理するbotを追加する" |> sub_setting DeriveDisplayOrder
        |> arg (_clap_name |> required true) |> arg (_clap_description |> required true)
        |> arg _clap_enable |> arg _clap_long_order |> arg _clap_short_order |> arg _clap_operation)
  |> subcommand
       (sub_with_name "update" |> sub_about "対象botの情報を更新する" |> sub_setting DeriveDisplayOrder
        |> arg id_arg |> arg _clap_name |> arg _clap_description |> arg _clap_enable
        |> arg _clap_long_order |> arg _clap_short_order |> arg _clap_operation)
  |> subcommand
       (sub_with_name "remove" |> sub_about "管理から対象botを取り除く" |> arg id_arg)
  |> subcommand
       (sub_with_name "get" |> sub_about "対象botを取得する" |> args_from_usage output_usage
        |> arg id_arg |> group _clap_output)
  |> subcommand
       (sub_with_name "list" |> sub_about "管理してるbot一覧" |> args_from_usage output_usage
        |> group (_clap_output |> group_required true)).

(** [get_args_matches]. *)
Definition get_args_matches (argv : list string) : result Matches Error := get_matches app argv.

(** [args_matches.subcommand_matches(..)] as [get_config] tries them. *)
Definition subcommand_of (m : Matches) : BotAdmin.subcommand :=
  match sub m with
  | Some (n, sm) =>
      if String.eqb n "add" then SubAdd sm
      else if String.eqb n "update" then SubUpdate sm
      else if String.eqb n "remove" then SubRemove sm
      else if String.eqb n "get" then SubGet sm
      else if String.eqb n "list" then SubList sm
      else SubNone
  | None => SubNone
  end.

(** ** Theorems *)

(** The subcommand clap returns is one of the declaration's, parsed by
    it. *)
Lemma admin_sub argv mt n m :
  get_args_matches argv = Ok mt -> sub mt = Some (n, m) ->
  exists s, s ∈ app_subcommands app /\ s_name s = n /\ matches_ok (s_args s) m /\
            validated (s_args s) (s_groups s) m.
Proof.
  intros H Hs. destruct (get_matches_sub _ _ _ _ _ H Hs) as (s & rest & Hin & Hn & _ & Hp).
  apply parse_command_ok in Hp as [Hok Hval]. by exists s.
Qed.

(** The required arguments of each subcommand have values. *)
Lemma admin_required argv mt n m :
  get_args_matches argv = Ok mt -> sub mt = Some (n, m) ->
  (n = "add" -> is_Some (value_of m "name") /\ is_Some (value_of m "description")) /\
  (n ∈ ["update"; "remove"; "get"] -> is_Some (value_of m "id")).
Proof.
  intros H Hs. destruct (admin_sub _ _ _ _ H Hs) as (s & Hin & <- & Hok & Hval).
  cbn in Hin. repeat (apply elem_of_cons in Hin as [->|Hin]); [| | | | |by apply elem_of_nil in Hin];
    cbn in *; split; intros Hn; try discriminate Hn;
    try (by repeat (apply elem_of_cons in Hn as [Hn|Hn]); [..|apply elem_of_nil in Hn]);
    try required_has id_arg.
  split; [required_has (required true _clap_name) | required_has (required true _clap_description)].
Qed.

(** C21: clap guarantees the arguments [get_config]'s [unwrap]s read: on
    every command line clap accepts, [get_config] returns a [Config]
    without panicking. *)
Theorem get_config_no_panic argv mt (w : BotAdmin.world) :
  get_args_matches argv = Ok mt ->
  exists cfg, get_config (E := Empty_set) (subcommand_of mt) w = (Ret cfg, w).
Proof.
  intros H. rewrite /subcommand_of. destruct (sub mt) as [[n m]|] eqn:Hs; [|by eexists].
  destruct (admin_required _ _ _ _ H Hs) as [Hadd Hid].
  repeat match goal with |- context [String.eqb n ?k] =>
    destruct (String.eqb_spec n k) as [->|_]; rewrite /get_config /bind end; [..|by eexists].
  - destruct (Hadd eq_refl) as [Hn Hd].
    destruct (get_option_spec (E := Empty_set) m ["name"; "description"]
                ["enable"; "long_order"; "short_order"; "operation"] w) as [o [-> _]];
      [by repeat constructor|by eexists].
  - destruct (get_option_spec (E := Empty_set) m ["id"]
                ["id"; "name"; "description"; "enable"; "long_order"; "short_order"; "operation"] w)
      as [o [-> _]]; [constructor; [apply Hid; set_solver|constructor]|by eexists].
  - destruct (get_option_spec (E := Empty_set) m ["id"] [] w) as [o [-> _]];
      [constructor; [apply Hid; set_solver|constructor]|by eexists].
  - destruct (get_option_spec (E := Empty_set) m ["id"] [] w) as [o [-> _]];
      [constructor; [apply Hid; set_solver|constructor]|by eexists].
  - destruct (get_option_spec (E := Empty_set) m [] [] w) as [o [-> _]]; [constructor|by eexists].
Qed.

(** ** Witnesses *)

Definition add_argv : list string := ["add"; "--name"; "b"; "--description=d"; "--enable"; "true"].

Definition add_matches : Matches :=
  mk_top empty_matches
    (Some ("add", mk_matches (<["enable" := "true"]> (<["description" := "d"]> (<["name" := "b"]> ∅))) [])).

Lemma get_config_no_panic_witness :
  exists cfg, get_config (E := Empty_set) (subcommand_of add_matches) witness_world
              = (Ret cfg, witness_world).
Proof. apply (get_config_no_panic add_argv). vm_compute. reflexivity. Defined.

End AdminCli.

(** ** fetch-ohlcv-rs's command line (src/app/src/fetch-ohlcv-rs/src/main.rs 50-75) *)

Module FetchCli.
Import BotAdmin Clap.

Definition app : App :=
  app_new "fetch-ohlcv-rs" |> version "0.0.1" |> author "Didy KUPANHY"
  |> about "cryptowatから取得したOHLCVデータをデータベースに保存する"
  |> app_arg (with_name "exchange" |> help "対象取引所" |> takes_value true |> required true)
  |> app_arg (with_name "pair" |> help "対象通貨" |> takes_value true |> required true)
  |> app_arg (with_name "period" |> help "足の期間(秒指定)" |> takes_value true |> required true).

Definition get_args_matches (argv : list string) : result Matches Error := get_matches app argv.

(** The first lines of [get_ohlcv_setting] (main.rs 81-83):
    [args_matches.value_of(k).unwrap()] for the three arguments. *)
Definition setting_args {S E} (m : Matches) : St S E (string * string * string) :=
  (exchange <- unwrap_option (value_of (top m) "exchange") ;;
   pair_ <- unwrap_option (value_of (top m) "pair") ;;
   period <- unwrap_option (value_of (top m) "period") ;;
   ret (exchange, pair_, period))%rust.

(** ** Theorems *)

(** C30: the [unwrap]s of [get_ohlcv_setting] never panic: on every command
    line clap accepts, the three arguments have values. *)
Theorem setting_args_no_panic {S E} argv m (s : S) :
  get_args_matches argv = Ok m ->
  exists ex pa pe, setting_args (E := E) m s = (Ret (ex, pa, pe), s).
Proof.
  rewrite /get_args_matches /get_matches. cbn -[parse_command].
  destruct (parse_command _ _ argv) as [m1|] eqn:Hp; [|by case_match].
  case_match; [done|]. intros [= <-]. apply parse_command_ok in Hp as [Hok Hval].
  assert (Hex : is_Some (value_of m1 "exchange"))
    by required_has (with_name "exchange" |> help "対象取引所" |> takes_value true |> required true).
  assert (Hpa : is_Some (value_of m1 "pair"))
    by required_has (with_name "pair" |> help "対象通貨" |> takes_value true |> required true).
  assert (Hpe : is_Some (value_of m1 "period"))
    by required_has (with_name "period" |> help "足の期間(秒指定)" |> takes_value true |> required true).
  destruct Hex as [ex Hex], Hpa as [pa Hpa], Hpe as [pe Hpe].
  exists ex, pa, pe. rewrite /setting_args /bind. cbn [top]. by rewrite Hex Hpa Hpe.
Qed.

(** C31: [fetch-ohlcv-rs EXCHANGE PAIR PERIOD] is read back as it was
    written: clap gives the three words, in order, to [exchange], [pair]
    and [period], and [get_ohlcv_setting] takes them. *)
Theorem fetch_cli_roundtrip {S E} ex pa pe (s : S) :
  Clap.classify ex = TPlain -> Clap.classify pa = TPlain -> Clap.classify pe = TPlain ->
  exists m, get_args_matches [ex; pa; pe] = Ok m /\
    setting_args (E := E) m s = (Ret (ex, pa, pe), s).
Proof.
  intros Hex Hpa Hpe. rewrite /get_args_matches /get_matches. cbn -[parse_command].
  rewrite /parse_command.
  rewrite (parse_args_plain _ 0 ex _ _ (with_name "exchange" |> help "対象取引所" |> takes_value true
                                        |> required true)
             (mk_matches (<["exchange" := ex]> ∅) []) Hex); [reflexivity|vm_compute; reflexivity|].
  rewrite (parse_args_plain _ 1 pa _ _ (with_name "pair" |> help "対象通貨" |> takes_value true
                                        |> required true)
             (mk_matches (<["pair" := pa]> (<["exchange" := ex]> ∅)) []) Hpa);
    [reflexivity|vm_compute; reflexivity|].
  rewrite (parse_args_plain _ 2 pe _ _ (with_name "period" |> help "足の期間(秒指定)" |> takes_value true
                                        |> required true)
             (mk_matches (<["period" := pe]> (<["pair" := pa]> (<["exchange" := ex]> ∅))) []) Hpe);
    [reflexivity|vm_compute; reflexivity|].
  eexists. split; [vm_compute; reflexivity|]. reflexivity.
Qed.

(** ** Witnesses *)

Definition fetch_matches : Matches :=
  mk_top (mk_matches (<["period" := "60"]> (<["pair" := "btcjpy"]> (<["exchange" := "bitflyer"]> ∅))) [])
         None.

Lemma setting_args_no_panic_witness :
  exists ex pa pe, setting_args (E := Empty_set) fetch_matches tt = (Ret (ex, pa, pe), tt).
Proof.
  apply (setting_args_no_panic (S := unit) ["--"; "bitflyer"; "btcjpy"; "60"]).
  vm_compute. reflexivity.
Defined.

Lemma fetch_cli_roundtrip_witness :
  exists m, get_args_matches ["bitflyer"; "btcjpy"; "60"] = Ok m /\
    setting_args (E := Empty_set) m tt = (Ret ("bitflyer", "btcjpy", "60"), tt).
Proof. apply (fetch_cli_roundtrip (S := unit)); reflexivity. Defined.

End FetchCli.
