(* ===== verification/MarketApi.v ===== *)
(** * The HTTP facade (src/app/src/market-api-rs/src/main.rs)

    The handlers of the actix-web server: [GET /], [GET /ohlcv/{market}/
    {pair}/{period}], [POST /bot] and [GET /bot/{id}].  Each runs its
    database work in [web::block] and answers [200] with a JSON body or
    [500]; a panic inside the block cancels it, which the handler maps to
    [500] as well.  The state is the database: its [ohlcv] and [bot]
    tables.  The server start-up ([main], [run], the routes) is in
    [Processes].  [post_bot_handler] takes the request body's bytes and
    parses them with [JsonText] outside [web::block], as [post_bot] does,
    so a malformed body panics the handler; the [token] header is an
    optional string. *)

From stdpp Require Import base gmap strings list.
From Stdlib Require Import ZArith Lia ssreflect.
From S2P Require Import Prelude RustPrim Json JsonText AtbDb BotStore.
Open Scope Z_scope.
Local Set Warnings "-rewrite-rw".

Module MarketApi.
Import BotStore.

(** The response bodies the handlers serialize. *)
Inductive body : Type :=
| BodyText (s : string)
| BodyOhlcv (l : list AtbDb.candle)
| BodyBot (b : Bot)
| BodyBotForGet (b : BotForGet.BotForGet).

Inductive response : Type :=
| HttpOk (b : body)
| InternalServerError.

(** The database behind the [Arc<AtbDB>]. *)
Record server : Type := mk_server {
  ohlcv_db : AtbDb.AtbDB;
  bot_db : bot_table
}.

(** [web::block(f).await] mapped by [.map(HttpResponse::Ok().json)] and
    [.map_err(|_| InternalServerError)]: an [Err] of [f] and a panic in
    [f] both answer 500. *)
Definition web_block {S E A} (ok : A -> body) (c : St S E A) : St S Empty_set response :=
  fun s =>
    match c s with
    | (Ret a, s') => (Ret (HttpOk (ok a)), s')
    | (Throw _, s') => (Ret InternalServerError, s')
    | (Abort _, s') => (Ret InternalServerError, s')
    end.

(** [_get_index] (main.rs 100-107). *)
Definition _get_index : result string string :=
  Ok "
        GET /ohlcv/{market}/{pair}/{period}
        GET /bot/{bot-id}
        POST /bot
    ".

(** [index] (main.rs 109-115). *)
Definition index {S} : St S Empty_set response :=
  web_block BodyText (try_result (fun e : string => e) _get_index).

(** [get_ohlcv] (main.rs 117-128): the period is an [i64] path segment,
    passed back as its decimal string. *)
Definition get_ohlcv (market pair : string) (period : Z) : St server Empty_set response :=
  web_block BodyOhlcv
    (fun s => (match AtbDb.get_ohlcv_list (ohlcv_db s) market pair (I64.i64_to_string period) with
               | Ok l => Ret l
               | Err e => Throw e
               end, s)).

(** [if json.get(k).is_none() || !json[k].is_string() ||
    json[k].as_str().unwrap().len() == 0 { return None; }], then the
    string. *)
Definition str_field (json : Json.value) (k : string) : option string :=
  match Json.get json k with
  | None => None
  | Some _ =>
      match Json.as_str (Json.index_key json k) with
      | Some s => if (String.length s =? 0)%nat then None else Some s
      | None => None
      end
  end.

(** [json.get(k).is_some() && json[k].is_boolean()], then ["1"] or ["0"]. *)
Definition bool_field (json : Json.value) (k : string) : option string :=
  match Json.get json k with
  | None => None
  | Some _ =>
      match Json.as_bool (Json.index_key json k) with
      | Some b => Some (if b then "1" else "0")
      | None => None
      end
  end.

(** [_get_option] (main.rs 130-196): [name] and [description] non-empty
    strings and [enable] a boolean are required; [long_order] and
    [short_order] are taken when they are booleans. *)
Definition _get_option (json : Json.value) : option (gmap string string) :=
  match str_field json "name" with
  | None => None
  | Some n =>
  match str_field json "description" with
  | None => None
  | Some d =>
  match bool_field json "enable" with
  | None => None
  | Some e =>
      let o := <["enable" := e]> (<["description" := d]> (<["name" := n]> ∅)) in
      let o := match bool_field json "long_order" with
               | Some v => <["long_order" := v]> o | None => o end in
      let o := match bool_field json "short_order" with
               | Some v => <["short_order" := v]> o | None => o end in
      Some o
  end
  end
  end.

(** ** Theorems *)

(** A body [_get_option] accepts names only columns of the table, at
    least one, and not [id]. *)
Lemma get_option_keys json o :
  _get_option json = Some o ->
  o <> ∅ /\ map_Forall (fun k _ => known_column k = true) o /\ o !! "id" = None.
Proof.
  rewrite /_get_option. repeat case_match; intros; simplify_eq; split_and!;
    try apply insert_non_empty;
    try (repeat apply map_Forall_insert_2; try reflexivity; apply map_Forall_empty);
    by simplify_map_eq.
Qed.

Section Handlers.
Context {HO : HashOrder}.

(** The closure of [post_bot] (main.rs 205-224): insert, then read back
    the bot whose id is the [usize] [insert_bot] returned. *)
Definition post_bot_block (json : Json.value) : St bot_table string Bot :=
  match _get_option json with
  | None => throw ""
  | Some o =>
      (r <- to_result (insert_bot o) ;;
       match r with
       | Err _ => throw ""
       | Ok last_id =>
           b <- to_result (BotStore.get_bot (I64.i64_to_string (Z.of_nat last_id))) ;;
           match b with
           | Err _ => throw ""
           | Ok bot => ret bot
           end
       end)%rust
  end.

(** [post_bot] (main.rs 198-229) on the [bot] table. *)
Definition post_bot (json : Json.value) : St server Empty_set response :=
  fun s =>
    let '(r, t) := web_block BodyBot (post_bot_block json) (bot_db s) in
    (r, mk_server (ohlcv_db s) t).

(** [post_bot] (main.rs 198-204) on the request's body bytes:
    [std::str::from_utf8(&body).unwrap()] and
    [serde_json::from_str(result).unwrap()] run before [web::block], so a
    body that is not UTF-8 or not one JSON value panics the handler
    instead of answering [500]. *)
Definition post_bot_handler (body : string) : St server Empty_set response :=
  if negb (JsonText.utf8_valid body) then abort PanicUnwrapErr
  else match JsonText.from_str body with
       | Err _ => abort PanicUnwrapErr
       | Ok json => post_bot json
       end.

(** [HeaderValue::to_str] succeeds on the bytes of visible ASCII and tab
    only ([is_visible_ascii] of the [http] crate). *)
Definition visible_ascii (c : Ascii.ascii) : bool :=
  let n := Ascii.nat_of_ascii c in ((32 <=? n) && (n <? 127))%nat || (n =? 9)%nat.

Fixpoint header_str (h : string) : bool :=
  match h with
  | EmptyString => true
  | String c h' => visible_ascii c && header_str h'
  end.

(** [_get_token] (main.rs 231-239): the [token] header, or [""];
    [to_str().unwrap()] panics on a header with another byte. *)
Definition _get_token {S E} (header : option string) : St S E string :=
  match header with
  | Some t => if header_str t then ret t else abort PanicUnwrapErr
  | None => ret ""
  end.

(** [get_bot] (main.rs 241-254): the token is read before [web::block]. *)
Definition get_bot (path_id : Z) (header : option string) : St server Empty_set response :=
  (tok <- _get_token header ;;
   fun s =>
     let '(r, t) := web_block BodyBotForGet
                      (get_bot_for_api (I64.i64_to_string path_id) tok) (bot_db s) in
     (r, mk_server (ohlcv_db s) t))%rust.

Lemma post_bot_block_stores json o t :
  _get_option json = Some o ->
  snd (post_bot_block json t) =
    with_bots t (bots t ++ [<["id" := SqlInt (next_rowid (bots t))]> (stored o ∪ default_row t)]).
Proof.
  intros Ho. destruct (get_option_keys json o Ho) as (Hne & Hknown & Hid).
  rewrite /post_bot_block Ho /bind /to_result (insert_bot_spec t o Hne Hknown Hid) /=.
  set t' := with_bots t _. pose proof (get_bot_state (I64.i64_to_string 1) t') as Hs.
  destruct (BotStore.get_bot _ t') as [[]] eqn:Hg; simpl in Hs; by subst.
Qed.

Lemma post_bot_state json s : bot_db (snd (post_bot json s)) = snd (post_bot_block json (bot_db s)).
Proof. rewrite /post_bot /web_block. by destruct (post_bot_block json (bot_db s)) as [[]]. Qed.

(** C23: [POST /bot] with a body [_get_option] accepts always adds the bot
    to the table, whatever it answers. *)
Theorem post_bot_stores json o s :
  _get_option json = Some o ->
  bot_db (snd (post_bot json s)) =
    with_bots (bot_db s) (bots (bot_db s) ++
      [<["id" := SqlInt (next_rowid (bots (bot_db s)))]> (stored o ∪ default_row (bot_db s))]).
Proof.
  intros Ho. by rewrite post_bot_state (post_bot_block_stores json o (bot_db s) Ho).
Qed.

(** C7: [POST /bot] answers with the bot whose id is 1: it reads back the
    row whose id is the number of rows [execute] changed. *)
Theorem post_bot_answers_bot_one json s s' b :
  post_bot json s = (Ret (HttpOk (BodyBot b)), s') -> id b = 1.
Proof.
  rewrite /post_bot /web_block /post_bot_block.
  destruct (_get_option json) as [o|]; [|by rewrite /throw].
  rewrite /bind /to_result.
  destruct (insert_bot o (bot_db s)) as [[n| |] t1] eqn:Hins; try by rewrite /throw.
  apply insert_bot_ret in Hins as ->.
  destruct (BotStore.get_bot _ t1) as [[b'| |] t2] eqn:Hg; try by rewrite /throw.
  rewrite /ret. intros [= <- _]. apply get_bot_found in Hg as (i & r & Hf & Hr).
  apply row_to_bot_id in Hr. apply list_find_Some in Hf as (_ & Hm & _).
  assert (H1 : apply_affinity AInteger (I64.i64_to_string (Z.of_nat 1)) = SqlInt 1)
    by (vm_compute; reflexivity).
  rewrite H1 in Hm. apply id_matches_int in Hm. rewrite /row_id Hr in Hm.
  cbn in Hm. congruence.
Qed.

(** C15: [GET /bot/{id}] answers a bot only from the row with that id whose
    stored token equals the request's [token] header ([""] without one),
    a header [_get_token] reads without panicking. *)
Theorem get_bot_requires_token path_id header s s' b :
  I64.MIN <= path_id <= I64.MAX ->
  get_bot path_id header s = (Ret (HttpOk (BodyBotForGet b)), s') ->
  s' = s /\ exists tok, _get_token (E := Empty_set) header s = (Ret tok, s) /\
    exists r, r ∈ bots (bot_db s) /\ row_id r = Some path_id /\
    r !! "token" = Some (SqlText tok).
Proof.
  intros Hz. rewrite /get_bot /bind.
  destruct (_get_token header s) as [[tok|[]|p] s0] eqn:Htok; [|done].
  assert (s0 = s) as -> by (move: Htok; rewrite /_get_token; by repeat case_match; intros [= _ ->]).
  rewrite /web_block.
  destruct (get_bot_for_api _ _ (bot_db s)) as [[b'| |] t] eqn:Hg; try done.
  intros [= <- <-]. apply get_bot_for_api_token in Hg as [-> [r (Hin & Ht & Hm & _)]].
  split; [by destruct s|]. exists tok. split; [done|]. exists r. split_and!; [done| |done].
  rewrite (parse_int_affinity _ path_id) in Hm; [by apply I64.print_parse|].
  by apply id_matches_int.
Qed.

End Handlers.

(** ** Witnesses and findings *)

Definition bot_json (n : string) : Json.value :=
  Json.Object [("name", Json.Str n); ("description", Json.Str "d"); ("enable", Json.Bool true)].

Definition witness_server (t : bot_table) : server :=
  mk_server (AtbDb.mk_db (AtbDb.mk_caps true false) []) t.

Lemma post_bot_stores_witness :
  bot_db (snd (post_bot (HO := key_order) (bot_json "b") (witness_server witness_table))) =
    with_bots witness_table (bots witness_table ++
      [<["id" := SqlInt (next_rowid (bots witness_table))]>
         (stored witness_opt ∪ default_row witness_table)]).
Proof.
  apply (post_bot_stores (HO := key_order) (bot_json "b") witness_opt
           (witness_server witness_table)).
  vm_compute. reflexivity.
Defined.

Definition bot_b : Bot := mk_bot 1 "b" "d" true 0 "t" false false "backtest".

Lemma post_bot_answers_bot_one_witness : id bot_b = 1.
Proof.
  apply (post_bot_answers_bot_one (HO := key_order) (bot_json "b") (witness_server witness_table)
           (snd (post_bot (HO := key_order) (bot_json "b") (witness_server witness_table)))).
  vm_compute. reflexivity.
Defined.

Lemma get_bot_requires_token_witness :
  witness_server witness_table1 = witness_server witness_table1 /\
  exists tok, _get_token (E := Empty_set) (Some "t") (witness_server witness_table1)
                = (Ret tok, witness_server witness_table1) /\
  exists r, r ∈ bots witness_table1 /\ row_id r = Some 1 /\ r !! "token" = Some (SqlText tok).
Proof.
  apply (get_bot_requires_token 1 (Some "t") (witness_server witness_table1)
           (witness_server witness_table1)
           (BotForGet.mk_bot_for_get "b" "d" true 0 false false "backtest")).
  - vm_compute. split; discriminate.
  - vm_compute. reflexivity.
Defined.

(** Finding: with bot 1 in the table, [POST /bot] of a new bot stores it
    as bot 2 and answers with bot 1. *)
Example post_bot_answers_other_bot :
  let s' := post_bot (HO := key_order) (bot_json "z") (witness_server witness_table1) in
  fst s' = Ret (HttpOk (BodyBot bot_b)) /\ length (bots (bot_db (snd s'))) = 2%nat.
Proof. vm_compute. split; reflexivity. Qed.

(** Finding: a table whose [token] column has no default stores the bots
    [POST /bot] adds with a [NULL] token, which no [GET /bot/{id}] matches:
    the request answers 500, with or without a [token] header. *)
Example get_bot_null_token :
  let t := mk_bot_table (AtbDb.mk_caps true false)
             (delete "token" witness_defaults) [] in
  let s := snd (post_bot (HO := key_order) (bot_json "b") (witness_server t)) in
  fst (get_bot 1 None s) = Ret InternalServerError /\
  fst (get_bot 1 (Some "") s) = Ret InternalServerError.
Proof. vm_compute. split; reflexivity. Qed.

(** Finding: without a default for [registered], reading the bot back
    panics; [POST /bot] answers 500 although the bot was stored. *)
Example post_bot_null_column_500 :
  let t := mk_bot_table (AtbDb.mk_caps true false)
             (delete "registered" witness_defaults) [] in
  let s' := post_bot (HO := key_order) (bot_json "b") (witness_server t) in
  fst s' = Ret InternalServerError /\ length (bots (bot_db (snd s'))) = 1%nat.
Proof. vm_compute. split; reflexivity. Qed.

End MarketApi.
