(* ===== verification/BotJson.v ===== *)
(** * The JSON text of the bot structs, and what market-api reads back

    [#[derive(serde::Serialize)]] on [Bot], [BotForGet] and [BotList]
    (src/app/lib/atb-db/src/lib.rs 14-41) writes each struct as an object
    of its fields in declaration order: [write_bot], [write_bot_for_get]
    and [write_bot_list], built from the writer of [JsonText].  bot-admin
    prints these texts for [get --json] and [list --json]
    (src/app/src/bot-admin/src/main.rs 385 and 414, [line_text]);
    market-api answers [HttpResponse::Ok().json(..)] with them.

    The theorems read the texts back with [JsonText.from_str]: a bot reads
    back as the [serde_json::Value] object of its fields in key order
    ([bot_value]), a list as the object holding the array of its bots.
    Composed with market-api's [POST /bot] ([MarketApi.post_bot_handler]),
    the text bot-admin prints for a bot makes market-api store a bot with
    the same name, description, [enable], [long_order] and [short_order];
    its [id], [registered], [token] and [operate_type] are ignored
    ([_get_option] does not read them). *)

From stdpp Require Import base gmap strings list.
From Stdlib Require Import ZArith Lia.
From S2P Require Import Prelude RustPrim Json JsonText AtbDb BotStore BotAdmin MarketApi.
Open Scope Z_scope.

Module BotJson.
Import BotStore JsonText.

(** ** The serializers *)

(** [impl Serialize for Bot] (lib.rs 14-25). *)
Definition write_bot (b : Bot) : string :=
  write_object
    [("id", write_i64 (id b)); ("name", write_str (name b));
     ("description", write_str (description b)); ("enable", write_bool (enable b));
     ("registered", write_i64 (registered b)); ("token", write_str (token b));
     ("long_order", write_bool (long_order b)); ("short_order", write_bool (short_order b));
     ("operate_type", write_str (operate_type b))].

(** [impl Serialize for BotForGet] (lib.rs 27-36). *)
Definition write_bot_for_get (b : BotForGet.BotForGet) : string :=
  write_object
    [("name", write_str (BotForGet.name b)); ("description", write_str (BotForGet.description b));
     ("enable", write_bool (BotForGet.enable b)); ("registered", write_i64 (BotForGet.registered b));
     ("long_order", write_bool (BotForGet.long_order b));
     ("short_order", write_bool (BotForGet.short_order b));
     ("operate_type", write_str (BotForGet.operate_type b))].

(** [impl Serialize for BotList] (lib.rs 38-41): a [Vec<Bot>] field. *)
Definition write_bot_list (l : BotList) : string :=
  write_object [("bot", write_array (map write_bot (bot l)))].

(** The text of a line bot-admin prints with [serde_json::to_string];
    YAML and error messages are not JSON. *)
Definition line_text (l : BotAdmin.line) : option string :=
  match l with
  | BotAdmin.PrintBotJson b => Some (write_bot b)
  | BotAdmin.PrintListJson l => Some (write_bot_list l)
  | _ => None
  end.

(** ** The values the texts parse to *)

(** A bot as a [serde_json::Value]: a [BTreeMap], so its keys in byte
    order. *)
Definition bot_value (b : Bot) : Json.value :=
  Json.Object
    [("description", Json.Str (description b)); ("enable", Json.Bool (enable b));
     ("id", Json.of_i64 (id b)); ("long_order", Json.Bool (long_order b));
     ("name", Json.Str (name b)); ("operate_type", Json.Str (operate_type b));
     ("registered", Json.of_i64 (registered b)); ("short_order", Json.Bool (short_order b));
     ("token", Json.Str (token b))].

Definition bot_for_get_value (b : BotForGet.BotForGet) : Json.value :=
  Json.Object
    [("description", Json.Str (BotForGet.description b)); ("enable", Json.Bool (BotForGet.enable b));
     ("long_order", Json.Bool (BotForGet.long_order b)); ("name", Json.Str (BotForGet.name b));
     ("operate_type", Json.Str (BotForGet.operate_type b));
     ("registered", Json.of_i64 (BotForGet.registered b));
     ("short_order", Json.Bool (BotForGet.short_order b))].

Definition bot_list_value (l : BotList) : Json.value :=
  Json.Object [("bot", Json.Array (map bot_value (bot l)))].

(** The integers of a bot are [i64]s. *)
Definition bot_in_range (b : Bot) : Prop :=
  I64.MIN <= id b <= I64.MAX /\ I64.MIN <= registered b <= I64.MAX.

(** The strings of a bot are Rust [String]s: UTF-8. *)
Definition bot_utf8 (b : Bot) : Prop :=
  Forall (fun s => utf8_valid s = true) [name b; description b; token b; operate_type b].

(** What the printed line parses to, and the ranges its integers keep. *)
Definition line_value (l : BotAdmin.line) : option Json.value :=
  match l with
  | BotAdmin.PrintBotJson b => Some (bot_value b)
  | BotAdmin.PrintListJson l => Some (bot_list_value l)
  | _ => None
  end.

Definition line_in_range (l : BotAdmin.line) : Prop :=
  match l with
  | BotAdmin.PrintBotJson b => bot_in_range b
  | BotAdmin.PrintListJson l => Forall bot_in_range (bot l)
  | _ => True
  end.

(** The options [_get_option] of market-api takes from a bot's object. *)
Definition bot_option (b : Bot) : gmap string string :=
  <["short_order" := if short_order b then "1" else "0"]>
  (<["long_order" := if long_order b then "1" else "0"]>
  (<["enable" := if enable b then "1" else "0"]>
  (<["description" := description b]> (<["name" := name b]> ∅)))).

(** ** Reading the texts back *)

Lemma reads_back_bot depth b :
  1 < depth -> bot_in_range b -> reads_back depth (write_bot b) (bot_value b).
Proof.
  intros Hd [Hi Hr].
  pose (fs := [("id", write_i64 (id b), Json.of_i64 (id b));
               ("name", write_str (name b), Json.Str (name b));
               ("description", write_str (description b), Json.Str (description b));
               ("enable", write_bool (enable b), Json.Bool (enable b));
               ("registered", write_i64 (registered b), Json.of_i64 (registered b));
               ("token", write_str (token b), Json.Str (token b));
               ("long_order", write_bool (long_order b), Json.Bool (long_order b));
               ("short_order", write_bool (short_order b), Json.Bool (short_order b));
               ("operate_type", write_str (operate_type b), Json.Str (operate_type b))]).
  change (write_bot b) with (write_object (map (fun '(k, w, _) => (k, w)) fs)).
  change (bot_value b) with (Json.Object (fold_left (fun m '(k, _, v) => map_insert k v m) fs [])).
  apply reads_back_object; [exact Hd|].
  repeat constructor; auto using reads_back_i64, reads_back_str, reads_back_bool.
Qed.

Lemma reads_back_bot_for_get depth b :
  1 < depth -> I64.MIN <= BotForGet.registered b <= I64.MAX ->
  reads_back depth (write_bot_for_get b) (bot_for_get_value b).
Proof.
  intros Hd Hr.
  pose (fs := [("name", write_str (BotForGet.name b), Json.Str (BotForGet.name b));
               ("description", write_str (BotForGet.description b),
                  Json.Str (BotForGet.description b));
               ("enable", write_bool (BotForGet.enable b), Json.Bool (BotForGet.enable b));
               ("registered", write_i64 (BotForGet.registered b),
                  Json.of_i64 (BotForGet.registered b));
               ("long_order", write_bool (BotForGet.long_order b),
                  Json.Bool (BotForGet.long_order b));
               ("short_order", write_bool (BotForGet.short_order b),
                  Json.Bool (BotForGet.short_order b));
               ("operate_type", write_str (BotForGet.operate_type b),
                  Json.Str (BotForGet.operate_type b))]).
  change (write_bot_for_get b) with (write_object (map (fun '(k, w, _) => (k, w)) fs)).
  change (bot_for_get_value b)
    with (Json.Object (fold_left (fun m '(k, _, v) => map_insert k v m) fs [])).
  apply reads_back_object; [exact Hd|].
  repeat constructor; auto using reads_back_i64, reads_back_str, reads_back_bool.
Qed.

Lemma reads_back_bot_list depth l :
  3 < depth -> Forall bot_in_range (bot l) ->
  reads_back depth (write_bot_list l) (bot_list_value l).
Proof.
  intros Hd Hall.
  pose (es := map (fun b => (write_bot b, bot_value b)) (bot l)).
  change (write_bot_list l)
    with (write_object (map (fun '(k, w, _) => (k, w))
                          [("bot", write_array (map write_bot (bot l)), Json.Array (map bot_value (bot l)))])).
  change (bot_list_value l)
    with (Json.Object (fold_left (fun m '(k, _, v) => map_insert k v m)
                         [("bot", write_array (map write_bot (bot l)), Json.Array (map bot_value (bot l)))] [])).
  apply reads_back_object; [lia|]. constructor; [|constructor].
  replace (map write_bot (bot l)) with (map fst es) by (unfold es; rewrite map_map; reflexivity).
  replace (map bot_value (bot l)) with (map snd es) by (unfold es; rewrite map_map; reflexivity).
  apply reads_back_array; [lia|]. unfold es. apply Forall_map.
  eapply Forall_impl; [exact Hall|]. intros b Hb. split; [apply reads_back_bot; [lia | exact Hb]|].
  apply starts_value_object.
Qed.

Lemma from_str_bot b : bot_in_range b -> from_str (write_bot b) = Ok (bot_value b).
Proof. intros H. apply from_str_reads_back, reads_back_bot; [lia | exact H]. Qed.

Lemma utf8_write_bot b : bot_utf8 b -> utf8_valid (write_bot b) = true.
Proof.
  intros Hu. inversion Hu as [|? ? Hn Hu1]; inversion Hu1 as [|? ? Hd Hu2];
    inversion Hu2 as [|? ? Ht Hu3]; inversion Hu3 as [|? ? Ho _]; subst.
  apply utf8_write_object.
  repeat constructor; auto using utf8_write_i64, utf8_write_bool, utf8_write_str_valid.
Qed.

Lemma str_field_nonempty k (m : list (string * Json.value)) s :
  Json.assoc k m = Some (Json.Str s) -> s <> "" ->
  MarketApi.str_field (Json.Object m) k = Some s.
Proof.
  intros Hk Hs. unfold MarketApi.str_field, Json.get, Json.index_key. cbn. rewrite Hk.
  destruct s; [congruence | reflexivity].
Qed.

Lemma get_option_bot_value b :
  name b <> "" -> description b <> "" -> MarketApi._get_option (bot_value b) = Some (bot_option b).
Proof.
  intros Hn Hd. unfold MarketApi._get_option, bot_value.
  rewrite (str_field_nonempty "name" _ (name b)), (str_field_nonempty "description" _ (description b))
    by (reflexivity || assumption).
  reflexivity.
Qed.

(** every JSON line bot-admin prints ([get --json], [list --json])
    reads back with [serde_json::from_str] as the [Value] of the bot or
    list it printed: the object of the fields in key order, the integers
    as [i64] numbers, the strings unescaped. *)
Theorem printed_json_roundtrip l :
  line_in_range l -> option_map from_str (line_text l) = option_map Ok (line_value l).
Proof.
  destruct l; simpl; intros H; try reflexivity; f_equal.
  - apply from_str_bot, H.
  - apply from_str_reads_back, reads_back_bot_list; [lia | exact H].
Qed.

Section Post.
Context {HO : HashOrder}.

Lemma post_bot_handler_json body json :
  utf8_valid body = true -> from_str body = Ok json ->
  MarketApi.post_bot_handler body = MarketApi.post_bot json.
Proof. intros Hu Hj. unfold MarketApi.post_bot_handler. now rewrite Hu, Hj. Qed.

(** C12: the text bot-admin prints for a bot, posted as the body of
    market-api's [POST /bot], makes market-api add a row with the bot's
    name, description, [enable], [long_order] and [short_order] (as the
    texts ["1"]/["0"]) and the table's defaults for the other columns,
    under the next rowid: the printed [id], [registered], [token] and
    [operate_type] are not carried over. *)
Theorem printed_bot_posted_stores b s :
  bot_in_range b -> bot_utf8 b -> name b <> "" -> description b <> "" ->
  MarketApi.bot_db (snd (MarketApi.post_bot_handler (write_bot b) s)) =
    with_bots (MarketApi.bot_db s) (bots (MarketApi.bot_db s) ++
      [<["id" := SqlInt (next_rowid (bots (MarketApi.bot_db s)))]>
         (stored (bot_option b) ∪ default_row (MarketApi.bot_db s))]).
Proof.
  intros Hr Hu Hn Hd.
  rewrite (post_bot_handler_json _ (bot_value b) (utf8_write_bot b Hu) (from_str_bot b Hr)).
  rewrite MarketApi.post_bot_state.
  exact (MarketApi.post_bot_block_stores _ _ _ (get_option_bot_value b Hn Hd)).
Qed.

End Post.

(** ** Witnesses *)

Definition bot_w : Bot := mk_bot (-5) "btc-bot" "desc" true 1700000000 "tok" true false "backtest".

Lemma printed_json_roundtrip_witness :
  line_in_range (BotAdmin.PrintBotJson bot_w) /\
  option_map from_str (line_text (BotAdmin.PrintBotJson bot_w))
  = option_map Ok (line_value (BotAdmin.PrintBotJson bot_w)).
Proof.
  assert (H : line_in_range (BotAdmin.PrintBotJson bot_w))
    by (unfold line_in_range, bot_in_range, I64.MIN, I64.MAX; simpl; lia).
  split; [exact H | exact (printed_json_roundtrip _ H)].
Defined.

Lemma printed_bot_posted_stores_witness :
  MarketApi.bot_db (snd (MarketApi.post_bot_handler (HO := key_order) (write_bot bot_w)
                           (MarketApi.witness_server witness_table))) =
    with_bots witness_table (bots witness_table ++
      [<["id" := SqlInt (next_rowid (bots witness_table))]>
         (stored (bot_option bot_w) ∪ default_row witness_table)]).
Proof.
  apply (printed_bot_posted_stores (HO := key_order) bot_w (MarketApi.witness_server witness_table));
    [unfold bot_in_range, I64.MIN, I64.MAX; simpl; lia | repeat constructor | discriminate | discriminate].
Defined.

End BotJson.
