(* ===== verification/GapAnalyzer.v ===== *)
(** * The gap loop of [store_ohlcv_to_database]
    (src/app/src/fetch-ohlcv-rs/src/main.rs, lines 204-227)

    The fetched timestamps are sorted ([lacks.sort()], modelled by
    [sort_i64]); the loop keeps the expected bucket [head_unixtime], starts
    one period before the first timestamp, and for each timestamp [t]
    advances [head_unixtime] by the period; when [head_unixtime <> t] it
    converts both to dates (chrono panics outside its range), computes
    [(t - head_unixtime) / i_period] (Rust's [/], which panics on zero),
    prints the range, resynchronises [head_unixtime := t] and adds the count
    to [lack].  Arithmetic is [i64] with wrap-around.

    [lack_loop] is that loop, generic in the state the [println!] writes to
    ([emit]).  [gap_spec] is the same loop over unbounded integers, with no
    panics; the refinement theorem says the two agree whenever the inputs are
    sane timestamps.  The functional theorems say what the count is: on a
    strictly increasing series aligned to the period grid, the number of
    missing buckets between the first and the last timestamp. *)

From Stdlib Require Import ZArith List Bool Lia Sorting.Sorted Sorting.Permutation.
From S2P Require Import Prelude RustPrim.
Import ListNotations.
Open Scope Z_scope.

Module Gap.

(** ** [lacks.sort()] *)

Fixpoint insert (x : Z) (l : list Z) : list Z :=
  match l with
  | [] => [x]
  | y :: l' => if x <=? y then x :: l else y :: insert x l'
  end.

Fixpoint sort_i64 (l : list Z) : list Z :=
  match l with
  | [] => []
  | x :: l' => insert x (sort_i64 l')
  end.

(** ** One line of output: the missing range and its count *)

Record lack_report : Type := mk_report {
  lr_from : Z;      (* [head_unixtime] *)
  lr_to : Z;        (* [lacks[i]] *)
  lr_count : Z      (* [now_lack] *)
}.

Section Loop.
Context {S E : Type} (emit : lack_report -> S -> S).

(** [Utc.timestamp(secs, 0)] *)
Definition utc_timestamp (secs : Z) : St S E unit :=
  if Chrono.timestamp_ok secs then ret tt else abort PanicChronoRange.

(** An [i64] division that may panic. *)
Definition div_i64 (a b : Z) : St S E Z :=
  match I64.rust_div a b with
  | Ok q => ret q
  | Err p => abort p
  end.

(** The [for i in 0..lacks.len()] loop. *)
Fixpoint lack_loop (i_period : Z) (lacks : list Z) (head_unixtime lack : Z)
  : St S E Z :=
  match lacks with
  | [] => ret lack
  | t :: rest =>
      let head := I64.wrapping_add head_unixtime i_period in
      if head =? t then lack_loop i_period rest head lack
      else
        (utc_timestamp head ;;
         utc_timestamp t ;;
         now_lack <- div_i64 (I64.wrapping_sub t head) i_period ;;
         modify (emit (mk_report head t now_lack)) ;;
         lack_loop i_period rest t (I64.wrapping_add lack now_lack))%rust
  end.

(** Lines 207-227 once [lacks] is sorted and non-empty: the loop starts
    with [head_unixtime = lacks[0] - i_period] and [lack = 0]. *)
Definition count_lacks (i_period : Z) (lacks : list Z) : St S E Z :=
  match lacks with
  | [] => abort PanicIndex
  | t0 :: _ => lack_loop i_period lacks (I64.wrapping_sub t0 i_period) 0
  end.
End Loop.

(** ** The loop over unbounded integers *)

Fixpoint gap_spec (p prev : Z) (ts : list Z) : list lack_report :=
  match ts with
  | [] => []
  | t :: rest =>
      if prev + p =? t then gap_spec p t rest
      else mk_report (prev + p) t (Z.quot (t - (prev + p)) p) :: gap_spec p t rest
  end.

Definition total (rs : list lack_report) : Z := fold_right (fun r acc => lr_count r + acc) 0 rs.

(** ** The sort *)

Lemma insert_perm x l : Permutation (x :: l) (insert x l).
Proof.
  induction l as [|y l IH]; simpl; [reflexivity|].
  destruct (x <=? y); [reflexivity|].
  rewrite perm_swap. constructor. exact IH.
Qed.

Lemma sort_i64_perm l : Permutation l (sort_i64 l).
Proof.
  induction l as [|x l IH]; simpl; [constructor|].
  rewrite <- insert_perm. constructor. exact IH.
Qed.

Lemma insert_sorted x l : Sorted Z.le l -> Sorted Z.le (insert x l).
Proof.
  induction 1 as [|y l Hl IH Hhd]; simpl; [repeat constructor|].
  destruct (Z.leb_spec x y).
  - repeat constructor; assumption.
  - inversion Hhd as [|z l' Hyz]; subst; simpl in *.
    + repeat constructor. lia.
    + destruct (Z.leb_spec x z); constructor; auto; constructor; lia.
Qed.

Lemma sort_i64_sorted l : Sorted Z.le (sort_i64 l).
Proof. induction l; simpl; [constructor | apply insert_sorted; assumption]. Qed.

(** Two sorted permutations of one list are equal. *)
Lemma sorted_perm_eq l1 l2 :
  StronglySorted Z.le l1 -> StronglySorted Z.le l2 -> Permutation l1 l2 -> l1 = l2.
Proof.
  intros H1. revert l2. induction H1 as [|a1 l1 H1 IH Hf1]; intros l2 H2 Hp.
  - symmetry. apply Permutation_nil, Hp.
  - destruct H2 as [|a2 l2 H2 Hf2]; [apply Permutation_sym, Permutation_nil in Hp; discriminate|].
    assert (a1 = a2) as <-.
    { assert (In a1 (a2 :: l2)) as [->|Hin1] by (eapply Permutation_in; [exact Hp | left; reflexivity]);
        [reflexivity|].
      assert (In a2 (a1 :: l1)) as [->|Hin2]
        by (eapply Permutation_in; [symmetry; exact Hp | left; reflexivity]); [reflexivity|].
      rewrite Forall_forall in Hf1, Hf2.
      specialize (Hf1 _ Hin2). specialize (Hf2 _ Hin1). lia. }
    f_equal. apply IH; [exact H2 | eapply Permutation_cons_inv; exact Hp].
Qed.

(** ** Bounds under which no [i64] operation of the loop wraps *)

(** Timestamps up to [2^41] seconds (year 71700) and periods up to the
    same bound keep every intermediate value far from [i64]'s limits and
    inside chrono's range; [2^19] records bound the running sum. *)
Definition BOUND : Z := 2 ^ 41.

Definition sane_ts (ts : list Z) : Prop := Forall (fun t => 0 <= t <= BOUND) ts.

Lemma timestamp_ok_small x : - 2 ^ 42 <= x <= 2 ^ 42 -> Chrono.timestamp_ok x = true.
Proof.
  intros Hx. unfold Chrono.timestamp_ok.
  assert (Hmin : Chrono.MIN_DAYS = -95746495) by reflexivity.
  assert (Hmax : Chrono.MAX_DAYS = 95745764) by reflexivity.
  rewrite Hmin, Hmax. apply andb_true_intro.
  split; apply Z.leb_le; Z.div_mod_to_equations; lia.
Qed.

Lemma quot_abs_le a b : 0 < b -> Z.abs (Z.quot a b) <= Z.abs a.
Proof.
  intros Hb. rewrite <- Z.quot_abs by lia. rewrite (Z.abs_eq b) by lia.
  apply Z.quot_le_upper_bound; [lia|]. nia.
Qed.

Section Refinement.
Context {S E : Type} (emit : lack_report -> S -> S).

Definition emit_all (rs : list lack_report) (s : S) : S :=
  fold_left (fun s r => emit r s) rs s.

(** The [i64] loop computes [gap_spec]: same lines, same count. *)
Lemma lack_loop_refines p ts h lack s :
  0 < p <= BOUND -> - BOUND <= h <= BOUND -> sane_ts ts ->
  Z.abs lack + Z.of_nat (length ts) * 2 ^ 43 <= 2 ^ 62 ->
  lack_loop (E := E) emit p ts h lack s
  = (Ret (lack + total (gap_spec p h ts)), emit_all (gap_spec p h ts) s).
Proof.
  unfold sane_ts, BOUND. intros Hp. revert h lack s.
  induction ts as [|t ts IH]; intros h lack s Hh Hts Hlack; simpl.
  - rewrite Z.add_0_r. reflexivity.
  - inversion Hts as [|? ? Ht Hts']; subst. simpl length in Hlack.
    rewrite I64.wrapping_add_exact by (unfold I64.MIN, I64.MAX; lia).
    destruct (Z.eqb_spec (h + p) t) as [<-|Hne].
    + apply IH; [lia | exact Hts' | lia].
    + unfold utc_timestamp, div_i64.
      rewrite !timestamp_ok_small by lia. simpl_st.
      rewrite I64.wrapping_sub_exact by (unfold I64.MIN, I64.MAX; lia).
      rewrite I64.rust_div_pos by lia.
      pose proof (quot_abs_le (t - (h + p)) p ltac:(lia)) as Hq.
      rewrite I64.wrapping_add_exact by (unfold I64.MIN, I64.MAX; lia).
      rewrite IH by (try exact Hts'; lia).
      f_equal. f_equal. simpl. lia.
Qed.

(** With a period of zero the expected bucket never moves: the loop runs
    through the timestamps equal to it and panics at the first other one. *)
Lemma lack_loop_period_zero ts h lack s :
  0 <= h <= BOUND -> sane_ts ts ->
  fst (lack_loop (E := E) emit 0 ts h lack s)
  = if forallb (Z.eqb h) ts then Ret lack else Abort PanicDivByZero.
Proof.
  unfold sane_ts, BOUND. intros Hh Hts. revert lack s.
  induction Hts as [|t ts Ht Hts IH]; intros lack s; simpl; [reflexivity|].
  rewrite I64.wrapping_add_exact, Z.add_0_r by (unfold I64.MIN, I64.MAX; lia).
  destruct (Z.eqb_spec h t) as [<-|Hne]; [apply IH|].
  unfold utc_timestamp, div_i64. rewrite !timestamp_ok_small by lia. reflexivity.
Qed.
End Refinement.

(** ** What the count is *)

Lemma last_cons (t d : Z) ts : last (t :: ts) d = last ts t.
Proof.
  revert t d. induction ts as [|a ts IH]; intros t d; [reflexivity|].
  change (last (a :: ts) d = last (a :: ts) t). rewrite !IH. reflexivity.
Qed.

Lemma last_ge prev ts : StronglySorted Z.lt (prev :: ts) -> prev <= last ts prev.
Proof.
  revert prev. induction ts as [|t ts IH]; intros prev H; [simpl; lia|].
  inversion H as [|? ? H1 Hf]; subst. inversion Hf; subst.
  rewrite last_cons. specialize (IH t H1). lia.
Qed.

(** On a strictly increasing series aligned to the grid of [p], the spec
    counts the buckets after [prev] and up to the last timestamp that are
    not in the series. *)
Lemma gap_spec_total_aligned p prev ts :
  0 < p -> StronglySorted Z.lt (prev :: ts) -> Forall (fun t => (p | t - prev)) ts ->
  total (gap_spec p prev ts) = (last ts prev - prev) / p - Z.of_nat (length ts).
Proof.
  intros Hp. revert prev. induction ts as [|t ts IH]; intros prev Hs Ha; simpl gap_spec.
  - simpl. rewrite Z.sub_diag, Z.div_0_l by lia. reflexivity.
  - inversion Hs as [|? ? Hs' Hf]; subst. inversion Hf as [|? ? Hlt _]; subst.
    inversion Ha as [|? ? [k Hk] Ha']; subst.
    assert (Hrest : Forall (fun t' => (p | t' - t)) ts).
    { eapply Forall_impl; [|exact Ha']. intros t' Ht'.
      replace (t' - t) with ((t' - prev) - (t - prev)) by lia.
      apply Z.divide_sub_r; [exact Ht' | exists k; exact Hk]. }
    pose proof (IH t Hs' Hrest) as Hrec.
    assert (Hk1 : 1 <= k) by nia.
    rewrite last_cons.
    assert (Hsplit : (last ts t - prev) / p = (last ts t - t) / p + k).
    { replace (last ts t - prev) with ((last ts t - t) + k * p) by lia.
      apply Z.div_add; lia. }
    rewrite Hsplit. simpl length. rewrite Nat2Z.inj_succ.
    destruct (Z.eqb_spec (prev + p) t).
    + assert (k = 1) by nia. lia.
    + simpl total. fold (total (gap_spec p t ts)).
      replace (t - (prev + p)) with ((k - 1) * p) by lia.
      rewrite Z.quot_mul by lia. lia.
Qed.

(** ** Properties of the loop as the program runs it *)

Section Claims.
Context {S E : Type} (emit : lack_report -> S -> S).

(** C19: on sane input (timestamps and period up to [2^41], at most [2^19]
    records) the [i64] loop, with its panics and wrap-around, prints exactly
    the ranges of [gap_spec] and returns their total. *)
Theorem count_lacks_refines p t0 ts s :
  0 < p <= BOUND -> sane_ts (t0 :: ts) -> Z.of_nat (length (t0 :: ts)) <= 2 ^ 19 ->
  count_lacks (E := E) emit p (t0 :: ts) s
  = (Ret (total (gap_spec p t0 ts)), emit_all emit (gap_spec p t0 ts) s).
Proof.
  intros Hp Hts Hlen. unfold count_lacks.
  inversion Hts as [|? ? Ht0 _]; subst. unfold BOUND in *.
  rewrite I64.wrapping_sub_exact by (unfold I64.MIN, I64.MAX; lia).
  rewrite lack_loop_refines by (unfold BOUND; try exact Hts; lia).
  simpl gap_spec. rewrite Z.sub_add, Z.eqb_refl. reflexivity.
Qed.

(** C2: on a strictly increasing batch aligned to the period grid the
    reported [lack] is the number of grid buckets between the first and
    the last timestamp that the batch does not contain. *)
Theorem count_lacks_missing_buckets p t0 ts s :
  0 < p <= BOUND -> sane_ts (t0 :: ts) -> Z.of_nat (length (t0 :: ts)) <= 2 ^ 19 ->
  StronglySorted Z.lt (t0 :: ts) -> Forall (fun t => (p | t - t0)) ts ->
  fst (count_lacks (E := E) emit p (t0 :: ts) s)
  = Ret ((last ts t0 - t0) / p + 1 - Z.of_nat (length (t0 :: ts))).
Proof.
  intros Hp Hts Hlen Hs Ha. unfold count_lacks.
  inversion Hts as [|? ? Ht0 Hts']; subst. unfold BOUND in *.
  rewrite I64.wrapping_sub_exact by (unfold I64.MIN, I64.MAX; lia).
  rewrite lack_loop_refines by (unfold BOUND; try exact Hts; lia).
  simpl gap_spec. rewrite Z.sub_add, Z.eqb_refl. simpl fst. f_equal.
  rewrite gap_spec_total_aligned by (try lia; assumption).
  simpl length. rewrite Nat2Z.inj_succ. lia.
Qed.

(** C33: a period of zero, on sane timestamps, panics with a division by
    zero exactly when the batch holds two different timestamps; when all
    are equal the loop finds no gap and returns 0. *)
Theorem count_lacks_period_zero t0 ts s :
  sane_ts (t0 :: ts) ->
  fst (count_lacks (E := E) emit 0 (t0 :: ts) s)
  = if forallb (Z.eqb t0) ts then Ret 0 else Abort PanicDivByZero.
Proof.
  intros Hts. inversion Hts as [|? ? Ht0 _]; subst. unfold count_lacks, BOUND in *.
  rewrite I64.wrapping_sub_exact, Z.sub_0_r by (unfold I64.MIN, I64.MAX; lia).
  rewrite lack_loop_period_zero by (unfold BOUND; assumption || lia).
  simpl. rewrite Z.eqb_refl. reflexivity.
Qed.
End Claims.

(** [slice::sort] has exactly one possible result, the sorted
    permutation: any sorted permutation of the timestamps is [sort_i64]'s. *)
Theorem sort_i64_unique l l' :
  Sorted Z.le l' -> Permutation l l' -> l' = sort_i64 l.
Proof.
  intros Hs Hp. apply sorted_perm_eq.
  - apply Sorted_StronglySorted; [exact Z.le_trans | exact Hs].
  - apply Sorted_StronglySorted; [exact Z.le_trans | apply sort_i64_sorted].
  - rewrite <- Hp. apply sort_i64_perm.
Qed.

(** ** Witnesses, on the program's own output log *)

Definition log_emit (r : lack_report) (l : list lack_report) : list lack_report := l ++ [r].

(** The example of the specification: [100, 160, 180] with period 20. *)
Lemma count_lacks_missing_buckets_witness :
  fst (count_lacks (E := unit) log_emit 20 [100; 160; 180] []) = Ret 2.
Proof.
  rewrite (count_lacks_missing_buckets log_emit 20 100 [160; 180] []).
  - reflexivity.
  - unfold BOUND. lia.
  - repeat constructor; unfold BOUND; lia.
  - simpl. lia.
  - repeat constructor; lia.
  - repeat constructor; [exists 3 | exists 4]; reflexivity.
Defined.

Lemma count_lacks_refines_witness :
  count_lacks (E := unit) log_emit 20 [100; 160; 180] []
  = (Ret 2, [mk_report 120 160 2]).
Proof.
  rewrite (count_lacks_refines log_emit 20 100 [160; 180] []).
  - reflexivity.
  - unfold BOUND. lia.
  - repeat constructor; unfold BOUND; lia.
  - simpl. lia.
Defined.

Lemma count_lacks_period_zero_witness :
  sane_ts [100; 100; 160] /\
  fst (count_lacks (E := unit) log_emit 0 [100; 100; 160] []) = Abort PanicDivByZero.
Proof.
  assert (H : sane_ts [100; 100; 160]) by (repeat constructor; unfold BOUND; lia).
  split; [exact H|]. exact (count_lacks_period_zero log_emit 100 [100; 160] [] H).
Defined.

Lemma sort_i64_unique_witness : [100; 160; 180] = sort_i64 [180; 100; 160].
Proof.
  apply sort_i64_unique.
  - repeat constructor; lia.
  - apply perm_trans with (l' := [100; 180; 160]); [apply perm_swap|].
    apply perm_skip, perm_swap.
Defined.

(** ** What the loop does outside its contract *)

(** A timestamp that appears twice yields a negative count. *)
Example count_lacks_duplicate_negative :
  count_lacks (E := unit) log_emit 20 (sort_i64 [100; 100]) [] = (Ret (-1), [mk_report 120 100 (-1)]).
Proof. reflexivity. Qed.

(** A timestamp off the grid is reported as a missing range of zero buckets. *)
Example count_lacks_unaligned_zero :
  count_lacks (E := unit) log_emit 20 [100; 130] [] = (Ret 0, [mk_report 120 130 0]).
Proof. reflexivity. Qed.

(** A negative period is not rejected and gives negative counts. *)
Example count_lacks_negative_period :
  fst (count_lacks (E := unit) log_emit (-20) [100; 160; 180] []) = Ret (-6).
Proof. reflexivity. Qed.

End Gap.
