(* ===== verification/FetchOhlcv.v ===== *)
(** * One run of [fetch-ohlcv-rs] (src/app/src/fetch-ohlcv-rs/src/main.rs)

    The process state [world] is the database and the lines written to
    stdout/stderr.  [get_ohlcv_setting] reads the watermark, falling back to
    [EPOCH_AFTER] on any query error; [fetch_ohlcv_from_cryptowat] prints
    the URL and calls the remote provider, an interface ([Provider]) that
    answers one HTTP GET; [store_ohlcv_to_database] checks the JSON shape
    (three "no data" exits and the empty-array exit), reads the first and
    last timestamps (panicking on a malformed row or a date chrono cannot
    represent), deletes the boundary row unless the watermark is the epoch
    constant, converts every row (panicking on a malformed one), inserts the
    batch, sorts the timestamps and runs the gap loop; [main] turns the
    outcome into the exit code (101 for a panic). *)

From Stdlib Require Import ZArith List String Bool Lia Sorting.Sorted Sorting.Permutation.
From S2P Require Import Prelude RustPrim Json AtbDb GapAnalyzer.
Import ListNotations.
Open Scope Z_scope.
Open Scope bool_scope.

Module FetchOhlcv.

(** [struct OhlcvSetting] *)
Record OhlcvSetting : Type := mk_setting {
  exchange : string;
  pair : string;
  period : string;
  after : Z
}.

(** The watermark used when the table has none for the series. *)
Definition EPOCH_AFTER : Z := 1514764800.

(** The errors [main] prints with [eprintln!]. *)
Inductive reqwest_error : Type :=
| Transport          (* [reqwest::blocking::get] failed *)
| Decode.            (* [.json::<Value>()] failed: the body is not JSON *)

Inductive err_msg : Type :=
| ErrConnect (msg : string)
| ErrSqlite (e : AtbDb.sqlite_error)
| ErrFetch (e : reqwest_error).

(** The lines the process writes, in order. *)
Inductive line : Type :=
| EPrint (e : err_msg)
| PrintUrl (url : string)
| PrintNoData
| PrintCount (n : nat)
| PrintHead (t : Z)
| PrintTail (t : Z)
| PrintLack (r : Gap.lack_report)
| PrintSummary (n : nat) (lack : Z).

Record world : Type := mk_world {
  db : AtbDb.AtbDB;
  out : list line
}.

Definition println {E} (l : line) : St world E unit :=
  modify (fun w => mk_world (db w) (out w ++ [l])).

(** A call on the database handle. *)
Definition db_call {E A} (f : AtbDb.AtbDB -> A * AtbDb.AtbDB) : St world E A :=
  fun w => let '(a, d) := f (db w) in (Ret a, mk_world d (out w)).

(** The gap loop prints its ranges on stdout. *)
Definition emit_lack (r : Gap.lack_report) (w : world) : world :=
  mk_world (db w) (out w ++ [PrintLack r]).

(** ** The remote provider *)

(** A response of the HTTP client: its status and its body when the body
    is JSON.  The client does not look at the status. *)
Record http_response : Type := mk_response {
  status : Z;
  body : option Json.value
}.

Class Provider : Type := {
  http_get : string -> result http_response reqwest_error
}.

(** ** [get_ohlcv_setting] (lines 77-100) *)

Definition get_ohlcv_setting {E} (ex pa pe : string) : St world E OhlcvSetting :=
  (w <- get ;;
   a <- match AtbDb.get_last_unixtime_from_ohlcv (db w) ex pa pe with
        | Ok a => ret a
        | Err err => println (EPrint (ErrSqlite err)) ;; ret EPOCH_AFTER
        end ;;
   ret (mk_setting ex pa pe a))%rust.

(** ** [fetch_ohlcv_from_cryptowat] (lines 103-118) *)

Definition url_of (st : OhlcvSetting) : string :=
  ("https://api.cryptowat.ch/markets/" ++ exchange st ++ "/" ++ pair st
   ++ "/ohlc?periods=" ++ period st ++ "&after=" ++ I64.i64_to_string (after st))%string.

Definition fetch_ohlcv_from_cryptowat `{Provider} {E} (st : OhlcvSetting)
  : St world E (result Json.value reqwest_error) :=
  (println (PrintUrl (url_of st)) ;;
   ret (match http_get (url_of st) with
        | Ok resp => match body resp with
                     | Some v => Ok v
                     | None => Err Decode
                     end
        | Err e => Err e
        end))%rust.

(** ** [store_ohlcv_to_database] (lines 121-236) *)

(** [(row[1].as_f64().unwrap(), ..., row[5].as_f64().unwrap(),
    row[0].as_i64().unwrap())]: [None] when one [unwrap] would panic. *)
Definition parse_record (row : Json.value) : option AtbDb.candle :=
  match Json.as_f64 (Json.index_nth row 1), Json.as_f64 (Json.index_nth row 2),
        Json.as_f64 (Json.index_nth row 3), Json.as_f64 (Json.index_nth row 4),
        Json.as_f64 (Json.index_nth row 5), Json.as_i64 (Json.index_nth row 0) with
  | Some o, Some h, Some l, Some c, Some v, Some t => Some (AtbDb.mk_candle o h l c v t)
  | _, _, _, _, _, _ => None
  end.

(** The [for i in 0..len_ohlcv] loop that builds [records]. *)
Fixpoint collect_records {E} (rows : list Json.value) : St world E (list AtbDb.candle) :=
  match rows with
  | [] => ret []
  | r :: rs =>
      (c <- unwrap_option (parse_record r) ;;
       cs <- collect_records rs ;;
       ret (c :: cs))%rust
  end.

(** The timestamp of a row, [row[0].as_i64().unwrap()], then [Utc.timestamp]. *)
Definition row_time {E} (row : Json.value) : St world E Z :=
  (t <- unwrap_option (Json.as_i64 (Json.index_nth row 0)) ;;
   Gap.utc_timestamp t ;;
   ret t)%rust.

Definition store_ohlcv_to_database (st : OhlcvSetting) (resp : Json.value)
  : St world AtbDb.sqlite_error unit :=
  let ex := exchange st in
  let pa := pair st in
  let pe := period st in
  match Json.get resp "result" with
  | None => println PrintNoData
  | Some _ =>
  let res := Json.index_key resp "result" in
  match Json.get res pe with
  | None => println PrintNoData
  | Some _ =>
  let data := Json.index_key res pe in
  if negb (Json.is_array data) then println PrintNoData
  else
  (rows <- unwrap_option (Json.as_array data) ;;
   let len_ohlcv := List.length rows in
   if (len_ohlcv =? 0)%nat then println (PrintCount 0)
   else
     (head <- row_time (Json.index_nth data 0) ;;
      tail <- row_time (Json.index_nth data (len_ohlcv - 1)) ;;
      println (PrintHead head) ;;
      println (PrintTail tail) ;;
      (if negb (after st =? EPOCH_AFTER) then
         r <- db_call (fun d => AtbDb.delete_ohlcv d ex pa pe (after st)) ;;
         _ <- try_result (fun e => e) r ;;
         ret tt
       else ret tt) ;;
      records <- collect_records rows ;;
      db_call (fun d => (tt, AtbDb.insert_ohlcv_list d ex pa pe records)) ;;
      let lacks := Gap.sort_i64 (map AtbDb.c_unixtime records) in
      i_period <- unwrap_result (I64.parse_i64 pe) ;;
      lack <- Gap.count_lacks emit_lack i_period lacks ;;
      println (PrintSummary len_ohlcv lack)))%rust
  end
  end.

(** ** [main] (lines 12-47) *)

(** [AtbDB::connect(None)] is an input: [Err msg] when the configuration
    or the pool cannot be set up. *)
Definition main `{Provider} (connect : result unit string) (ex pa pe : string)
  : St world Empty_set Z :=
  match connect with
  | Err msg => (println (EPrint (ErrConnect msg)) ;; ret 1)%rust
  | Ok _ =>
      (st <- get_ohlcv_setting ex pa pe ;;
       fetched <- fetch_ohlcv_from_cryptowat st ;;
       match fetched with
       | Err e => println (EPrint (ErrFetch e)) ;; ret 1
       | Ok resp =>
           stored <- to_result (store_ohlcv_to_database st resp) ;;
           match stored with
           | Err e => println (EPrint (ErrSqlite e)) ;; ret 1
           | Ok _ => ret 0
           end
       end)%rust
  end.

(** The exit status of the process: the code [main] passes to
    [std::process::exit], or 101 when it panics. *)
Definition exit_code (r : run Empty_set Z) : Z :=
  match r with
  | Ret c => c
  | Throw e => match e with end
  | Abort _ => 101
  end.

Definition run_process `{Provider} (connect : result unit string) (ex pa pe : string)
  (w : world) : Z * world :=
  let '(r, w') := main connect ex pa pe w in (exit_code r, w').

(** ** Step lemmas *)

Lemma collect_records_ok {E} rows recs w :
  map parse_record rows = map Some recs ->
  collect_records (E := E) rows w = (Ret recs, w).
Proof.
  revert recs w. induction rows as [|r rows IH]; intros [|c recs] w H; try discriminate.
  - reflexivity.
  - inv H. simpl. rewrite H1. simpl_st. rewrite (IH recs w H2). reflexivity.
Qed.

(** One malformed row makes the loop panic, with the world untouched. *)
Lemma collect_records_bad {E} rows w :
  In None (map parse_record rows) ->
  collect_records (E := E) rows w = (Abort PanicUnwrapNone, w).
Proof.
  revert w. induction rows as [|r rows IH]; intros w H; [contradiction|].
  simpl in H |- *. simpl_st.
  destruct (parse_record r) eqn:E1; [|reflexivity].
  destruct H as [H|H]; [discriminate|]. rewrite (IH w H). reflexivity.
Qed.

Lemma parse_record_time row c :
  parse_record row = Some c -> Json.as_i64 (Json.index_nth row 0) = Some (AtbDb.c_unixtime c).
Proof.
  unfold parse_record.
  repeat match goal with |- context [match ?x with _ => _ end] => destruct x end;
    intros H; inv H; reflexivity.
Qed.

Lemma row_time_ok {E} row c w :
  parse_record row = Some c -> Chrono.timestamp_ok (AtbDb.c_unixtime c) = true ->
  row_time (E := E) row w = (Ret (AtbDb.c_unixtime c), w).
Proof.
  intros Hp Hc. unfold row_time, Gap.utc_timestamp. simpl_st.
  rewrite (parse_record_time _ _ Hp). simpl. rewrite Hc. reflexivity.
Qed.

(** The gap loop writes to stdout only. *)
Lemma lack_loop_db {E} p ts h lack w :
  db (snd (Gap.lack_loop (E := E) emit_lack p ts h lack w)) = db w.
Proof.
  revert h lack w. induction ts as [|t ts IH]; intros h lack w; [reflexivity|].
  simpl. destruct (_ =? t); [apply IH|].
  unfold Gap.utc_timestamp, Gap.div_i64. simpl_st.
  destruct (Chrono.timestamp_ok (I64.wrapping_add h p)); simpl; [|reflexivity].
  destruct (Chrono.timestamp_ok t); simpl; [|reflexivity].
  destruct (I64.rust_div _ p); simpl; [|reflexivity].
  rewrite IH. reflexivity.
Qed.

Lemma count_lacks_db {E} p ts w :
  db (snd (Gap.count_lacks (E := E) emit_lack p ts w)) = db w.
Proof. unfold Gap.count_lacks. destruct ts; [reflexivity | apply lack_loop_db]. Qed.

Definition boundary_delete (st : OhlcvSetting) (d : AtbDb.AtbDB) : AtbDb.AtbDB :=
  if after st =? EPOCH_AFTER then d
  else snd (AtbDb.delete_ohlcv d (exchange st) (pair st) (period st) (after st)).

Lemma parse_nth rows recs i :
  map parse_record rows = map Some recs -> (i < List.length rows)%nat ->
  exists c, parse_record (nth i rows Json.Null) = Some c /\ In c recs.
Proof.
  intros H Hi.
  destruct (nth_error rows i) as [r|] eqn:Er; [|apply nth_error_None in Er; lia].
  pose proof (f_equal (fun l => nth_error l i) H) as Hi'. simpl in Hi'.
  rewrite !nth_error_map, Er in Hi'.
  destruct (nth_error recs i) as [c|] eqn:Ec; simpl in Hi'; [|discriminate].
  exists c. inv Hi'. split; [|eapply nth_error_In; exact Ec].
  rewrite (nth_error_nth rows i Json.Null Er). reflexivity.
Qed.

(** What follows the insert only writes to stdout. *)
Lemma store_tail_db pe records len w :
  db (snd ((i_period <- unwrap_result (I64.parse_i64 pe) ;;
            lack <- Gap.count_lacks emit_lack i_period (Gap.sort_i64 (map AtbDb.c_unixtime records)) ;;
            println (PrintSummary len lack))%rust w : run AtbDb.sqlite_error unit * world)) = db w.
Proof.
  unfold bind at 1. destruct (I64.parse_i64 pe) as [p|]; [|reflexivity]. cbn.
  unfold bind. pose proof (count_lacks_db (E := AtbDb.sqlite_error) p
    (Gap.sort_i64 (map AtbDb.c_unixtime records)) w) as Hc.
  destruct (Gap.count_lacks _ _ _ w) as [[] w']; simpl in *; congruence.
Qed.

Lemma delete_ohlcv_ok d ex pa pe t :
  AtbDb.delete_limit (AtbDb.caps d) = true ->
  exists n, fst (AtbDb.delete_ohlcv d ex pa pe t) = Ok n.
Proof.
  intros H. unfold AtbDb.delete_ohlcv. rewrite H.
  destruct (AtbDb.delete_first _ _). eexists. reflexivity.
Qed.

Lemma store_db_effect st resp res rows recs w :
  Json.get resp "result" = Some res ->
  Json.get res (period st) = Some (Json.Array rows) ->
  map parse_record rows = map Some recs -> recs <> [] ->
  Forall (fun c => Chrono.timestamp_ok (AtbDb.c_unixtime c) = true) recs ->
  (after st <> EPOCH_AFTER -> AtbDb.delete_limit (AtbDb.caps (db w)) = true) ->
  db (snd (store_ohlcv_to_database st resp w)) =
  AtbDb.insert_ohlcv_list (boundary_delete st (db w)) (exchange st) (pair st) (period st) recs.
Proof.
  intros H1 H2 Hp Hne Hts Hdel.
  assert (Hlen : List.length rows = List.length recs)
    by (rewrite <- (length_map parse_record rows), <- (length_map Some recs), Hp; reflexivity).
  destruct (parse_nth rows recs 0 Hp) as [c0 [Hc0 Hin0]]; [destruct recs; [congruence|simpl in *; lia]|].
  destruct (parse_nth rows recs (List.length rows - 1) Hp) as [c1 [Hc1 Hin1]]; [destruct recs; [congruence|simpl in *; lia]|].
  rewrite Forall_forall in Hts.
  unfold store_ohlcv_to_database, Json.index_key. cbv zeta. rewrite H1, H2.
  cbn -[row_time collect_records Gap.count_lacks AtbDb.insert_ohlcv_list AtbDb.delete_ohlcv nth List.length].
  destruct (List.length rows =? 0)%nat eqn:Hz; [apply Nat.eqb_eq in Hz; destruct recs; [congruence|simpl in *; lia]|].
  unfold bind at 1. rewrite (row_time_ok _ _ w Hc0 (Hts _ Hin0)).
  unfold bind at 1. rewrite (row_time_ok _ _ w Hc1 (Hts _ Hin1)).
  cbn [bind println modify].
  unfold boundary_delete. destruct (Z.eqb_spec (after st) EPOCH_AFTER) as [Ha|Ha]; cbn [negb].
  - cbn [bind ret]. unfold bind at 1. rewrite (collect_records_ok rows recs _ Hp).
    unfold bind at 1. unfold db_call at 1. cbn beta iota zeta.
    rewrite store_tail_db. reflexivity.
  - destruct (delete_ohlcv_ok (db w) (exchange st) (pair st) (period st) (after st) (Hdel Ha))
      as [n Hn].
    unfold bind at 1 2. unfold db_call at 1. cbn [db].
    destruct (AtbDb.delete_ohlcv (db w) _ _ _ _) as [r d'] eqn:Ed. simpl in Hn. subst r.
    cbn beta iota zeta. unfold try_result at 1. rewrite bind_ret_l. unfold ret at 1. cbv beta iota zeta.
    unfold bind at 1. rewrite (collect_records_ok rows recs _ Hp).
    unfold bind at 1. unfold db_call at 1. cbn beta iota zeta.
    rewrite store_tail_db. reflexivity.
Qed.
(** ** [main] up to the store *)

(** The [after] that [get_ohlcv_setting] computes. *)
Definition setting_after (d : AtbDb.AtbDB) (ex pa pe : string) : Z :=
  match AtbDb.get_last_unixtime_from_ohlcv d ex pa pe with
  | Ok a => a
  | Err _ => EPOCH_AFTER
  end.

Lemma get_ohlcv_setting_run {E} ex pa pe w :
  exists w', get_ohlcv_setting (E := E) ex pa pe w
             = (Ret (mk_setting ex pa pe (setting_after (db w) ex pa pe)), w')
             /\ db w' = db w.
Proof.
  unfold get_ohlcv_setting, setting_after. simpl_st.
  destruct (AtbDb.get_last_unixtime_from_ohlcv (db w) ex pa pe); simpl; eauto.
Qed.

Lemma fetch_run `{Provider} {E} st w :
  exists w', fetch_ohlcv_from_cryptowat (E := E) st w
             = (Ret (match http_get (url_of st) with
                     | Ok resp => match body resp with Some v => Ok v | None => Err Decode end
                     | Err e => Err e
                     end), w')
             /\ db w' = db w.
Proof. eexists. split; reflexivity. Qed.

(** Whatever [main] does after the store, it only prints. *)
Lemma bind_store_db {E'} (c : St world AtbDb.sqlite_error unit)
  (k : result unit AtbDb.sqlite_error -> St world E' Z) w :
  (forall r w', db (snd (k r w')) = db w') ->
  db (snd (bind (to_result c) k w)) = db (snd (c w)).
Proof. intros Hk. unfold bind, to_result. destruct (c w) as [[] w']; simpl; auto. Qed.

Lemma run_process_snd `{Provider} connect ex pa pe w :
  snd (run_process connect ex pa pe w) = snd (main connect ex pa pe w).
Proof. unfold run_process. destruct (main _ _ _ _ w). reflexivity. Qed.

(** The table after a run that fetched a well-formed, non-empty batch:
    the boundary delete, then the batch insert. *)
Lemma run_process_db `{Provider} ex pa pe w http resp res rows recs :
  let st := mk_setting ex pa pe (setting_after (db w) ex pa pe) in
  http_get (url_of st) = Ok http -> body http = Some resp ->
  Json.get resp "result" = Some res -> Json.get res pe = Some (Json.Array rows) ->
  map parse_record rows = map Some recs -> recs <> [] ->
  Forall (fun c => Chrono.timestamp_ok (AtbDb.c_unixtime c) = true) recs ->
  (after st <> EPOCH_AFTER -> AtbDb.delete_limit (AtbDb.caps (db w)) = true) ->
  db (snd (run_process (Ok tt) ex pa pe w))
  = AtbDb.insert_ohlcv_list (boundary_delete st (db w)) ex pa pe recs.
Proof.
  intros st Hget Hbody H1 H2 Hp Hne Hts Hdel.
  rewrite run_process_snd. unfold main.
  destruct (get_ohlcv_setting_run (E := Empty_set) ex pa pe w) as [w1 [Hs Hw1]].
  rewrite (bind_Ret _ _ _ _ _ Hs).
  destruct (fetch_run (E := Empty_set) st w1) as [w2 [Hf Hw2]].
  fold st. rewrite (bind_Ret _ _ _ _ _ Hf).
  rewrite Hget, Hbody. rewrite bind_store_db by (intros [] ?; reflexivity).
  erewrite store_db_effect; eauto; rewrite Hw2, Hw1; auto.
Qed.

(** ** The boundary row and the epoch default *)

Lemma boundary_delete_rows st d :
  AtbDb.delete_limit (AtbDb.caps d) = true -> after st <> EPOCH_AFTER ->
  AtbDb.ohlcv (boundary_delete st d)
  = fst (AtbDb.delete_first (AtbDb.in_bucket (exchange st) (pair st) (period st) (after st))
                            (AtbDb.ohlcv d)).
Proof.
  intros Hl Ha. unfold boundary_delete, AtbDb.delete_ohlcv.
  destruct (Z.eqb_spec (after st) EPOCH_AFTER); [contradiction|]. rewrite Hl.
  destruct (AtbDb.delete_first _ _). reflexivity.
Qed.

(** The batch lands whole when there is no unique index, or when its buckets
    are distinct and new. *)
Definition batch_fresh (rows : list AtbDb.ohlcv_row) (ex pa pe : string)
  (recs : list AtbDb.candle) : Prop :=
  NoDup (map AtbDb.c_unixtime recs) /\
  Forall (fun c => existsb (AtbDb.in_bucket ex pa pe (AtbDb.c_unixtime c)) rows = false) recs.

Lemma insert_appends d ex pa pe recs :
  (AtbDb.ohlcv_unique (AtbDb.caps d) = true -> batch_fresh (AtbDb.ohlcv d) ex pa pe recs) ->
  AtbDb.ohlcv (AtbDb.insert_ohlcv_list d ex pa pe recs)
  = AtbDb.ohlcv d ++ map (AtbDb.row_of ex pa pe) recs.
Proof.
  intros H. destruct (AtbDb.ohlcv_unique (AtbDb.caps d)) eqn:Hu.
  - destruct (H eq_refl). apply AtbDb.insert_ohlcv_list_fresh; assumption.
  - apply AtbDb.insert_ohlcv_list_append, Hu.
Qed.

(** C1: boundary correction.  With a watermark [W] other than the epoch
    constant, a run that fetches a well-formed batch removes the first row
    of the bucket [W] and appends the whole batch: the re-fetched bucket is
    replaced by its new values, every other row is kept. *)
Theorem run_boundary_correction `{Provider} ex pa pe w W http resp res rows recs :
  AtbDb.delete_limit (AtbDb.caps (db w)) = true ->
  AtbDb.get_last_unixtime_from_ohlcv (db w) ex pa pe = Ok W -> W <> EPOCH_AFTER ->
  http_get (url_of (mk_setting ex pa pe W)) = Ok http -> body http = Some resp ->
  Json.get resp "result" = Some res -> Json.get res pe = Some (Json.Array rows) ->
  map parse_record rows = map Some recs -> recs <> [] ->
  Forall (fun c => Chrono.timestamp_ok (AtbDb.c_unixtime c) = true) recs ->
  (AtbDb.ohlcv_unique (AtbDb.caps (db w)) = true ->
   batch_fresh (fst (AtbDb.delete_first (AtbDb.in_bucket ex pa pe W) (AtbDb.ohlcv (db w))))
               ex pa pe recs) ->
  AtbDb.ohlcv (db (snd (run_process (Ok tt) ex pa pe w)))
  = fst (AtbDb.delete_first (AtbDb.in_bucket ex pa pe W) (AtbDb.ohlcv (db w)))
    ++ map (AtbDb.row_of ex pa pe) recs.
Proof.
  intros Hl HW Hne Hget Hbody H1 H2 Hp Hnil Hts Hfresh.
  assert (Ha : setting_after (db w) ex pa pe = W) by (unfold setting_after; rewrite HW; reflexivity).
  erewrite run_process_db; try eassumption; [| rewrite Ha; eassumption | rewrite Ha; auto].
  rewrite Ha. set (st := mk_setting ex pa pe W).
  assert (Hcaps : AtbDb.caps (boundary_delete st (db w)) = AtbDb.caps (db w)).
  { unfold boundary_delete, AtbDb.delete_ohlcv. simpl. destruct (W =? EPOCH_AFTER); [reflexivity|].
    rewrite Hl. destruct (AtbDb.delete_first _ _). reflexivity. }
  rewrite insert_appends; rewrite ?Hcaps, boundary_delete_rows by (simpl; assumption); auto.
Qed.

(** C17: epoch default.  On a series with no row the watermark falls back to
    [EPOCH_AFTER], no delete is issued (so the run works even where
    [DELETE ... LIMIT] is rejected), and the batch is appended. *)
Theorem run_epoch_default `{Provider} ex pa pe w http resp res rows recs :
  AtbDb.series (db w) ex pa pe = [] ->
  http_get (url_of (mk_setting ex pa pe EPOCH_AFTER)) = Ok http -> body http = Some resp ->
  Json.get resp "result" = Some res -> Json.get res pe = Some (Json.Array rows) ->
  map parse_record rows = map Some recs -> recs <> [] ->
  Forall (fun c => Chrono.timestamp_ok (AtbDb.c_unixtime c) = true) recs ->
  (AtbDb.ohlcv_unique (AtbDb.caps (db w)) = true -> NoDup (map AtbDb.c_unixtime recs)) ->
  AtbDb.ohlcv (db (snd (run_process (Ok tt) ex pa pe w)))
  = AtbDb.ohlcv (db w) ++ map (AtbDb.row_of ex pa pe) recs.
Proof.
  intros Hempty Hget Hbody H1 H2 Hp Hnil Hts Hnd.
  assert (Ha : setting_after (db w) ex pa pe = EPOCH_AFTER).
  { unfold setting_after. apply AtbDb.get_last_unixtime_empty in Hempty. rewrite Hempty. reflexivity. }
  erewrite run_process_db; try eassumption; [| rewrite Ha; eassumption | rewrite Ha; contradiction].
  rewrite Ha. unfold boundary_delete. cbn [after]. rewrite Z.eqb_refl.
  apply insert_appends. intros Hu. split; [exact (Hnd Hu)|].
  apply Forall_forall. intros c _. apply Bool.not_true_iff_false. intros Hex.
  apply existsb_exists in Hex as [r [Hr Hb]].
  assert (In r (AtbDb.series (db w) ex pa pe)) as Hs.
  { apply filter_In. split; [exact Hr|]. unfold AtbDb.in_bucket in Hb.
    apply andb_prop in Hb. apply Hb. }
  rewrite Hempty in Hs. contradiction.
Qed.

(** C3: watermark monotonicity.  After a run that fetched a well-formed,
    non-empty batch, the next run's watermark exists and is at least every
    timestamp of the batch, with or without a unique index, provided the
    database accepts [DELETE ... LIMIT 1] whenever the watermark is not the
    epoch default.  Without that support the boundary delete fails and the
    run exits 1 before inserting anything ([delete_limit_rejected]), so the
    batch is not covered. *)
Theorem run_watermark_covers_batch `{Provider} ex pa pe w http resp res rows recs :
  let st := mk_setting ex pa pe (setting_after (db w) ex pa pe) in
  http_get (url_of st) = Ok http -> body http = Some resp ->
  Json.get resp "result" = Some res -> Json.get res pe = Some (Json.Array rows) ->
  map parse_record rows = map Some recs -> recs <> [] ->
  Forall (fun c => Chrono.timestamp_ok (AtbDb.c_unixtime c) = true) recs ->
  (after st <> EPOCH_AFTER -> AtbDb.delete_limit (AtbDb.caps (db w)) = true) ->
  exists m, AtbDb.get_last_unixtime_from_ohlcv (db (snd (run_process (Ok tt) ex pa pe w))) ex pa pe = Ok m
            /\ Forall (fun c => AtbDb.c_unixtime c <= m) recs.
Proof.
  intros st Hget Hbody H1 H2 Hp Hne Hts Hdel.
  erewrite run_process_db by eassumption.
  destruct (AtbDb.insert_watermark_covers (boundary_delete st (db w)) ex pa pe recs Hne)
    as [m [Hm Hall]].
  exists m. split; assumption.
Qed.

(** ** Runs that change nothing *)

Lemma store_no_data st resp w :
  (Json.as_array (Json.index_key (Json.index_key resp "result") (period st)) = None \/
   Json.as_array (Json.index_key (Json.index_key resp "result") (period st)) = Some []) ->
  fst (store_ohlcv_to_database st resp w) = Ret tt /\
  db (snd (store_ohlcv_to_database st resp w)) = db w.
Proof.
  unfold store_ohlcv_to_database, Json.index_key. cbv zeta.
  destruct (Json.get resp "result") as [v|]; [|split; reflexivity].
  destruct (Json.get v (period st)) as [d|]; [|split; reflexivity].
  destruct d; simpl; try (split; reflexivity).
  intros [H|H]; inv H. split; reflexivity.
Qed.

(** [main] once the response is in hand. *)
Lemma main_fetched `{Provider} ex pa pe w http resp :
  let st := mk_setting ex pa pe (setting_after (db w) ex pa pe) in
  http_get (url_of st) = Ok http -> body http = Some resp ->
  exists w2, db w2 = db w /\
    main (Ok tt) ex pa pe w
    = (stored <- to_result (store_ohlcv_to_database st resp) ;;
       match stored with
       | Err e => println (EPrint (ErrSqlite e)) ;; ret 1
       | Ok _ => ret 0
       end)%rust w2.
Proof.
  intros st Hget Hbody. unfold main.
  destruct (get_ohlcv_setting_run (E := Empty_set) ex pa pe w) as [w1 [Hs Hw1]].
  rewrite (bind_Ret _ _ _ _ _ Hs).
  destruct (fetch_run (E := Empty_set) st w1) as [w2 [Hf Hw2]].
  fold st. rewrite (bind_Ret _ _ _ _ _ Hf). rewrite Hget, Hbody.
  exists w2. split; [congruence | reflexivity].
Qed.

(** C4: empty-batch short circuit.  When the response has no array of
    candles for the period (no [result], no key, not an array, or an empty
    array), the run exits with 0 and leaves the table unchanged. *)
Theorem run_no_new_data `{Provider} ex pa pe w http resp :
  http_get (url_of (mk_setting ex pa pe (setting_after (db w) ex pa pe))) = Ok http ->
  body http = Some resp ->
  (Json.as_array (Json.index_key (Json.index_key resp "result") pe) = None \/
   Json.as_array (Json.index_key (Json.index_key resp "result") pe) = Some []) ->
  fst (run_process (Ok tt) ex pa pe w) = 0 /\ db (snd (run_process (Ok tt) ex pa pe w)) = db w.
Proof.
  intros Hget Hbody Hno.
  destruct (main_fetched ex pa pe w http resp Hget Hbody) as [w2 [Hw2 Hm]].
  set (st := mk_setting ex pa pe (setting_after (db w) ex pa pe)) in *.
  destruct (store_no_data st resp w2 Hno) as [Hr Hd].
  destruct (store_ohlcv_to_database st resp w2) as [r w3] eqn:Hstore. simpl in Hr, Hd. subst r.
  assert (Hmain : main (Ok tt) ex pa pe w = (Ret 0, w3))
    by (rewrite Hm; unfold bind, to_result; rewrite Hstore; reflexivity).
  unfold run_process. rewrite Hmain. simpl. split; congruence.
Qed.

(** C18: a failed fetch (transport error or a body that is not JSON) exits
    with 1 and leaves the table unchanged. *)
Theorem run_fetch_failure `{Provider} ex pa pe w :
  (exists e, http_get (url_of (mk_setting ex pa pe (setting_after (db w) ex pa pe))) = Err e) \/
  (exists http, http_get (url_of (mk_setting ex pa pe (setting_after (db w) ex pa pe))) = Ok http
                /\ body http = None) ->
  fst (run_process (Ok tt) ex pa pe w) = 1 /\ db (snd (run_process (Ok tt) ex pa pe w)) = db w.
Proof.
  intros Hfail. unfold run_process, main.
  destruct (get_ohlcv_setting_run (E := Empty_set) ex pa pe w) as [w1 [Hs Hw1]].
  rewrite (bind_Ret _ _ _ _ _ Hs).
  set (st := mk_setting ex pa pe (setting_after (db w) ex pa pe)) in *.
  destruct (fetch_run (E := Empty_set) st w1) as [w2 [Hf Hw2]].
  rewrite (bind_Ret _ _ _ _ _ Hf).
  destruct Hfail as [[e He]|[http [He Hb]]]; rewrite He; [|rewrite Hb];
    simpl; split; congruence.
Qed.

(** ** Witnesses: the scenario of the specification *)

Local Open Scope string_scope.

Definition num (z : Z) : Json.value := Json.Number (Json.PosInt z).

(** A cryptowat row [[t, o, o+1, o-1, o, 10]]. *)
Definition candle_json (t o : Z) : Json.value :=
  Json.Array [num t; num o; num (o + 1); num (o - 1); num o; num 10].

Definition candle_of_json (t o : Z) : AtbDb.candle :=
  AtbDb.mk_candle (F64.of_int o) (F64.of_int (o + 1)) (F64.of_int (o - 1))
                  (F64.of_int o) (F64.of_int 10) t.

Definition batch_of (pe : string) (rows : list Json.value) : Json.value :=
  Json.Object [("result", Json.Object [(pe, Json.Array rows)])].

Definition spec_batch : Json.value := batch_of "20" [candle_json 500 7; candle_json 520 8].

Definition spec_provider : Provider :=
  {| http_get := fun _ => Ok (mk_response 200 (Some spec_batch)) |}.

Definition old_row : AtbDb.ohlcv_row :=
  AtbDb.mk_row "bitflyer" "btcjpy" "20" (F64.of_int 1) (F64.of_int 1) (F64.of_int 1)
               (F64.of_int 1) (F64.of_int 1) 500.

(** One row at 500, [DELETE ... LIMIT] available, unique index or not. *)
Definition spec_world (unique : bool) : world :=
  mk_world (AtbDb.mk_db (AtbDb.mk_caps true unique) [old_row]) [].

Lemma spec_batch_parses :
  map parse_record [candle_json 500 7; candle_json 520 8]
  = map Some [candle_of_json 500 7; candle_of_json 520 8].
Proof. reflexivity. Qed.

Lemma spec_batch_dates :
  Forall (fun c => Chrono.timestamp_ok (AtbDb.c_unixtime c) = true)
         [candle_of_json 500 7; candle_of_json 520 8].
Proof. repeat constructor. Qed.

(** Store holds one row at 500; the fetch returns 500 and 520; afterwards
    the table holds the new 500 and the 520, nothing else. *)
Lemma run_boundary_correction_witness :
  AtbDb.ohlcv (db (snd (@run_process spec_provider (Ok tt) "bitflyer" "btcjpy" "20"
                                     (spec_world true))))
  = [AtbDb.row_of "bitflyer" "btcjpy" "20" (candle_of_json 500 7);
     AtbDb.row_of "bitflyer" "btcjpy" "20" (candle_of_json 520 8)].
Proof.
  rewrite (@run_boundary_correction spec_provider "bitflyer" "btcjpy" "20" (spec_world true) 500
             (mk_response 200 (Some spec_batch)) spec_batch
             (Json.Object [("20", Json.Array [candle_json 500 7; candle_json 520 8])])
             [candle_json 500 7; candle_json 520 8]
             [candle_of_json 500 7; candle_of_json 520 8]);
    try reflexivity.
  - unfold EPOCH_AFTER. lia.
  - discriminate.
  - exact spec_batch_dates.
  - intros _. split; [repeat constructor; simpl; lia | repeat constructor].
Defined.

Definition epoch_world : world :=
  mk_world (AtbDb.mk_db (AtbDb.mk_caps false false)
              [AtbDb.mk_row "bitflyer" "ethjpy" "20" (F64.of_int 1) (F64.of_int 1)
                            (F64.of_int 1) (F64.of_int 1) (F64.of_int 1) 300]) [].

(** No row for the series and no [DELETE ... LIMIT]: the batch still lands. *)
Lemma run_epoch_default_witness :
  AtbDb.ohlcv (db (snd (@run_process spec_provider (Ok tt) "bitflyer" "btcjpy" "20" epoch_world)))
  = app (AtbDb.ohlcv (db epoch_world))
        (map (AtbDb.row_of "bitflyer" "btcjpy" "20") [candle_of_json 500 7; candle_of_json 520 8]).
Proof.
  apply (@run_epoch_default spec_provider "bitflyer" "btcjpy" "20" epoch_world
           (mk_response 200 (Some spec_batch)) spec_batch
           (Json.Object [("20", Json.Array [candle_json 500 7; candle_json 520 8])])
           [candle_json 500 7; candle_json 520 8]);
    try reflexivity.
  - discriminate.
  - exact spec_batch_dates.
  - discriminate.
Defined.

Lemma run_watermark_covers_batch_witness :
  exists m, AtbDb.get_last_unixtime_from_ohlcv
              (db (snd (@run_process spec_provider (Ok tt) "bitflyer" "btcjpy" "20"
                                     (spec_world false)))) "bitflyer" "btcjpy" "20" = Ok m
            /\ Forall (fun c => AtbDb.c_unixtime c <= m)
                      [candle_of_json 500 7; candle_of_json 520 8].
Proof.
  apply (@run_watermark_covers_batch spec_provider "bitflyer" "btcjpy" "20" (spec_world false)
           (mk_response 200 (Some spec_batch)) spec_batch
           (Json.Object [("20", Json.Array [candle_json 500 7; candle_json 520 8])])
           [candle_json 500 7; candle_json 520 8]);
    try reflexivity.
  - discriminate.
  - exact spec_batch_dates.
Defined.

Definition empty_provider : Provider :=
  {| http_get := fun _ => Ok (mk_response 200 (Some (batch_of "20" []))) |}.

Lemma run_no_new_data_witness :
  fst (@run_process empty_provider (Ok tt) "bitflyer" "btcjpy" "20" (spec_world false)) = 0 /\
  db (snd (@run_process empty_provider (Ok tt) "bitflyer" "btcjpy" "20" (spec_world false)))
  = db (spec_world false).
Proof.
  apply (@run_no_new_data empty_provider "bitflyer" "btcjpy" "20" (spec_world false)
           (mk_response 200 (Some (batch_of "20" []))) (batch_of "20" [])); try reflexivity.
  right. reflexivity.
Defined.

Definition down_provider : Provider := {| http_get := fun _ => Err Transport |}.

Lemma run_fetch_failure_witness :
  fst (@run_process down_provider (Ok tt) "bitflyer" "btcjpy" "20" (spec_world false)) = 1 /\
  db (snd (@run_process down_provider (Ok tt) "bitflyer" "btcjpy" "20" (spec_world false)))
  = db (spec_world false).
Proof.
  apply (@run_fetch_failure down_provider). left. exists Transport. reflexivity.
Defined.

(** ** What the code does on the edges of its contract *)

Definition provider_of (status : Z) (v : Json.value) : Provider :=
  {| http_get := fun _ => Ok (mk_response status (Some v)) |}.

Definition epoch_row : AtbDb.ohlcv_row :=
  AtbDb.mk_row "bitflyer" "btcjpy" "60" (F64.of_int 1) (F64.of_int 1) (F64.of_int 1)
               (F64.of_int 1) (F64.of_int 1) EPOCH_AFTER.

(** A real watermark equal to the epoch constant is taken for "no data":
    the boundary row is not deleted and, without a unique index, the bucket
    ends up with two rows. *)
Example epoch_watermark_duplicates :
  let w' := snd (@run_process
                   (provider_of 200 (batch_of "60" [candle_json EPOCH_AFTER 7;
                                                    candle_json (EPOCH_AFTER + 60) 8]))
                   (Ok tt) "bitflyer" "btcjpy" "60"
                   (mk_world (AtbDb.mk_db (AtbDb.mk_caps true false) [epoch_row]) [])) in
  List.length (filter (AtbDb.in_bucket "bitflyer" "btcjpy" "60" EPOCH_AFTER) (AtbDb.ohlcv (db w')))
  = 2%nat.
Proof. vm_compute. reflexivity. Qed.

(** A malformed second row panics after the boundary row was deleted: the
    process exits with 101 and the bucket of the watermark is gone. *)
Example panic_loses_boundary_row :
  let r := @run_process
             (provider_of 200 (batch_of "20" [candle_json 500 7;
                                               Json.Array [num 520; Json.Str "8"]]))
             (Ok tt) "bitflyer" "btcjpy" "20" (spec_world false) in
  fst r = 101 /\ AtbDb.ohlcv (db (snd r)) = [].
Proof. vm_compute. split; reflexivity. Qed.

(** The HTTP status is never checked: a 503 whose JSON body has no
    [result] is "no data" and the run exits with 0. *)
Example error_status_is_no_data :
  fst (@run_process (provider_of 503 (Json.Object [("error", Json.Str "Too Many Requests")]))
                    (Ok tt) "bitflyer" "btcjpy" "20" (spec_world false)) = 0.
Proof. vm_compute. reflexivity. Qed.

(** Under a unique index a duplicated bucket inside the batch is rejected
    by SQLite, the error is dropped and the run still exits with 0. *)
Example duplicate_in_batch_dropped :
  let r := @run_process
             (provider_of 200 (batch_of "20" [candle_json 500 7; candle_json 520 8;
                                               candle_json 520 9]))
             (Ok tt) "bitflyer" "btcjpy" "20" (spec_world true) in
  fst r = 0 /\
  AtbDb.ohlcv (db (snd r)) = [AtbDb.row_of "bitflyer" "btcjpy" "20" (candle_of_json 500 7);
                             AtbDb.row_of "bitflyer" "btcjpy" "20" (candle_of_json 520 8)].
Proof. vm_compute. split; reflexivity. Qed.

(** Where SQLite rejects [DELETE ... LIMIT], every run on a series that has
    data stops at the delete with exit 1 and ingests nothing. *)
Example delete_limit_rejected :
  let w0 := mk_world (AtbDb.mk_db (AtbDb.mk_caps false false) [old_row]) [] in
  let r := @run_process spec_provider (Ok tt) "bitflyer" "btcjpy" "20" w0 in
  fst r = 1 /\ db (snd r) = db w0.
Proof. vm_compute. split; reflexivity. Qed.

End FetchOhlcv.
