(* ===== verification/FetchText.v ===== *)
(** * What fetch-ohlcv-rs prints, as text

    [FetchOhlcv] records the output of a run as structured [line]s.  This
    file writes each line as the [println!] that produces it formats it
    (src/app/src/fetch-ohlcv-rs/src/main.rs 115, 135-149, 166-176, 221-224
    and 230-233): integers by [Display], dates by chrono's [Display]
    ([ChronoFmt.display_utc]) and the Japanese literals as their UTF-8
    bytes.  The [eprintln!] lines go to stderr and are not rendered: their
    text is the [Display] of rusqlite's and reqwest's errors.

    [stdout_run] is the text a whole run writes to stdout; the example
    [gap_run_stdout] evaluates it on a batch with a two-bucket gap.
    [bytes_provider] builds the remote provider from the bytes the server
    sends, reading them as reqwest's [.json::<Value>()] does
    ([serde_json::from_slice], line 116); [bytes_run] runs the same batch
    from its JSON text. *)

From Stdlib Require Import ZArith List String Lia.
From S2P Require Import Prelude RustPrim Json JsonText AtbDb GapAnalyzer FetchOhlcv ChronoFmt.
Import ListNotations.
Open Scope Z_scope.
Open Scope string_scope.

Module FetchText.
Import FetchOhlcv.

(** [{}] of an integer. *)
Definition dec (z : Z) : string := I64.i64_to_string z.

(** The text of a stdout line, without its newline. *)
Definition stdout_text (l : line) : option string :=
  match l with
  | PrintUrl url => Some ("URL : " ++ url)
  | PrintNoData => Some "取得可能なデータがありませんでした。"
  | PrintCount n => Some (dec (Z.of_nat n) ++ "件のローソク足データを取得。")
  | PrintHead t => Some ("先頭データ : " ++ dec t ++ ", " ++ ChronoFmt.display_utc t)
  | PrintTail t => Some ("末尾データ : " ++ dec t ++ ", " ++ ChronoFmt.display_utc t)
  | PrintLack r =>
      Some (ChronoFmt.display_utc (Gap.lr_from r) ++ "(" ++ dec (Gap.lr_from r) ++ ")から" ++
            ChronoFmt.display_utc (Gap.lr_to r) ++ "(" ++ dec (Gap.lr_to r) ++ ")までの" ++
            dec (Gap.lr_count r) ++ "件のデータがありません")
  | PrintSummary n lack =>
      Some (dec (Z.of_nat n) ++ "件のローソク足データを取得。欠損データは" ++ dec lack ++ "件です")
  | EPrint _ => None
  end.

Definition newline : string := String (Ascii.ascii_of_nat 10) EmptyString.

(** Everything written to stdout, each [println!] ending its line. *)
Fixpoint stdout (ls : list line) : string :=
  match ls with
  | [] => EmptyString
  | l :: ls' =>
      match stdout_text l with
      | Some s => s ++ newline ++ stdout ls'
      | None => stdout ls'
      end
  end.

Definition stdout_run `{Provider} (connect : result unit string) (ex pa pe : string)
  (w : world) : string :=
  stdout (out (snd (run_process connect ex pa pe w))).

(** reqwest's [.json::<serde_json::Value>()] on the body bytes: a body
    that does not parse is a decode error. *)
Definition json_body (bytes : string) : option Json.value :=
  match JsonText.from_slice bytes with Ok v => Some v | Err _ => None end.

(** A provider from what the server sends: the status and the body bytes,
    or the transport error. *)
Definition bytes_provider (get : string -> result (Z * string) reqwest_error) : Provider :=
  {| http_get := fun url =>
       match get url with
       | Ok (st, b) => Ok (mk_response st (json_body b))
       | Err e => Err e
       end |}.

(** ** A run with a gap *)

Definition gap_batch : Json.value :=
  batch_of "60" [candle_json 1514764800 7; candle_json 1514764980 8].

Definition gap_provider : Provider :=
  {| http_get := fun _ => Ok (mk_response 200 (Some gap_batch)) |}.

Definition empty_world : world := mk_world (AtbDb.mk_db (AtbDb.mk_caps true true) []) [].

(** Candles at 00:00 and 00:03 of 2018-01-01 with a period of 60: the run
    prints the URL, the two ends of the batch, the gap of two buckets from
    00:01 (the first missing bucket) to 00:03 (the next candle), and the
    totals. *)
Example gap_run_stdout :
  @stdout_run gap_provider (Ok tt) "bitflyer" "btcjpy" "60" empty_world =
    "URL : https://api.cryptowat.ch/markets/bitflyer/btcjpy/ohlc?periods=60&after=1514764800"
    ++ newline ++ "先頭データ : 1514764800, 2018-01-01 00:00:00 UTC"
    ++ newline ++ "末尾データ : 1514764980, 2018-01-01 00:03:00 UTC"
    ++ newline ++ "2018-01-01 00:01:00 UTC(1514764860)から2018-01-01 00:03:00 UTC(1514764980)までの2件のデータがありません"
    ++ newline ++ "2件のローソク足データを取得。欠損データは2件です" ++ newline.
Proof. vm_compute. reflexivity. Qed.

Definition quote : string := String (Ascii.ascii_of_nat 34) EmptyString.

Definition quoted (k : string) : string := quote ++ k ++ quote.

(** The same page as cryptowat writes it, with a space and a newline. *)
Definition gap_page : string :=
  "{" ++ quoted "result" ++ ": {" ++ quoted "60" ++ ":" ++ newline ++
  "[[1514764800,7,8,6,7,10], [1514764980,8,9,7,8,10]]}}".

(** Fed the page's bytes, the run does what it does on the parsed batch:
    the same exit code, table and output. *)
Example bytes_run :
  @run_process (bytes_provider (fun _ => Ok (200, gap_page))) (Ok tt) "bitflyer" "btcjpy" "60"
    empty_world
  = @run_process gap_provider (Ok tt) "bitflyer" "btcjpy" "60" empty_world.
Proof. vm_compute. reflexivity. Qed.

End FetchText.
