(* ===== verification/Reconcile.v ===== *)
(** * Running the reconciler twice (src/app/src/fetch-ohlcv-rs/src/main.rs)

    The specification asks the run of fetch-ohlcv-rs to be idempotent: with
    the remote answering the same page, a second run leaves the same rows as
    the first.  This file proves it for a table with a unique index on the
    bucket, when the page starts at the watermark (cryptowat's [after]) and
    has one candle per bucket, and shows by an example that without the
    index the second run duplicates every bucket of the page but its last.

    The proof composes the lemmas of [AtbDb] on [delete_ohlcv] and
    [insert_ohlcv_list] with [FetchOhlcv.run_process_db]: after the first
    run the watermark is the last candle of the page, whose row is the only
    one of its bucket; the second run deletes that row, and of the page only
    its candle finds a free bucket, so the same row comes back at the end of
    the table. *)

From Stdlib Require Import ZArith List String Bool Lia Sorting.Permutation.
From S2P Require Import Prelude RustPrim Json AtbDb GapAnalyzer FetchOhlcv.
Import ListNotations.
Open Scope Z_scope.

Module Reconcile.
Import FetchOhlcv.

(** [resp] holds, for the period [pe], an array of rows that all parse, to
    [recs]. *)
Definition page_parses (resp : Json.value) (pe : string) (recs : list AtbDb.candle) : Prop :=
  exists res rows, Json.get resp "result" = Some res /\
    Json.get res pe = Some (Json.Array rows) /\ map parse_record rows = map Some recs.

(** Every candle of [recs] has a row of its bucket in [rows]. *)
Definition all_present (rows : list AtbDb.ohlcv_row) (ex pa pe : string)
  (recs : list AtbDb.candle) : Prop :=
  Forall (fun c => existsb (AtbDb.in_bucket ex pa pe (AtbDb.c_unixtime c)) rows = true) recs.

(** ** Facts on the boundary delete *)

Lemma boundary_delete_caps st d : AtbDb.caps (boundary_delete st d) = AtbDb.caps d.
Proof.
  unfold boundary_delete, AtbDb.delete_ohlcv. destruct (_ =? _); [reflexivity|].
  destruct (AtbDb.delete_limit _); [|reflexivity]. now destruct (AtbDb.delete_first _ _).
Qed.

Lemma boundary_delete_incl st d : incl (AtbDb.ohlcv (boundary_delete st d)) (AtbDb.ohlcv d).
Proof.
  unfold boundary_delete, AtbDb.delete_ohlcv. destruct (_ =? _); [apply incl_refl|].
  destruct (AtbDb.delete_limit _); [|apply incl_refl].
  destruct (AtbDb.delete_first _ _) as [rows n] eqn:Hd. simpl.
  destruct (AtbDb.delete_first_spec _ _ _ _ Hd) as [[_ [-> _]]|[_ [pre [r [post [-> [_ [_ ->]]]]]]]];
    [apply incl_refl|]. intros x Hx. apply in_app_or in Hx as [Hx|Hx]; apply in_or_app; simpl; auto.
Qed.

Lemma boundary_delete_unique st d :
  AtbDb.buckets_unique (AtbDb.ohlcv d) -> AtbDb.buckets_unique (AtbDb.ohlcv (boundary_delete st d)).
Proof.
  unfold boundary_delete. destruct (_ =? _); [auto|]. apply AtbDb.delete_ohlcv_unique.
Qed.

(** Under unique buckets, a bucket that has a row [r'] in [rows] loses that
    row, and only it, when its first row is deleted. *)
Lemma delete_first_member rows ex pa pe t r' :
  AtbDb.buckets_unique rows -> In r' rows -> AtbDb.in_bucket ex pa pe t r' = true ->
  exists pre post, rows = pre ++ r' :: post /\
    fst (AtbDb.delete_first (AtbDb.in_bucket ex pa pe t) rows) = pre ++ post.
Proof.
  intros Hu Hin Hb. pose proof (AtbDb.delete_first_clears rows ex pa pe t Hu) as Hc.
  destruct (AtbDb.delete_first _ rows) as [rows' n] eqn:Hd. simpl in *.
  destruct (AtbDb.delete_first_spec _ _ _ _ Hd)
    as [[_ [-> Hall]]|[_ [pre [r [post [-> [_ [Hr ->]]]]]]]].
  - apply forallb_forall with (x := r') in Hall; [|exact Hin]. rewrite Hb in Hall. discriminate.
  - exists pre, post. split; [|reflexivity].
    apply in_app_or in Hin as [Hin|[<-|Hin]]; [| reflexivity |];
      exfalso; rewrite existsb_app, Bool.orb_false_iff in Hc; destruct Hc as [Hc1 Hc2];
      [ rewrite (proj2 (existsb_exists _ _) (ex_intro _ r' (conj Hin Hb))) in Hc1
      | rewrite (proj2 (existsb_exists _ _) (ex_intro _ r' (conj Hin Hb))) in Hc2 ]; discriminate.
Qed.

(** A candle present in [pre ++ r :: post] whose bucket is not [r]'s is
    present in [pre ++ post]. *)
Lemma present_without ex pa pe t pre r post :
  existsb (AtbDb.in_bucket ex pa pe t) (pre ++ r :: post) = true ->
  AtbDb.in_bucket ex pa pe t r = false ->
  existsb (AtbDb.in_bucket ex pa pe t) (pre ++ post) = true.
Proof. rewrite !existsb_app. simpl. intros H Hr. rewrite Hr in H. exact H. Qed.

Lemma in_bucket_time ex pa pe t t' r :
  AtbDb.in_bucket ex pa pe t r = true -> AtbDb.in_bucket ex pa pe t' r = true -> t = t'.
Proof.
  intros H H'. apply AtbDb.in_bucket_iff in H, H'. rewrite H in H'. congruence.
Qed.


(** A non-empty page has a last candle. *)
Lemma max_candle (recs : list AtbDb.candle) :
  recs <> [] -> exists cm, In cm recs /\ Forall (fun c => AtbDb.c_unixtime c <= AtbDb.c_unixtime cm) recs.
Proof.
  destruct recs as [|c0 cs]; [contradiction|]. intros _.
  pose proof (AtbDb.fold_max_in (map AtbDb.c_unixtime cs) (AtbDb.c_unixtime c0)) as Hm.
  change (AtbDb.c_unixtime c0 :: map AtbDb.c_unixtime cs) with (map AtbDb.c_unixtime (c0 :: cs)) in Hm.
  apply in_map_iff in Hm as (cm & Hm & Hin).
  exists cm. split; [exact Hin|]. apply Forall_forall. intros c Hc. rewrite Hm.
  apply AtbDb.fold_max_ge. change (In (AtbDb.c_unixtime c) (map AtbDb.c_unixtime (c0 :: cs))).
  apply in_map, Hc.
Qed.

(** Every row of the series is at most the watermark [get_ohlcv_setting]
    reads. *)
Lemma series_le_watermark d ex pa pe r :
  In r (AtbDb.ohlcv d) -> AtbDb.in_series ex pa pe r = true ->
  AtbDb.unixtime r <= setting_after d ex pa pe.
Proof.
  intros Hr Hs. assert (Hin : In (AtbDb.unixtime r) (map AtbDb.unixtime (AtbDb.series d ex pa pe)))
    by (apply in_map, filter_In; auto).
  unfold setting_after. destruct (AtbDb.get_last_unixtime_from_ohlcv d ex pa pe) as [a|] eqn:E.
  - apply (proj2 (AtbDb.get_last_unixtime_max _ _ _ _ _ E)), Hin.
  - unfold AtbDb.get_last_unixtime_from_ohlcv in E. destruct (map _ _); [contradiction|discriminate].
Qed.

(** After the boundary delete, no bucket from the watermark on other than
    the epoch constant has a row. *)
Lemma boundary_frees d ex pa pe t :
  AtbDb.delete_limit (AtbDb.caps d) = true -> AtbDb.buckets_unique (AtbDb.ohlcv d) ->
  setting_after d ex pa pe <= t -> t <> EPOCH_AFTER ->
  existsb (AtbDb.in_bucket ex pa pe t)
    (AtbDb.ohlcv (boundary_delete (mk_setting ex pa pe (setting_after d ex pa pe)) d)) = false.
Proof.
  intros Hl Hu Hle Ht. set (W := setting_after d ex pa pe) in *.
  destruct (Z.eq_dec W t) as [<-|Hlt].
  - rewrite boundary_delete_rows by auto. apply AtbDb.delete_first_clears, Hu.
  - apply Bool.not_true_iff_false. intros Hex. apply existsb_exists in Hex as (r & Hr & Hb).
    apply boundary_delete_incl in Hr. unfold AtbDb.in_bucket in Hb.
    apply andb_prop in Hb as [Hs Hrt]. apply Z.eqb_eq in Hrt.
    pose proof (series_le_watermark d ex pa pe r Hr Hs). fold W in H. lia.
Qed.

(** ** A run on a table that already holds the page *)

Section Rerun.
Context `{Provider} (ex pa pe : string) (http : http_response) (resp : Json.value)
  (recs : list AtbDb.candle).
Hypothesis Hget : forall u, http_get u = Ok http.
Hypothesis Hbody : body http = Some resp.
Hypothesis Hpage : page_parses resp pe recs.
Hypothesis Hne : recs <> [].
Hypothesis Hts : Forall (fun c => Chrono.timestamp_ok (AtbDb.c_unixtime c) = true) recs.
Hypothesis Hnd : NoDup (map AtbDb.c_unixtime recs).

Lemma run_db w :
  AtbDb.delete_limit (AtbDb.caps (db w)) = true ->
  db (snd (run_process (Ok tt) ex pa pe w))
  = AtbDb.insert_ohlcv_list (boundary_delete (mk_setting ex pa pe (setting_after (db w) ex pa pe)) (db w))
      ex pa pe recs.
Proof.
  intros Hl. destruct Hpage as (res & rows & H1 & H2 & Hp).
  eapply run_process_db; eauto.
Qed.

(** A run on a table with unique buckets that already has a row for every
    candle of the page, and whose watermark, unless it is the epoch
    constant, is the bucket of a candle whose row it holds, leaves the same
    rows, up to their order. *)
Lemma rerun_stable w :
  AtbDb.caps (db w) = AtbDb.mk_caps true true -> AtbDb.buckets_unique (AtbDb.ohlcv (db w)) ->
  all_present (AtbDb.ohlcv (db w)) ex pa pe recs ->
  (setting_after (db w) ex pa pe <> EPOCH_AFTER ->
   exists c, In c recs /\ AtbDb.c_unixtime c = setting_after (db w) ex pa pe /\
             In (AtbDb.row_of ex pa pe c) (AtbDb.ohlcv (db w))) ->
  Permutation (AtbDb.ohlcv (db (snd (run_process (Ok tt) ex pa pe w)))) (AtbDb.ohlcv (db w)).
Proof.
  intros Hcaps Hu Hall Hwm. rewrite run_db by (rewrite Hcaps; reflexivity).
  set (W := setting_after (db w) ex pa pe) in *.
  destruct (Z.eq_dec W EPOCH_AFTER) as [HW|HW].
  - unfold boundary_delete. cbn [after]. rewrite HW, Z.eqb_refl.
    rewrite AtbDb.insert_all_present; [reflexivity | rewrite Hcaps; reflexivity | exact Hall].
  - destruct (Hwm HW) as (c & Hc & Htc & Hrow).
    assert (Hb : AtbDb.in_bucket ex pa pe W (AtbDb.row_of ex pa pe c) = true).
    { apply AtbDb.in_bucket_iff. unfold AtbDb.row_of, AtbDb.bucket. simpl. now rewrite Htc. }
    destruct (delete_first_member _ ex pa pe W _ Hu Hrow Hb) as (pre & post & Hrows & Hdel).
    destruct (in_split c recs Hc) as (rpre & rpost & Hrecs).
    rewrite Hrecs. erewrite AtbDb.insert_one_missing.
    + rewrite boundary_delete_rows by (rewrite ?Hcaps; auto).
      cbn [after exchange FetchOhlcv.pair period]. rewrite Hdel, Hrows.
      rewrite <- app_assoc. apply Permutation_sym, Permutation_app_head, Permutation_cons_append.
    + rewrite boundary_delete_caps, Hcaps. reflexivity.
    + rewrite boundary_delete_rows by (rewrite ?Hcaps; auto).
      cbn [after exchange FetchOhlcv.pair period]. rewrite Hdel.
      pose proof (AtbDb.delete_first_clears _ ex pa pe W Hu) as Hcl.
      rewrite Hdel in Hcl. rewrite Htc. exact Hcl.
    + rewrite boundary_delete_rows by (rewrite ?Hcaps; auto).
      cbn [after exchange FetchOhlcv.pair period]. rewrite Hdel.
      unfold all_present in Hall. rewrite Hrecs, Forall_app in Hall. destruct Hall as [Hp1 Hp2].
      pose proof (Forall_inv_tail Hp2) as Hp3.
      rewrite Hrecs, map_app in Hnd. simpl in Hnd. apply NoDup_remove_2 in Hnd.
      apply Forall_forall. intros c' Hc'. apply (present_without _ _ _ _ _ (AtbDb.row_of ex pa pe c)).
      * rewrite <- Hrows. apply in_app_or in Hc' as [Hc'|Hc'];
          [apply (proj1 (Forall_forall _ _) Hp1) | apply (proj1 (Forall_forall _ _) Hp3)]; exact Hc'.
      * apply Bool.not_true_iff_false. intros Hb'. apply Hnd. rewrite <- map_app.
        rewrite Htc, <- (in_bucket_time _ _ _ _ _ _ Hb' Hb). apply in_map, Hc'.
Qed.

(** After a run the watermark is the last candle of the page. *)
Lemma first_run_watermark w cm :
  AtbDb.delete_limit (AtbDb.caps (db w)) = true ->
  Forall (fun c => setting_after (db w) ex pa pe <= AtbDb.c_unixtime c) recs ->
  In cm recs -> Forall (fun c => AtbDb.c_unixtime c <= AtbDb.c_unixtime cm) recs ->
  setting_after (db (snd (run_process (Ok tt) ex pa pe w))) ex pa pe = AtbDb.c_unixtime cm.
Proof.
  intros Hl Hge Hcm Hmax. rewrite run_db by exact Hl.
  set (bd := boundary_delete _ (db w)).
  unfold setting_after. rewrite (AtbDb.get_last_unixtime_intro _ _ _ _ (AtbDb.c_unixtime cm));
    [reflexivity | apply AtbDb.existsb_in_bucket_series, AtbDb.insert_ohlcv_list_present, Hcm |].
  intros t' Ht'. apply in_map_iff in Ht' as (r & <- & Hr). apply filter_In in Hr as [Hr Hs].
  destruct (AtbDb.insert_ohlcv_list_prefix bd ex pa pe recs) as (added & Hd & Hinc).
  rewrite Hd in Hr. apply in_app_or in Hr as [Hr|Hr].
  - apply boundary_delete_incl in Hr.
    pose proof (series_le_watermark _ _ _ _ _ Hr Hs).
    pose proof (proj1 (Forall_forall _ _) Hge cm Hcm). cbv beta in *. lia.
  - apply Hinc, in_map_iff in Hr as (c & <- & Hc). apply (proj1 (Forall_forall _ _) Hmax c Hc).
Qed.

(** C5: idempotence.  Under a unique index on the bucket, with [DELETE ...
    LIMIT] available and buckets unique in the table, when the remote
    answers the same page, one candle per bucket, from the watermark on,
    a second run leaves the rows of the first, up to their order. *)
Theorem run_twice_idempotent w :
  AtbDb.caps (db w) = AtbDb.mk_caps true true -> AtbDb.buckets_unique (AtbDb.ohlcv (db w)) ->
  Forall (fun c => setting_after (db w) ex pa pe <= AtbDb.c_unixtime c) recs ->
  let w1 := snd (run_process (Ok tt) ex pa pe w) in
  Permutation (AtbDb.ohlcv (db (snd (run_process (Ok tt) ex pa pe w1)))) (AtbDb.ohlcv (db w1)).
Proof.
  intros Hcaps Hu Hge w1. destruct (max_candle recs Hne) as (cm & Hcm & Hmax).
  assert (Hl : AtbDb.delete_limit (AtbDb.caps (db w)) = true) by (rewrite Hcaps; reflexivity).
  assert (Hd1 : db w1 = AtbDb.insert_ohlcv_list
                  (boundary_delete (mk_setting ex pa pe (setting_after (db w) ex pa pe)) (db w))
                  ex pa pe recs) by (apply run_db, Hl).
  assert (Hc1 : AtbDb.caps (db w1) = AtbDb.mk_caps true true)
    by (rewrite Hd1, AtbDb.insert_ohlcv_list_caps, boundary_delete_caps; exact Hcaps).
  apply rerun_stable; [exact Hc1 | | |].
  - rewrite Hd1. apply AtbDb.insert_ohlcv_list_unique;
      [rewrite boundary_delete_caps, Hcaps; reflexivity | apply boundary_delete_unique, Hu].
  - rewrite Hd1. apply Forall_forall. intros c Hc. apply AtbDb.insert_ohlcv_list_present, Hc.
  - unfold w1. rewrite (first_run_watermark w cm Hl Hge Hcm Hmax). intros Hep.
    exists cm. split; [exact Hcm|split; [reflexivity|]]. fold w1. rewrite Hd1.
    destruct (in_split cm recs Hcm) as (pre & post & Hrecs). rewrite Hrecs.
    apply AtbDb.insert_fresh_member.
    + apply boundary_frees; [exact Hl | exact Hu | apply (proj1 (Forall_forall _ _) Hge cm Hcm) | exact Hep].
    + intros Hin. pose proof Hnd as Hnd'. rewrite Hrecs, map_app in Hnd'. simpl in Hnd'.
      apply NoDup_remove_2 in Hnd'. apply Hnd'. apply in_or_app. left. exact Hin.
Qed.

End Rerun.

(** ** Witnesses *)

Local Open Scope string_scope.

(** The scenario of the specification with a unique index: one row at 500,
    the page 500 and 520, run twice. *)
Lemma run_twice_idempotent_witness :
  let w1 := snd (@run_process spec_provider (Ok tt) "bitflyer" "btcjpy" "20" (spec_world true)) in
  Permutation (AtbDb.ohlcv (db (snd (@run_process spec_provider (Ok tt) "bitflyer" "btcjpy" "20" w1))))
              (AtbDb.ohlcv (db w1)).
Proof.
  apply (run_twice_idempotent (H := spec_provider) "bitflyer" "btcjpy" "20"
           (mk_response 200 (Some spec_batch)) spec_batch [candle_of_json 500 7; candle_of_json 520 8]).
  - intros u. reflexivity.
  - reflexivity.
  - eexists _, _. split; [reflexivity | split; [reflexivity | exact spec_batch_parses]].
  - discriminate.
  - exact spec_batch_dates.
  - constructor; [simpl; lia | constructor; [intros [] | constructor]].
  - reflexivity.
  - constructor; [intros [] | constructor].
  - repeat constructor; vm_compute; discriminate.
Defined.

(** Without the unique index the second run appends the page again: the
    bucket 500 ends with two rows. *)
Example rerun_duplicates_without_index :
  let w1 := snd (@run_process spec_provider (Ok tt) "bitflyer" "btcjpy" "20" (spec_world false)) in
  let w2 := snd (@run_process spec_provider (Ok tt) "bitflyer" "btcjpy" "20" w1) in
  List.length (AtbDb.ohlcv (db w1)) = 2%nat /\ List.length (AtbDb.ohlcv (db w2)) = 3%nat /\
  List.length (filter (AtbDb.in_bucket "bitflyer" "btcjpy" "20" 500) (AtbDb.ohlcv (db w2))) = 2%nat.
Proof. vm_compute. split; [reflexivity | split; reflexivity]. Qed.

End Reconcile.
