(* ===== verification/Processes.v ===== *)
(** * The three binaries from start-up to exit code

    Every binary first sets up [AtbDB::connect] from the configuration
    ([Config]); market-api-rs then reads the API address, binds the actix-web
    server and routes requests to the handlers of [MarketApi]
    (src/app/src/market-api-rs/src/main.rs 19-98).  This file composes the
    start-up of [Config] with the [main]s of [FetchOhlcv] and [BotAdmin],
    whose connection outcome is their first input, and models market-api's
    [main], [get_server_config], [actual_main], [run] and its route table.

    The network is the interface [Network]: whether binding an address
    succeeds.  A started server is modelled by the sequence of requests it
    serves, one after the other (actix's worker threads are not modelled),
    after which it stops.  A handler that panics outside [web::block]
    answers nothing on its connection ([ConnectionDropped]); actix replaces
    the worker and the server goes on with the next request. *)

From stdpp Require Import base gmap strings list.
From Stdlib Require Import ZArith Lia.
From S2P Require Import Prelude RustPrim Json JsonText Config AtbDb BotStore BotAdmin Cli MarketApi FetchOhlcv.
Open Scope Z_scope.

Module MarketMain.
Import Config BotStore MarketApi.

(** [struct ServerConfig] (main.rs 9-12). *)
Record ServerConfig : Type := mk_server_config {
  host : string;
  port : string
}.

(** [get_server_config] (main.rs 54-64). *)
Definition get_server_config {S E} (atbconf : AtbConf) : St S E (option ServerConfig) :=
  if negb (has_api_host atbconf) || negb (has_api_port atbconf) then ret None
  else (h <- unwrap_option (get_api_host atbconf) ;;
        p <- unwrap_option (get_api_port atbconf) ;;
        ret (Some (mk_server_config h (I64.i64_to_string p))))%rust.

(** A request: its method, the segments of its path, its [token] header and
    the bytes of its body. *)
Inductive meth : Type := GET | POST.

Record request : Type := mk_request {
  method : meth;
  segments : list string;
  token : option string;
  body : string
}.

(** What the server answers: a handler's response, actix's own [404]
    (no resource matches, or a path segment does not deserialize) and
    [405] (the resource has no route for the method), or no answer: a
    handler that panics outside [web::block] unwinds its worker, actix
    drops the connection and starts a new worker, and the database keeps
    what was written. *)
Inductive reply : Type :=
| Handled (r : response)
| NotFound
| MethodNotAllowed
| ConnectionDropped.

(** A handler's future run by the worker. *)
Definition handled {S} (c : St S Empty_set response) : St S Empty_set reply :=
  fun s =>
    match c s with
    | (Ret r, s') => (Ret (Handled r), s')
    | (Throw e, _) => match e with end
    | (Abort _, s') => (Ret ConnectionDropped, s')
    end.

(** The services of [run] (main.rs 85-92), each a resource with one
    route.  [web::Path<(String, String, i64)>] and [web::Path<GetId>]
    deserialize the [i64] segment with [str::parse::<i64>]. *)
Definition by_method (m want : meth) {S} (c : St S Empty_set reply) : St S Empty_set reply :=
  match m, want with
  | GET, GET | POST, POST => c
  | _, _ => ret MethodNotAllowed
  end.

(** [struct GetId] (main.rs 14-17) and the [web::Path<GetId>] of
    [get_bot]: serde reads the [id] segment with [str::parse::<i64>]; a
    segment that does not parse answers [404]. *)
Record GetId : Type := mk_get_id { get_id_id : Z }.

Definition path_get_id (s : string) : option GetId :=
  match I64.parse_i64 s with
  | Ok i => Some (mk_get_id i)
  | Err _ => None
  end.

Definition route {HO : HashOrder} (rq : request) : St server Empty_set reply :=
  match segments rq with
  | [] => by_method (method rq) GET (handled index)
  | [s] =>
      if String.eqb s "bot" then by_method (method rq) POST (handled (post_bot_handler (body rq)))
      else ret NotFound
  | [s; id] =>
      if String.eqb s "bot" then
        by_method (method rq) GET
          (match path_get_id id with
           | Some path => handled (get_bot (get_id_id path) (token rq))
           | None => ret NotFound
           end)
      else ret NotFound
  | [s; market; pair_; period] =>
      if String.eqb s "ohlcv" then
        by_method (method rq) GET
          (match I64.parse_i64 period with
           | Ok p => handled (get_ohlcv market pair_ p)
           | Err _ => ret NotFound
           end)
      else ret NotFound
  | _ => ret NotFound
  end.

(** [TcpListener] binding: [Err] with the [io::Error]'s text when the
    address cannot be bound. *)
Class Network : Type := {
  bind_addr : string -> result unit string
}.

(** The process: its environment, the database behind the server, what it
    wrote to stderr and the replies it sent. *)
Record world : Type := mk_world {
  wenv : env;
  wdb : server;
  stderr : list string;
  replies : list reply
}.

Definition on_env {E A} (c : St env E A) : St world E A :=
  fun w => let '(r, e) := c (wenv w) in (r, mk_world e (wdb w) (stderr w) (replies w)).

Definition on_server {E A} (c : St server E A) : St world E A :=
  fun w => let '(r, s) := c (wdb w) in (r, mk_world (wenv w) s (stderr w) (replies w)).

Definition eprintln {E} (msg : string) : St world E unit :=
  modify (fun w => mk_world (wenv w) (wdb w) (stderr w ++ [msg]) (replies w)).

Definition answer {E} (r : reply) : St world E unit :=
  modify (fun w => mk_world (wenv w) (wdb w) (stderr w) (replies w ++ [r])).

(** [std::env::set_var]. *)
Definition set_var {E} (k v : string) : St world E unit :=
  modify (fun w =>
    let e := wenv w in
    mk_world (mk_env (fun k' => if String.eqb k' k then Some v else var e k')
                     (read_file e) (pool_new e))
             (wdb w) (stderr w) (replies w)).

(** A computation that cannot return [Err] used where one could. *)
Definition no_err {S E A} (c : St S Empty_set A) : St S E A :=
  fun s =>
    match c s with
    | (Ret a, s') => (Ret a, s')
    | (Throw e, _) => match e with end
    | (Abort p, s') => (Abort p, s')
    end.

(** The running server answers each request in turn. *)
Fixpoint serve {HO : HashOrder} {E} (rqs : list request) : St world E unit :=
  match rqs with
  | [] => ret tt
  | rq :: rest => (r <- on_server (no_err (route rq)) ;; answer r ;; serve rest)%rust
  end.

(** [run] (main.rs 75-98): [env_logger::init()] is not modelled (it only
    configures logging); [.bind(addr)?] returns its error. *)
Definition run {N : Network} {HO : HashOrder} (server_config : ServerConfig) (rqs : list request)
  : St world string unit :=
  (set_var "RUST_LOG" "info,actix_web=info" ;;
   let addr := (host server_config ++ ":" ++ port server_config)%string in
   _ <- try_result (fun e => e) (bind_addr addr) ;;
   serve rqs)%rust.

(** [actual_main] (main.rs 67-73). *)
Definition actual_main {N : Network} {HO : HashOrder} (server_config : ServerConfig) (rqs : list request)
  : St world Empty_set Z :=
  (r <- to_result (run server_config rqs) ;;
   match r with
   | Err err => eprintln err ;; ret 1
   | Ok _ => ret 0
   end)%rust.

(** [main] (main.rs 19-51); [std::process::exit(code)] ends it. *)
Definition main {N : Network} {HO : HashOrder} {YL : YamlLoader} (rqs : list request) : St world Empty_set Z :=
  (result_atbconf <- on_env load_conf ;;
   match result_atbconf with
   | None => eprintln msg_check_env ;; ret 1
   | Some atbconf =>
       result_atbdb <- on_env (to_result (connect result_atbconf)) ;;
       match result_atbdb with
       | Err err => eprintln err ;; ret 1
       | Ok _ =>
           result_server_config <- get_server_config atbconf ;;
           match result_server_config with
           | None => eprintln msg_check_file ;; ret 1
           | Some server_config => actual_main server_config rqs
           end
       end
   end)%rust.

(** ** Theorems *)

Section Theory.
Context {N : Network} {HO : HashOrder} {YL : YamlLoader}.

(** No request panics out of the server: [web::block] turns a panic of
    its closure into a [500], and a panic of the handler itself drops the
    connection. *)
Lemma route_ret rq s : exists r s', route rq s = (Ret r, s').
Proof.
  assert (Hh : forall (c : St server Empty_set response) s, exists r s', handled c s = (Ret r, s')).
  { intros c s0. unfold handled. destruct (c s0) as [[r|[]|p] s']; eauto. }
  assert (Hm : forall m want (c : St server Empty_set reply),
             (forall s, exists r s', c s = (Ret r, s')) ->
             exists r s', by_method m want c s = (Ret r, s')).
  { intros [] [] c Hc; simpl; eauto; unfold ret; eauto. }
  unfold route. destruct (segments rq) as [|a [|b [|c [|d [|e l]]]]];
    repeat match goal with |- context [if ?x then _ else _] => destruct x end;
    try (unfold ret; eauto; fail); apply Hm; intros s0;
    repeat match goal with
           | |- context [match ?x with Ok _ => _ | Err _ => _ end] => destruct x
           | |- context [match ?x with Some _ => _ | None => _ end] => destruct x
           end;
    try (unfold ret; eauto; fail); apply Hh.
Qed.

Lemma serve_ret {E} rqs w :
  exists w', serve (E := E) rqs w = (Ret tt, w') /\
    length (replies w') = (length (replies w) + length rqs)%nat /\
    wenv w' = wenv w /\ stderr w' = stderr w.
Proof.
  revert w. induction rqs as [|rq rqs IH]; intros w; simpl.
  - exists w. rewrite Nat.add_0_r. auto.
  - destruct (route_ret rq (wdb w)) as (r & s' & Hr).
    unfold bind at 1, on_server, no_err. rewrite Hr. unfold bind, answer, modify. simpl.
    destruct (IH (mk_world (wenv w) s' (stderr w) (replies w ++ [r]))) as (w' & Hw' & Hl & He & Hs).
    exists w'. rewrite Hw'. simpl in *. rewrite Hl, length_app. simpl. split_and!; auto; lia.
Qed.

(** A call that only reads the environment. *)
Lemma on_env_read {E A} (c : St env E A) w r :
  c (wenv w) = (r, wenv w) -> on_env c w = (r, w).
Proof. intros H. unfold on_env. rewrite H. now destruct w. Qed.

(** C32: [get_server_config] never panics at its [unwrap]s: it answers [None]
    when the host is not a string or the port not an integer, and
    otherwise the host and the decimal text of the port, which parses back
    to the configured port. *)
Theorem get_server_config_port {S E} c (s : S) :
  yaml_wf (yaml c) ->
  ((get_api_host c = None \/ get_api_port c = None) /\
   get_server_config (E := E) c s = (Ret None, s)) \/
  (exists h p, get_api_host c = Some h /\ get_api_port c = Some p /\
   get_server_config (E := E) c s = (Ret (Some (mk_server_config h (I64.i64_to_string p))), s) /\
   I64.parse_i64 (I64.i64_to_string p) = Ok p).
Proof.
  intros Hwf. unfold get_server_config, has_api_host, has_api_port.
  destruct (get_api_host c) as [h|] eqn:Hh; [|left; auto].
  destruct (get_api_port c) as [p|] eqn:Hp; [|left; auto].
  right. exists h, p. split_and!; try reflexivity.
  apply I64.print_parse, (get_api_port_range c); assumption.
Qed.

Lemma get_server_config_some {S E} c (s : S) h p :
  get_api_host c = Some h -> get_api_port c = Some p ->
  get_server_config (E := E) c s = (Ret (Some (mk_server_config h (I64.i64_to_string p))), s).
Proof. intros Hh Hp. unfold get_server_config, has_api_host, has_api_port. now rewrite Hh, Hp. Qed.

(** a market-api process whose configuration names a database, a host
    and a port that can be bound serves every request it receives, one
    reply each, and exits with 0. *)
Theorem market_serves_all rqs w c path h p :
  load_conf (E := Empty_set) (wenv w) = (Ret (Some c), wenv w) ->
  get_sqlite3_file c = Some path -> pool_new (wenv w) path = Ok tt ->
  get_api_host c = Some h -> get_api_port c = Some p ->
  bind_addr (h ++ ":" ++ I64.i64_to_string p)%string = Ok tt ->
  exists w', main rqs w = (Ret 0, w') /\
    length (replies w') = (length (replies w) + length rqs)%nat /\ stderr w' = stderr w.
Proof.
  intros Hl Hf Hpool Hh Hp Hb. unfold main.
  rewrite (bind_Ret _ _ _ _ _ (on_env_read _ _ _ Hl)).
  assert (Hc : on_env (to_result (E := Empty_set) (connect (Some c))) w = (Ret (Ok tt), w)).
  { apply on_env_read. unfold to_result. rewrite connect_some, Hf, Hpool. reflexivity. }
  rewrite (bind_Ret _ _ _ _ _ Hc), (bind_Ret _ _ _ _ _ (get_server_config_some c w h p Hh Hp)).
  unfold actual_main, run, bind at 1, to_result. cbn [set_var modify bind host port].
  unfold bind at 1. rewrite Hb. cbn [try_result ret].
  match goal with |- context [serve rqs ?w1] =>
    destruct (serve_ret (E := string) rqs w1) as (w' & -> & Hl' & _ & Hs) end.
  exists w'. cbn in *. split_and!; auto.
Qed.

Lemma route_post_malformed rq s e :
  method rq = POST -> segments rq = ["bot"] -> JsonText.from_slice (body rq) = Err e ->
  route rq s = (Ret ConnectionDropped, s).
Proof.
  intros Hm Hs He. unfold route. rewrite Hs, Hm. cbn [String.eqb by_method].
  unfold handled, post_bot_handler. unfold JsonText.from_slice in He.
  destruct (JsonText.utf8_valid (body rq)); [|reflexivity].
  simpl negb. rewrite He. reflexivity.
Qed.

(** C13: a [POST /bot] whose body is not UTF-8 or not one JSON value panics
    at an [unwrap] of [post_bot] before [web::block]: the server answers
    nothing on that connection, the database is unchanged, and the
    requests after it are served as if it had not come. *)
Theorem post_bot_malformed_dropped {E} rq rest w e :
  method rq = POST -> segments rq = ["bot"] -> JsonText.from_slice (body rq) = Err e ->
  serve (E := E) (rq :: rest) w
  = serve rest (mk_world (wenv w) (wdb w) (stderr w) (replies w ++ [ConnectionDropped])).
Proof.
  intros Hm Hs He. cbn [serve]. unfold bind at 1, on_server, no_err.
  rewrite (route_post_malformed rq (wdb w) e Hm Hs He). reflexivity.
Qed.

Lemma push_ok_rows rows :
  AtbDb.push_ok (map AtbDb.row_to_candle rows) = map AtbDb.candle_of rows.
Proof. induction rows as [|r rows IH]; simpl; congruence. Qed.

(** C16: a [GET /bot/{id}] whose [token] header holds a byte that is not
    visible ASCII (a UTF-8 token, say, which the HTTP parser accepts) panics
    at [to_str().unwrap()] in [_get_token], before [web::block]: the
    connection is dropped and the database is unchanged. *)
Theorem get_bot_bad_token_dropped rq s id tok :
  method rq = GET -> segments rq = ["bot"; id] -> is_Some (path_get_id id) ->
  token rq = Some tok -> header_str tok = false ->
  route rq s = (Ret ConnectionDropped, s).
Proof.
  intros Hm Hs [p Hp] Ht Hh. unfold route. rewrite Hs, Hm. cbn [String.eqb by_method].
  rewrite Hp. unfold handled, get_bot, bind, _get_token. rewrite Ht, Hh. reflexivity.
Qed.

(** C29: [GET /ohlcv/{market}/{pair}/{period}] with a period that parses as
    an [i64] answers the candles of the series whose period is that
    integer's decimal text, every row in rowid order, and changes
    nothing. *)
Theorem get_ohlcv_route rq s market pair_ period p :
  method rq = GET -> segments rq = ["ohlcv"; market; pair_; period] ->
  I64.parse_i64 period = Ok p ->
  route rq s = (Ret (Handled (HttpOk (BodyOhlcv
                  (map AtbDb.candle_of
                     (AtbDb.series (ohlcv_db s) market pair_ (I64.i64_to_string p)))))), s).
Proof.
  intros Hm Hs Hp. unfold route. rewrite Hs, Hm, String.eqb_refl. cbn [by_method].
  rewrite Hp. unfold handled, get_ohlcv, web_block. cbn beta.
  unfold AtbDb.get_ohlcv_list. rewrite push_ok_rows. reflexivity.
Qed.

End Theory.

(** ** Witnesses *)

Definition open_network : Network := {| bind_addr := fun _ => Ok tt |}.

Definition sample_conf : AtbConf := mk_conf sample_yaml.

Lemma get_server_config_port_witness :
  ((get_api_host sample_conf = None \/ get_api_port sample_conf = None) /\
   get_server_config (E := Empty_set) sample_conf tt = (Ret None, tt)) \/
  (exists h p, get_api_host sample_conf = Some h /\ get_api_port sample_conf = Some p /\
   get_server_config (E := Empty_set) sample_conf tt
     = (Ret (Some (mk_server_config h (I64.i64_to_string p))), tt) /\
   I64.parse_i64 (I64.i64_to_string p) = Ok p).
Proof.
  apply (get_server_config_port (S := unit) (E := Empty_set) sample_conf tt).
  vm_compute. repeat split; discriminate.
Defined.

Definition get_bot_one : request := mk_request GET ["bot"; "1"] (Some "t") EmptyString.

(** A body whose object key is not quoted. *)
Definition post_unquoted : request :=
  mk_request POST ["bot"] None "{name:1}".

Definition sample_world : world :=
  mk_world (env_with "database: ...") (witness_server witness_table) [] [].

Lemma market_serves_all_witness :
  exists w', main (N := open_network) (HO := key_order) (YL := sample_loader)
               [get_bot_one; get_bot_one] sample_world = (Ret 0, w') /\
    length (replies w') = (length (replies sample_world) + 2)%nat /\
    stderr w' = stderr sample_world.
Proof.
  apply (market_serves_all (N := open_network) (HO := key_order) (YL := sample_loader)
           [get_bot_one; get_bot_one] sample_world sample_conf "/var/atb/atb.db" "127.0.0.1" 8080);
    reflexivity.
Defined.

Lemma post_bot_malformed_dropped_witness :
  serve (HO := key_order) (E := Empty_set) [post_unquoted; get_bot_one] sample_world
  = serve (HO := key_order) [get_bot_one]
      (mk_world (wenv sample_world) (wdb sample_world) (stderr sample_world)
                (replies sample_world ++ [ConnectionDropped])).
Proof.
  exact (post_bot_malformed_dropped (HO := key_order) post_unquoted [get_bot_one] sample_world
           JsonText.KeyMustBeAString eq_refl eq_refl eq_refl).
Defined.

(** A token sent as UTF-8 bytes. *)
Definition utf8_token_rq : request := mk_request GET ["bot"; "1"] (Some "トークン") EmptyString.

Lemma get_bot_bad_token_dropped_witness :
  route (HO := key_order) utf8_token_rq (witness_server witness_table1)
  = (Ret ConnectionDropped, witness_server witness_table1).
Proof.
  apply (get_bot_bad_token_dropped (HO := key_order) utf8_token_rq _ "1" "トークン");
    try reflexivity.
  eexists. reflexivity.
Defined.

Definition ohlcv_server : server :=
  mk_server (AtbDb.mk_db (AtbDb.mk_caps true true)
               [AtbDb.mk_row "bitflyer" "btcjpy" "60" AtbDb.one AtbDb.one AtbDb.one AtbDb.one
                  AtbDb.one 500;
                AtbDb.mk_row "bitflyer" "btcjpy" "20" AtbDb.one AtbDb.one AtbDb.one AtbDb.one
                  AtbDb.one 520])
            witness_table.

(** The period segment [060] is read as the integer 60 and queried as
    ["60"]. *)
Lemma get_ohlcv_route_witness :
  route (HO := key_order) (mk_request GET ["ohlcv"; "bitflyer"; "btcjpy"; "060"] None EmptyString)
    ohlcv_server
  = (Ret (Handled (HttpOk (BodyOhlcv
       (map AtbDb.candle_of (AtbDb.series (ohlcv_db ohlcv_server) "bitflyer" "btcjpy" "60"))))),
     ohlcv_server).
Proof. apply (get_ohlcv_route (HO := key_order) _ _ _ _ "060" 60); reflexivity. Defined.

(** The two front ends read an id differently: the [bot] table's [id]
    comparison converts the text [1.0] to the integer 1, so bot-admin's
    [get 1.0] reads bot 1, while market-api reads its path segment with
    [str::parse::<i64>] and answers [GET /bot/1.0] with 404. *)
Example decimal_id_front_ends :
  fst (BotStore.get_bot "1.0" witness_table1) = fst (BotStore.get_bot "1" witness_table1) /\
  route (HO := key_order) (mk_request GET ["bot"; "1.0"] (Some "t") EmptyString)
    (witness_server witness_table1)
  = (Ret NotFound, witness_server witness_table1).
Proof. split; vm_compute; reflexivity. Qed.

End MarketMain.

(** ** fetch-ohlcv-rs and bot-admin from start-up *)

Module Binaries.
Import Config.

Section Binaries.
Context {YL : YamlLoader}.

(** fetch-ohlcv-rs's [main] (main.rs 12-46): [AtbDB::connect(None)], then
    clap, then the run of [FetchOhlcv] from [get_ohlcv_setting] on.  A
    panic in [connect] or at an [unwrap] of the arguments exits with 101;
    clap's own exit is [Clap.exit_code].  When the connection fails, the
    run prints the error before reading any argument. *)
Definition fetch_process {P : FetchOhlcv.Provider} (e : env) (argv : list string)
  (w : FetchOhlcv.world) : Z * FetchOhlcv.world :=
  let '(r, _) := connect None e in
  match r with
  | Abort _ => (101, w)
  | Throw msg => FetchOhlcv.run_process (Err msg) "" "" "" w
  | Ret _ =>
      match FetchCli.get_args_matches argv with
      | Err err => (Clap.exit_code err, w)
      | Ok m =>
          match FetchCli.setting_args (E := Empty_set) m w with
          | (Ret (ex, pa, pe), _) => FetchOhlcv.run_process (Ok tt) ex pa pe w
          | (Throw e, _) => match e with end
          | (Abort _, _) => (101, w)
          end
      end
  end.

(** bot-admin's [main] (main.rs 20-39): [AtbDB::connect(None)], clap,
    [get_config] and [actual_main]. *)
Definition admin_process {HO : BotStore.HashOrder} (e : env) (argv : list string)
  (w : BotAdmin.world) : Z * BotAdmin.world :=
  let '(r, _) := connect None e in
  match r with
  | Abort _ => (101, w)
  | Throw msg => BotAdmin.run_admin (Err msg) BotAdmin.SubNone w
  | Ret _ =>
      match AdminCli.get_args_matches argv with
      | Err err => (Clap.exit_code err, w)
      | Ok mt => BotAdmin.run_admin (Ok tt) (AdminCli.subcommand_of mt) w
      end
  end.

Lemma connect_missing e : config_missing e -> connect None e = (Throw msg_check_env, e).
Proof.
  intros Hm. rewrite connect_none_load. unfold bind. rewrite (config_missing_load e Hm).
  reflexivity.
Qed.

(** C6: a configuration fault is fatal and reported before any network or
    database activity: fetch-ohlcv-rs and bot-admin print the
    [PATH_ATB_CONFIG] message and exit with 1 without touching their table
    (fetch-ohlcv-rs prints no URL: it never fetches), and market-api-rs
    does the same without binding or answering anything. *)
Theorem config_fault_exits_early {P : FetchOhlcv.Provider} {N : MarketMain.Network}
  {HO : BotStore.HashOrder} e fargv fw aargv aw rqs mw :
  config_missing e -> MarketMain.wenv mw = e ->
  fetch_process e fargv fw =
    (1, FetchOhlcv.mk_world (FetchOhlcv.db fw)
          (FetchOhlcv.out fw ++ [FetchOhlcv.EPrint (FetchOhlcv.ErrConnect msg_check_env)])) /\
  admin_process e aargv aw =
    (1, BotAdmin.mk_world (BotAdmin.table aw) (BotAdmin.out aw ++ [BotAdmin.EPrintConnect msg_check_env])) /\
  MarketMain.main rqs mw =
    (Ret 1, MarketMain.mk_world e (MarketMain.wdb mw) (MarketMain.stderr mw ++ [msg_check_env])
              (MarketMain.replies mw)).
Proof.
  intros Hm He. unfold fetch_process, admin_process. rewrite (connect_missing e Hm).
  split_and!; [reflexivity|reflexivity|].
  unfold MarketMain.main. subst e.
  rewrite (bind_Ret _ _ _ _ _ (MarketMain.on_env_read _ _ _ (config_missing_load _ Hm))).
  now destruct mw.
Qed.

(** C14: [bot-admin add ... --operation X] fails for every command line clap
    accepts: whatever name, description, flags and operation (one of the
    three values clap allows) are given, the process exits with 1 and the
    table is unchanged, because [operation] is no column of [bot]. *)
Theorem admin_add_operation_always_fails {HO : BotStore.HashOrder} e argv mt m v w :
  fst (connect None e) = Ret tt -> AdminCli.get_args_matches argv = Ok mt ->
  Clap.sub mt = Some ("add", m) -> BotAdmin.value_of m "operation" = Some v ->
  admin_process e argv w =
    (1, BotAdmin.mk_world (BotAdmin.table w)
          (BotAdmin.out w ++ [BotAdmin.EPrintSqlite AtbDb.SqlInputError])).
Proof.
  intros Hc Hp Hs Hop. unfold admin_process.
  destruct (connect None e) as [r e']. simpl in Hc. subst r. rewrite Hp.
  assert (Hsub : AdminCli.subcommand_of mt = BotAdmin.SubAdd m)
    by (unfold AdminCli.subcommand_of; rewrite Hs; reflexivity).
  rewrite Hsub. destruct (AdminCli.admin_required _ _ _ _ Hp Hs) as [Hadd _].
  destruct (Hadd eq_refl) as [Hn Hd].
  exact (BotAdmin.admin_add_operation_rejected w m v Hn Hd Hop).
Qed.

End Binaries.

(** ** Witnesses *)

(** A process started without [PATH_ATB_CONFIG]. *)
Definition env_unset : env := mk_env (fun _ => None) (fun _ => None) (fun _ => Ok tt).

Definition fetch_world : FetchOhlcv.world :=
  FetchOhlcv.mk_world (AtbDb.mk_db (AtbDb.mk_caps true false) []) [].

Definition market_world : MarketMain.world :=
  MarketMain.mk_world env_unset (MarketApi.witness_server BotStore.witness_table) [] [].

Lemma config_fault_exits_early_witness :
  fetch_process (YL := Config.sample_loader) (P := FetchOhlcv.spec_provider) env_unset
    ["bitflyer"; "btcjpy"; "60"] fetch_world =
    (1, FetchOhlcv.mk_world (FetchOhlcv.db fetch_world)
          (FetchOhlcv.out fetch_world ++ [FetchOhlcv.EPrint (FetchOhlcv.ErrConnect msg_check_env)])) /\
  admin_process (YL := Config.sample_loader) (HO := BotStore.key_order) env_unset ["list"; "-j"]
    BotAdmin.witness_world =
    (1, BotAdmin.mk_world (BotAdmin.table BotAdmin.witness_world)
          (BotAdmin.out BotAdmin.witness_world ++ [BotAdmin.EPrintConnect msg_check_env])) /\
  MarketMain.main (N := MarketMain.open_network) (HO := BotStore.key_order)
    (YL := Config.sample_loader) [MarketMain.get_bot_one] market_world =
    (Ret 1, MarketMain.mk_world env_unset (MarketMain.wdb market_world)
              (MarketMain.stderr market_world ++ [msg_check_env]) (MarketMain.replies market_world)).
Proof.
  apply (config_fault_exits_early (YL := Config.sample_loader) (P := FetchOhlcv.spec_provider)
           (N := MarketMain.open_network) (HO := BotStore.key_order));
    reflexivity.
Defined.

Definition env_ok : env := Config.env_with "database: ...".

Definition add_op_argv : list string :=
  ["add"; "--name"; "b"; "--description"; "d"; "--operation"; "product"].

Definition add_op_matches : BotAdmin.arg_matches :=
  BotAdmin.mk_matches (<["operation" := "product"]> (<["description" := "d"]> (<["name" := "b"]> ∅))) [].

Lemma admin_add_operation_always_fails_witness :
  admin_process (YL := Config.sample_loader) (HO := BotStore.key_order) env_ok add_op_argv
    BotAdmin.witness_world =
    (1, BotAdmin.mk_world (BotAdmin.table BotAdmin.witness_world)
          (BotAdmin.out BotAdmin.witness_world ++ [BotAdmin.EPrintSqlite AtbDb.SqlInputError])).
Proof.
  apply (admin_add_operation_always_fails (YL := Config.sample_loader) (HO := BotStore.key_order)
           env_ok add_op_argv
           (Clap.mk_top Clap.empty_matches (Some ("add", add_op_matches)))
           add_op_matches "product"); vm_compute; reflexivity.
Defined.

(** An empty configuration file is not reported: each binary panics in
    [load_conf] and exits with 101. *)
Example empty_config_exits_101 :
  fst (fetch_process (YL := Config.sample_loader) (P := FetchOhlcv.spec_provider)
         (Config.env_with "") ["bitflyer"; "btcjpy"; "60"] fetch_world) = 101 /\
  fst (admin_process (YL := Config.sample_loader) (HO := BotStore.key_order)
         (Config.env_with "") ["list"; "-j"] BotAdmin.witness_world) = 101 /\
  fst (MarketMain.main (N := MarketMain.open_network) (HO := BotStore.key_order)
         (YL := Config.sample_loader) [] (MarketMain.mk_world (Config.env_with "")
            (MarketApi.witness_server BotStore.witness_table) [] [])) = Abort PanicIndex.
Proof. split_and!; reflexivity. Qed.

End Binaries.
