(* ===== verification/BotTyped.v ===== *)
(** * Column types of the [bot] table across the programs

    [get_bot] and [get_bot_list] read every column of a row with
    [row.get(i).unwrap()] (src/app/lib/atb-db/src/lib.rs 255-327): a
    column that does not hold a value of its declared type panics the
    reader.  The programs that write the table are bot-admin's [add],
    [update] and [remove] and market-api's [POST /bot]; what they store
    depends on their own conversions:
    - bot-admin turns the value of [--enable], [--long-order] and
      [--short-order] into ["1"] or ["0"] before [insert_bot] and
      [update_bot] (src/app/src/bot-admin/src/main.rs 300-316 and
      334-348), and removes [id] from the map of an update;
    - market-api's [_get_option] takes [name] and [description] only when
      they are strings and the flags only when they are booleans, written
      ["1"] or ["0"] (src/app/src/market-api-rs/src/main.rs 130-196).

    [app_step] is one run of bot-admin or one request to market-api on the
    table.  [reachable_tables_typed] says that from a table whose rows are
    typed and whose column defaults are typed (the schema is not in the
    repository: a column the programs may leave unset, [enable] on an [add]
    without [--enable] say, must have a default of its type), every table
    the two programs reach is typed, so that bot-admin's [list] lists it
    without panicking.  The proofs go through [preserves], a property of
    the state that a computation keeps whatever it returns. *)

From stdpp Require Import base gmap strings list.
From Stdlib Require Import ZArith Lia ssreflect.
From S2P Require Import Prelude RustPrim AtbDb BotStore BotSpec BotAdmin MarketApi Processes.
Open Scope Z_scope.
Local Set Warnings "-rewrite-rw".

Module BotTyped.
Import BotStore MarketApi.

(** ** Typed rows and tables *)

(** A value fits column [c] when it has the type of the column's affinity;
    a name that is no column constrains nothing. *)
Definition val_ok (c : string) (v : sql_value) : bool :=
  match column_affinity c with Some a => value_has_type a v | None => true end.

Definition col_ok (r : row) (c : string) : bool := val_ok c (column r c).

(** Every text of an option map is stored as a value that fits its
    column. *)
Definition opt_ok (opt : gmap string string) : Prop :=
  map_Forall (fun k v => val_ok k (stored_value k v) = true) opt.

(** The row an [INSERT] starts from is typed once it has its rowid and
    the two columns both programs always set, [name] and [description]:
    every other column has a default of its type. *)
Definition defaults_ok (t : bot_table) : bool :=
  row_typed (<["id" := SqlInt 0]> (<["name" := SqlText ""]>
    (<["description" := SqlText ""]> (default_row t)))).

Definition tables_typed (t : bot_table) : Prop :=
  defaults_ok t = true /\ Forall (fun r => row_typed r = true) (bots t).

(** A computation keeps a property of its state, whatever it returns. *)
Definition preserves {S E A} (P : S -> Prop) (c : St S E A) : Prop :=
  forall s, P s -> P (snd (c s)).

Definition admin_typed (w : BotAdmin.world) : Prop := tables_typed (BotAdmin.table w).

Definition server_typed (s : server) : Prop := tables_typed (bot_db s).

Section Steps.
Context {HO : HashOrder}.

(** One run of bot-admin on the table, or one request to market-api. *)
Inductive app_step : bot_table -> bot_table -> Prop :=
| admin_step (c : result unit string) (sc : BotAdmin.subcommand) (w : BotAdmin.world) :
    app_step (BotAdmin.table w) (BotAdmin.table (snd (BotAdmin.main c sc w)))
| market_step (rq : MarketMain.request) (s : server) :
    app_step (bot_db s) (bot_db (snd (MarketMain.route rq s))).
End Steps.

(** ** [preserves] through the monad *)

Create HintDb preserve.

Section Preserves.
Context {S E : Type} (P : S -> Prop).

Lemma preserves_ret {A} (a : A) : preserves P (ret (S := S) (E := E) a).
Proof. by intros s. Qed.

Lemma preserves_throw {A} e : preserves P (throw (S := S) (E := E) (A := A) e).
Proof. by intros s. Qed.

Lemma preserves_abort {A} p : preserves P (abort (S := S) (E := E) (A := A) p).
Proof. by intros s. Qed.

Lemma preserves_unwrap_option {A} (o : option A) :
  preserves P (unwrap_option (S := S) (E := E) o).
Proof. by destruct o; intros s. Qed.

Lemma preserves_same {A} (c : St S E A) : (forall s, snd (c s) = s) -> preserves P c.
Proof. intros H s. by rewrite H. Qed.

Lemma preserves_bind {A B} (c : St S E A) (k : A -> St S E B) :
  preserves P c -> (forall a, preserves P (k a)) -> preserves P (bind c k).
Proof.
  intros Hc Hk s Hs. rewrite /bind. specialize (Hc s Hs).
  destruct (c s) as [[a|e|p] s']; simpl in *; [by apply Hk|done|done].
Qed.

Lemma preserves_to_result {E' A} (c : St S E' A) :
  preserves P c -> preserves P (to_result (E := E) c).
Proof. intros Hc s Hs. rewrite /to_result. specialize (Hc s Hs). by destruct (c s) as [[]]. Qed.
End Preserves.

#[export] Hint Resolve preserves_ret preserves_throw preserves_abort
  preserves_unwrap_option preserves_to_result : preserve.

(** Split a computation at its binds, [if]s and [match]es. *)
Ltac preserve :=
  repeat first
    [ progress (eauto with preserve)
    | lazymatch goal with
      | |- preserves _ (bind _ _) => apply preserves_bind; [|intros ?]
      | |- preserves _ (if ?b then _ else _) => destruct b
      | |- preserves _ (match ?x with _ => _ end) => destruct x
      end ].

(** ** Typed rows, column by column *)

Lemma bot_columns_nodup : NoDup bot_columns.*1.
Proof. apply (bool_decide_unpack _). by vm_compute. Qed.

Lemma row_typed_spec r : row_typed r = true <-> forall c, col_ok r c = true.
Proof.
  rewrite /row_typed forallb_forall. split.
  - intros H c. rewrite /col_ok /val_ok /column_affinity.
    destruct (_ !! c) as [a|] eqn:E; [|done].
    apply elem_of_list_to_map_2, list_elem_of_In in E. exact (H _ E).
  - intros H [c a] Hin. specialize (H c).
    rewrite /col_ok /val_ok /column_affinity
      (elem_of_list_to_map_1 _ _ _ bot_columns_nodup (proj2 (list_elem_of_In _ _) Hin)) in H.
    exact H.
Qed.

Lemma union_col_ok opt r c :
  opt_ok opt -> (opt !! c = None -> col_ok r c = true) -> col_ok (stored opt ∪ r) c = true.
Proof.
  intros Ho Hr. rewrite /col_ok /column.
  destruct (opt !! c) as [v|] eqn:E.
  - rewrite (lookup_union_Some_l _ _ _ (stored_value c v)) ?stored_lookup ?E //. exact (Ho c v E).
  - rewrite lookup_union_r ?stored_lookup ?E //. by apply Hr.
Qed.

Lemma insert_id_ok r z :
  (forall c, c <> "id" -> col_ok r c = true) -> row_typed (<["id" := SqlInt z]> r) = true.
Proof.
  intros H. apply row_typed_spec => c. rewrite /col_ok /column.
  destruct (decide (c = "id")) as [->|Hne].
  - by rewrite lookup_insert_eq /val_ok column_affinity_id.
  - rewrite lookup_insert_ne; [congruence|]. exact (H c Hne).
Qed.

Lemma defaults_col_ok t c :
  defaults_ok t = true -> c ∉ ["id"; "name"; "description"] -> col_ok (default_row t) c = true.
Proof.
  intros H Hc. pose proof (proj1 (row_typed_spec _) H c) as Hcol.
  rewrite /col_ok /column in Hcol. do 3 (rewrite lookup_insert_ne in Hcol; [set_solver|]). exact Hcol.
Qed.

(** A new row: the option map over the defaults, under its rowid. *)
Lemma new_row_typed opt t z :
  opt_ok opt -> defaults_ok t = true ->
  is_Some (opt !! "name") -> is_Some (opt !! "description") ->
  row_typed (<["id" := SqlInt z]> (stored opt ∪ default_row t)) = true.
Proof.
  intros Ho Hd [n Hn] [d Hde]. apply insert_id_ok => c Hc.
  apply union_col_ok; [done|] => Hnone. apply defaults_col_ok; [done|].
  assert (c <> "name") by congruence. assert (c <> "description") by congruence. set_solver.
Qed.

Lemma forallb_typed rows : Forall (fun r => row_typed r = true) rows -> forallb row_typed rows = true.
Proof. induction 1 as [|r rows Hr _ IH]; [done|]. by rewrite /= Hr IH. Qed.

(** The columns of type [INTEGER]. *)
Lemma integer_column k :
  column_affinity k = Some AInteger ->
  k ∈ ["id"; "enable"; "registered"; "long_order"; "short_order"].
Proof.
  rewrite /column_affinity => H. apply elem_of_list_to_map_2 in H. rewrite /bot_columns in H.
  repeat (apply elem_of_cons in H as [H|H]; [simplify_eq; set_solver|]).
  by apply elem_of_nil in H.
Qed.

Lemma flag_ok k v : v = "1" \/ v = "0" -> val_ok k (stored_value k v) = true.
Proof. rewrite /val_ok /stored_value. by destruct (column_affinity k) as [[]|]; intros [-> | ->]. Qed.

Lemma text_ok k v :
  k ∉ ["id"; "enable"; "registered"; "long_order"; "short_order"] ->
  val_ok k (stored_value k v) = true.
Proof.
  intros Hk. rewrite /val_ok /stored_value.
  destruct (column_affinity k) as [[]|] eqn:E; try done. by apply integer_column in E.
Qed.

(** ** The statements on the table *)

Section Table.
Context {HO : HashOrder}.

Lemma insert_bot_typed opt :
  opt !! "id" = None -> is_Some (opt !! "name") -> is_Some (opt !! "description") ->
  opt_ok opt -> preserves tables_typed (insert_bot opt).
Proof.
  intros Hid Hn Hde Ho t [Hd Hrows]. rewrite /insert_bot /execute_insert /bind /get.
  cbn [ins_cols ins_holes]. cbn beta iota zeta.
  case_bool_decide; [done|]. destruct (negb _); [done|]. destruct (negb _); [done|].
  cbn beta iota zeta. rewrite insert_bind lookup_union_r ?stored_lookup ?Hid // default_row_id.
  cbn. split; [done|]. rewrite /with_bots /= place_perm. constructor; [|done].
  by apply new_row_typed.
Qed.

Lemma update_bot_typed idv opt :
  opt !! "id" = None -> opt_ok opt -> preserves tables_typed (update_bot idv opt).
Proof.
  intros Hid Ho t [Hd Hrows]. rewrite /update_bot /execute_update /bind /get.
  cbn [upd_set]. cbn beta iota zeta.
  destruct (negb _); [done|]. case_bool_decide; [done|].
  destruct (negb _); [done|]. destruct (negb _); [done|].
  cbn beta iota zeta. destruct (find_id _ _) as [[i r]|] eqn:Hf; [|done].
  rewrite update_bind.
  apply list_find_Some in Hf as [Hi _].
  pose proof (Forall_lookup_1 _ _ _ _ Hrows Hi) as Hr. simpl in Hr.
  rewrite lookup_union_r ?stored_lookup ?Hid //.
  lazymatch goal with
  | |- context [match ?x with Some _ => _ | None => _ end] => destruct x as [[|z|?]|]
  end; try (cbn; done).
  destruct (id_in_use z _); [done|]. cbn. split; [done|].
  rewrite /with_bots /= place_perm. constructor; [|by apply Forall_delete].
  apply row_typed_spec => c. apply union_col_ok; [done|]. intros _. by apply row_typed_spec.
Qed.

Lemma delete_bot_typed idv : preserves tables_typed (delete_bot idv).
Proof.
  intros t [Hd Hrows]. rewrite /delete_bot /bind /get. cbn beta iota zeta.
  destruct (negb _); [done|]. destruct (find_id _ _) as [[i r]|]; [|done].
  cbn. split; [done|]. rewrite /with_bots /=. by apply Forall_delete.
Qed.

Lemma get_bot_list_state t : snd (get_bot_list t) = t.
Proof.
  rewrite /get_bot_list /bind /get /=.
  by destruct (map_st_row_to_bot (bots t) t) as [[_ [bs [_ ->]]]|[_ ->]].
Qed.
End Table.

(** ** bot-admin *)

Lemma preserves_db {A} (c : St bot_table AtbDb.sqlite_error A) :
  preserves tables_typed c -> preserves admin_typed (BotAdmin.db c).
Proof. intros Hc w Hw. rewrite /BotAdmin.db. specialize (Hc _ Hw). by destruct (c (BotAdmin.table w)). Qed.

Lemma preserves_println {E} l : preserves admin_typed (BotAdmin.println (E := E) l).
Proof. by intros w. Qed.

#[export] Hint Resolve preserves_println : preserve.

(** The option maps of [add] and [update] after [to_flag]. *)
Lemma flag_values_ok o :
  o !! "id" = None -> o !! "registered" = None -> opt_ok (BotAdmin.flag_values o).
Proof.
  intros Hid Hreg k v Hk.
  destruct (decide (k ∈ ["enable"; "long_order"; "short_order"])) as [Hf|Hf].
  - rewrite BotAdmin.flag_values_flag // in Hk. apply fmap_Some in Hk as [v0 [_ ->]].
    apply flag_ok. destruct (String.eqb v0 "true"); auto.
  - rewrite BotAdmin.flag_values_other // in Hk. apply text_ok.
    assert (k <> "id") by (intros ->; congruence).
    assert (k <> "registered") by (intros ->; congruence). set_solver.
Qed.

Lemma insert_must_keys {S E} m keys o (s : S) :
  snd (BotAdmin.insert_must (E := E) m keys o s) = s /\
  forall o', fst (BotAdmin.insert_must (E := E) m keys o s) = Ret o' ->
    (forall k, k ∉ keys -> o' !! k = o !! k) /\ (forall k, k ∈ keys -> is_Some (o' !! k)).
Proof.
  revert o. induction keys as [|k0 ks IH]; intros o.
  { split; [done|]. intros o' [= ->]. split; [done|]. set_solver. }
  rewrite /= /bind /unwrap_option. destruct (BotAdmin.value_of m k0) as [v|]; [|by split].
  destruct (IH (<[k0:=v]> o)) as [Hs Ho]. split; [done|].
  intros o' Hr. destruct (Ho o' Hr) as [Hout Hin]. split.
  - intros k Hk. rewrite Hout ?lookup_insert_ne; set_solver.
  - intros k Hk. destruct (decide (k ∈ ks)) as [Hks|Hks]; [by apply Hin|].
    assert (k = k0) as -> by set_solver. rewrite Hout // lookup_insert_eq. by eexists.
Qed.

(** The keys of bot-admin's [_get_option]: the required ones are there,
    and nothing but the two lists and the two flags. *)
Lemma admin_option_keys {S E} m must optional (s : S) :
  snd (BotAdmin._get_option (E := E) m must optional s) = s /\
  forall o, fst (BotAdmin._get_option (E := E) m must optional s) = Ret o ->
    (forall k, k ∉ must ++ optional ++ ["json"; "yaml"] -> o !! k = None) /\
    (forall k, k ∈ must -> is_Some (o !! k)).
Proof.
  rewrite /BotAdmin._get_option /bind.
  destruct (insert_must_keys (E := E) m must ∅ s) as [Hs Ho].
  destruct (BotAdmin.insert_must m must ∅ s) as [[o0|e|p] s'] eqn:Hm;
    cbn beta iota zeta delta [fst snd] in *; subst; [|by split..].
  unfold ret; cbn beta iota delta [fst snd]. split; [done|]. intros o Hr. injection Hr as <-.
  destruct (Ho o0 eq_refl) as [Hout Hin]. rewrite /BotAdmin.insert_flag. split; intros k Hk.
  - repeat case_match; rewrite ?lookup_insert_ne; try set_solver.
    all: rewrite BotAdmin.foldl_optional_lookup bool_decide_false; [set_solver|].
    all: rewrite Hout; [set_solver|]. all: by rewrite lookup_empty.
  - repeat case_match; rewrite ?lookup_insert_is_Some'; repeat right.
    all: rewrite BotAdmin.foldl_optional_lookup.
    all: case_bool_decide; [destruct (BotAdmin.value_of m k); [by eexists|]|]; by apply Hin.
Qed.

(** No subcommand takes a [registered] option; [add] takes no [id] and
    always has [name] and [description]. *)
Lemma get_config_keys {S E} sc (s : S) :
  snd (BotAdmin.get_config (E := E) sc s) = s /\
  forall cfg, fst (BotAdmin.get_config (E := E) sc s) = Ret cfg ->
    BotAdmin.opts cfg !! "registered" = None /\
    (BotAdmin.command cfg = BotAdmin.Add ->
       BotAdmin.opts cfg !! "id" = None /\ is_Some (BotAdmin.opts cfg !! "name") /\
       is_Some (BotAdmin.opts cfg !! "description")).
Proof.
  destruct sc as [m|m|m|m|m|]; rewrite /BotAdmin.get_config /bind;
    [..|by split; [|intros cfg [= <-]]].
  all: lazymatch goal with
       | |- context [BotAdmin._get_option ?m ?a ?b ?s0] =>
           destruct (admin_option_keys (E := E) m a b s0) as [Hs Ho];
           destruct (BotAdmin._get_option m a b s0) as [[o|e|p] s'] eqn:?
       end; cbn beta iota delta [fst snd] in *; subst; (split; [done|]); intros cfg; try done.
  all: intros Hc; injection Hc as <-; destruct (Ho o eq_refl) as [Hout Hin]; cbn.
  all: split; [apply Hout; set_solver|]; try done.
  intros _. split_and!; [apply Hout; set_solver|apply Hin; set_solver..].
Qed.

Section Admin.
Context {HO : HashOrder}.

#[local] Hint Resolve insert_bot_typed update_bot_typed delete_bot_typed : preserve.

Lemma actual_main_typed {E} cfg :
  BotAdmin.opts cfg !! "registered" = None ->
  (BotAdmin.command cfg = BotAdmin.Add ->
     BotAdmin.opts cfg !! "id" = None /\ is_Some (BotAdmin.opts cfg !! "name") /\
     is_Some (BotAdmin.opts cfg !! "description")) ->
  preserves admin_typed (BotAdmin.actual_main (E := E) cfg).
Proof.
  intros Hreg Hadd. rewrite /BotAdmin.actual_main.
  apply preserves_bind; [apply preserves_to_result|intros r; preserve].
  destruct (BotAdmin.command cfg) eqn:Hc;
    rewrite /BotAdmin._add /BotAdmin._update /BotAdmin._remove /BotAdmin._get /BotAdmin._list;
    preserve.
  - destruct (Hadd eq_refl) as (Hid & Hn & Hde).
    apply preserves_db, insert_bot_typed; [..|by apply flag_values_ok].
    all: rewrite BotAdmin.flag_values_other; [set_solver|done].
  - apply preserves_db, update_bot_typed.
    + rewrite BotAdmin.flag_values_other; [set_solver|]. apply lookup_delete_eq.
    + apply flag_values_ok; [apply lookup_delete_eq|]. by rewrite lookup_delete_ne.
  - apply preserves_db, delete_bot_typed.
  - apply preserves_db, preserves_same, get_bot_state.
  - apply preserves_db, preserves_same, get_bot_list_state.
Qed.

Lemma admin_main_typed c sc : preserves admin_typed (BotAdmin.main c sc).
Proof.
  destruct c as [u|msg]; rewrite /BotAdmin.main; [|preserve].
  intros w Hw. rewrite /bind. destruct (get_config_keys (E := Empty_set) sc w) as [Hs Hk].
  destruct (BotAdmin.get_config sc w) as [[cfg|[]|p] w'] eqn:E; simpl in *; subst; [|done].
  destruct (Hk cfg eq_refl). by apply actual_main_typed.
Qed.
End Admin.

(** ** market-api *)

Lemma bool_field_01 json k v : bool_field json k = Some v -> v = "1" \/ v = "0".
Proof. rewrite /bool_field. repeat case_match; intros; simplify_eq; auto. Qed.

Lemma market_option_ok json o : MarketApi._get_option json = Some o -> opt_ok o.
Proof.
  rewrite /MarketApi._get_option. repeat case_match; intros Ho; simplify_eq.
  all: repeat (apply (map_Forall_insert_2 (fun k v => val_ok k (stored_value k v) = true));
                [first [ apply flag_ok; eapply bool_field_01; eassumption
                       | apply text_ok; apply (bool_decide_unpack _); by vm_compute ]|]).
  all: apply map_Forall_empty.
Qed.

Lemma market_option_names json o :
  MarketApi._get_option json = Some o -> is_Some (o !! "name") /\ is_Some (o !! "description").
Proof.
  rewrite /MarketApi._get_option. repeat case_match; intros Ho; simplify_eq.
  all: rewrite !lookup_insert_is_Some'; auto 10.
Qed.

Lemma web_block_state {S E A} (ok : A -> body) (c : St S E A) s :
  snd (web_block ok c s) = snd (c s).
Proof. rewrite /web_block. by destruct (c s) as [[]]. Qed.

Lemma preserves_handled {S} (P : S -> Prop) c :
  preserves P c -> preserves P (MarketMain.handled c).
Proof. intros Hc s Hs. rewrite /MarketMain.handled. specialize (Hc s Hs). by destruct (c s) as [[r|[]|p]]. Qed.

Lemma preserves_by_method {S} (P : S -> Prop) m want (c : St S Empty_set MarketMain.reply) :
  preserves P c -> preserves P (MarketMain.by_method m want c).
Proof. intros Hc. by destruct m, want; try apply preserves_ret. Qed.

Section Market.
Context {HO : HashOrder}.

Lemma post_bot_typed json : preserves server_typed (MarketApi.post_bot json).
Proof.
  intros s [Hd Hrows]. rewrite /server_typed post_bot_state.
  destruct (MarketApi._get_option json) as [o|] eqn:Ho; [|by rewrite /post_bot_block Ho /=].
  rewrite (post_bot_block_stores json o _ Ho). split; [done|].
  apply Forall_app; split; [done|]. constructor; [|done].
  destruct (market_option_names json o Ho).
  by apply new_row_typed; [exact (market_option_ok json o Ho)|..].
Qed.

Lemma route_typed rq : preserves server_typed (MarketMain.route rq).
Proof.
  rewrite /MarketMain.route.
  repeat case_match; repeat (apply preserves_by_method || apply preserves_handled); preserve.
  - apply preserves_same => sv. rewrite web_block_state. by destruct _get_index.
  - rewrite /post_bot_handler. preserve. apply post_bot_typed.
  - rewrite /MarketApi.get_bot /_get_token. preserve.
    apply preserves_same => sv.
    destruct (web_block _ _ _) as [r t] eqn:E. apply (f_equal snd) in E.
    rewrite web_block_state BotSpec.get_bot_for_api_state in E. simpl in E. by subst t; destruct sv.
  - apply preserves_same => sv. rewrite /get_ohlcv web_block_state. done.
Qed.

Lemma app_step_typed t t' : app_step t t' -> tables_typed t -> tables_typed t'.
Proof. destruct 1; [apply admin_main_typed|apply route_typed]. Qed.

Lemma typed_list t :
  tables_typed t -> exists bl, get_bot_list t = (Ret bl, t) /\ map get_id (bot bl) = ids (bots t).
Proof.
  intros [_ Hrows]. rewrite /get_bot_list /bind /get /=.
  destruct (map_st_row_to_bot (bots t) t) as [[_ [bs [Hids ->]]]|[Hf _]].
  - by exists (mk_bot_list bs).
  - by rewrite (forallb_typed _ Hrows) in Hf.
Qed.

(** C9: the column types are an invariant of the two programs: from a
    table whose rows and column defaults hold values of their columns'
    types, every table reached by any sequence of bot-admin runs and
    market-api requests still does, so bot-admin's [list] reads it
    without panicking, one bot per row in rowid order. *)
Theorem reachable_tables_typed t t' :
  tables_typed t -> rtc app_step t t' ->
  tables_typed t' /\
  exists bl, get_bot_list t' = (Ret bl, t') /\ map get_id (bot bl) = ids (bots t').
Proof.
  intros Ht Hsteps. revert Ht.
  induction Hsteps as [t|t1 t2 t3 Hs _ IH]; intros Ht.
  - split; [done|]. by apply typed_list.
  - exact (IH (app_step_typed _ _ Hs Ht)).
Qed.
End Market.

(** ** Witness *)

(** A schema whose every column but [id] has a default of its type. *)
Definition typed_defaults : gmap string sql_value :=
  list_to_map [("enable", SqlInt 1); ("registered", SqlInt 0); ("token", SqlText "t");
               ("long_order", SqlInt 0); ("short_order", SqlInt 0);
               ("operate_type", SqlText "backtest")].

Definition typed_table : bot_table := mk_bot_table (AtbDb.mk_caps true true) typed_defaults [].

Definition add_flags : BotAdmin.arg_matches :=
  BotAdmin.mk_matches (<["name" := "b"]> (<["description" := "d"]> (<["enable" := "yes"]> ∅))) [].

Lemma reachable_tables_typed_witness :
  tables_typed typed_table /\
  exists bl, @get_bot_list
    (BotAdmin.table (snd (@BotAdmin.main key_order (Ok tt) (BotAdmin.SubAdd add_flags)
                            (BotAdmin.mk_world typed_table []))))
  = (Ret bl, BotAdmin.table (snd (@BotAdmin.main key_order (Ok tt) (BotAdmin.SubAdd add_flags)
                                    (BotAdmin.mk_world typed_table []))))
  /\ map get_id (bot bl) = ids (bots (BotAdmin.table (snd (@BotAdmin.main key_order (Ok tt)
                                   (BotAdmin.SubAdd add_flags) (BotAdmin.mk_world typed_table []))))).
Proof.
  assert (Ht : tables_typed typed_table) by (split; [vm_compute; reflexivity|constructor]).
  split; [exact Ht|].
  exact (proj2 (@reachable_tables_typed key_order typed_table _ Ht
                 (rtc_once _ _ (@admin_step key_order (Ok tt) (BotAdmin.SubAdd add_flags)
                                  (BotAdmin.mk_world typed_table []))))).
Defined.

(** ** What the schema must give *)

Definition add_plain : BotAdmin.arg_matches :=
  BotAdmin.mk_matches (<["name" := "b"]> (<["description" := "d"]> ∅)) [].

(** On a table whose [enable] column has no default ([witness_table]), an
    [add] without [--enable] succeeds and stores [NULL] there; every later
    [list] then panics at [row.get(3).unwrap()]. *)
Example add_without_enable_breaks_list :
  fst (@BotAdmin.main key_order (Ok tt) (BotAdmin.SubAdd add_plain)
         (BotAdmin.mk_world witness_table [])) = Ret 0 /\
  fst (get_bot_list (BotAdmin.table (snd (@BotAdmin.main key_order (Ok tt)
         (BotAdmin.SubAdd add_plain) (BotAdmin.mk_world witness_table []))))) = Abort PanicUnwrapErr.
Proof. vm_compute. split; reflexivity. Qed.

End BotTyped.
