(* ===== verification/Tests.v ===== *)
(** * The test modules of the libraries

    Both libraries carry one [#[test] fn it_works]:
    - read-atb-config (src/app/lib/read-atb-config/src/lib.rs 73-88) loads
      the configuration and, when there is one, prints the [Debug] of its
      three getters, then checks [assert_eq!(2 + 2, 4)];
    - atb-db (src/app/lib/atb-db/src/lib.rs 344-360) connects with
      [AtbDB::connect(None)] and, when that succeeds, prints the [Debug]
      of the watermark query on bitflyer/btcjpy/60, then checks
      [assert_eq!(2 + 2, 3)].

    A test passes when it returns and fails when it panics.  The state is
    the process environment, the [ohlcv] table and the printed lines.  The
    theorems: the read-atb-config test passes exactly when [load_conf] does
    not panic, that is unless [PATH_ATB_CONFIG] names a readable file with
    no YAML document; the atb-db test fails in every environment, on its
    own assertion when nothing panicked before, and leaves the table as it
    was. *)

From Stdlib Require Import ZArith List String Lia.
From S2P Require Import Prelude RustPrim AtbDb Config.
Import ListNotations.
Open Scope Z_scope.

Module Tests.
Import Config.

(** The [println!("{:?}", ..)] lines of the tests. *)
Inductive test_line : Type :=
| DebugStr (o : option string)
| DebugInt (o : option Z)
| DebugUnixtime (r : result Z AtbDb.sqlite_error).

Record test_world : Type := mk_tworld {
  tenv : env;
  tdb : AtbDb.AtbDB;
  tout : list test_line
}.

Definition on_tenv {E A} (c : St env E A) : St test_world E A :=
  fun w => let '(r, e) := c (tenv w) in (r, mk_tworld e (tdb w) (tout w)).

Definition print {E} (l : test_line) : St test_world E unit :=
  modify (fun w => mk_tworld (tenv w) (tdb w) (tout w ++ [l])).

(** [assert_eq!(a, b)]. *)
Definition assert_eq {S E} (a b : Z) : St S E unit :=
  if a =? b then ret tt else abort PanicAssert.

Section Tests.
Context {YL : YamlLoader}.

(** read-atb-config's [it_works]. *)
Definition config_it_works : St test_world Empty_set unit :=
  (c <- on_tenv load_conf ;;
   match c with
   | Some atb_conf =>
       print (DebugStr (get_sqlite3_file atb_conf)) ;;
       print (DebugStr (get_api_host atb_conf)) ;;
       print (DebugInt (get_api_port atb_conf))
   | None => ret tt
   end ;;
   assert_eq (2 + 2) 4)%rust.

(** atb-db's [it_works]. *)
Definition atb_db_it_works : St test_world Empty_set unit :=
  (r <- on_tenv (to_result (connect None)) ;;
   match r with
   | Ok _ =>
       w <- get ;;
       print (DebugUnixtime
                (AtbDb.get_last_unixtime_from_ohlcv (tdb w) "bitflyer" "btcjpy" "60"))
   | Err _ => ret tt
   end ;;
   assert_eq (2 + 2) 3)%rust.

End Tests.

(** ** Theorems *)

Section Theory.
Context {YL : YamlLoader}.

Lemma load_conf_empty_doc {E} e :
  (exists path contents, var e "PATH_ATB_CONFIG" = Some path /\
     read_file e path = Some (Some contents) /\ load_from_str contents = Ok []) ->
  load_conf (E := E) e = (Abort PanicIndex, e).
Proof. intros (path & contents & Hv & Hr & Hl). unfold load_conf; simpl_st. now rewrite Hv, Hr, Hl. Qed.

(** read-atb-config's test passes exactly when [load_conf] does not
    panic: unless [PATH_ATB_CONFIG] names a readable file with no YAML
    document, it prints what it finds (or nothing) and its assertion
    holds. *)
Theorem config_test_passes w :
  fst (config_it_works w) = Ret tt <->
  ~ (exists path contents, var (tenv w) "PATH_ATB_CONFIG" = Some path /\
       read_file (tenv w) path = Some (Some contents) /\ load_from_str contents = Ok []).
Proof.
  split.
  - intros Hp Hx.
    unfold config_it_works, bind at 1, on_tenv in Hp. rewrite (load_conf_empty_doc _ Hx) in Hp.
    discriminate.
  - intros Hn. unfold config_it_works, bind at 1, on_tenv.
    destruct (load_conf_cases (E := Empty_set) (tenv w))
      as [H|[(p & t & docs & y & _ & _ & _ & _ & H)|(p & t & Hv & Hr & Hl & H)]];
      rewrite H; [reflexivity | reflexivity |].
    exfalso. apply Hn. eauto.
Qed.

(** atb-db's test fails in every environment: it panics, on its
    [assert_eq!(2 + 2, 3)] unless [load_conf] panicked first, and the
    [ohlcv] table is left as it was. *)
Theorem atb_db_test_fails w :
  exists p w', atb_db_it_works w = (Abort p, w') /\ tdb w' = tdb w /\
    (p = PanicAssert \/ p = PanicIndex).
Proof.
  unfold atb_db_it_works, bind at 1, on_tenv, to_result.
  destruct (connect None (tenv w)) as [[u|msg|p] e'] eqn:Hc.
  - do 2 eexists. split; [reflexivity|]. split; [reflexivity | now left].
  - do 2 eexists. split; [reflexivity|]. split; [reflexivity | now left].
  - do 2 eexists. split; [reflexivity|]. split; [reflexivity | right].
    revert Hc. unfold connect. simpl_st.
    destruct (load_conf_cases (E := string) (tenv w))
      as [H|[(pa & t & docs & y & _ & _ & _ & _ & H)|(pa & t & _ & _ & _ & H)]];
      rewrite H; simpl_st; try discriminate.
    + destruct (get_sqlite3_file _); [destruct (pool_new _ _)|]; simpl_st; discriminate.
    + congruence.
Qed.

End Theory.

End Tests.
